(* ===== verification/_CoqProject ===== *)
-Q . S2P
Prelude.v
GoStrings.v
Passwords.v
Snowflake.v
GoOs.v
SubmitTypes.v
SubmitBuffer.v
SubmitSpool.v
Digest.v
Utf8.v
SchedClient.v
SchedClientProofs.v
Delivery.v
WorkerSession.v
WorkerSessionProofs.v
GoFloat.v
Metrics.v
MetricsConcurrent.v
Alert.v
AlertProofs.v
Watch.v
GoTime.v
Traffic.v
TrafficProofs.v
TrafficDump.v
TrafficFlow.v
Gopool.v
GopoolList.v
Base64.v
Encrypt.v
EncryptProofs.v
ConfigLoader.v
ConfigProofs.v
ConfigShare.v
ConfigConcurrent.v
RedisLock.v
Timer.v
TimerLoop.v
Health.v
Release.v
Sharding.v
Dispatch.v
TcpContext.v
WorkerPool.v
Sanitize.v
Logging.v
Attributes.v
PromExport.v
StringsX.v
ParseFloat.v
OldHashes.v
Timex.v
TimeParse.v
RandId.v
Cache.v
Upload.v
UploadPlatforms.v
Tracing.v
Spans.v
Util.v
Trans.v
Cdn.v
ConfigSource.v
Smoke.v
Hlog.v
DefaultLogger.v
DingTalk.v
Rollout.v
RedisHealth.v
SecretTools.v
AlertStore.v
HttpTool.v
Codecs.v
TraceLegacy.v
AlertPipeline.v
