(* ===== verification/Prelude.v ===== *)
(** * The compkg service toolkit: models and proofs

    compkg is a Go toolkit for IoT services.  This development models the parts of it that keep
    state or make decisions, and proves what they promise.  Paths below are under src/pkg.

    ** The parts and how they interact

    - scheduler: the SDK of a job scheduler.  A [Client] submits tasks over gRPC; a task that
      cannot be sent goes to a queue in memory, then to a spool of files, and a background loop
      replays both.  On the same connection a worker receives dispatches, runs handlers under a
      concurrency limit, acknowledges and reports, and reconnects with a growing delay.
    - metrics and alert: counters, gauges, histograms and rates are snapshot periodically; the
      alert engine evaluates its rules on every snapshot.
    - traffic: bytes per device are counted in memory, flushed into Redis hashes per hour, and
      finished hours are dumped into a table.
    - gopool: a pool of goroutines that take tasks from a shared queue.
    - encrypt and config: secrets in configuration values, and the loader that merges, expands,
      decrypts, validates and reloads a configuration, which its Nacos source fetches and watches.
    - redis_lock, timer: locks on Redis keys that expire, and periodic tasks that may ask for one.
    - health, buildinfo, cmd/release_check: heartbeats with a build fingerprint, and the check
      that a release has reached the live instances.
    - dispatch, sharding: to which node a device's instruction goes, and into which table a
      request record.  worker_pool: jobs over channels.
    - logger, zap, trace: structured logging with masking and sampling, the span contexts of TCP
      sessions, and what spans may show.
    - cache, upload, miniox, cdn: wrappers of Redis, of object stores and of a CDN.
    - compression, serialization, httptool, tracelegacy: codecs, an HTTP client, records.
    - util, stringsx, timex, trans, secret: conversions.

    ** Files

    - Prelude: machine integers ([i64], [i32], [u32] written out over [Z]), durations, errors
      ([goerr], [errors_Is]), panics ([gores]), a state monad, list lemmas, tactics, hints.
    - GoStrings, Digest, Base64, GoFloat, GoOs: the parts of the standard library the code uses:
      byte strings and decimal numbers; hexadecimal, SHA-256, HMAC and CRC-32; base64; IEEE
      doubles; a directory of files whose operations fail as a list of faults says.
    - SubmitTypes, SubmitBuffer, SubmitSpool (scheduler/config.go, submit_buffer.go,
      submit_spool.go): configuration, the memory queue, the disk spool.  [SpoolCodec] is the
      interface of encoding/json: a written record reads back.
    - SchedClient, SchedClientProofs (client.go, submit.go, submit_buffer.go, errors.go,
      signature.go): the client over a [Platform] (server answers, clock, random bytes, and the
      tasks other goroutines enqueue meanwhile).  Delivery puts client, queue and spool through a
      whole life of submissions, wake-ups, stops and restarts.
    - WorkerSession, WorkerSessionProofs (stream.go, executor.go, handler.go): receive loop,
      sender, heartbeat and handlers of successive sessions as one event machine [wstep]; every
      choice of a select and every turn of a goroutine is an event.
    - Metrics (metrics/*.go), Alert, AlertProofs (alert/*.go, alert/provider/provider.go): the
      four metrics, the registry, the rule engine, the configuration provider.  AlertStore
      (alertstore/store.go): the table of alerts, over [AlertTable], behind the engine.  Watch:
      the registry's snapshots delivered to an engine.  AlertPipeline: engine, provider, DingTalk
      notifiers and store as one service.  MetricsConcurrent: the loops of a gauge and a
      collection as atomic steps beside a program that goes on counting.
    - Traffic, TrafficProofs, TrafficDump (traffic/*.go): the flusher as a step machine [tstep]
      that callers and other services interleave with, and the dump under arbitrary answers.
      [RedisHash] and [TrafficTable] are the interfaces of Redis and of the table.  TrafficFlow
      follows bytes through all of it.
    - Gopool (gopool/*.go): [CtxGo] and [worker.run] as small steps of concurrent callers and
      workers over a list of tasks.  GopoolList: that list as linked task objects which all pools
      share through a [sync.Pool], as a store of nodes.
    - Encrypt, EncryptProofs, SecretTools (encrypt/*.go, cmd): modes and paddings over the AES
      permutation ([AesBlock]) and GCM sealing ([Gcm]), ENC(...) values, trees of settings,
      structs by reflection, digests, the encryption command.  Passwords (password.go): hashing
      over [Bcrypt].
    - ConfigLoader, ConfigProofs (config/loader.go, options.go): the loader over a [Viper], its
      listeners, typed getters and feature flags.  ConfigConcurrent: overlapping callbacks of
      the remote source, statement by statement.  ConfigShare (loader.go): the deep copy
      [AllSettings] over a store of maps and slices, and the other readers.  ConfigSource
      (config/source/nacos, metrics.go, schema.go): the Nacos source, the counters, schemas and
      the text of a failed validation.  Smoke (source/nacos/smoke): the program that tries both.
    - RedisLock, RandId (redis_lock/*.go, timer/uniquer): locks and limits on a server of expiring
      keys that may lose replies, and the random ids.  Timer (timer/timer.go): the task table,
      over the interface [UniqueLimitFunc] that RedisLock implements.  TimerLoop: its loop, and
      histories of calls and ticks.  Snowflake (snow_node): ids over [Snowflake].
    - Health (health/health.go), Rollout (buildinfo, health/redishealth/start.go), Release
      (cmd/release_check): the heartbeat over [HealthStore], its start with the build's
      fingerprint, and the check; Rollout composes the three.  RedisHealth
      (health/redishealth/store.go): [HealthStore] by a [RedisClient], to which ranges are texts.
    - Sharding (sharding), Dispatch (dispatch/router.go), WorkerPool (worker_pool), TcpContext
      (trace/tcp_context.go): one file each.
    - Sanitize, Logging, Hlog (logger/*.go, zap/*.go): masking rules and sampler; levels,
      entries over slices that share arrays, and the driver; the two bridges from Hertz.
      DefaultLogger (default.go, logger.go): the interface, its local implementation, and the
      package's functions over it.
    - Attributes, Tracing, Spans (trace/*.go): attributes and propagation; the start of the SDK,
      span names and the Redis hook; spans, the bridge to the logger, and a trace under way
      through messages and TCP sessions, over [Otel].
    - PromExport (metrics/prometheus_exporter.go), DingTalk (alert/notifier): where snapshots and
      alerts go, over [PromRegistry] and a network.
    - Cache (cache/*.go), Upload, UploadPlatforms (upload, miniox, util/md5.go), Cdn (cdn/cdn.go):
      the wrappers, over [RedisServer], [Bucket] and a network; UploadPlatforms has the interface
      [Oss] with its six implementations, their clients and the registry.
    - HttpTool (httptool), Codecs (compression, serialization), TraceLegacy (tracelegacy): the
      four requests over [Network], the codecs over their libraries, the old records.
    - StringsX, ParseFloat, Timex, TimeParse, Util, Trans (stringsx, timex, util, secret, trans):
      conversions; ParseFloat has strconv's reading of a float, TimeParse the functions that read
      a time by a layout.
    - Utf8, OldHashes, GoTime: runes, MD5 and SHA-1, and the calendar, zones and layouts of
      package time, for the files above.

    A record models a struct, with its fields' names; a definition models the function whose name
    it bears, with a prefix where two have the same.  A loop of a goroutine is a step function
    on events, so that a theorem about all event lists covers every interleaving.

    ** What is shown

    - Scheduler: over any life of the service on a sound disk, one action after another, every
      task stored is accounted for ([delivery_accounts]), and the backlog clears when the server
      answers ([backlog_clears]); a replay round takes off the queue exactly the tasks answered for
      good and keeps the order, and loses tasks only when arrivals during it overfill the queue
      ([flush_round], [put_back_drops], [spool_round]); what is enqueued lands in memory or on disk
      or is reported
      ([enqueue_contract], [buffer_fifo], [push_contract], [drain_fifo]); a spool recovers its
      queue after any history of faults ([spool_crash_recovery]).
    - Worker: acknowledgements, concurrency and results match the dispatches over any schedule
      ([worker_accounting]); cancellation reaches its run; the handlers of a
      session that is over all end and free their slots ([report_after_session_proceeds]); reconnection delays are bounded; and two races that do go wrong.
    - Metrics and alerts: no count of a name used for one kind of metric is lost, a collection at
      once or metric by metric
      ([counter_conservation], [collection_under_load]), a gauge's loops are atomic and end
      ([gauge_calls_atomic]), histograms never panic, alerts respect the cooldown
      ([cooldown_respected]), an increment leads to an alert ([increments_alerted]), the table has
      their history ([alert_history]), new settings of the provider take effect on the running
      service ([settings_take_effect]), which does what the engine promises
      ([pipeline_refines]); and the rules that can never fire.
    - Traffic: bytes are conserved over any interleaving, those of a pipeline whose reply is lost
      counted twice ([traffic_conservation]), and reach the table under the conditions
      [bytes_reach_table] names, the dump loses nothing ([dump_never_loses]) and reports what the
      hash holds ([records_report_hash]).
    - Goroutine pool: no task is lost or run twice ([no_task_lost]), the pool drains
      ([pool_drains]), and its linked queue is that list ([linked_queue_fifo]).
    - Secrets and configuration: round trips of AES and ENC values, decryption of a tree
      ([normalize_decrypts]) and of structs ([decrypt_struct_all]), the command's output is its
      input again ([command_roundtrip]), the configuration in force is always a validated one
      ([config_always_valid]), however callbacks overlap ([concurrent_settings]), listeners fire
      exactly for reloadable changes ([fire_diff_exact]), expansion reads only the whitelist,
      nothing a reader does with its copy reaches the loader
      ([settings_isolated]), feature flags follow their rollout; a partial fetch gives what the
      server has ([fetch_partial]), and the smoke program tells ([smoke_tells]).
    - Coordination: a lock has one holder ([lock_mutual_exclusion]), due tasks fire once
      ([iterate_fires_due]) and none is late by more than its period or five seconds
      ([lateness_bounded]), jobs run once ([every_job_once]), the live instances are those whose
      last beat to reach the store is recent and that no stop removed ([alive_is_recent_beat]), a release is seen when it is there
      ([rollout_detected], [release_verdict]), a load answers as the last save
      ([load_answers_last_save]), devices and records go where they should
      ([routed_to_first_alive], [routed_table_listed]).
    - Observability: a trace keeps its id through spans, messages and TCP sessions into the log
      ([trace_follows]), what a log call writes and masks ([entry_logs_chain],
      [program_log], [replace_all_leftmost]), what a span shows ([attributes_cleaned]), when tracing is on
      ([tracing_enabled]), that no increment is lost on the way to Prometheus
      ([exported_increments]), when an alert is posted ([dingtalk_send]).
    - Wrappers and conversions: two prefixes do not meet ([prefixes_isolate]), a link leads back
      to its object ([link_leads_back]; on every platform but Tencent's its deletion does,
      [registered_link_deletes]), the CDN's errors are told apart ([sign_errors]), the
      charge of a device is the exact one ([charge_in_steps]), names, numbers and dates convert
      as they say ([camel_snake_roundtrip], [decimalToAny_value], [day_bounds],
      [dates_between_exact], [format_read_back]), random ids take every letter
      drawn ([randn_takes_letters]).
    - Where the code does not do what it means to, the lemma or example that shows it stands
      beside the model: two entries that overwrite each other, samples counted for lines that are
      not written, stream uploads whose links lead nowhere, and more.

    ** Bounds

    Loops are structural or consume a list of events, except: [utoa] (one more than the binary
    logarithm bounds the decimal digits), the expansion of placeholders and the trimming of
    spaces (the length of the string, of which each round consumes a byte), the halvings of a
    search (the length of the array), the digits of a number
    in a base (64 rounds), the days of an interval (their number), [randn_loop] (ten indices for
    each letter), [cloneValue] (the depth of the settings) and [follow] (the number of task
    objects).  Theorems that need numbers not to overflow say so: sequence numbers below
    2^63, fewer than 2^31 steps of a pool, byte totals below 2^63.

    ** Not modelled

    Generated protocol code; the internals of gRPC, Redis, databases, Viper, YAML, JSON, zap,
    OpenTelemetry, Prometheus and the vendors' SDKs, which are interfaces with the laws the code
    relies on, each with a concrete instance on which the theorems are exercised; so are the
    parsing of URLs, the network interfaces and the source of UUIDs.  Glue without a decision of
    its own: the gRPC handlers of OpenTelemetry, constructors that fill a struct.  The memory
    model of Go: unsynchronised accesses, such as a metric's tags written while they are read,
    are not steps of any machine here. *)
From stdpp Require Import prelude gmap strings list sorting.
From Stdlib Require Import ZArith Lia.

#[global] Open Scope Z_scope.

(** ** Machine integers

    Go's [int], [int64] and [time.Duration] are 64-bit two's complement, [int32] and
    [uint32] 32-bit; they are kept as [Z] with the wrap-around written out. *)

Definition wrap_s (w x : Z) : Z := (x + 2 ^ (w - 1)) mod 2 ^ w - 2 ^ (w - 1).
Definition i64 (x : Z) : Z := wrap_s 64 x.
Definition i32 (x : Z) : Z := wrap_s 32 x.
Definition u32 (x : Z) : Z := x mod 2 ^ 32.

Definition in_i64 (x : Z) : Prop := - 2 ^ 63 <= x < 2 ^ 63.
Definition in_i32 (x : Z) : Prop := - 2 ^ 31 <= x < 2 ^ 31.
#[global] Instance in_i64_dec x : Decision (in_i64 x).
Proof. unfold in_i64. apply _. Defined.

Lemma i64_id x : in_i64 x → i64 x = x.
Proof.
  unfold in_i64, i64, wrap_s. intros H.
  change (2 ^ (64 - 1)) with (2 ^ 63). rewrite Z.mod_small; lia.
Qed.

Lemma i64_range x : in_i64 (i64 x).
Proof.
  unfold in_i64, i64, wrap_s. change (2 ^ (64 - 1)) with (2 ^ 63).
  pose proof (Z.mod_pos_bound (x + 2 ^ 63) (2 ^ 64)) as H. lia.
Qed.

Lemma i32_id x : in_i32 x → i32 x = x.
Proof.
  unfold in_i32, i32, wrap_s. intros H.
  change (2 ^ (32 - 1)) with (2 ^ 31). rewrite Z.mod_small; lia.
Qed.
Lemma i64_mod x : i64 x mod 2 ^ 64 = x mod 2 ^ 64.
Proof.
  unfold i64, wrap_s. rewrite Zminus_mod_idemp_l. f_equal. lia.
Qed.
(** Two 64-bit values agreeing modulo [2^64] are equal: sums may be computed in any
    order and wrapped once. *)
Lemma i64_eq x y : x mod 2 ^ 64 = y mod 2 ^ 64 → i64 x = i64 y.
Proof.
  unfold i64, wrap_s. intros H. f_equal.
  rewrite <- (Zplus_mod_idemp_l x), <- (Zplus_mod_idemp_l y), H. done.
Qed.
Lemma i64_add_l x y : i64 (i64 x + y) = i64 (x + y).
Proof.
  apply i64_eq. rewrite <- Zplus_mod_idemp_l, i64_mod, Zplus_mod_idemp_l. done.
Qed.
Lemma i64_add_r x y : i64 (x + i64 y) = i64 (x + y).
Proof. rewrite Z.add_comm, i64_add_l, Z.add_comm. done. Qed.

(** ** Durations (nanoseconds) *)
Definition Millisecond : Z := 1000000.
Definition Second : Z := 1000 * Millisecond.
Definition Minute : Z := 60 * Second.
Definition Hour : Z := 60 * Minute.

(** [t.Sub(u)] of two instants in nanoseconds saturates. *)
Definition time_Sub (t u : Z) : Z := Z.max (- 2 ^ 63) (Z.min (2 ^ 63 - 1) (t - u)).
Lemma time_Sub_id t u : in_i64 (t - u) → time_Sub t u = t - u.
Proof. unfold time_Sub, in_i64. lia. Qed.

(** ** Go errors

    A sentinel is a package-level [errors.New] value, compared by identity and so named
    by its variable; [ErrWrap] is [fmt.Errorf("...: %w", ..., e)]; [ErrExt] is an error
    made by code outside the repository. *)
Inductive goerr :=
  | ErrSentinel (name : string)
  | ErrNew (msg : string)
  | ErrWrap (msg : string) (e : goerr)
  | ErrExt (tag : string).
#[global] Instance goerr_eq_dec : EqDecision goerr.
Proof. solve_decision. Defined.

(** [errors.Is err target]: some error of the unwrap chain is the target. *)
Fixpoint errors_Is (e target : goerr) : bool :=
  bool_decide (e = target) ||
  match e with ErrWrap _ e' => errors_Is e' target | _ => false end.

Definition context_Canceled : goerr := ErrSentinel "context canceled".
Definition context_DeadlineExceeded : goerr := ErrSentinel "context deadline exceeded".

(** A computation that may panic: a normal result or the panic value. *)
Inductive gores (A : Type) := Ret (a : A) | Panic (msg : string).
#[global] Arguments Ret {A} a.
#[global] Arguments Panic {A} msg.

(** ** A state monad for code that threads an environment *)
Definition State (S A : Type) : Type := S → A * S.
#[global] Instance State_ret {S} : MRet (State S) := λ A a s, (a, s).
#[global] Instance State_bind {S} : MBind (State S) :=
  λ A B f m s, let r := m s in f r.1 r.2.
Definition gets {S A} (f : S → A) : State S A := λ s, (f s, s).
Definition modify {S} (f : S → S) : State S unit := λ s, (tt, f s).

Lemma State_bind_run {S A B} (m : State S A) (f : A → State S B) s a s' :
  m s = (a, s') → (m ≫= f) s = f a s'.
Proof. intros H. unfold mbind, State_bind. by rewrite H. Qed.

(** Run a [State] computation one bind at a time. *)
Ltac run_st := unfold mbind, State_bind, mret, State_ret, gets, modify; cbn [fst snd].
Ltac run_st_in H :=
  unfold mbind, State_bind, mret, State_ret, gets, modify in H; cbn [fst snd] in H.

(** ** Sums over lists *)
Fixpoint zsum (l : list Z) : Z :=
  match l with [] => 0 | x :: l => x + zsum l end.

Section zsum.
Implicit Types l : list Z.
Lemma zsum_app l1 l2 : zsum (l1 ++ l2) = zsum l1 + zsum l2.
Proof. induction l1; simpl; lia. Qed.
Lemma zsum_nonneg l : Forall (λ x, 0 <= x) l → 0 <= zsum l.
Proof. induction 1; simpl; lia. Qed.
#[global] Instance zsum_perm : Proper ((≡ₚ) ==> eq) zsum.
Proof. induction 1; simpl; lia. Qed.
Lemma zsum_elem_le l x : Forall (λ x, 0 <= x) l → x ∈ l → x <= zsum l.
Proof.
  intros Hl. revert x. induction Hl as [|y l Hy Hl IH]; intros x Hx; [by inversion Hx|].
  simpl. apply elem_of_cons in Hx as [->|Hx].
  - pose proof (zsum_nonneg _ Hl). lia.
  - specialize (IH _ Hx). lia.
Qed.
End zsum.

(** ** Slices *)

(** The last [n] elements, [s[len(s)-n:]]. *)
Definition lastn {A} (n : nat) (l : list A) : list A := drop (length l - n) l.

Lemma length_lastn {A} n (l : list A) : length (lastn n l) = (n `min` length l)%nat.
Proof. unfold lastn. rewrite length_drop. lia. Qed.
Lemma lastn_all {A} n (l : list A) : (length l ≤ n)%nat → lastn n l = l.
Proof. intros. unfold lastn. replace (length l - n)%nat with 0%nat by lia. done. Qed.
Lemma lastn_suffix {A} n (l : list A) : lastn n l `suffix_of` l.
Proof. exists (take (length l - n) l). symmetry. apply take_drop. Qed.

Lemma elem_of_drop_1 {A} n (l : list A) x : x ∈ drop n l → x ∈ l.
Proof. intros H. rewrite <- (take_drop n l). apply elem_of_app. by right. Qed.
Lemma take_drop_disjoint {A} (l : list A) k x : NoDup l → x ∈ take k l → x ∉ drop k l.
Proof.
  intros Hnd H1 H2. rewrite <- (take_drop k l) in Hnd.
  apply NoDup_app in Hnd as (_ & Hd & _). by apply (Hd x).
Qed.

Lemma list_filter_all {A} (P : A → Prop) `{∀ x, Decision (P x)} l :
  Forall P l → filter P l = l.
Proof. induction 1 as [|x l Hx Hl IH]; [done|]. by rewrite filter_cons_True, IH. Qed.

Lemma StronglySorted_impl {A} (R R' : relation A) l :
  (∀ x y, R x y → R' x y) → StronglySorted R l → StronglySorted R' l.
Proof.
  intros H. induction 1; constructor; [done|]. eapply Forall_impl; eauto.
Qed.

(** ** Tactics *)

(** Case analysis on the boolean tests and [match]es of an unfolded definition. *)
Ltac case_bool :=
  match goal with
  | |- context [bool_decide ?P] => case_bool_decide
  | H : context [bool_decide ?P] |- _ => case_bool_decide
  | |- context [Z.leb ?a ?b] => destruct (Z.leb_spec a b)
  | |- context [Z.ltb ?a ?b] => destruct (Z.ltb_spec a b)
  | |- context [Z.eqb ?a ?b] => destruct (Z.eqb_spec a b)
  | H : context [Z.leb ?a ?b] |- _ => destruct (Z.leb_spec a b)
  | H : context [Z.ltb ?a ?b] |- _ => destruct (Z.ltb_spec a b)
  | H : context [Z.eqb ?a ?b] |- _ => destruct (Z.eqb_spec a b)
  end.
Ltac deex :=
  repeat match goal with
         | H : ∃ x, _ |- _ => let y := fresh x in destruct H as [y H]
         | H : _ ∧ _ |- _ => destruct H
         end.
(** Linear arithmetic with [/] and [mod]. *)
Ltac dlia := Z.to_euclidean_division_equations; lia.
(** Reduce [i64]/[i32] wraps whose argument is in range. *)
Ltac no_wrap :=
  repeat (rewrite i64_id by (unfold in_i64 in *; lia));
  repeat (rewrite i32_id by (unfold in_i32 in *; lia)).

Create HintDb go.
Create Rewrite HintDb go.
#[export] Hint Resolve i64_range : go.
#[export] Hint Rewrite @zsum_app @length_lastn : go.

(** [len(s)] as a Go [int]. *)
Definition zlen {A} (l : list A) : Z := Z.of_nat (length l).
Lemma zlen_app {A} (l1 l2 : list A) : zlen (l1 ++ l2) = zlen l1 + zlen l2.
Proof. unfold zlen. rewrite length_app. lia. Qed.
Lemma zlen_nonneg {A} (l : list A) : 0 <= zlen l.
Proof. unfold zlen. lia. Qed.
Lemma zlen_cons {A} (x : A) l : zlen (x :: l) = 1 + zlen l.
Proof. unfold zlen. simpl. lia. Qed.
#[export] Hint Rewrite @zlen_app @zlen_cons : go.
#[export] Hint Resolve zlen_nonneg : go.

Lemma zlen_delete {A} (l : list A) i x : l !! i = Some x → zlen (delete i l) = zlen l - 1.
Proof.
  intros Hi. unfold zlen. rewrite length_delete by done. apply lookup_lt_Some in Hi. lia.
Qed.
Lemma zsum_insert {A} (f : A → Z) l i x y :
  l !! i = Some x → zsum (map f (<[i := y]> l)) = zsum (map f l) - f x + f y.
Proof.
  intros Hi. rewrite <- (take_drop_middle l i x) at 2 by done.
  rewrite insert_take_drop by (by eapply lookup_lt_Some). rewrite !map_app, !zsum_app. cbn. lia.
Qed.
Lemma zsum_delete {A} (f : A → Z) l i x :
  l !! i = Some x → zsum (map f (delete i l)) = zsum (map f l) - f x.
Proof.
  intros Hi. rewrite <- (take_drop_middle l i x) at 2 by done.
  rewrite delete_take_drop, !map_app, !zsum_app. cbn. lia.
Qed.

(** ** [omap] *)
Lemma length_omap_le {A B} (f : A → option B) l : (length (omap f l) ≤ length l)%nat.
Proof. induction l as [|x l IH]; csimpl; [done|]. destruct (f x); csimpl; lia. Qed.
Lemma omap_none {A B} (f : A → option B) l : (∀ x, x ∈ l → f x = None) → omap f l = [].
Proof.
  induction l as [|x l IH]; intros Hf; csimpl; [done|]. rewrite Hf by constructor.
  apply IH. intros y Hy. apply Hf. by constructor.
Qed.
Lemma omap_insert {A B} (f : A → option B) l i x y :
  l !! i = Some x → omap f [x] ++ omap f (<[i := y]> l) ≡ₚ omap f [y] ++ omap f l.
Proof.
  intros Hi. rewrite <- (take_drop_middle l i x) at 2 by done.
  rewrite insert_take_drop by (by eapply lookup_lt_Some).
  rewrite !omap_app. change (x :: drop (S i) l) with ([x] ++ drop (S i) l).
  change (y :: drop (S i) l) with ([y] ++ drop (S i) l). rewrite !omap_app. solve_Permutation.
Qed.

(** The bound [if max <= 0 || max > len(s) { max = len(s) }] both queues use. *)
Definition clamp_max (max len : Z) : Z := if (max <=? 0) || (len <? max) then len else max.
Lemma clamp_max_bounds max len : 0 <= len → 0 <= clamp_max max len <= len.
Proof. unfold clamp_max. intros. repeat case_bool; simpl; lia. Qed.
