(* ===== verification/GoStrings.v ===== *)
(** Go's strings and strconv, as far as the repository uses them.  A Go string is a
    sequence of bytes, a Rocq [string] of 8-bit [ascii] characters. *)
From stdpp Require Import prelude strings list.
From Stdlib Require Import ZArith Lia Ascii.
From S2P Require Import Prelude.

Declare Scope go_scope.
Delimit Scope go_scope with go.
Notation "s1 +++ s2" := (String.append s1 s2) (at level 60, right associativity) : go_scope.
#[global] Open Scope go_scope.
#[global] Arguments String.append : simpl nomatch.

Definition slen (s : string) : Z := Z.of_nat (String.length s).
Definition byte_of (c : ascii) : Z := Z.of_nat (nat_of_ascii c).

(** ** Append *)
Lemma app_str_assoc s1 s2 s3 : (s1 +++ s2) +++ s3 = s1 +++ (s2 +++ s3).
Proof. induction s1; simpl; congruence. Qed.
Lemma app_str_nil_r s : s +++ "" = s.
Proof. induction s; simpl; congruence. Qed.
Lemma length_app_str s1 s2 :
  String.length (s1 +++ s2) = (String.length s1 + String.length s2)%nat.
Proof. induction s1; simpl; congruence. Qed.
Lemma app_str_inj_l s s1 s2 : s +++ s1 = s +++ s2 → s1 = s2.
Proof. induction s; simpl; intros H; [done|]. injection H. auto. Qed.
Lemma app_str_inj_len s1 t1 s2 t2 :
  String.length s1 = String.length t1 → s1 +++ s2 = t1 +++ t2 → s1 = t1 ∧ s2 = t2.
Proof.
  revert t1. induction s1 as [|c s1 IH]; intros [|d t1]; simpl; intros Hl H; try done.
  injection H as -> H. apply IH in H as [-> ->]; [done|lia].
Qed.
Lemma app_str_inj_r s1 s2 s : s1 +++ s = s2 +++ s → s1 = s2.
Proof.
  intros H. assert (String.length s1 = String.length s2) as Hl.
  { apply (f_equal String.length) in H. rewrite !length_app_str in H. lia. }
  by apply app_str_inj_len in H as [-> _].
Qed.
Lemma app_str_inj_suffix s1 t1 s2 t2 :
  String.length s2 = String.length t2 → s1 +++ s2 = t1 +++ t2 → s1 = t1 ∧ s2 = t2.
Proof.
  intros Hl H. apply app_str_inj_len; [|done].
  apply (f_equal String.length) in H. rewrite !length_app_str in H. lia.
Qed.
Lemma slen_nonneg s : 0 <= slen s.
Proof. unfold slen. lia. Qed.

(** ** Prefixes and suffixes: [strings.HasPrefix], [TrimPrefix], [HasSuffix], [TrimSuffix] *)
Fixpoint str_drop (n : nat) (s : string) : string :=
  match n, s with
  | O, _ => s
  | S n, String _ s => str_drop n s
  | S _, EmptyString => EmptyString
  end.
Fixpoint str_take (n : nat) (s : string) : string :=
  match n, s with
  | S n, String c s => String c (str_take n s)
  | _, _ => EmptyString
  end.
Fixpoint has_prefix (s p : string) {struct p} : bool :=
  match p, s with
  | EmptyString, _ => true
  | String c p, String d s => Ascii.eqb c d && has_prefix s p
  | _, _ => false
  end.
Definition trim_prefix (s p : string) : string :=
  if has_prefix s p then str_drop (String.length p) s else s.
Definition has_suffix (s p : string) : bool :=
  (String.length p <=? String.length s)%nat &&
  String.eqb (str_drop (String.length s - String.length p) s) p.
Definition trim_suffix (s p : string) : string :=
  if has_suffix s p then str_take (String.length s - String.length p) s else s.

Lemma str_drop_app s1 s2 : str_drop (String.length s1) (s1 +++ s2) = s2.
Proof. induction s1; simpl; done. Qed.
Lemma str_take_app s1 s2 : str_take (String.length s1) (s1 +++ s2) = s1.
Proof. induction s1; simpl; [by destruct s2|congruence]. Qed.
Lemma str_take_drop n s : str_take n s +++ str_drop n s = s.
Proof. revert s. induction n; intros [|c s]; simpl; try done. by rewrite IHn. Qed.
Lemma length_str_drop n s : String.length (str_drop n s) = (String.length s - n)%nat.
Proof. revert s. induction n; intros [|c s]; simpl; auto with lia. Qed.
Lemma length_str_take n s : (n ≤ String.length s)%nat → String.length (str_take n s) = n.
Proof.
  intros Hn. pose proof (str_take_drop n s) as E. apply (f_equal String.length) in E.
  rewrite length_app_str, length_str_drop in E. lia.
Qed.

Lemma has_prefix_spec s p : has_prefix s p = true ↔ ∃ t, s = p +++ t.
Proof.
  revert s. induction p as [|c p IH]; intros s; simpl.
  - split; [by exists s|by intros].
  - destruct s as [|d s]; simpl; [split; [by intros|by intros [t ?]]|].
    rewrite andb_true_iff, IH, Ascii.eqb_eq. split.
    + intros [-> [t ->]]. by exists t.
    + intros [t [= -> ->]]. eauto.
Qed.
Lemma has_prefix_app p s : has_prefix (p +++ s) p = true.
Proof. apply has_prefix_spec. by exists s. Qed.
Lemma has_suffix_spec s p : has_suffix s p = true ↔ ∃ t, s = t +++ p.
Proof.
  unfold has_suffix. rewrite andb_true_iff, Nat.leb_le, String.eqb_eq. split.
  - intros [Hl H]. exists (str_take (String.length s - String.length p) s).
    rewrite <- H at 2. symmetry. apply str_take_drop.
  - intros [t ->]. rewrite length_app_str. split; [lia|].
    replace (String.length t + String.length p - String.length p)%nat
      with (String.length t) by lia. apply str_drop_app.
Qed.
Lemma has_suffix_app s p : has_suffix (s +++ p) p = true.
Proof. apply has_suffix_spec. by exists s. Qed.
Lemma trim_suffix_app s p : trim_suffix (s +++ p) p = s.
Proof.
  unfold trim_suffix. rewrite has_suffix_app, length_app_str.
  replace (String.length s + String.length p - String.length p)%nat
    with (String.length s) by lia. apply str_take_app.
Qed.
Lemma trim_prefix_app p s : trim_prefix (p +++ s) p = s.
Proof. unfold trim_prefix. rewrite has_prefix_app. apply str_drop_app. Qed.
#[export] Hint Rewrite has_prefix_app has_suffix_app trim_suffix_app trim_prefix_app
  length_app_str app_str_nil_r : go.

(** ** Decimal numbers: [strconv.FormatInt], [strconv.ParseInt(s, 10, 64)], ["%0wd"] *)
Definition digit (d : Z) : ascii := ascii_of_nat (48 + Z.to_nat d).
Definition is_digit (c : ascii) : bool := (48 <=? byte_of c) && (byte_of c <=? 57).
Definition digit_val (c : ascii) : Z := byte_of c - 48.

Fixpoint itoa_aux (fuel : nat) (n : Z) (acc : string) : string :=
  match fuel with
  | O => acc
  | S f =>
      let acc := String (digit (n mod 10)) acc in
      if n / 10 =? 0 then acc else itoa_aux f (n / 10) acc
  end.
(** [log2 n + 1] binary digits bound the decimal ones. *)
Definition utoa (n : Z) : string := itoa_aux (S (Z.to_nat (Z.log2 n))) n "".
Definition FormatInt (z : Z) : string :=
  if z <? 0 then "-" +++ utoa (- z) else utoa z.

Fixpoint parse_digits (s : string) (acc : Z) : option Z :=
  match s with
  | EmptyString => Some acc
  | String c s => if is_digit c then parse_digits s (acc * 10 + digit_val c) else None
  end.
Definition parse_uint (s : string) : option Z :=
  match s with EmptyString => None | _ => parse_digits s 0 end.
Definition ParseInt (s : string) : option Z :=
  let r := match s with
           | String c t =>
               if Ascii.eqb c "+"%char then parse_uint t
               else if Ascii.eqb c "-"%char then Z.opp <$> parse_uint t
               else parse_uint s
           | EmptyString => None
           end in
  match r with
  | Some z => if bool_decide (in_i64 z) then Some z else None
  | None => None
  end.

Fixpoint str_rep (n : nat) (c : ascii) : string :=
  match n with O => EmptyString | S n => String c (str_rep n c) end.
(** [fmt.Sprintf("%0wd", z)] *)
Definition fmt_0d (w : nat) (z : Z) : string :=
  if z <? 0 then let s := utoa (- z) in
                 "-" +++ str_rep (w - 1 - String.length s) "0"%char +++ s
  else let s := utoa z in str_rep (w - String.length s) "0"%char +++ s.

Lemma nat_of_digit d : 0 <= d < 10 → byte_of (digit d) = 48 + d.
Proof.
  intros H. unfold byte_of, digit. rewrite nat_ascii_embedding; lia.
Qed.
Lemma is_digit_digit d : 0 <= d < 10 → is_digit (digit d) = true.
Proof. intros H. unfold is_digit. rewrite nat_of_digit by done. lia. Qed.
Lemma digit_val_digit d : 0 <= d < 10 → digit_val (digit d) = d.
Proof. intros H. unfold digit_val. rewrite nat_of_digit by done. lia. Qed.

Lemma parse_itoa_aux fuel n acc :
  0 <= n < 10 ^ Z.of_nat fuel → (0 < fuel)%nat →
  parse_digits (itoa_aux fuel n acc) 0 = parse_digits acc n.
Proof.
  revert n acc. induction fuel as [|f IH]; intros n acc Hn Hf; [lia|].
  cbn [itoa_aux]. pose proof (Z.mod_pos_bound n 10) as Hm.
  pose proof (Z.div_mod n 10) as Hdm.
  destruct (Z.eqb_spec (n / 10) 0) as [Hz|Hz].
  - cbn [parse_digits]. rewrite is_digit_digit, digit_val_digit by lia.
    f_equal. lia.
  - replace (Z.of_nat (S f)) with (Z.of_nat f + 1) in Hn by lia.
    rewrite Z.pow_add_r in Hn by lia.
    assert (f ≠ 0%nat) by (intros ->; simpl in Hn; apply Hz, Z.div_small; lia).
    rewrite IH; [|split; [apply Z.div_pos; lia|apply Z.div_lt_upper_bound; lia]|lia].
    cbn [parse_digits]. rewrite is_digit_digit, digit_val_digit by lia.
    f_equal. lia.
Qed.

Lemma utoa_fuel n : 0 <= n → n < 10 ^ Z.of_nat (S (Z.to_nat (Z.log2 n))).
Proof.
  intros Hn. destruct (Z.eq_dec n 0) as [->|]; [done|].
  pose proof (Z.log2_spec n) as [_ H]; [lia|].
  pose proof (Z.log2_nonneg n).
  replace (Z.of_nat (S (Z.to_nat (Z.log2 n)))) with (Z.succ (Z.log2 n)) by lia.
  eapply Z.lt_le_trans; [exact H|]. apply Z.pow_le_mono_l. lia.
Qed.
Lemma parse_utoa n : 0 <= n → parse_digits (utoa n) 0 = Some n.
Proof.
  intros Hn. unfold utoa. rewrite parse_itoa_aux; [done|split; [done|]|lia].
  by apply utoa_fuel.
Qed.

(** Every byte of [utoa n] is a decimal digit, and there is at least one. *)
Fixpoint str_all (p : ascii → bool) (s : string) : bool :=
  match s with EmptyString => true | String c s => p c && str_all p s end.
Lemma str_all_app p s1 s2 : str_all p (s1 +++ s2) = str_all p s1 && str_all p s2.
Proof. induction s1; simpl; [done|]. by rewrite IHs1, andb_assoc. Qed.
Lemma str_all_rep p n c : p c = true → str_all p (str_rep n c) = true.
Proof. intros H. induction n; simpl; [done|]. by rewrite H. Qed.
Lemma length_str_rep n c : String.length (str_rep n c) = n.
Proof. induction n; simpl; congruence. Qed.

Lemma itoa_aux_digits fuel n acc :
  0 <= n → str_all is_digit acc = true → str_all is_digit (itoa_aux fuel n acc) = true.
Proof.
  revert n acc. induction fuel as [|f IH]; intros n acc Hn Hacc; [done|].
  cbn [itoa_aux]. pose proof (Z.mod_pos_bound n 10) as Hm.
  assert (str_all is_digit (String (digit (n mod 10)) acc) = true).
  { cbn [str_all]. by rewrite is_digit_digit, Hacc by lia. }
  case_match; [done|]. apply IH; [apply Z.div_pos; lia|done].
Qed.
Lemma utoa_digits n : 0 <= n → str_all is_digit (utoa n) = true.
Proof. intros. by apply itoa_aux_digits. Qed.
Lemma itoa_aux_length fuel n acc :
  (String.length acc <= String.length (itoa_aux fuel n acc))%nat.
Proof.
  revert n acc. induction fuel as [|f IH]; intros n acc; cbn [itoa_aux]; [done|].
  case_match; simpl; [lia|]. specialize (IH (n / 10) (String (digit (n mod 10)) acc)).
  simpl in IH. lia.
Qed.
Lemma utoa_nonempty n : utoa n ≠ EmptyString.
Proof.
  unfold utoa. cbn [itoa_aux]. case_match; [done|]. intros E.
  pose proof (itoa_aux_length (Z.to_nat (Z.log2 n)) (n / 10) (String (digit (n mod 10)) ""))
    as Hl. rewrite E in Hl. simpl in Hl. lia.
Qed.
Lemma parse_zeros k s : parse_digits (str_rep k "0"%char +++ s) 0 = parse_digits s 0.
Proof. induction k; simpl; done. Qed.

(** A string of digits is parsed as such by [ParseInt], whatever its padding. *)
Lemma ParseInt_digits s n :
  s ≠ EmptyString → str_all is_digit s = true →
  parse_digits s 0 = Some n → in_i64 n → ParseInt s = Some n.
Proof.
  intros Hne Hd Hp Hn. destruct s as [|c s]; [done|].
  unfold ParseInt. cbn [str_all] in Hd. apply andb_true_iff in Hd as [Hc _].
  assert (Ascii.eqb c "+"%char = false) as ->.
  { destruct (Ascii.eqb_spec c "+"%char) as [->|]; done. }
  assert (Ascii.eqb c "-"%char = false) as ->.
  { destruct (Ascii.eqb_spec c "-"%char) as [->|]; done. }
  unfold parse_uint. rewrite Hp. by rewrite bool_decide_eq_true_2.
Qed.
Lemma fmt_0d_digits w n : 0 <= n → str_all is_digit (fmt_0d w n) = true.
Proof.
  intros Hn. unfold fmt_0d. destruct (Z.ltb_spec n 0); [lia|].
  rewrite str_all_app, str_all_rep, utoa_digits; done.
Qed.
Lemma ParseInt_fmt_0d w n : 0 <= n < 2 ^ 63 → ParseInt (fmt_0d w n) = Some n.
Proof.
  intros Hn. apply ParseInt_digits.
  - unfold fmt_0d. destruct (Z.ltb_spec n 0); [lia|]. intros E.
    apply (f_equal String.length) in E. rewrite length_app_str in E. simpl in E.
    pose proof (utoa_nonempty n). destruct (utoa n); simpl in *; [done|lia].
  - apply fmt_0d_digits. lia.
  - unfold fmt_0d. destruct (Z.ltb_spec n 0); [lia|].
    rewrite parse_zeros. apply parse_utoa. lia.
  - unfold in_i64. lia.
Qed.
Lemma parse_uint_utoa n : 0 <= n → parse_uint (utoa n) = Some n.
Proof.
  intros Hn. rewrite <- (parse_utoa n Hn). unfold parse_uint.
  pose proof (utoa_nonempty n). by destruct (utoa n).
Qed.
Lemma ParseInt_FormatInt n : in_i64 n → ParseInt (FormatInt n) = Some n.
Proof.
  intros Hn. unfold FormatInt. destruct (Z.ltb_spec n 0) as [H|H].
  - unfold ParseInt. simpl. rewrite parse_uint_utoa by lia. simpl.
    rewrite Z.opp_involutive. by rewrite bool_decide_eq_true_2.
  - apply ParseInt_digits; auto using utoa_nonempty, utoa_digits, parse_utoa.
Qed.
(** A decimal number of any size. *)
Definition decimal (s : string) : option Z :=
  match s with
  | String c t => if Ascii.eqb c "-"%char then Z.opp <$> parse_uint t else parse_uint s
  | EmptyString => None
  end.
Lemma decimal_FormatInt z : decimal (FormatInt z) = Some z.
Proof.
  unfold FormatInt. destruct (Z.ltb_spec z 0); cbn [decimal].
  - change (decimal ("-" +++ utoa (- z))) with (Z.opp <$> parse_uint (utoa (- z))).
    rewrite parse_uint_utoa by lia. cbn. f_equal. lia.
  - pose proof (utoa_digits z) as Hd. rewrite <- (parse_uint_utoa z) by lia.
    destruct (utoa z) as [|c t]; [done|]. specialize (Hd ltac:(lia)). cbn [str_all] in Hd.
    apply andb_true_iff in Hd as [Hc _]. unfold decimal.
    destruct (Ascii.eqb_spec c "-"%char) as [->|]; [discriminate Hc|done].
Qed.
Lemma FormatInt_inj z z' : FormatInt z = FormatInt z' → z = z'.
Proof. intros E. assert (Some z = Some z') as [= ->]; [|done]. rewrite <- (decimal_FormatInt z), <- (decimal_FormatInt z'). by rewrite E. Qed.
Lemma fmt_0d_inj w m n : 0 <= m < 2 ^ 63 → 0 <= n < 2 ^ 63 → fmt_0d w m = fmt_0d w n → m = n.
Proof.
  intros Hm Hn H. apply (f_equal ParseInt) in H. rewrite !ParseInt_fmt_0d in H by done.
  by injection H.
Qed.

(** ** [strings.TrimSpace], [strings.Split] on a one-byte separator, [strings.Contains] *)
Definition bytes_str (l : list nat) : string :=
  foldr (λ n s, String (ascii_of_nat n) s) EmptyString l.
(** The UTF-8 encodings of the runes [unicode.IsSpace] accepts. *)
Definition spaces : list string :=
  map bytes_str
    ([[32]; [9]; [10]; [11]; [12]; [13]; [194; 133]; [194; 160]; [225; 154; 128]; [226; 129; 159];
      [226; 128; 168]; [226; 128; 169]; [226; 128; 175]; [227; 128; 128]]
     ++ map (λ k, [226; 128; 128 + k]) (seq 0 11))%nat.
Fixpoint trim_with (strip : string → string → string) (has : string → string → bool) (fuel : nat)
    (s : string) : string :=
  match fuel with
  | O => s
  | S fuel =>
      match find (has s) spaces with
      | Some sp => trim_with strip has fuel (strip s sp)
      | None => s
      end
  end.
Definition TrimSpace (s : string) : string :=
  let n := String.length s in
  trim_with trim_suffix has_suffix n (trim_with trim_prefix has_prefix n s).
Fixpoint Split (sep : ascii) (s : string) : list string :=
  match s with
  | EmptyString => [EmptyString]
  | String c s =>
      if Ascii.eqb c sep then EmptyString :: Split sep s
      else match Split sep s with
           | x :: l => String c x :: l
           | [] => [String c EmptyString]
           end
  end.
Fixpoint Contains (s sub : string) : bool :=
  has_prefix s sub || match s with EmptyString => false | String _ s => Contains s sub end.
Fixpoint Join (l : list string) (sep : string) : string :=
  match l with
  | [] => EmptyString
  | [s] => s
  | s :: l => s +++ sep +++ Join l sep
  end.

(** ** Text without a separator *)
Definition without (sep : ascii) (s : string) : bool := str_all (λ c, negb (Ascii.eqb c sep)) s.
Lemma Split_none sep s : without sep s = true → Split sep s = [s].
Proof.
  induction s as [|c s IH]; [done|]. unfold without in *. cbn [str_all Split]. intros [Hc Hs]%andb_true_iff.
  apply negb_true_iff in Hc. by rewrite Hc, IH.
Qed.
Lemma Split_app sep a b : without sep a = true → Split sep (a +++ String sep b) = a :: Split sep b.
Proof.
  unfold without. induction a as [|c a IH]; intros Ha; [cbn; by rewrite Ascii.eqb_refl|].
  cbn [str_all] in Ha. apply andb_true_iff in Ha as [Hc Ha]. apply negb_true_iff in Hc.
  cbn [String.append Split]. by rewrite Hc, IH.
Qed.
Lemma Split_without sep s : Forall (λ p, without sep p = true) (Split sep s).
Proof.
  unfold without. induction s as [|c s IH]; cbn [Split]; [by repeat constructor|].
  destruct (Ascii.eqb c sep) eqn:E; [by constructor|].
  destruct (Split sep s) as [|x l]; [constructor; [cbn; by rewrite E|constructor]|].
  apply Forall_cons in IH as [Hx Hl]. constructor; [|done]. cbn [str_all]. by rewrite E, Hx.
Qed.
Lemma Split_nonempty sep s : Split sep s ≠ [].
Proof. destruct s as [|c s]; [done|]. cbn [Split]. destruct (Ascii.eqb c sep); [done|]. by destruct (Split sep s). Qed.
Lemma Split_Join sep ps :
  ps ≠ [] → Forall (λ p, without sep p = true) ps → Split sep (Join ps (String sep EmptyString)) = ps.
Proof.
  induction ps as [|p ps IH]; [done|]. intros _ [Hp Hps]%Forall_cons.
  destruct ps as [|q ps]; [by apply Split_none|].
  change (Join (p :: q :: ps) (String sep EmptyString)) with (p +++ String sep (Join (q :: ps) (String sep EmptyString))).
  by rewrite Split_app, IH.
Qed.
Lemma digits_without s c : is_digit c = false → str_all is_digit s = true → without c s = true.
Proof.
  intros Hc. unfold without. induction s as [|x s IH]; intros Hs; [done|]. cbn [str_all] in *. apply andb_true_iff in Hs as [Hx Hs].
  rewrite IH, andb_true_r by done. destruct (Ascii.eqb_spec x c) as [->|]; [congruence|done].
Qed.
