(* ===== verification/Passwords.v ===== *)
(** Passwords (pkg/encrypt/password.go): hashing and checking over bcrypt. *)
From Stdlib Require Import Ascii.
From stdpp Require Import prelude strings.
From S2P Require Import Prelude GoStrings.

(** ** golang.org/x/crypto/bcrypt *)
(** [GenerateFromPassword] draws a salt; its documentation refuses passwords of more than 72 bytes,
    and the hash it answers otherwise is accepted for that password. *)
Definition ErrPasswordTooLong : goerr := ErrSentinel "bcrypt: password length exceeds 72 bytes".
Definition ErrMismatchedHashAndPassword : goerr :=
  ErrSentinel "crypto/bcrypt: hashedPassword is not the hash of the given password".
Definition DefaultCost : Z := 10.
Class Bcrypt (Salt : Type) := {
  GenerateFromPassword : Salt → string → Z → goerr + string;
  CompareHashAndPassword : string → string → option goerr }.
Class BcryptLaws (Salt : Type) `{Bcrypt Salt} := {
  generate_long s p c : 72 < slen p → GenerateFromPassword s p c = inl ErrPasswordTooLong;
  generate_ok s p : slen p <= 72 → ∃ h, GenerateFromPassword s p DefaultCost = inr h ∧ h ≠ "" ∧ CompareHashAndPassword h p = None;
  compare_empty p : ∃ e, CompareHashAndPassword "" p = Some e }.

(** ** password.go: the answer, and what is logged *)
Section passwords.
Context {Salt : Type} `{Bcrypt Salt}.
Definition Encrypt (salt : Salt) (password : string) : string * option goerr :=
  match GenerateFromPassword salt password DefaultCost with
  | inl e => ("", Some e)
  | inr bs => (bs, None)
  end.
Definition Compare (hashedPassword password : string) : bool * option goerr :=
  match CompareHashAndPassword hashedPassword password with
  | Some e => if bool_decide (e = ErrMismatchedHashAndPassword) then (false, None) else (false, Some e)
  | None => (true, None)
  end.
Context {BL : BcryptLaws Salt}.
(** A password of at most 72 bytes passes with its own hash; a longer one has the empty hash,
    which no password passes. *)
Lemma password_passes (salt : Salt) (p q : string) :
  if slen p <=? 72 then (Compare (Encrypt salt p).1 p = (true, None) ∧ (Encrypt salt p).2 = None)
  else Encrypt salt p = ("", Some ErrPasswordTooLong) ∧ (Compare (Encrypt salt p).1 q).1 = false.
Proof.
  unfold Encrypt, Compare. destruct (Z.leb_spec (slen p) 72) as [Hl|Hl].
  - destruct (generate_ok salt p Hl) as (h & -> & _ & Hc). cbn [fst snd]. by rewrite Hc.
  - rewrite generate_long by done. cbn [fst]. destruct (compare_empty q) as [e ->]. split; [done|]. by case_bool_decide.
Qed.
End passwords.

(** ** A toy scheme that obeys the laws *)
Inductive salt_bit := Salt0 | Salt1.
#[global] Instance toy_Bcrypt : Bcrypt salt_bit := {
  GenerateFromPassword s p _ :=
    if 72 <? slen p then inl ErrPasswordTooLong else inr (String (match s with Salt0 => "0" | Salt1 => "1" end)%char p);
  CompareHashAndPassword h p :=
    match h with
    | EmptyString => Some (ErrSentinel "crypto/bcrypt: hashedSecret too short to be a bcrypted password")
    | String _ q => if bool_decide (p = q) then None else Some ErrMismatchedHashAndPassword
    end }.
#[global] Instance toy_BcryptLaws : BcryptLaws salt_bit.
Proof.
  split; cbn.
  - intros s p _ Hp. destruct (Z.ltb_spec 72 (slen p)); [done|lia].
  - intros s p Hp. destruct (Z.ltb_spec 72 (slen p)); [lia|]. eexists. split_and!; [done|done|]. cbn. by rewrite bool_decide_eq_true_2.
  - intros p. by eexists.
Qed.
(** A failure that the code takes for impossible: a long password is stored as no hash at all. *)
Definition long_password : string := str_rep 73 "a"%char.
Example long_password_lost :
  Encrypt Salt1 "secret" = ("1secret", None) ∧ (Compare "1secret" "other").1 = false ∧
  Encrypt Salt0 long_password = ("", Some ErrPasswordTooLong) ∧ (Compare (Salt := salt_bit) "" long_password).1 = false.
Proof. vm_compute. done. Qed.
