(* ===== verification/Snowflake.v ===== *)
(** Ids from a snowflake node (pkg/snow_node/snow_node.go). *)
From Stdlib Require Import Ascii.
From stdpp Require Import prelude strings list sorting.
From S2P Require Import Prelude GoStrings.

(** ** github.com/bwmarrin/snowflake *)
(** Ten bits of an id are the node's number; a node answers growing positive ids, by the clock it
    is called at. *)
Class Snowflake (Node : Type) := {
  NewNode : Z → goerr + Node;
  Generate : Z → Node → Z * Node;
  newest : Node → Z }.
Class SnowflakeLaws (Node : Type) `{Snowflake Node} := {
  NewNode_ok n : 0 <= n <= 1023 → ∃ node, NewNode n = inr node ∧ 0 <= newest node;
  Generate_grows now node : newest node < (Generate now node).1 ∧ newest (Generate now node).2 = (Generate now node).1 }.

(** ** snow_node.go *)
Section node.
Context {Node : Type} `{Snowflake Node}.
(** [init], with the number that [rand.Intn(1000)] draws; the error is dropped, and the node is nil then. *)
Definition snow_init (drawn : Z) : option Node := match NewNode drawn with inl _ => None | inr n => Some n end.
Definition GetID (now : Z) (snowNode : option Node) : gores string * option Node :=
  match snowNode with
  | None => (Panic "nil pointer dereference", None)
  | Some n => let '(id, n) := Generate now n in (Ret (FormatInt id), Some n)
  end.
(** The ids of calls at some times. *)
Fixpoint get_ids (nows : list Z) (snowNode : option Node) : list (gores string) :=
  match nows with
  | [] => []
  | now :: nows => let '(a, n) := GetID now snowNode in a :: get_ids nows n
  end.
Context {SL : SnowflakeLaws Node}.
Lemma ids_grow nows node : 0 <= newest node → ∃ ids,
  get_ids nows (Some node) = map (λ z, Ret (FormatInt z)) ids ∧ length ids = length nows ∧
  StronglySorted Z.lt ids ∧ Forall (λ z, newest node < z) ids.
Proof.
  revert node. induction nows as [|now nows IH]; intros node Hn; cbn [get_ids GetID]; [by exists []; repeat constructor|].
  destruct (Generate_grows now node) as [Hg Hl]. destruct (Generate now node) as [id node'] eqn:E. cbn [fst snd] in *.
  destruct (IH node' ltac:(lia)) as (ids & -> & Hlen & Hs & Hf). exists (id :: ids). split_and!.
  - done.
  - cbn. by rewrite Hlen.
  - constructor; [done|]. eapply Forall_impl; [exact Hf|]. cbn. lia.
  - constructor; [done|]. eapply Forall_impl; [exact Hf|]. cbn. lia.
Qed.
(** Whatever number is drawn, no call panics, and the ids of one process are distinct texts of
    positive numbers. *)
Lemma ids_distinct (drawn : Z) (nows : list Z) :
  0 <= drawn < 1000 → ∃ texts, get_ids nows (snow_init drawn) = map Ret texts ∧ NoDup texts ∧
    Forall (λ t, ∃ z, t = FormatInt z ∧ 0 < z) texts.
Proof.
  intros Hd. destruct (NewNode_ok drawn ltac:(lia)) as (node & Hnode & Hnew). unfold snow_init. rewrite Hnode.
  destruct (ids_grow nows node Hnew) as (ids & -> & _ & Hs & Hf). exists (map FormatInt ids). split_and!.
  - by rewrite map_map.
  - apply NoDup_fmap_2_strong; [intros x y _ _; apply FormatInt_inj|].
    clear Hf Hnode. induction Hs as [|x l _ IH Hx]; constructor; [|done].
    intros Hi. rewrite Forall_forall in Hx. specialize (Hx x Hi). lia.
  - apply Forall_map. eapply Forall_impl; [exact Hf|]. intros z Hz. exists z. split; [done|]. cbn in Hz. lia.
Qed.
End node.

(** ** A node as the layout of the ids says *)
(** The millisecond, the node's number and a counter within the millisecond, as long as there is room. *)
Record node := mkNode { node_number : Z; node_last : Z }.
Definition node_id (now number : Z) : Z := Z.shiftl now 22 + Z.shiftl number 12.
#[global] Instance node_Snowflake : Snowflake node := {
  NewNode n := if (0 <=? n) && (n <=? 1023) then inr (mkNode n 0) else inl (ErrNew "Node number must be between 0 and 1023");
  Generate now n := let id := Z.max (node_id now (node_number n)) (node_last n + 1) in (id, mkNode (node_number n) id);
  newest := node_last }.
#[global] Instance node_SnowflakeLaws : SnowflakeLaws node.
Proof.
  split; cbn.
  - intros n Hn. rewrite (proj2 (Z.leb_le 0 n)), (proj2 (Z.leb_le n 1023)) by lia. eexists. split; [done|]. cbn. lia.
  - intros now nd. split; [lia|done].
Qed.
(** Two processes that draw one number answer the same id in one millisecond. *)
Example nodes_collide :
  get_ids [5; 5] (snow_init (Node := node) 7) = [Ret "21000192"; Ret "21000193"] ∧
  get_ids [5] (snow_init (Node := node) 7) = [Ret "21000192"].
Proof. vm_compute. done. Qed.
