(* ===== verification/GoOs.v ===== *)
(** Go's [os] package over one directory tree, as the disk spool uses it.  Every call
    may fail: the environment supplies a list of faults, one consumed per call (the
    calls succeed once it is exhausted), and a failing [WriteFile] may leave a torn
    prefix of the data behind. *)
From stdpp Require Import prelude gmap strings list.
From S2P Require Import Prelude GoStrings.

Inductive fault := FaultNone | FaultErr | FaultTorn (n : nat).
Inductive node := NFile (data : string) | NDir.

(** A path is a directory and a name in it: [filepath.Join(dir, name)]. *)
Abbreviation path := (string * string)%type.
Record Fs := mkFs { fs_nodes : gmap path node; fs_faults : list fault }.

Definition ErrNotExist : goerr := ErrSentinel "file does not exist".
Definition EIO : goerr := ErrExt "os: i/o error".

Definition next_fault : State Fs fault := λ s,
  match fs_faults s with
  | [] => (FaultNone, s)
  | f :: fs => (f, mkFs (fs_nodes s) fs)
  end.
Definition set_nodes (m : gmap path node) : State Fs unit :=
  modify (λ s, mkFs m (fs_faults s)).

Definition MkdirAll (dir : string) : State Fs (option goerr) :=
  f ← next_fault; mret (match f with FaultNone => None | _ => Some EIO end).

Definition Remove (p : path) : State Fs (option goerr) :=
  f ← next_fault;
  m ← gets fs_nodes;
  match f, m !! p with
  | FaultNone, Some _ => _ ← set_nodes (delete p m); mret None
  | FaultNone, None => mret (Some ErrNotExist)
  | _, _ => mret (Some EIO)
  end.

Definition WriteFile (p : path) (data : string) : State Fs (option goerr) :=
  f ← next_fault;
  m ← gets fs_nodes;
  match m !! p with
  | Some NDir => mret (Some EIO)
  | _ =>
      match f with
      | FaultNone => _ ← set_nodes (<[p := NFile data]> m); mret None
      | FaultErr => mret (Some EIO)
      | FaultTorn n => _ ← set_nodes (<[p := NFile (str_take n data)]> m); mret (Some EIO)
      end
  end.

Definition Rename (src dst : path) : State Fs (option goerr) :=
  f ← next_fault;
  m ← gets fs_nodes;
  match f, m !! src, m !! dst with
  | FaultNone, Some n, (None | Some (NFile _)) =>
      _ ← set_nodes (<[dst := n]> (delete src m)); mret None
  | FaultNone, None, _ => mret (Some ErrNotExist)
  | _, _, _ => mret (Some EIO)
  end.

Definition ReadFile (p : path) : State Fs (goerr + string) :=
  f ← next_fault;
  m ← gets fs_nodes;
  mret match f, m !! p with
       | FaultNone, Some (NFile d) => inr d
       | FaultNone, None => inl ErrNotExist
       | _, _ => inl EIO
       end.

(** The entries of a directory, with the node each [e.Info()] describes. *)
Definition dir_entries (dir : string) (m : gmap path node) : list (string * node) :=
  omap (λ kn, if bool_decide (kn.1.1 = dir) then Some (kn.1.2, kn.2) else None)
    (map_to_list m).
Definition ReadDir (dir : string) : State Fs (goerr + list (string * node)) :=
  f ← next_fault;
  m ← gets fs_nodes;
  mret match f with FaultNone => inr (dir_entries dir m) | _ => inl EIO end.
(** [e.Info()] *)
Definition Info (n : node) : State Fs (goerr + Z) :=
  f ← next_fault;
  mret match f with
       | FaultNone => inr (match n with NFile d => slen d | NDir => 0 end)
       | _ => inl EIO
       end.

Lemma elem_of_dir_entries dir m name n :
  (name, n) ∈ dir_entries dir m ↔ m !! (dir, name) = Some n.
Proof.
  unfold dir_entries. rewrite list_elem_of_omap. split.
  - intros ([[d nm] n'] & Hin & H). simpl in H. case_bool_decide; simplify_eq.
    by apply elem_of_map_to_list.
  - intros H. exists ((dir, name), n). split; [by apply elem_of_map_to_list|].
    simpl. by rewrite bool_decide_eq_true_2.
Qed.
Lemma NoDup_dir_entries dir m : NoDup (dir_entries dir m).*1.
Proof.
  unfold dir_entries. pose proof (NoDup_fst_map_to_list m) as Hnd.
  induction (map_to_list m) as [|[[d nm] n] l IH]; simpl in *; [constructor|].
  apply NoDup_cons in Hnd as [Hni Hnd]. case_bool_decide as E; [|by apply IH].
  simpl. apply NoDup_cons. split; [|by apply IH]. simplify_eq.
  intros Hin. apply Hni. apply list_elem_of_fmap in Hin as ([nm' n'] & -> & Hin).
  apply list_elem_of_omap in Hin as ([[d' nm''] n''] & Hin & Heq). simpl in Heq.
  case_bool_decide; simplify_eq. apply list_elem_of_fmap.
  eexists. split; [|exact Hin]. done.
Qed.

(** ** The operations, seen through the files they leave

    [fatal] is the test [err != nil && !errors.Is(err, os.ErrNotExist)] of the callers that
    take a missing file for a removed one. *)
Definition fatal (e : option goerr) : option goerr :=
  match e with
  | Some e => if errors_Is e ErrNotExist then None else Some e
  | None => None
  end.

Lemma Remove_spec p st e st' :
  Remove p st = (e, st') →
  (fatal e = None ∧ fs_nodes st' = delete p (fs_nodes st)) ∨
  (fatal e ≠ None ∧ fs_nodes st' = fs_nodes st).
Proof.
  unfold Remove, next_fault, set_nodes. run_st.
  destruct st as [m [|[| |n] fts]]; cbn; destruct (m !! p) as [nd|] eqn:Hp; cbn;
    intros [= <- <-]; cbn; rewrite ?delete_id by done; auto.
Qed.
Lemma WriteFile_spec p d st e st' :
  WriteFile p d st = (e, st') →
  (e = None → fs_nodes st' = <[p := NFile d]> (fs_nodes st)) ∧
  (∀ q, q ≠ p → fs_nodes st' !! q = fs_nodes st !! q).
Proof.
  unfold WriteFile, next_fault, set_nodes. run_st.
  destruct st as [m [|[| |n] fts]]; cbn; destruct (m !! p) as [[]|] eqn:Hp; cbn;
    intros [= <- <-]; cbn; split; intros; rewrite ?lookup_insert_ne by done; done.
Qed.
Lemma Rename_spec src dst st e st' :
  Rename src dst st = (e, st') →
  (e = None ∧ ∃ n, fs_nodes st !! src = Some n ∧
     fs_nodes st' = <[dst := n]> (delete src (fs_nodes st))) ∨
  (e ≠ None ∧ fs_nodes st' = fs_nodes st).
Proof.
  unfold Rename, next_fault, set_nodes. run_st.
  destruct st as [m [|[| |n] fts]]; cbn; destruct (m !! src) as [nd|] eqn:Hs;
    destruct (m !! dst) as [[]|] eqn:Hd; cbn; intros [= <- <-]; cbn; eauto.
Qed.
