(* ===== verification/SubmitTypes.v ===== *)
(** Data shared by the submission path of the scheduler SDK:
    [SubmitOptions] (submit.go), [bufferedTask] (submit_buffer.go) and [Config] with its
    defaults and validation (config.go). *)
From stdpp Require Import prelude strings list.
From S2P Require Import Prelude GoStrings.

Record SubmitOptions := mkSubmitOptions {
  JobName : string;
  BizKey : string;
  Payload : string;
  DedupeWindowSec : Z;
  TraceID : string;
  SpanID : string }.
#[global] Instance SubmitOptions_eq_dec : EqDecision SubmitOptions.
Proof. solve_decision. Defined.

Record bufferedTask := mkBufferedTask {
  opts : SubmitOptions;
  enqueuedAt : Z;   (* unix nanoseconds *)
  attempts : Z }.
#[global] Instance bufferedTask_eq_dec : EqDecision bufferedTask.
Proof. solve_decision. Defined.

Record Config := mkConfig {
  Endpoint : string;
  AppName : string;
  AppKey : string;
  AppSecret : string;
  WorkerID : string;
  InstanceID : string;
  IP : string;
  SDKVersion : string;
  MaxConcurrency : Z;
  DialTimeout : Z;
  HeartbeatInterval : Z;
  ReconnectMinBackoff : Z;
  ReconnectMaxBackoff : Z;
  SubmitTimeout : Z;
  MaxRecvMsgSizeMB : Z;
  MaxSendMsgSizeMB : Z;
  LocalBufferEnabled : bool;
  LocalBufferCapacity : Z;
  LocalBufferRetryInterval : Z;
  LocalBufferRetryBatch : Z;
  LocalBufferDiskSpillEnabled : bool;
  LocalBufferDiskSpillDir : string;
  LocalBufferDiskSpillMaxBytes : Z }.

Definition defaultDiskSpillDirName : string := "scheduler-spool".
Definition defaultDiskSpillMaxBytes : Z := 100 * 1024 * 1024.

Definition or_pos (v def : Z) : Z := if v <=? 0 then def else v.
Definition or_str (v def : string) : string := if bool_decide (v = "") then def else v.

(** [Config.applyDefaults]; [hostname] is [os.Hostname()] ([None] when it fails) and
    [pid] is [os.Getpid()]. *)
Definition applyDefaults (hostname : option string) (pid : Z) (c : Config) : Config :=
  let inst := or_str (InstanceID c)
                (match hostname with Some h => h | None => "unknown" end) in
  {| Endpoint := Endpoint c; AppName := AppName c; AppKey := AppKey c;
     AppSecret := AppSecret c;
     WorkerID := or_str (WorkerID c)
       (AppName c +++ "-" +++ inst +++ "-" +++ FormatInt pid);
     InstanceID := inst;
     IP := IP c; SDKVersion := SDKVersion c;
     MaxConcurrency := or_pos (MaxConcurrency c) 50;
     DialTimeout := or_pos (DialTimeout c) (5 * Second);
     HeartbeatInterval := or_pos (HeartbeatInterval c) (5 * Second);
     ReconnectMinBackoff := or_pos (ReconnectMinBackoff c) (1 * Second);
     ReconnectMaxBackoff := or_pos (ReconnectMaxBackoff c) (30 * Second);
     SubmitTimeout := or_pos (SubmitTimeout c) (5 * Second);
     MaxRecvMsgSizeMB := or_pos (MaxRecvMsgSizeMB c) 4;
     MaxSendMsgSizeMB := or_pos (MaxSendMsgSizeMB c) 4;
     LocalBufferEnabled := LocalBufferEnabled c;
     LocalBufferCapacity := or_pos (LocalBufferCapacity c) 1024;
     LocalBufferRetryInterval := or_pos (LocalBufferRetryInterval c) (5 * Second);
     LocalBufferRetryBatch := or_pos (LocalBufferRetryBatch c) 32;
     LocalBufferDiskSpillEnabled := LocalBufferDiskSpillEnabled c;
     LocalBufferDiskSpillDir := LocalBufferDiskSpillDir c;
     LocalBufferDiskSpillMaxBytes :=
       or_pos (LocalBufferDiskSpillMaxBytes c) defaultDiskSpillMaxBytes |}.

(** config.go's package constants and [Config.Validate]; [None] is the nil error. *)
Definition Validate (c : Config) : option goerr :=
  if bool_decide (Endpoint c = "") then Some (ErrNew "scheduler: Config.Endpoint required")
  else if bool_decide (AppName c = "") then Some (ErrNew "scheduler: Config.AppName required")
  else if bool_decide (AppKey c = "") then Some (ErrNew "scheduler: Config.AppKey required")
  else if bool_decide (AppSecret c = "") then
    Some (ErrNew "scheduler: Config.AppSecret required")
  else if ReconnectMaxBackoff c <? ReconnectMinBackoff c then
    Some (ErrNew "scheduler: ReconnectMinBackoff must <= ReconnectMaxBackoff")
  else None.

Lemma or_pos_pos v def : 0 < def → 0 < or_pos v def.
Proof. unfold or_pos. case_bool; lia. Qed.
Lemma or_pos_id v def : 0 < v → or_pos v def = v.
Proof. unfold or_pos. case_bool; lia. Qed.
Lemma or_pos_idemp v def : or_pos (or_pos v def) def = or_pos v def.
Proof. unfold or_pos. repeat case_bool; lia. Qed.
Lemma or_str_idemp v def : or_str (or_str v def) def = or_str v def.
Proof. unfold or_str. repeat case_bool_decide; congruence. Qed.
#[export] Hint Resolve or_pos_pos : go.

(** A configuration the constructor accepts: the defaults are in place and [Validate]
    passed. *)
Record wf_config (c : Config) : Prop := {
  wfc_conc : 0 < MaxConcurrency c;
  wfc_min : 0 < ReconnectMinBackoff c;
  wfc_max : ReconnectMinBackoff c <= ReconnectMaxBackoff c;
  wfc_submit : 0 < SubmitTimeout c;
  wfc_hb : 0 < HeartbeatInterval c;
  wfc_cap : 0 < LocalBufferCapacity c;
  wfc_batch : 0 < LocalBufferRetryBatch c;
  wfc_bytes : 0 < LocalBufferDiskSpillMaxBytes c;
  wfc_endpoint : Endpoint c ≠ "";
  wfc_name : AppName c ≠ "" }.

Lemma validate_wf hostname pid c :
  Validate (applyDefaults hostname pid c) = None → wf_config (applyDefaults hostname pid c).
Proof.
  unfold Validate. intros H. repeat case_bool_decide; try done.
  destruct (Z.ltb_spec (ReconnectMaxBackoff (applyDefaults hostname pid c))
    (ReconnectMinBackoff (applyDefaults hostname pid c))); [done|].
  split; try done; cbn; apply or_pos_pos; done.
Qed.
