(* ===== verification/SubmitBuffer.v ===== *)
(** The in-memory fallback queue of the scheduler SDK (submit_buffer.go, type
    [submitBuffer]): a bounded FIFO with head re-insertion.  [notify] is the one-slot wake-up
    channel: [true] when a signal is pending. *)
From stdpp Require Import prelude strings list.
From S2P Require Import Prelude GoStrings SubmitTypes.

Record submitBuffer := mkSubmitBuffer {
  cap : Z;
  queue : list bufferedTask;
  notify : bool }.

Definition newSubmitBuffer (capacity : Z) : submitBuffer := mkSubmitBuffer capacity [] false.

Definition push (b : submitBuffer) (t : bufferedTask) : bool * submitBuffer :=
  if cap b <=? zlen (queue b) then (false, b)
  else (true, mkSubmitBuffer (cap b) (queue b ++ [t]) true).

Definition drain (max : Z) (b : submitBuffer) : list bufferedTask * submitBuffer :=
  match queue b with
  | [] => ([], b)
  | _ =>
      let n := Z.to_nat (clamp_max max (zlen (queue b))) in
      (take n (queue b), mkSubmitBuffer (cap b) (drop n (queue b)) (notify b))
  end.

Definition putBack (items : list bufferedTask) (b : submitBuffer) : submitBuffer :=
  match items with
  | [] => b
  | _ =>
      let merged := items ++ queue b in
      let merged := if cap b <? zlen merged then lastn (Z.to_nat (cap b)) merged else merged in
      mkSubmitBuffer (cap b) merged (notify b)
  end.

Definition Len (b : submitBuffer) : Z := zlen (queue b).

(** Type invariant: a positive capacity that the queue respects. *)
Definition wf_buffer (b : submitBuffer) : Prop := 0 < cap b ∧ Len b <= cap b.
#[global] Instance wf_buffer_dec b : Decision (wf_buffer b).
Proof. unfold wf_buffer. apply _. Defined.

(** ** Operation lemmas *)
Lemma drain_eq max b :
  let n := Z.to_nat (clamp_max max (zlen (queue b))) in
  drain max b = (take n (queue b), mkSubmitBuffer (cap b) (drop n (queue b)) (notify b)).
Proof. unfold drain. destruct b as [c [|t q] nt]; simpl; [|done]. by rewrite take_nil, drop_nil. Qed.
Lemma drain_split max b : (drain max b).1 ++ queue (drain max b).2 = queue b.
Proof. rewrite drain_eq. simpl. apply take_drop. Qed.
Lemma drain_cap max b : cap (drain max b).2 = cap b.
Proof. by rewrite drain_eq. Qed.
Lemma drain_length max b :
  length (drain max b).1 = Z.to_nat (clamp_max max (Len b)).
Proof.
  rewrite drain_eq. cbn [fst]. rewrite length_take. unfold Len.
  pose proof (clamp_max_bounds max (zlen (queue b)) (zlen_nonneg _)). unfold zlen in *. lia.
Qed.
Lemma drain_nil_iff max b : (drain max b).1 = [] ↔ queue b = [].
Proof.
  rewrite drain_eq. simpl. split; [|intros ->; by rewrite take_nil].
  intros H. destruct (queue b) as [|t q]; [done|]. exfalso.
  apply (f_equal length) in H. rewrite length_take in H. simpl in H.
  unfold clamp_max, zlen in H. simpl in H. repeat case_bool; simpl in *; lia.
Qed.
Lemma putBack_cap items b : cap (putBack items b) = cap b.
Proof. by destruct items. Qed.
(** Within capacity, re-insertion is plain concatenation at the head. *)
Lemma putBack_fits items b :
  zlen items + zlen (queue b) <= cap b → queue (putBack items b) = items ++ queue b.
Proof.
  intros H. destruct items as [|t items]; [done|]. unfold putBack. cbn [queue].
  rewrite zlen_app. case_bool; [lia|done].
Qed.

Lemma wf_newSubmitBuffer c : 0 < c → wf_buffer (newSubmitBuffer c).
Proof. unfold wf_buffer, Len, zlen. simpl. lia. Qed.
Lemma wf_push b t : wf_buffer b → wf_buffer (push b t).2.
Proof.
  unfold wf_buffer, Len, push. intros [? ?]. case_bool; simpl; [done|].
  rewrite zlen_app. unfold zlen in *. simpl. lia.
Qed.
Lemma wf_drain max b : wf_buffer b → wf_buffer (drain max b).2.
Proof.
  unfold wf_buffer, Len. intros [? ?]. rewrite drain_cap.
  pose proof (f_equal zlen (drain_split max b)) as H1. rewrite zlen_app in H1.
  pose proof (zlen_nonneg (drain max b).1). lia.
Qed.
Lemma wf_putBack items b : wf_buffer b → wf_buffer (putBack items b).
Proof.
  unfold wf_buffer, Len. intros [? ?]. rewrite putBack_cap. split; [done|].
  destruct items as [|t items]; [done|]. unfold putBack. cbn [queue].
  case_bool; [|lia]. unfold zlen. rewrite length_lastn. lia.
Qed.
#[export] Hint Resolve wf_newSubmitBuffer wf_push wf_drain wf_putBack : go.

(** ** The contract: a bounded FIFO queue

    [spec_step] is what the client code relies on; the abstract state is the list of waiting
    tasks in delivery order. *)
Inductive bop :=
  | BPush (t : bufferedTask)
  | BDrain (max : Z)
  | BPutBack (items : list bufferedTask).

(** What an operation gives back: the tasks accepted, and the tasks handed out. *)
Record bout := mkBout { accepted : list bufferedTask; handed : list bufferedTask }.

Definition bstep (o : bop) (b : submitBuffer) : bout * submitBuffer :=
  match o with
  | BPush t => let '(ok, b') := push b t in (mkBout (if ok : bool then [t] else []) [], b')
  | BDrain max => let '(out, b') := drain max b in (mkBout [] out, b')
  | BPutBack items => (mkBout [] [], putBack items b)
  end.
Fixpoint brun (os : list bop) (b : submitBuffer) : bout * submitBuffer :=
  match os with
  | [] => (mkBout [] [], b)
  | o :: os =>
      let '(r, b1) := bstep o b in
      let '(r', b2) := brun os b1 in
      (mkBout (accepted r ++ accepted r') (handed r ++ handed r'), b2)
  end.
Definition no_putback (o : bop) : Prop := match o with BPutBack _ => False | _ => True end.

Lemma wf_bstep o b : wf_buffer b → wf_buffer (bstep o b).2.
Proof.
  intros Hb. destruct o as [t|max|items]; simpl.
  - pose proof (wf_push b t Hb). by destruct (push b t).
  - pose proof (wf_drain max b Hb). by destruct (drain max b).
  - by apply wf_putBack.
Qed.
Lemma wf_brun os b : wf_buffer b → wf_buffer (brun os b).2.
Proof.
  revert b. induction os as [|o os IH]; intros b Hb; simpl; [done|].
  pose proof (wf_bstep o b Hb). destruct (bstep o b) as [r b1].
  pose proof (IH b1 H). by destruct (brun os b1).
Qed.
Lemma bstep_fifo o b :
  no_putback o →
  handed (bstep o b).1 ++ queue (bstep o b).2 = queue b ++ accepted (bstep o b).1.
Proof.
  destruct o as [t|max|]; simpl; intros Ho; [| |done].
  - unfold push. case_bool; simpl; [by rewrite app_nil_r|done].
  - pose proof (drain_split max b). destruct (drain max b); simpl in *.
    by rewrite app_nil_r.
Qed.

(** FIFO without loss or duplication. Over any interleaving of enqueues and drains, the
    tasks handed out followed by the tasks still queued are exactly the tasks queued at the
    start followed by the accepted ones, in order; and the capacity is never exceeded. *)
Lemma buffer_fifo (os : list bop) (b : submitBuffer) :
  wf_buffer b → Forall no_putback os →
  handed (brun os b).1 ++ queue (brun os b).2 = queue b ++ accepted (brun os b).1 ∧
  wf_buffer (brun os b).2.
Proof.
  intros Hwf Hos. split; [|by apply wf_brun]. clear Hwf. revert b.
  induction Hos as [|o os Ho Hos IH]; intros b; simpl; [by rewrite app_nil_r|].
  pose proof (bstep_fifo o b Ho) as H1. destruct (bstep o b) as [r b1].
  specialize (IH b1). destruct (brun os b1) as [r' b2]. simpl in *.
  rewrite <- app_assoc, IH, !app_assoc. by rewrite H1.
Qed.

Definition demo_task (n : Z) : bufferedTask :=
  mkBufferedTask (mkSubmitOptions "j" (FormatInt n) "" 0 "" "") n 0.
Lemma buffer_fifo_witness :
  let os := [BPush (demo_task 1); BPush (demo_task 2); BPush (demo_task 3); BDrain 1] in
  handed (brun os (newSubmitBuffer 2)).1 = [demo_task 1] ∧
  handed (brun os (newSubmitBuffer 2)).1 ++ queue (brun os (newSubmitBuffer 2)).2
    = [demo_task 1; demo_task 2].
Proof.
  set (os := [BPush (demo_task 1); BPush (demo_task 2); BPush (demo_task 3); BDrain 1]).
  cbv zeta. split; [vm_compute; reflexivity|].
  destruct (buffer_fifo os (newSubmitBuffer 2)) as [H _].
  - split; vm_compute; congruence.
  - repeat constructor.
  - rewrite H. vm_compute. reflexivity.
Defined.
