(* ===== verification/SubmitSpool.v ===== *)
(** The disk-backed second level of the submission queue (submit_spool.go, type
    [submitSpool]): one JSON file per task, named by a zero-padded sequence number, a byte
    budget enforced by evicting the oldest files, and recovery by a directory scan.  A
    method on the nil pointer is a method on [None]. *)
From stdpp Require Import prelude gmap strings list sorting.
From S2P Require Import Prelude GoStrings GoOs SubmitTypes.

Record spoolTask := mkSpoolTask {
  Seq : Z;
  Opts : SubmitOptions;
  EnqueuedAt : Z;
  Attempts : Z;
  SizeBytes : Z }.
#[global] Instance spoolTask_eq_dec : EqDecision spoolTask.
Proof. solve_decision. Defined.

Record spoolFile := mkSpoolFile { seq : Z; fpath : path; size : Z }.
#[global] Instance spoolFile_eq_dec : EqDecision spoolFile.
Proof. solve_decision. Defined.

Record submitSpool := mkSubmitSpool {
  dir : string;
  maxBytes : Z;
  nextSeq : Z;
  currentBytes : Z;
  files : list spoolFile }.

(** The record format.  The spool only needs that a record written by [json_Marshal] reads
    back as itself, for tasks whose strings JSON can represent ([json_ok]). *)
Class SpoolCodec := {
  json_Marshal : spoolTask → goerr + string;
  json_Unmarshal : string → goerr + spoolTask;
  json_ok : SubmitOptions → Prop;
  json_roundtrip st d :
    json_ok (Opts st) → json_Marshal st = inr d → json_Unmarshal d = inr st }.

Definition ErrLocalBufferSpillFull : goerr :=
  ErrSentinel "scheduler: local buffer spill full".

Definition path_str (p : path) : string := p.1 +++ "/" +++ p.2.
(** [filepath.Join(s.dir, fmt.Sprintf("%020d.json", seq))] and its temporary sibling. *)
Definition final_name (q : Z) : string := fmt_0d 20 q +++ ".json".
Definition tmp_name (q : Z) : string := final_name q +++ ".tmp".

(** The eviction loop of [push] ([extra] is the size of the new record) and of
    [reloadLocked] ([extra = 0]): remove the oldest file while the budget is exceeded. *)
Fixpoint evict (msg : string) (limit extra cur : Z) (fs : list spoolFile)
    : State Fs (option goerr * (Z * list spoolFile)) :=
  match fs with
  | [] => mret (None, (cur, []))
  | oldest :: fs' =>
      if limit <? i64 (cur + extra) then
        e ← Remove (fpath oldest);
        match fatal e with
        | Some e => mret (Some (ErrWrap (msg +++ path_str (fpath oldest)) e), (cur, fs))
        | None => evict msg limit extra (i64 (cur - size oldest)) fs'
        end
      else mret (None, (cur, fs))
  end.

Section codec.
Context `{!SpoolCodec}.

(** The two [json.Marshal] calls of [push]: the record carries the length of its own
    first encoding. *)
Definition encode (q : Z) (t : bufferedTask) : goerr + (spoolTask * string) :=
  let st := mkSpoolTask q (opts t) (enqueuedAt t) (attempts t) 0 in
  match json_Marshal st with
  | inl e => inl (ErrWrap "marshal scheduler spool task" e)
  | inr d0 =>
      let st := mkSpoolTask q (opts t) (enqueuedAt t) (attempts t) (slen d0) in
      match json_Marshal st with
      | inl e => inl (ErrWrap "marshal scheduler spool task with size" e)
      | inr d => inr (st, d)
      end
  end.

(** The end of [push]: write the temporary file, rename it into place, append the entry. *)
Definition commit (q : Z) (data : string) (s : submitSpool)
    : State Fs (option goerr * submitSpool) :=
  let finalPath := (dir s, final_name q) in
  let tmpPath := (dir s, tmp_name q) in
  e ← WriteFile tmpPath data;
  match e with
  | Some e => mret (Some (ErrWrap "write scheduler spool tmp" e), s)
  | None =>
      e ← Rename tmpPath finalPath;
      match e with
      | Some e =>
          _ ← Remove tmpPath;
          mret (Some (ErrWrap "rename scheduler spool task" e), s)
      | None =>
          mret (None, mkSubmitSpool (dir s) (maxBytes s) (nextSeq s)
                        (i64 (currentBytes s + slen data))
                        (files s ++ [mkSpoolFile q finalPath (slen data)]))
      end
  end.

Definition push_locked (t : bufferedTask) (s : submitSpool)
    : State Fs (option goerr * submitSpool) :=
  let q := nextSeq s in
  let s := mkSubmitSpool (dir s) (maxBytes s) (i64 (q + 1)) (currentBytes s) (files s) in
  match encode q t with
  | inl e => mret (Some e, s)
  | inr (_, data) =>
      let sz := slen data in
      if maxBytes s <? sz then mret (Some ErrLocalBufferSpillFull, s)
      else
        '(e, (cur, fs)) ← evict "evict scheduler spool task " (maxBytes s) sz
                            (currentBytes s) (files s);
        let s := mkSubmitSpool (dir s) (maxBytes s) (nextSeq s) cur fs in
        match e with
        | Some e => mret (Some e, s)
        | None =>
            if maxBytes s <? i64 (cur + sz) then mret (Some ErrLocalBufferSpillFull, s)
            else
              commit q data s
        end
  end.
Definition push (t : bufferedTask) (s : option submitSpool)
    : State Fs (option goerr * option submitSpool) :=
  match s with
  | None => mret (Some ErrLocalBufferSpillFull, None)
  | Some s => '(e, s) ← push_locked t s; mret (e, Some s)
  end.

(** The body of [drain]'s loop over [s.files[:max]]. *)
Fixpoint read_tasks (fs : list spoolFile) : State Fs (goerr + list spoolTask) :=
  match fs with
  | [] => mret (inr [])
  | f :: fs =>
      r ← ReadFile (fpath f);
      match r with
      | inl e => mret (inl (ErrWrap ("read scheduler spool task " +++ path_str (fpath f)) e))
      | inr data =>
          match json_Unmarshal data with
          | inl e =>
              mret (inl (ErrWrap ("decode scheduler spool task " +++ path_str (fpath f)) e))
          | inr st =>
              out ← read_tasks fs;
              mret match out with inl e => inl e | inr out => inr (st :: out) end
          end
      end
  end.
Definition drain (max : Z) (s : option submitSpool) : State Fs (goerr + list spoolTask) :=
  match s with
  | None => mret (inr [])
  | Some s =>
      match files s with
      | [] => mret (inr [])
      | _ => read_tasks (take (Z.to_nat (clamp_max max (zlen (files s)))) (files s))
      end
  end.
End codec.

(** The search loop of [ack], over the files not yet examined. *)
Fixpoint ack_loop (q : Z) (before fs : list spoolFile) (s : submitSpool)
    : State Fs (option goerr * submitSpool) :=
  match fs with
  | [] => mret (None, s)
  | f :: fs =>
      if bool_decide (seq f ≠ q) then ack_loop q (before ++ [f]) fs s
      else
        e ← Remove (fpath f);
        match fatal e with
        | Some e =>
            mret (Some (ErrWrap ("remove scheduler spool task " +++ path_str (fpath f)) e), s)
        | None =>
            mret (None, mkSubmitSpool (dir s) (maxBytes s) (nextSeq s)
                          (i64 (currentBytes s - size f)) (before ++ fs))
        end
  end.
Definition ack (q : Z) (s : option submitSpool) : State Fs (option goerr * option submitSpool) :=
  match s with
  | None => mret (None, None)
  | Some s => '(e, s) ← ack_loop q [] (files s) s; mret (e, Some s)
  end.

Definition len (s : option submitSpool) : Z :=
  match s with None => 0 | Some s => zlen (files s) end.
Definition bytes (s : option submitSpool) : Z :=
  match s with None => 0 | Some s => currentBytes s end.

(** The scan of [reloadLocked]: skip what is not a task file, sum the sizes (in [int64]) and
    track the largest sequence number. *)
Definition task_seq (name : string) (n : node) : option Z :=
  match n with
  | NDir => None
  | NFile _ => if has_suffix name ".json" then ParseInt (trim_suffix name ".json") else None
  end.
Fixpoint scan (d : string) (entries : list (string * node)) (acc : list spoolFile)
    (total maxSeq : Z) : State Fs (goerr + (list spoolFile * Z * Z)) :=
  match entries with
  | [] => mret (inr (acc, total, maxSeq))
  | (name, n) :: entries =>
      match task_seq name n with
      | None => scan d entries acc total maxSeq
      | Some q =>
          r ← Info n;
          match r with
          | inl e => mret (inl (ErrWrap ("stat scheduler spool file " +++ path_str (d, name)) e))
          | inr sz =>
              scan d entries (acc ++ [mkSpoolFile q (d, name) sz]) (i64 (total + sz))
                (if maxSeq <? q then q else maxSeq)
          end
      end
  end.

(** [sort.Slice] by sequence number.  Go's sort is not stable, [merge_sort] is: they agree
    on files with distinct sequence numbers, which is what [push] creates. *)
Definition seq_le (f g : spoolFile) : Prop := seq f <= seq g.
#[global] Instance seq_le_dec : RelDecision seq_le.
Proof. intros f g. unfold seq_le. apply _. Defined.
#[global] Instance seq_le_total : Total seq_le.
Proof. intros f g. unfold seq_le. lia. Qed.
#[global] Instance seq_le_trans : Transitive seq_le.
Proof. intros f g h. unfold seq_le. lia. Qed.
Definition sort_files : list spoolFile → list spoolFile := merge_sort seq_le.

Definition reloadLocked (s : submitSpool) : State Fs (option goerr * submitSpool) :=
  r ← ReadDir (dir s);
  match r with
  | inl e => mret (Some (ErrWrap "read scheduler spool dir" e), s)
  | inr entries =>
      r ← scan (dir s) entries [] 0 0;
      match r with
      | inl e => mret (Some e, s)
      | inr (fs, total, maxSeq) =>
          let nextSeq := if nextSeq s <=? maxSeq then i64 (maxSeq + 1) else nextSeq s in
          '(e, (cur, fs)) ← evict "evict oversized scheduler spool " (maxBytes s) 0 total
                              (sort_files fs);
          mret (e, mkSubmitSpool (dir s) (maxBytes s) nextSeq cur fs)
      end
  end.

(** [newSubmitSpool]; [tempDir] is [os.TempDir()] and [now] is [time.Now().UnixNano()]. *)
Definition newSubmitSpool (tempDir : string) (now : Z) (d : string) (maxb : Z)
    : State Fs (goerr + submitSpool) :=
  let d := if bool_decide (d = "") then tempDir +++ "/" +++ defaultDiskSpillDirName else d in
  let maxb := or_pos maxb defaultDiskSpillMaxBytes in
  e ← MkdirAll d;
  match e with
  | Some e => mret (inl (ErrWrap "create scheduler spool dir" e))
  | None =>
      '(e, s) ← reloadLocked (mkSubmitSpool d maxb now 0 []);
      mret match e with Some e => inl e | None => inr s end
  end.

(** ** File names *)
Lemma final_name_seq q d : 0 <= q < 2 ^ 63 → task_seq (final_name q) (NFile d) = Some q.
Proof.
  intros H. unfold task_seq, final_name. autorewrite with go. by apply ParseInt_fmt_0d.
Qed.
Lemma has_suffix_tmp x : has_suffix ((x +++ ".json") +++ ".tmp") ".json" = false.
Proof.
  unfold has_suffix. autorewrite with go. cbn [String.length].
  replace (String.length x + 5 + 4 - 5)%nat with (String.length (x +++ ".jso"))
    by (rewrite length_app_str; simpl; lia).
  rewrite app_str_assoc. change (".json" +++ ".tmp") with (".jso" +++ "n.tmp").
  rewrite <- app_str_assoc, str_drop_app. apply andb_false_r.
Qed.
Lemma tmp_name_seq q n : task_seq (tmp_name q) n = None.
Proof.
  unfold task_seq, tmp_name, final_name. destruct n; [|done]. by rewrite has_suffix_tmp.
Qed.
Lemma tmp_not_final q q' : tmp_name q ≠ final_name q'.
Proof.
  intros H. pose proof (has_suffix_app (fmt_0d 20 q') ".json") as H1.
  fold (final_name q') in H1. rewrite <- H in H1. unfold tmp_name, final_name in H1.
  by rewrite has_suffix_tmp in H1.
Qed.
Lemma final_name_inj q q' :
  0 <= q < 2 ^ 63 → 0 <= q' < 2 ^ 63 → final_name q = final_name q' → q = q'.
Proof. intros ?? H. apply app_str_inj_r in H. by apply fmt_0d_inj in H. Qed.

(** ** The invariant: the spool owns the task files of its directory *)
Definition seq_lt (f g : spoolFile) : Prop := seq f < seq g.
Definition total (fs : list spoolFile) : Z := zsum (size <$> fs).
Definition on_disk (m : gmap path node) (f : spoolFile) : Prop :=
  ∃ d, m !! fpath f = Some (NFile d) ∧ slen d = size f.
Definition own_file (d : string) (next : Z) (f : spoolFile) : Prop :=
  0 <= seq f < next ∧ fpath f = (d, final_name (seq f)).

Record owned (m : gmap path node) (s : submitSpool) : Prop := {
  ow_max : 0 < maxBytes s < 2 ^ 62;
  ow_next : 0 <= nextSeq s < 2 ^ 63;
  ow_cur : currentBytes s = total (files s);
  ow_le : currentBytes s <= maxBytes s;
  ow_own : Forall (own_file (dir s) (nextSeq s)) (files s);
  ow_disk : Forall (on_disk m) (files s);
  ow_sorted : StronglySorted seq_lt (files s);
  ow_only name n q : m !! (dir s, name) = Some n → task_seq name n = Some q →
    (dir s, name) ∈ (fpath <$> files s) }.

Lemma total_nonneg m fs : Forall (on_disk m) fs → 0 <= total fs.
Proof.
  intros H. apply zsum_nonneg. apply Forall_fmap. eapply Forall_impl; [exact H|].
  intros f (d & _ & Hd). cbn. rewrite <- Hd. apply slen_nonneg.
Qed.
Lemma total_app fs1 fs2 : total (fs1 ++ fs2) = total fs1 + total fs2.
Proof. unfold total. by rewrite fmap_app, zsum_app. Qed.
Lemma StronglySorted_drop {A} (R : relation A) n l :
  StronglySorted R l → StronglySorted R (drop n l).
Proof.
  intros H. rewrite <- (take_drop n l) in H. by apply StronglySorted_app_1_r in H.
Qed.

(** Distinct positions of the queue have distinct paths. *)
Lemma own_paths_NoDup d next fs :
  next <= 2 ^ 63 → Forall (own_file d next) fs → StronglySorted seq_lt fs →
  NoDup (fpath <$> fs).
Proof.
  intros Hn Hown Hs. induction Hs as [|f fs Hs IH Hlt]; [constructor|].
  apply Forall_cons in Hown as [Hf Hown]. cbn. apply NoDup_cons. split; [|by apply IH].
  intros (g & Hg & Hin)%list_elem_of_fmap. destruct Hf as [Hr Hf].
  pose proof (proj1 (Forall_forall _ _) Hown _ Hin) as [Hr' Hg'].
  pose proof (proj1 (Forall_forall _ _) Hlt _ Hin) as Hlt'. unfold seq_lt in Hlt'.
  rewrite Hf, Hg' in Hg. injection Hg as Hg. apply final_name_inj in Hg; lia.
Qed.

(** ** Eviction

    The loop drops a prefix of the queue, the shortest one that makes room (or a shorter
    one, with an error, when a removal fails), and deletes exactly its files. *)
Lemma evict_spec msg limit extra cur fs st e cur' fs' st' :
  evict msg limit extra cur fs st = ((e, (cur', fs')), st') →
  Forall (λ f, 0 <= size f) fs → cur = total fs → 0 <= extra → total fs + extra < 2 ^ 63 →
  ∃ k, fs' = drop k fs ∧ cur' = total fs' ∧
    (∀ j, (j < k)%nat → limit < total (drop j fs) + extra) ∧
    (e = None → fs' = [] ∨ total fs' + extra <= limit) ∧
    (∀ p, p ∉ fpath <$> take k fs → fs_nodes st' !! p = fs_nodes st !! p) ∧
    (∀ p, p ∈ fpath <$> take k fs → fs_nodes st' !! p = None).
Proof.
  revert cur st. induction fs as [|f fs IH]; intros cur st; cbn [evict].
  { intros [= <- <- <- <-] _ -> _ _. exists 0%nat.
    split_and!; auto; [lia|intros p Hp; by apply not_elem_of_nil in Hp]. }
  intros Hrun Hsz -> Hx Hbd. apply Forall_cons in Hsz as [Hf Hsz].
  assert (0 <= total fs) as Hnn by (apply zsum_nonneg; by apply Forall_fmap).
  change (total (f :: fs)) with (size f + total fs) in *.
  rewrite i64_id in Hrun by (unfold in_i64; lia).
  destruct (Z.ltb_spec limit (size f + total fs + extra)) as [Hlt|Hle].
  2: { injection Hrun as <- <- <- <-. exists 0%nat.
       split_and!; auto; [lia|intros p Hp; by apply not_elem_of_nil in Hp]. }
  run_st_in Hrun. destruct (Remove (fpath f) st) as [er st1] eqn:HR.
  apply Remove_spec in HR as [[He Hm]|[He Hm]]; cbn [fst snd] in Hrun.
  2: { destruct (fatal er); [|done]. injection Hrun as <- <- <- <-. exists 0%nat.
       split_and!; auto; [lia|done|intros p _; by rewrite Hm
                         |intros p Hp; by apply not_elem_of_nil in Hp]. }
  rewrite He in Hrun. apply IH in Hrun as (k & -> & -> & Hmin & Hok & Hout & Hin);
    [|done|rewrite i64_id by (unfold in_i64; lia); lia|done|lia].
  exists (S k). split_and!; auto.
  - intros [|j] Hj; [cbn; fold (total fs); change (total (f :: fs)) with (size f + total fs); lia|].
    apply Hmin. lia.
  - intros p Hp. cbn in Hp. apply not_elem_of_cons in Hp as [Hp1 Hp2].
    rewrite Hout by done. rewrite Hm. by apply lookup_delete_ne.
  - intros p Hp. cbn in Hp. destruct (decide (p ∈ fpath <$> take k fs)); [by apply Hin|].
    apply elem_of_cons in Hp as [->|Hp]; [|done].
    rewrite Hout by done. rewrite Hm. apply lookup_delete_eq.
Qed.

(** ** Preservation of ownership by the disk changes the operations make *)
Lemma owned_sizes m s : owned m s → Forall (λ f, 0 <= size f) (files s).
Proof.
  intros H. eapply Forall_impl; [exact (ow_disk m s H)|]. intros f (d & _ & Hd). cbn.
  rewrite <- Hd. apply slen_nonneg.
Qed.
Lemma owned_NoDup m s : owned m s → NoDup (fpath <$> files s).
Proof.
  intros H. eapply own_paths_NoDup; [|apply (ow_own m s H)|apply (ow_sorted m s H)].
  pose proof (ow_next m s H). lia.
Qed.

(** Dropping the files at the head of the queue together with their nodes. *)
Lemma owned_drop m m' s k next :
  owned m s → nextSeq s <= next < 2 ^ 63 →
  (∀ p, p ∉ fpath <$> take k (files s) → m' !! p = m !! p) →
  (∀ p, p ∈ fpath <$> take k (files s) → m' !! p = None) →
  owned m' (mkSubmitSpool (dir s) (maxBytes s) next (total (drop k (files s)))
              (drop k (files s))).
Proof.
  intros Ho Hn Hout Hin. pose proof (owned_NoDup _ _ Ho) as Hnd.
  pose proof (ow_disk _ _ Ho) as Hdk. destruct Ho as [Hmax Hnext Hcur Hle Hown Hdisk Hs Honly].
  assert (total (files s) = total (take k (files s)) + total (drop k (files s))) as Htot
    by (rewrite <- total_app; by rewrite take_drop).
  assert (0 <= total (take k (files s))).
  { apply (total_nonneg m). by apply Forall_take. }
  split; cbn -[Z.pow total]; [done|lia|done|lia| | | |].
  - apply Forall_drop. eapply Forall_impl; [exact Hown|]. intros f [? ?]. split; [lia|done].
  - apply Forall_forall. intros f Hf.
    pose proof (proj1 (Forall_forall _ _) Hdk f) as (d & Hd & ?); [by eapply elem_of_drop_1|].
    exists d. split; [|done]. rewrite Hout; [done|]. intros Hf'.
    rewrite fmap_take in Hf'. apply (take_drop_disjoint _ _ _ Hnd Hf').
    rewrite <- fmap_drop. by apply list_elem_of_fmap_2.
  - by apply StronglySorted_drop.
  - intros name n q Hl Hq. destruct (decide ((dir s, name) ∈ fpath <$> take k (files s))) as [Hd|Hd].
    { rewrite Hin in Hl by done. done. }
    rewrite Hout in Hl by done. specialize (Honly _ _ _ Hl Hq).
    rewrite <- (take_drop k (files s)), fmap_app in Honly.
    by apply elem_of_app in Honly as [?|?].
Qed.

(** Writing or removing a temporary file. *)
Lemma owned_tmp m m' s q :
  owned m s → (∀ p, p ≠ (dir s, tmp_name q) → m' !! p = m !! p) → owned m' s.
Proof.
  intros [Hmax Hnext Hcur Hle Hown Hdisk Hs Honly] Hm. split; try done.
  - apply Forall_forall. intros f Hf.
    pose proof (proj1 (Forall_forall _ _) Hdisk f Hf) as (d & Hd & Hsz).
    pose proof (proj1 (Forall_forall _ _) Hown f Hf) as [_ Hp].
    exists d. split; [|done]. rewrite Hm; [done|]. rewrite Hp. intros [= E].
    by apply (tmp_not_final q (seq f)).
  - intros name n r Hl Hr. destruct (decide (name = tmp_name q)) as [->|Hne].
    { by rewrite tmp_name_seq in Hr. }
    rewrite Hm in Hl by congruence. by eapply Honly.
Qed.

(** Renaming a complete temporary file into place. *)
Lemma owned_append m m' s q d :
  owned m s → Forall (λ f, seq f < q) (files s) → 0 <= q < nextSeq s →
  currentBytes s + slen d <= maxBytes s →
  m' = <[(dir s, final_name q) := NFile d]> (delete (dir s, tmp_name q) m) →
  owned m' (mkSubmitSpool (dir s) (maxBytes s) (nextSeq s) (currentBytes s + slen d)
              (files s ++ [mkSpoolFile q (dir s, final_name q) (slen d)])).
Proof.
  intros Ho Hlt Hq Hb Hm.
  assert (∀ p, p ≠ (dir s, tmp_name q) → delete (dir s, tmp_name q) m !! p = m !! p) as Hdel.
  { intros p Hp. by apply lookup_delete_ne. }
  pose proof (owned_tmp _ _ _ q Ho Hdel) as Ho'. revert Ho' Hm.
  generalize (delete (dir s, tmp_name q) m). clear Ho Hdel. intros m1 Ho' ->.
  destruct Ho' as [Hmax Hnext Hcur Hle Hown Hdisk Hs Honly].
  split; cbn -[Z.pow total]; [done|done| |lia| | | |].
  - rewrite Hcur, total_app. unfold total at 3; cbn; lia.
  - apply Forall_app. split; [done|]. apply Forall_singleton. by split.
  - apply Forall_app. split.
    + apply Forall_forall. intros f Hf.
      pose proof (proj1 (Forall_forall _ _) Hdisk f Hf) as (d' & Hd & Hsz).
      pose proof (proj1 (Forall_forall _ _) Hown f Hf) as [Hr Hp].
      pose proof (proj1 (Forall_forall _ _) Hlt f Hf) as Hlt'. cbn in Hlt'.
      exists d'. split; [|done]. rewrite lookup_insert_ne; [done|]. rewrite Hp. intros [= E].
      apply final_name_inj in E; lia.
    + apply Forall_singleton. exists d. split; [apply lookup_insert_eq|done].
  - apply StronglySorted_app_2; [|done|by repeat constructor].
    intros f g Hf Hg. apply list_elem_of_singleton in Hg as ->.
    by apply (proj1 (Forall_forall _ _) Hlt f Hf).
  - intros name n r Hl Hr. rewrite fmap_app. apply elem_of_app.
    destruct (decide (name = final_name q)) as [->|Hne]; [right; by left|left].
    rewrite lookup_insert_ne in Hl by congruence. by eapply Honly.
Qed.

(** ** The contract: a persistent FIFO queue of records

    The abstract state is the list of (sequence number, record) pairs on disk, in delivery
    order. *)
Definition file_data (m : gmap path node) (p : path) : string :=
  match m !! p with Some (NFile d) => d | _ => "" end.
Definition contents (m : gmap path node) (s : submitSpool) : list (Z * string) :=
  (λ f, (seq f, file_data m (fpath f))) <$> files s.

Lemma contents_ext (m m' : gmap path node) (fs : list spoolFile) :
  (∀ f, f ∈ fs → m' !! fpath f = m !! fpath f) →
  ((λ f, (seq f, file_data m' (fpath f))) <$> fs)
  = ((λ f, (seq f, file_data m (fpath f))) <$> fs).
Proof.
  intros H. apply list_fmap_ext. intros i f Hf. unfold file_data.
  rewrite H; [done|]. by eapply list_elem_of_lookup_2.
Qed.
(** Dropping the head files leaves the others as they were. *)
Lemma contents_drop m m' s k :
  owned m s → (∀ p, p ∉ fpath <$> take k (files s) → m' !! p = m !! p) →
  ((λ f, (seq f, file_data m' (fpath f))) <$> drop k (files s)) = drop k (contents m s).
Proof.
  intros Ho Hout. unfold contents. rewrite <- fmap_drop. apply contents_ext.
  intros f Hf. apply Hout. rewrite fmap_take. intros Hin.
  apply (take_drop_disjoint _ _ _ (owned_NoDup _ _ Ho) Hin).
  rewrite <- fmap_drop. by apply list_elem_of_fmap_2.
Qed.

Section push_spec.
Context `{!SpoolCodec}.

(** The budget has no room for the record of [t] behind the records from position [j] on. *)
Definition no_room (t : bufferedTask) (s : submitSpool) (j : nat) : Prop :=
  ∃ st data, encode (nextSeq s) t = inr (st, data) ∧
    maxBytes s < total (drop j (files s)) + slen data.
(** Why [push] answers [e] after evicting [k] records: a record that cannot be encoded, or is larger
    than the whole budget, is refused at once; any other fails only by an error of the disk. *)
Definition push_reason (t : bufferedTask) (s : submitSpool) (e : option goerr) (k : nat) : Prop :=
  match encode (nextSeq s) t with
  | inl err => e = Some err ∧ k = 0%nat
  | inr (_, data) =>
      if maxBytes s <? slen data then e = Some ErrLocalBufferSpillFull ∧ k = 0%nat
      else e = None ∨ ∃ msg io, e = Some (ErrWrap msg io)
  end.
(** What [push] promises of its result: a prefix of [k] records is evicted, none without
    need, and on success the new record is appended. *)
Definition push_post (t : bufferedTask) (s : submitSpool) (m : gmap path node)
    (e : option goerr) (s' : submitSpool) (m' : gmap path node) : Prop :=
  ∃ k, (∀ j, (j < k)%nat → no_room t s j) ∧ push_reason t s e k ∧
       match e with
       | None => ∃ st data, encode (nextSeq s) t = inr (st, data) ∧
           contents m' s' = drop k (contents m s) ++ [(nextSeq s, data)]
       | Some _ => contents m' s' = drop k (contents m s)
       end.

Lemma commit_spec q data s st e s' st' :
  commit q data s st = ((e, s'), st') →
  owned (fs_nodes st) s → Forall (λ f, seq f < q) (files s) → 0 <= q < nextSeq s →
  currentBytes s + slen data <= maxBytes s →
  owned (fs_nodes st') s' ∧ dir s' = dir s ∧ maxBytes s' = maxBytes s ∧
  nextSeq s' = nextSeq s ∧
  contents (fs_nodes st') s' = contents (fs_nodes st) s ++
    match e with None => [(q, data)] | Some _ => [] end.
Proof.
  unfold commit. run_st. intros Hrun Ho Hlt Hq Hb.
  pose proof (ow_max _ _ Ho) as Hmax. pose proof (ow_own _ _ Ho) as Hown.
  destruct (WriteFile (dir s, tmp_name q) data st) as [ew st2] eqn:Hw.
  apply WriteFile_spec in Hw as [Hwok Hwout]. cbn [fst snd] in Hrun.
  assert (∀ m', (∀ p, p ≠ (dir s, tmp_name q) → m' !! p = fs_nodes st !! p) →
    owned m' s ∧ contents m' s = contents (fs_nodes st) s ++ []) as Htmp.
  { intros m' Hm'. split; [by eapply owned_tmp|]. rewrite app_nil_r. apply contents_ext.
    intros f Hf. apply Hm'. pose proof (proj1 (Forall_forall _ _) Hown f Hf) as [_ ->].
    intros [= E]. by apply (tmp_not_final q (seq f)). }
  destruct (Htmp _ Hwout) as [Ho2 Hc2].
  destruct ew as [ew|]; [by injection Hrun as <- <- <-|]. specialize (Hwok eq_refl).
  destruct (Rename _ _ st2) as [er st3] eqn:Hr. cbn [fst snd] in Hrun.
  apply Rename_spec in Hr as [[-> (n & Hn & Hm3)]|[Her Hm3]].
  - injection Hrun as <- <- <-. rewrite Hwok, lookup_insert_eq in Hn. injection Hn as <-.
    pose proof (total_nonneg _ _ (ow_disk _ _ Ho)) as Hnn.
    rewrite <- (ow_cur _ _ Ho) in Hnn. pose proof (slen_nonneg data).
    rewrite i64_id by (unfold in_i64; lia).
    split_and!; try done; [by apply (owned_append (fs_nodes st2))|].
    unfold contents at 1. cbn [files]. rewrite fmap_app. f_equal.
    2: { cbn. unfold file_data. by rewrite Hm3, lookup_insert_eq. }
    rewrite app_nil_r in Hc2. rewrite <- Hc2. apply contents_ext. intros f Hf.
    pose proof (proj1 (Forall_forall _ _) Hown f Hf) as [Hfr ->].
    pose proof (proj1 (Forall_forall _ _) Hlt f Hf) as Hfq. cbn in Hfq.
    pose proof (ow_next _ _ Ho).
    rewrite Hm3, lookup_insert_ne, lookup_delete_ne; [done| |]; intros [= E].
    + by apply (tmp_not_final q (seq f)).
    + apply final_name_inj in E; lia.
  - destruct er as [er|]; [|done].
    destruct (Remove (dir s, tmp_name q) st3) as [erm st4] eqn:Hrm.
    cbn [fst snd] in Hrun. injection Hrun as <- <- <-.
    destruct (Htmp (fs_nodes st4)) as [Ho4 Hc4]; [|done].
    intros p Hp. rewrite <- Hwout by done.
    apply Remove_spec in Hrm as [[_ ->]|[_ ->]]; rewrite ?Hm3; [|done].
    by rewrite lookup_delete_ne.
Qed.

(** The only errors of the disk's operations are wrapped ones. *)
Lemma commit_error q data s st e s' st' :
  commit q data s st = ((e, s'), st') → e = None ∨ ∃ msg io, e = Some (ErrWrap msg io).
Proof.
  unfold commit. run_st. destruct (WriteFile _ _ st) as [[ew|] st1]; cbn [fst snd].
  - intros [= <- _ _]. right. by eexists _, _.
  - destruct (Rename _ _ st1) as [[er|] st2]; cbn [fst snd]; intros [= <- _ _]; [right; by eexists _, _|by left].
Qed.
Lemma evict_error msg limit extra cur fs st e cf st' :
  evict msg limit extra cur fs st = ((e, cf), st') → e = None ∨ ∃ msg io, e = Some (ErrWrap msg io).
Proof.
  revert cur st. induction fs as [|f fs IH]; intros cur st; cbn [evict]; [intros [= <- _ _]; by left|].
  destruct (limit <? i64 (cur + extra)); [|intros [= <- _ _]; by left]. run_st.
  destruct (Remove (fpath f) st) as [er st1]. cbn [fst snd].
  destruct (fatal er) as [x|]; [|apply IH]. intros [= <- _ _]. right. by eexists _, _.
Qed.
Lemma push_locked_spec t s st e s' st' :
  push_locked t s st = ((e, s'), st') →
  owned (fs_nodes st) s → nextSeq s + 1 < 2 ^ 63 →
  owned (fs_nodes st') s' ∧ dir s' = dir s ∧ maxBytes s' = maxBytes s ∧
  nextSeq s' = nextSeq s + 1 ∧ push_post t s (fs_nodes st) e s' (fs_nodes st').
Proof.
  intros Hrun Ho Hbd. pose proof Ho as [Hmax Hnext Hcur Hle Hown Hdisk Hs Honly].
  pose proof (owned_sizes _ _ Ho) as Hsz. unfold push_locked in Hrun.
  rewrite i64_id in Hrun by (unfold in_i64; lia).
  cbn [dir maxBytes nextSeq currentBytes files] in Hrun.
  assert (owned (fs_nodes st) (mkSubmitSpool (dir s) (maxBytes s) (nextSeq s + 1)
    (currentBytes s) (files s))) as Hbump.
  { rewrite Hcur. apply (owned_drop _ (fs_nodes st) s 0 (nextSeq s + 1) Ho);
      [lia|done|]. intros p Hp. by apply not_elem_of_nil in Hp. }
  destruct (encode (nextSeq s) t) as [ee|[task data]] eqn:Henc; cbn [fst snd] in Hrun.
  { injection Hrun as <- <- <-. split_and!; try done. exists 0%nat. unfold push_reason. rewrite Henc. split_and!; [lia|done..]. }
  destruct (Z.ltb_spec (maxBytes s) (slen data)) as [Hbig|Hfits].
  { injection Hrun as <- <- <-. split_and!; try done. exists 0%nat. unfold push_reason. rewrite Henc.
    replace (maxBytes s <? slen data) with true by lia. split_and!; [lia|done..]. }
  assert (∀ k, (e = None ∨ ∃ msg io, e = Some (ErrWrap msg io)) → push_reason t s e k) as Hwhy.
  { intros k He. unfold push_reason. rewrite Henc. by replace (maxBytes s <? slen data) with false by lia. }
  run_st_in Hrun.
  destruct (evict _ (maxBytes s) (slen data) (currentBytes s) (files s) st)
    as [[ev [cur fs]] st1] eqn:Hev. cbn [fst snd] in Hrun.
  pose proof (slen_nonneg data) as Hdn.
  assert (total (files s) + slen data < 2 ^ 63) as Htb by lia.
  pose proof (evict_error _ _ _ _ _ _ _ _ _ Hev) as Hev_err.
  pose proof (evict_spec _ _ _ _ _ _ _ _ _ _ Hev Hsz Hcur Hdn Htb)
    as (k & -> & -> & Hmin & Hok & Hout & Hin).
  pose proof (owned_drop _ _ _ k (nextSeq s + 1) Ho ltac:(lia) Hout Hin) as Ho1.
  pose proof (contents_drop _ _ _ k Ho Hout) as Hc1.
  destruct ev as [ev|].
  { injection Hrun as <- <- <-. split_and!; try done. exists k. split_and!; [|by apply Hwhy|exact Hc1].
    intros j Hj. exists task, data. auto. }
  pose proof (ow_le _ _ Ho1) as Hle1. cbn [currentBytes maxBytes] in Hle1.
  pose proof (total_nonneg _ _ (ow_disk _ _ Ho1)) as Hnn. cbn [files] in Hnn.
  rewrite i64_id in Hrun by (unfold in_i64; lia).
  destruct (Z.ltb_spec (maxBytes s) (total (drop k (files s)) + slen data)) as [Hfull|Hroom].
  { exfalso. destruct (Hok eq_refl) as [Hnil|]; [|lia]. rewrite Hnil in Hfull. unfold total in Hfull. cbn in Hfull. lia. }
  pose proof (commit_error _ _ _ _ _ _ _ Hrun) as Hcm.
  apply commit_spec in Hrun as (Ho2 & ? & ? & ? & Hc2); cbn -[Z.pow total contents] in *;
    [|done| |lia|lia].
  2: { apply Forall_drop. eapply Forall_impl; [exact Hown|]. intros f [? _]. cbn. lia. }
  split_and!; try done. exists k. split_and!; [intros j Hj; exists task, data; auto|by apply Hwhy|].
  destruct e; [rewrite app_nil_r in Hc2; rewrite Hc2; exact Hc1|]. exists task, data. split; [done|].
  rewrite Hc2. f_equal. exact Hc1.
Qed.
End push_spec.

(** ** [ack] removes the record with its sequence number, and its file *)
Lemma owned_remove m s l f r :
  owned m s → files s = l ++ f :: r →
  owned (delete (fpath f) m)
    (mkSubmitSpool (dir s) (maxBytes s) (nextSeq s) (currentBytes s - size f) (l ++ r)).
Proof.
  intros Ho Hf. pose proof (owned_NoDup _ _ Ho) as Hnd.
  pose proof (owned_sizes _ _ Ho) as Hsz.
  destruct Ho as [Hmax Hnext Hcur Hle Hown Hdisk Hs Honly].
  rewrite Hf in *. rewrite fmap_app in Hnd. cbn in Hnd.
  assert (fpath f ∉ fpath <$> (l ++ r)) as Hni.
  { rewrite fmap_app. rewrite <- Permutation_middle in Hnd. by apply NoDup_cons in Hnd as [? _]. }
  apply Forall_app in Hown as [? [Hf' ?]%Forall_cons].
  apply Forall_app in Hdisk as [? [? ?]%Forall_cons].
  apply Forall_app in Hsz as [? [? ?]%Forall_cons].
  apply StronglySorted_app in Hs as (Hlr & Hl & [Hr Hfr]%StronglySorted_inv).
  split; cbn -[Z.pow total]; [done|done| |lia|by apply Forall_app| | |].
  - rewrite total_app in *. change (total (f :: r)) with (size f + total r) in Hcur. lia.
  - apply Forall_forall. intros g Hg.
    assert (on_disk m g) as (d & Hd & Hsz').
    { apply elem_of_app in Hg as [Hg|Hg]; [by eapply (proj1 (Forall_forall _ l))
                                          |by eapply (proj1 (Forall_forall _ r))]. }
    exists d. split; [|done]. rewrite lookup_delete_ne; [done|]. intros E. apply Hni.
    rewrite E. by apply list_elem_of_fmap_2.
  - apply StronglySorted_app_2; [|done|done]. intros x y Hx Hy. apply Hlr; [done|by right].
  - intros name n q Hn Hq. destruct (decide (fpath f = (dir s, name))) as [E|E].
    { rewrite <- E, lookup_delete_eq in Hn. done. }
    rewrite lookup_delete_ne in Hn by done. specialize (Honly _ _ _ Hn Hq).
    rewrite fmap_app in *. cbn in Honly.
    rewrite elem_of_app, elem_of_cons in Honly. rewrite elem_of_app.
    destruct Honly as [?|[?|?]]; [by left|congruence|by right].
Qed.

Lemma ack_loop_spec q before fs s st e s' st' :
  ack_loop q before fs s st = ((e, s'), st') →
  owned (fs_nodes st) s → files s = before ++ fs → Forall (λ f, seq f ≠ q) before →
  owned (fs_nodes st') s' ∧ dir s' = dir s ∧ maxBytes s' = maxBytes s ∧
  nextSeq s' = nextSeq s ∧
  contents (fs_nodes st') s'
  = match e with
    | None => filter (λ r, r.1 ≠ q) (contents (fs_nodes st) s)
    | Some _ => contents (fs_nodes st) s
    end.
Proof.
  revert before. induction fs as [|f fs IH]; intros before Hrun Ho Hf Hb; cbn [ack_loop] in Hrun.
  - injection Hrun as <- <- <-. split_and!; try done. rewrite app_nil_r in Hf.
    unfold contents. rewrite Hf. symmetry. apply list_filter_all. apply Forall_forall.
    intros x (g & -> & Hg)%list_elem_of_fmap. cbn. by apply (proj1 (Forall_forall _ _) Hb g).
  - case_bool_decide as Hq.
    { apply (IH (before ++ [f])); try done; [by rewrite <- app_assoc|].
      apply Forall_app. by split; [|apply Forall_singleton]. }
    assert (seq f = q) as Hfq by (by destruct (decide (seq f = q))). clear Hq IH.
    run_st_in Hrun. destruct (Remove (fpath f) st) as [er st1] eqn:HR.
    apply Remove_spec in HR as [[He Hm]|[He Hm]]; cbn [fst snd] in Hrun.
    2: { destruct (fatal er); [|done]. injection Hrun as <- <- <-. rewrite Hm. by split_and!. }
    rewrite He in Hrun. injection Hrun as <- <- <-.
    pose proof (owned_remove _ _ _ _ _ Ho Hf) as Ho'. rewrite <- Hm in Ho'.
    pose proof (ow_cur _ _ Ho') as Hc'. pose proof (ow_le _ _ Ho') as Hle'.
    pose proof (total_nonneg _ _ (ow_disk _ _ Ho')) as Hnn. pose proof (ow_max _ _ Ho) as Hmax.
    cbn [currentBytes maxBytes files] in *.
    rewrite i64_id by (unfold in_i64; lia). split_and!; try done.
    pose proof (owned_NoDup _ _ Ho) as Hnd. pose proof (ow_sorted _ _ Ho) as Hs.
    unfold contents. cbn [files]. rewrite Hf in *.
    rewrite fmap_app in Hnd. cbn in Hnd. rewrite <- Permutation_middle in Hnd.
    apply NoDup_cons in Hnd as [Hni _]. rewrite <- fmap_app in Hni.
    transitivity ((λ g, (seq g, file_data (fs_nodes st) (fpath g))) <$> (before ++ fs)).
    { apply contents_ext. intros g Hg. rewrite Hm, lookup_delete_ne; [done|].
      intros E. apply Hni. rewrite E. by apply list_elem_of_fmap_2. }
    rewrite !fmap_app, filter_app, fmap_cons, filter_cons_False by (cbn; auto).
    f_equal; symmetry; apply list_filter_all; apply Forall_forall;
      intros x (g & -> & Hg)%list_elem_of_fmap; cbn.
    + by apply (proj1 (Forall_forall _ _) Hb g).
    + apply StronglySorted_app in Hs as (_ & _ & [_ Hlt]%StronglySorted_inv).
      pose proof (proj1 (Forall_forall _ _) Hlt g Hg) as Hg'. unfold seq_lt in Hg'. lia.
Qed.

(** ** Recovery: a restart on the directory finds the queue again *)
Definition entry_file (d : string) (en : string * node) : option spoolFile :=
  match en.2 with
  | NDir => None
  | NFile data =>
      q ← task_seq en.1 en.2; Some (mkSpoolFile q (d, en.1) (slen data))
  end.
Lemma entry_file_Some d nm n f :
  entry_file d (nm, n) = Some f ↔
  ∃ data q, n = NFile data ∧ task_seq nm n = Some q ∧ f = mkSpoolFile q (d, nm) (slen data).
Proof.
  unfold entry_file. cbn [fst snd]. split.
  - destruct n as [data|]; [|done]. destruct (task_seq nm (NFile data)) as [q|] eqn:E; [|done].
    intros [= <-]. by exists data, q.
  - intros (data & q & -> & -> & ->). done.
Qed.
(** The fault-free scan in closed form. *)
Lemma scan_spec d entries acc tot mx m :
  scan d entries acc tot mx (mkFs m [])
  = (inr (acc ++ omap (entry_file d) entries,
          foldl (λ t f, i64 (t + size f)) tot (omap (entry_file d) entries),
          foldl (λ a f, if a <? seq f then seq f else a) mx (omap (entry_file d) entries)),
     mkFs m []).
Proof.
  revert acc tot mx. induction entries as [|[name n] entries IH]; intros acc tot mx.
  { cbn. by rewrite app_nil_r. }
  cbn [scan omap list_omap]. destruct (entry_file d (name, n)) as [f|] eqn:E.
  - apply entry_file_Some in E as (data & q & -> & -> & ->).
    unfold Info, next_fault. run_st. cbn [fs_faults fs_nodes fst snd]. rewrite IH.
    by rewrite <- app_assoc.
  - destruct (task_seq name n) as [q|] eqn:Hq; [|apply IH]. exfalso.
    destruct n as [data|]; [|done].
    assert (entry_file d (name, NFile data) = Some (mkSpoolFile q (d, name) (slen data)))
      as H by (apply entry_file_Some; eauto). congruence.
Qed.
Lemma foldl_i64_total fs t :
  0 <= t → Forall (λ f, 0 <= size f) fs → t + total fs < 2 ^ 63 →
  foldl (λ t f, i64 (t + size f)) t fs = t + total fs.
Proof.
  intros Ht Hf. revert t Ht. induction Hf as [|f fs Hf Hfs IH]; intros t Ht Hb; cbn [foldl].
  { unfold total. cbn. lia. }
  change (total (f :: fs)) with (size f + total fs) in *.
  assert (0 <= total fs) by (apply zsum_nonneg; by apply Forall_fmap).
  rewrite i64_id by (unfold in_i64; lia). rewrite IH; lia.
Qed.
Lemma foldl_maxseq fs mx :
  mx <= foldl (λ a f, if a <? seq f then seq f else a) mx fs ∧
  Forall (λ f, seq f <= foldl (λ a f, if a <? seq f then seq f else a) mx fs) fs ∧
  (foldl (λ a f, if a <? seq f then seq f else a) mx fs = mx ∨
   ∃ f, f ∈ fs ∧ seq f = foldl (λ a f, if a <? seq f then seq f else a) mx fs).
Proof.
  revert mx. induction fs as [|f fs IH]; intros mx; cbn [foldl].
  { split_and!; [lia|done|by left]. }
  destruct (IH (if mx <? seq f then seq f else mx)) as (H1 & H2 & H3).
  destruct (Z.ltb_spec mx (seq f)); split_and!; try lia.
  - by apply Forall_cons.
  - right. destruct H3 as [->|(g & ? & ?)]; [exists f|exists g]; split; try done; [by left|by right].
  - apply Forall_cons. split; [lia|done].
  - destruct H3 as [->|(g & ? & ?)]; [by left|right]. exists g. split; [by right|done].
Qed.

Lemma entry_files_perm m s :
  owned m s → omap (entry_file (dir s)) (dir_entries (dir s) m) ≡ₚ files s.
Proof.
  intros Ho. pose proof (owned_NoDup _ _ Ho) as Hnd.
  destruct Ho as [Hmax Hnext Hcur Hle Hown Hdisk Hs Honly].
  assert (∀ f, f ∈ files s → ∃ d, m !! (dir s, final_name (seq f)) = Some (NFile d) ∧
    entry_file (dir s) (final_name (seq f), NFile d) = Some f) as Hfile.
  { intros f Hf. pose proof (proj1 (Forall_forall _ _) Hown f Hf) as [Hr Hp].
    pose proof (proj1 (Forall_forall _ _) Hdisk f Hf) as (d & Hd & Hsz).
    rewrite Hp in Hd. exists d. split; [done|]. apply entry_file_Some. exists d, (seq f).
    rewrite final_name_seq by lia. split_and!; try done. destruct f; cbn in *. by subst. }
  apply NoDup_Permutation.
  - clear -Hs. pose proof (NoDup_dir_entries (dir s) m) as Hnd.
    induction (dir_entries (dir s) m) as [|[nm n] l IH]; cbn; [constructor|].
    apply NoDup_cons in Hnd as [Hni Hnd]. specialize (IH Hnd).
    destruct (entry_file (dir s) (nm, n)) as [f|] eqn:Hf; [|done].
    apply NoDup_cons. split; [|done]. intros Hin. apply Hni.
    apply list_elem_of_omap in Hin as ([nm' n'] & Hin & Hf').
    apply list_elem_of_fmap. exists (nm', n'). split; [|done]. cbn.
    apply entry_file_Some in Hf as (d1 & q1 & _ & _ & ->).
    apply entry_file_Some in Hf' as (d2 & q2 & _ & _ & E). by injection E as _ -> _.
  - by apply NoDup_fmap_1 in Hnd.
  - intros f. rewrite list_elem_of_omap. split.
    + intros ([nm n] & Hin & Hf). apply elem_of_dir_entries in Hin.
      pose proof Hf as (data & q & -> & Hq & Hfe)%entry_file_Some.
      specialize (Honly _ _ _ Hin Hq). apply list_elem_of_fmap in Honly as (g & Hg & Hgin).
      destruct (Hfile g Hgin) as (d & Hl & He).
      pose proof (proj1 (Forall_forall _ _) Hown g Hgin) as [_ Hp].
      rewrite Hp in Hg. injection Hg as ->. rewrite Hl in Hin. congruence.
    + intros Hf. destruct (Hfile f Hf) as (d & Hl & He).
      eexists. split; [|exact He]. by apply elem_of_dir_entries.
Qed.

Lemma sort_files_eq es fs : es ≡ₚ fs → StronglySorted seq_lt fs → sort_files es = fs.
Proof.
  intros Hp Hs. apply (StronglySorted_unique_strong seq_le).
  - intros x y Hx Hy H1 H2. unfold sort_files in Hx. rewrite merge_sort_Permutation, Hp in Hx.
    unfold seq_le in *. assert (seq x = seq y) as E by lia. clear -Hs Hx Hy E.
    induction Hs as [|f fs Hs IH Hf]; [by apply not_elem_of_nil in Hx|].
    rewrite Forall_forall in Hf. unfold seq_lt in Hf.
    apply elem_of_cons in Hx as [->|Hx]; apply elem_of_cons in Hy as [->|Hy]; auto;
      [specialize (Hf y Hy)|specialize (Hf x Hx)]; lia.
  - apply Sorted_StronglySorted; [apply _|]. apply (Sorted_merge_sort seq_le).
  - eapply StronglySorted_impl; [|exact Hs]. intros x y. unfold seq_lt, seq_le in *. lia.
  - unfold sort_files. by rewrite merge_sort_Permutation.
Qed.

(** A restart on an owned directory rebuilds the queue; the next sequence number stays
    above every stored one. *)
Lemma restart_owned m s tempDir now :
  owned m s → dir s ≠ "" → 0 <= now → nextSeq s <= 2 ^ 63 - 1 →
  ∃ s', newSubmitSpool tempDir now (dir s) (maxBytes s) (mkFs m []) = (inr s', mkFs m []) ∧
    files s' = files s ∧ currentBytes s' = currentBytes s ∧ dir s' = dir s ∧
    maxBytes s' = maxBytes s ∧ now <= nextSeq s' <= Z.max (now + 1) (nextSeq s) ∧
    Forall (λ f, seq f < nextSeq s') (files s').
Proof.
  intros Ho Hd Hnow Hns. pose proof (entry_files_perm m s Ho) as Hp.
  pose proof (owned_sizes _ _ Ho) as Hsz. pose proof (total_nonneg _ _ (ow_disk _ _ Ho)) as Hnn.
  destruct Ho as [Hmax Hnext Hcur Hle Hown Hdisk Hs Honly].
  set (es := omap (entry_file (dir s)) (dir_entries (dir s) m)) in *.
  assert (total es = total (files s)) as Htot by (unfold total; by rewrite Hp).
  assert (Forall (λ f, 0 <= size f) es) as Hsze by (by rewrite Hp).
  assert (sort_files es = files s) as Hsort
    by (by apply sort_files_eq).
  unfold newSubmitSpool, MkdirAll, next_fault, or_pos. rewrite bool_decide_eq_false_2 by done.
  destruct (Z.leb_spec (maxBytes s) 0); [lia|].
  unfold reloadLocked, ReadDir, next_fault. run_st. cbn [fs_faults fs_nodes fst snd dir].
  rewrite scan_spec. fold es. cbn [fst snd app maxBytes nextSeq].
  rewrite foldl_i64_total by (done || lia).
  rewrite Htot, Hsort. destruct (foldl_maxseq es 0) as (Hm0 & Hmall & Hmex).
  set (mx := foldl _ 0 es) in *.
  assert (mx < 2 ^ 63 - 1 ∧ (mx = 0 ∨ mx + 1 <= nextSeq s)) as [Hmx Hmxn].
  { destruct Hmex as [->|(f & Hf & <-)]; [lia|]. rewrite Hp in Hf.
    destruct (proj1 (Forall_forall _ _) Hown f Hf). lia. }
  assert (∀ msg st, evict msg (maxBytes s) 0 (0 + total (files s)) (files s) st
    = (None, (currentBytes s, files s), st)) as Hev.
  { intros msg st. rewrite Hcur. destruct (files s) as [|f fs] eqn:Hf; [done|].
    cbn [evict]. rewrite i64_id by (unfold in_i64; lia).
    destruct (Z.ltb_spec (maxBytes s) (0 + total (f :: fs) + 0)); [lia|].
    by replace (0 + total (f :: fs)) with (total (f :: fs)) by lia. }
  rewrite Hev. cbn [fst snd]. eexists. split; [done|]. cbn [files currentBytes dir maxBytes nextSeq].
  rewrite i64_id by (unfold in_i64; lia). split_and!; try done.
  - destruct (Z.leb_spec now mx); lia.
  - destruct (Z.leb_spec now mx); lia.
  - rewrite <- Hp. eapply Forall_impl; [exact Hmall|]. intros f Hf. cbn in Hf.
    destruct (Z.leb_spec now mx); lia.
Qed.

(** ** Histories of the spool, under any faults *)
Inductive sop := SPush (t : bufferedTask) | SAck (q : Z).
Section history.
Context `{!SpoolCodec}.

Definition sstep (o : sop) (s : option submitSpool) : State Fs (option submitSpool) :=
  match o with
  | SPush t => '(_, s) ← push t s; mret s
  | SAck q => '(_, s) ← ack q s; mret s
  end.
Fixpoint srun (os : list sop) (s : option submitSpool) : State Fs (option submitSpool) :=
  match os with [] => mret s | o :: os => s ← sstep o s; srun os s end.

Lemma sstep_owned o s st :
  owned (fs_nodes st) s → nextSeq s + 1 < 2 ^ 63 →
  ∃ s' st', sstep o (Some s) st = (Some s', st') ∧ owned (fs_nodes st') s' ∧
    dir s' = dir s ∧ maxBytes s' = maxBytes s ∧ nextSeq s' <= nextSeq s + 1.
Proof.
  intros Ho Hn. destruct o as [t|q]; cbn [sstep push ack]; run_st.
  - destruct (push_locked t s st) as [[e s'] st'] eqn:Hr. cbn [fst snd].
    apply push_locked_spec in Hr as (? & ? & ? & ? & _); [|done|done].
    exists s', st'. split_and!; try done. lia.
  - destruct (ack_loop q [] (files s) s st) as [[e s'] st'] eqn:Hr. cbn [fst snd].
    apply ack_loop_spec in Hr as (? & ? & ? & ? & _); [|done|done|done].
    exists s', st'. split_and!; try done. lia.
Qed.
Lemma srun_owned os s st :
  owned (fs_nodes st) s → nextSeq s + zlen os < 2 ^ 63 →
  ∃ s' st', srun os (Some s) st = (Some s', st') ∧ owned (fs_nodes st') s' ∧
    dir s' = dir s ∧ maxBytes s' = maxBytes s ∧ nextSeq s' <= nextSeq s + zlen os.
Proof.
  revert s st. induction os as [|o os IH]; intros s st Ho Hn; cbn [srun].
  { exists s, st. unfold zlen. cbn. split_and!; try done. lia. }
  rewrite zlen_cons in *. pose proof (zlen_nonneg os).
  destruct (sstep_owned o s st Ho) as (s1 & st1 & Hr & Ho1 & Hd1 & Hm1 & Hn1); [lia|].
  run_st. rewrite Hr. cbn [fst snd].
  destruct (IH s1 st1 Ho1) as (s2 & st2 & Hr2 & Ho2 & Hd2 & Hm2 & Hn2); [lia|].
  exists s2, st2. split_and!; try done; [congruence|congruence|lia].
Qed.

(** C3: Crash recovery. Whatever pushes, acknowledgements, evictions and I/O failures (torn
    writes, failed renames and removals included) a spool has gone through, restarting on the
    directory it leaves recovers exactly its queue, in order, with the same byte count, within
    the byte budget, and new sequence numbers stay above the stored ones. *)
Theorem spool_crash_recovery (os : list sop) (s : submitSpool) (st : Fs) (now : Z) :
  owned (fs_nodes st) s → dir s ≠ "" → nextSeq s + zlen os < 2 ^ 63 → 0 <= now →
  ∃ s' st' s'', srun os (Some s) st = (Some s', st') ∧
    newSubmitSpool "" now (dir s') (maxBytes s') (mkFs (fs_nodes st') [])
      = (inr s'', mkFs (fs_nodes st') []) ∧
    contents (fs_nodes st') s'' = contents (fs_nodes st') s' ∧
    bytes (Some s'') = bytes (Some s') ∧ bytes (Some s'') <= maxBytes s ∧
    Forall (λ r, r.1 < nextSeq s'') (contents (fs_nodes st') s'').
Proof.
  intros Ho Hd Hn Hnow.
  destruct (srun_owned os s st Ho Hn) as (s' & st' & Hr & Ho' & Hd' & Hm' & Hn').
  destruct (restart_owned (fs_nodes st') s' "" now) as (s'' & Hrun & Hf & Hc & _ & _ & _ & Hlt);
    [done|by rewrite Hd'|done|lia|].
  exists s', st', s''. split_and!; try done.
  - unfold contents. by rewrite Hf.
  - cbn. rewrite Hc, <- Hm'. apply (ow_le _ _ Ho').
  - unfold contents. apply Forall_fmap. exact Hlt.
Qed.
End history.

(** ** Replay *)
Section drain.
Context `{!SpoolCodec}.

(** Reading decodable files yields their records, in order. *)
Lemma read_tasks_ok m fs sts :
  Forall2 (λ f st, ∃ d, m !! fpath f = Some (NFile d) ∧ json_Unmarshal d = inr st) fs sts →
  read_tasks fs (mkFs m []) = (inr sts, mkFs m []).
Proof.
  induction 1 as [|f st fs sts (d & Hd & Hu) Hsts IH]; [done|]. cbn [read_tasks].
  unfold ReadFile, next_fault. run_st. cbn [fs_faults fs_nodes fst snd].
  rewrite Hd. cbn [fst snd]. rewrite Hu. run_st. by rewrite IH.
Qed.
Lemma read_tasks_corrupt m fs1 f fs2 d e :
  (∀ g, g ∈ fs1 → ∃ d', m !! fpath g = Some (NFile d')) →
  m !! fpath f = Some (NFile d) → json_Unmarshal d = inl e →
  ∃ e', read_tasks (fs1 ++ f :: fs2) (mkFs m []) = (inl e', mkFs m []).
Proof.
  intros H1 Hf He. induction fs1 as [|g fs1 IH]; cbn [app read_tasks].
  - unfold ReadFile, next_fault. run_st. cbn [fs_faults fs_nodes fst snd].
    rewrite Hf. cbn [fst snd]. rewrite He. by eexists.
  - destruct (H1 g) as [d' Hg]; [by left|]. destruct IH as [e' IH]; [intros; apply H1; by right|].
    unfold ReadFile, next_fault. run_st. cbn [fs_faults fs_nodes fst snd].
    rewrite Hg. cbn [fst snd]. destruct (json_Unmarshal d'); run_st; [by eexists|].
    rewrite IH. by eexists.
Qed.

(** A spool whose files all hold what [push] wrote. *)
Definition decodes (m : gmap path node) (s : submitSpool) (sts : list spoolTask) : Prop :=
  Forall2 (λ r st, r.1 = Seq st ∧ json_Unmarshal r.2 = inr st) (contents m s) sts.

Lemma encode_decodes q t st d :
  json_ok (opts t) → encode q t = inr (st, d) →
  json_Unmarshal d = inr st ∧ Seq st = q ∧ Opts st = opts t.
Proof.
  unfold encode. intros Hok. destruct (json_Marshal _) as [|d0]; [done|].
  destruct (json_Marshal _) as [|d1] eqn:Hm; [done|]. intros [= <- <-].
  split; [|done]. eapply json_roundtrip; [|exact Hm]. exact Hok.
Qed.

Lemma encode_fields q t st d :
  encode q t = inr (st, d) → Seq st = q ∧ Opts st = opts t ∧ EnqueuedAt st = enqueuedAt t ∧ Attempts st = attempts t.
Proof.
  unfold encode. destruct (json_Marshal _) as [|d0]; [done|]. destruct (json_Marshal _) as [|d1]; [done|].
  by intros [= <- _].
Qed.

Lemma decodes_files m fs sts :
  Forall (on_disk m) fs →
  Forall2 (λ r st, r.1 = Seq st ∧ json_Unmarshal r.2 = inr st)
    ((λ f, (seq f, file_data m (fpath f))) <$> fs) sts →
  Forall2 (λ f st, ∃ d, m !! fpath f = Some (NFile d) ∧ json_Unmarshal d = inr st) fs sts.
Proof.
  revert sts. induction fs as [|f fs IH]; intros sts Hdisk Hd; inversion Hd as [|? st ? sts' [_ Hu] Hd']; subst;
    constructor; apply Forall_cons in Hdisk as [(d & Hd1 & _) Hdisk]; [|by apply IH].
  exists d. split; [done|]. cbn in Hu. unfold file_data in Hu. by rewrite Hd1 in Hu.
Qed.

Lemma drain_ok (max : Z) (m : gmap path node) (s : submitSpool) (sts : list spoolTask) :
  owned m s → decodes m s sts →
  drain max (Some s) (mkFs m [])
  = (inr (take (Z.to_nat (clamp_max max (len (Some s)))) sts), mkFs m []).
Proof.
  intros Ho Hd. unfold drain. cbn [len].
  assert (length (files s) = length sts) as Hlen.
  { apply Forall2_length in Hd. unfold contents in Hd. by rewrite length_fmap in Hd. }
  destruct (files s) as [|f fs] eqn:Hf.
  { destruct sts; [|done]. by rewrite take_nil. }
  rewrite <- Hf in *. apply read_tasks_ok. apply Forall2_take. unfold decodes, contents in Hd.
  apply decodes_files; [apply (ow_disk _ _ Ho)|done].
Qed.

(** Replay order. On a spool whose records decode, [drain] returns the oldest records in
    the order they were pushed, at most the requested number (all when [max <= 0]), and
    leaves the disk untouched. *)
Lemma drain_fifo (max : Z) (m : gmap path node) (s : submitSpool) (sts : list spoolTask) :
  owned m s → decodes m s sts →
  drain max (Some s) (mkFs m [])
  = (inr (take (Z.to_nat (clamp_max max (len (Some s)))) sts), mkFs m []).
Proof. apply drain_ok. Qed.

(** A record that does not decode blocks replay. If one of the records a round would read
    is corrupt, [drain] returns an error and no record at all, whatever its position, so the
    records after it are not delivered. *)
Lemma corrupt_record_blocks_drain (max : Z) (m : gmap path node) (s : submitSpool)
    (i : nat) (q : Z) (d : string) (e : goerr) :
  owned m s → contents m s !! i = Some (q, d) → json_Unmarshal d = inl e →
  (i < Z.to_nat (clamp_max max (len (Some s))))%nat →
  ∃ e', drain max (Some s) (mkFs m []) = (inl e', mkFs m []).
Proof.
  intros Ho Hi He Hlt. unfold contents in Hi. rewrite list_lookup_fmap in Hi.
  destruct (files s !! i) as [f|] eqn:Hf; [|done]. cbn in Hi. injection Hi as <- Hd.
  pose proof (ow_disk _ _ Ho) as Hdisk. unfold drain. cbn [len] in Hlt.
  destruct (files s) as [|g0 fs] eqn:Hfs; [done|]. rewrite <- Hfs in *.
  set (n := Z.to_nat _) in *. assert (take n (files s) !! i = Some f) as Hti.
  { by rewrite lookup_take_lt. }
  rewrite <- (take_drop_middle _ _ _ Hti).
  assert (∀ g, g ∈ files s → ∃ d', m !! fpath g = Some (NFile d')) as Hall.
  { intros g Hg. destruct (proj1 (Forall_forall _ _) Hdisk g Hg) as (d' & ? & _). eauto. }
  assert (f ∈ files s) as Hin by (by eapply list_elem_of_lookup_2).
  destruct (Hall f Hin) as [d' Hd']. unfold file_data in Hd. rewrite Hd' in Hd. subst d'.
  apply read_tasks_corrupt with d e; [|done|done]. intros g Hg. apply Hall.
  apply list_elem_of_lookup in Hg as [j Hg]. apply lookup_take_Some in Hg as [Hg _].
  apply lookup_take_Some in Hg as [Hg _]. by eapply list_elem_of_lookup_2.
Qed.
End drain.

(** ** A concrete codec for the witnesses: fixed-width numbers, then the job name.  It refuses
    the records it cannot represent. *)
Definition demo_unmarshal (d : string) : goerr + spoolTask :=
  let num i := ParseInt (str_take 20 (str_drop (20 * i) d)) in
  match num 0%nat, num 1%nat, num 2%nat, num 3%nat with
  | Some q, Some enq, Some att, Some sz =>
      inr (mkSpoolTask q (mkSubmitOptions (str_drop 80 d) "" "" 0 "" "") enq att sz)
  | _, _, _, _ => inl (ErrExt "json: syntax error")
  end.
Definition demo_marshal (st : spoolTask) : goerr + string :=
  let d := fmt_0d 20 (Seq st) +++ fmt_0d 20 (EnqueuedAt st) +++ fmt_0d 20 (Attempts st)
             +++ fmt_0d 20 (SizeBytes st) +++ JobName (Opts st) in
  if bool_decide (demo_unmarshal d = inr st) then inr d
  else inl (ErrExt "json: unsupported value").
Program Definition demo_codec : SpoolCodec := {|
  json_Marshal := demo_marshal; json_Unmarshal := demo_unmarshal; json_ok := λ _, True |}.
Next Obligation.
  intros st d _. unfold demo_marshal. case_bool_decide as E; [|done]. by intros [= <-].
Qed.

Lemma owned_empty d maxb next :
  0 < maxb < 2 ^ 62 → 0 <= next < 2 ^ 63 → owned ∅ (mkSubmitSpool d maxb next 0 []).
Proof.
  intros. split; cbn; try done; try constructor; lia.
Qed.

Definition demo_submit (job : string) : bufferedTask :=
  mkBufferedTask (mkSubmitOptions job "" "" 0 "" "") 1000 0.
Definition demo_spool : submitSpool := mkSubmitSpool "/spool" 170 7 0 [].
Definition demo_ops : list sop :=
  [SPush (demo_submit "a"); SPush (demo_submit "b"); SPush (demo_submit "c"); SAck 8].
(** The second push's rename fails: its record is lost, nothing else. *)
Definition demo_faults : list fault := [FaultNone; FaultNone; FaultNone; FaultErr].

Lemma demo_owned : owned (fs_nodes (mkFs ∅ demo_faults)) demo_spool.
Proof. by apply owned_empty. Qed.

Lemma spool_crash_recovery_witness :
  ∃ s' st' s'',
    @srun demo_codec demo_ops (Some demo_spool) (mkFs ∅ demo_faults) = (Some s', st') ∧
    newSubmitSpool "" 1 (dir s') (maxBytes s') (mkFs (fs_nodes st') [])
      = (inr s'', mkFs (fs_nodes st') []) ∧
    contents (fs_nodes st') s'' = contents (fs_nodes st') s' ∧
    bytes (Some s'') = bytes (Some s') ∧ bytes (Some s'') <= 170 ∧
    Forall (λ r, r.1 < nextSeq s'') (contents (fs_nodes st') s'').
Proof.
  apply (@spool_crash_recovery demo_codec demo_ops demo_spool (mkFs ∅ demo_faults) 1);
    [exact demo_owned|done|vm_compute; reflexivity|done].
Defined.

(** The spool after two pushes, for the two replay theorems. *)
Definition demo_after : submitSpool * Fs :=
  match @srun demo_codec (take 2 demo_ops) (Some demo_spool) (mkFs ∅ []) with
  | (Some s, st) => (s, st)
  | (None, st) => (demo_spool, st)
  end.
Lemma demo_after_owned : owned (fs_nodes demo_after.2) demo_after.1.
Proof.
  destruct (@srun_owned demo_codec (take 2 demo_ops) demo_spool (mkFs ∅ []))
    as (s' & st' & Hr & Ho & _); [by apply owned_empty|done|].
  unfold demo_after. by rewrite Hr.
Qed.
Definition demo_records : list spoolTask :=
  [mkSpoolTask 7 (opts (demo_submit "a")) 1000 0 81;
   mkSpoolTask 8 (opts (demo_submit "b")) 1000 0 81].
Lemma drain_fifo_witness :
  @drain demo_codec 1 (Some demo_after.1) (mkFs (fs_nodes demo_after.2) [])
  = (inr (take 1 demo_records), mkFs (fs_nodes demo_after.2) []).
Proof.
  rewrite (@drain_fifo demo_codec 1 (fs_nodes demo_after.2) demo_after.1 demo_records);
    [reflexivity|exact demo_after_owned|].
  unfold decodes. apply (bool_decide_unpack _). vm_compute. reflexivity.
Defined.
(** A spool with one foreign file that has a task file's name but is not JSON. *)
Definition demo_corrupt : gmap path node :=
  {[ ("/spool", final_name 7) := NFile "oops" ]}.
Definition demo_corrupt_spool : submitSpool :=
  mkSubmitSpool "/spool" 170 8 4 [mkSpoolFile 7 ("/spool", final_name 7) 4].
Lemma corrupt_record_blocks_drain_witness :
  ∃ e', @drain demo_codec 0 (Some demo_corrupt_spool) (mkFs demo_corrupt [])
        = (inl e', mkFs demo_corrupt []).
Proof.
  apply (@corrupt_record_blocks_drain demo_codec 0 demo_corrupt demo_corrupt_spool 0 7 "oops"
           (ErrExt "json: syntax error")); [|reflexivity|reflexivity|vm_compute; lia].
  split; cbn; try done; [by repeat constructor| |by repeat constructor|].
  - constructor; [|constructor]. exists "oops". by vm_compute.
  - intros name n q Hn Hq. unfold demo_corrupt in Hn. apply lookup_singleton_Some in Hn as [[= <-] _]. by left.
Defined.
