(* ===== verification/Digest.v ===== *)
(** Bytes, hexadecimal, SHA-256, HMAC and CRC-32: the parts of Go's [encoding/hex],
    [crypto/sha256], [crypto/hmac] and [hash/crc32] the repository calls. *)
From stdpp Require Import prelude strings list.
From Stdlib Require Import Ascii.
From S2P Require Import Prelude GoStrings.

(** ** Bytes *)
Definition byte_char (z : Z) : ascii := ascii_of_N (Z.to_N z).
Fixpoint to_bytes (s : string) : list Z :=
  match s with EmptyString => [] | String c s => byte_of c :: to_bytes s end.
Fixpoint of_bytes (l : list Z) : string :=
  match l with [] => EmptyString | b :: l => String (byte_char b) (of_bytes l) end.
Definition is_byte (b : Z) : Prop := 0 <= b < 256.

Lemma byte_of_range c : is_byte (byte_of c).
Proof. unfold is_byte, byte_of. pose proof (nat_ascii_bounded c). lia. Qed.
Lemma byte_char_of c : byte_char (byte_of c) = c.
Proof.
  unfold byte_char, byte_of. rewrite <- (ascii_nat_embedding c) at 2.
  unfold ascii_of_nat. f_equal. lia.
Qed.
Lemma byte_of_char b : is_byte b → byte_of (byte_char b) = b.
Proof.
  unfold is_byte, byte_of, byte_char, nat_of_ascii. intros H.
  rewrite N_ascii_embedding; lia.
Qed.
Lemma of_to_bytes s : of_bytes (to_bytes s) = s.
Proof. induction s; cbn; [done|]. by rewrite byte_char_of, IHs. Qed.
Lemma to_of_bytes l : Forall is_byte l → to_bytes (of_bytes l) = l.
Proof. induction 1; cbn; [done|]. by rewrite byte_of_char, IHForall. Qed.
Lemma to_bytes_range s : Forall is_byte (to_bytes s).
Proof. induction s; constructor; auto using byte_of_range. Qed.
Lemma length_to_bytes s : length (to_bytes s) = String.length s.
Proof. induction s; cbn; congruence. Qed.
Lemma length_of_bytes l : String.length (of_bytes l) = length l.
Proof. induction l; cbn; congruence. Qed.
Lemma to_bytes_app s1 s2 : to_bytes (s1 +++ s2) = to_bytes s1 ++ to_bytes s2.
Proof. induction s1; cbn; congruence. Qed.

(** ** [hex.EncodeToString] and [hex.DecodeString] *)
Definition hex_digit (n : Z) : ascii :=
  if n <? 10 then byte_char (48 + n) else byte_char (87 + n).
Fixpoint hex_encode (l : list Z) : string :=
  match l with
  | [] => EmptyString
  | b :: l => String (hex_digit (b / 16)) (String (hex_digit (b mod 16)) (hex_encode l))
  end.
Definition unhex_digit (c : ascii) : option Z :=
  let n := byte_of c in
  if (48 <=? n) && (n <=? 57) then Some (n - 48)
  else if (97 <=? n) && (n <=? 102) then Some (n - 87)
  else if (65 <=? n) && (n <=? 70) then Some (n - 55)
  else None.
Fixpoint hex_decode (s : string) : option (list Z) :=
  match s with
  | EmptyString => Some []
  | String c1 (String c2 s) =>
      match unhex_digit c1, unhex_digit c2, hex_decode s with
      | Some a, Some b, Some l => Some (16 * a + b :: l)
      | _, _, _ => None
      end
  | String _ EmptyString => None
  end.

Lemma unhex_hex n : 0 <= n < 16 → unhex_digit (hex_digit n) = Some n.
Proof.
  intros H. unfold unhex_digit, hex_digit.
  destruct (Z.ltb_spec n 10); rewrite byte_of_char by (unfold is_byte; lia);
    repeat (case_bool; cbn [andb]; try lia); f_equal; lia.
Qed.
Lemma hex_decode_encode l : Forall is_byte l → hex_decode (hex_encode l) = Some l.
Proof.
  induction 1 as [|b l Hb Hl IH]; cbn; [done|]. unfold is_byte in Hb.
  rewrite !unhex_hex, IH by dlia. do 2 f_equal. dlia.
Qed.
Lemma length_hex_encode l : String.length (hex_encode l) = (2 * length l)%nat.
Proof. induction l; cbn; lia. Qed.

(** ** Words *)
Definition add32 (a b : Z) : Z := u32 (a + b).
Definition rotr (n x : Z) : Z := Z.lor (Z.shiftr x n) (u32 (Z.shiftl x (32 - n))).
Definition not32 (x : Z) : Z := Z.lxor x (2 ^ 32 - 1).
Fixpoint be_word (l : list Z) : Z :=
  match l with [] => 0 | b :: l => b * 256 ^ Z.of_nat (length l) + be_word l end.
(** The [n] bytes of a word, most significant first. *)
Fixpoint be_bytes (n : nat) (w : Z) : list Z :=
  match n with O => [] | S n => (w / 256 ^ Z.of_nat n) mod 256 :: be_bytes n w end.
Lemma be_bytes_range n w : Forall is_byte (be_bytes n w).
Proof. induction n; constructor; [unfold is_byte; apply Z.mod_pos_bound; lia|done]. Qed.
Lemma length_be_bytes n w : length (be_bytes n w) = n.
Proof. induction n; cbn; congruence. Qed.

Fixpoint chunks (fuel n : nat) (l : list Z) : list (list Z) :=
  match fuel with
  | O => []
  | S fuel => match l with [] => [] | _ => take n l :: chunks fuel n (drop n l) end
  end.

(** ** SHA-256 (FIPS 180-4) *)
(** The constants of the standard, as the hexadecimal text of their big-endian bytes. *)
Definition words_of_hex (s : string) : list Z :=
  match hex_decode s with Some l => map be_word (chunks (length l) 4 l) | None => [] end.
Definition sha256_K : list Z := words_of_hex (
    "428a2f9871374491b5c0fbcfe9b5dba53956c25b59f111f1923f82a4ab1c5ed5" +++
    "d807aa9812835b01243185be550c7dc372be5d7480deb1fe9bdc06a7c19bf174" +++
    "e49b69c1efbe47860fc19dc6240ca1cc2de92c6f4a7484aa5cb0a9dc76f988da" +++
    "983e5152a831c66db00327c8bf597fc7c6e00bf3d5a7914706ca635114292967" +++
    "27b70a852e1b21384d2c6dfc53380d13650a7354766a0abb81c2c92e92722c85" +++
    "a2bfe8a1a81a664bc24b8b70c76c51a3d192e819d6990624f40e3585106aa070" +++
    "19a4c1161e376c082748774c34b0bcb5391c0cb34ed8aa4a5b9cca4f682e6ff3" +++
    "748f82ee78a5636f84c878148cc7020890befffaa4506cebbef9a3f7c67178f2").
Definition sha256_H0 : list Z := words_of_hex
  "6a09e667bb67ae853c6ef372a54ff53a510e527f9b05688c1f83d9ab5be0cd19".

Definition sig0 x := Z.lxor (Z.lxor (rotr 7 x) (rotr 18 x)) (Z.shiftr x 3).
Definition sig1 x := Z.lxor (Z.lxor (rotr 17 x) (rotr 19 x)) (Z.shiftr x 10).
Definition Sig0 x := Z.lxor (Z.lxor (rotr 2 x) (rotr 13 x)) (rotr 22 x).
Definition Sig1 x := Z.lxor (Z.lxor (rotr 6 x) (rotr 11 x)) (rotr 25 x).
Definition Ch x y z := Z.lxor (Z.land x y) (Z.land (not32 x) z).
Definition Maj x y z := Z.lxor (Z.lxor (Z.land x y) (Z.land x z)) (Z.land y z).

(** The message schedule, kept newest first: [w] holds W(t-1), W(t-2), ... *)
Fixpoint schedule (n : nat) (w : list Z) : list Z :=
  match n with
  | O => w
  | S n =>
      let g i := nth i w 0 in
      schedule n (add32 (add32 (sig1 (g 1%nat)) (g 6%nat))
                        (add32 (sig0 (g 14%nat)) (g 15%nat)) :: w)
  end.
Definition sha_round (st : list Z) (kw : Z * Z) : list Z :=
  match st with
  | [a; b; c; d; e; f; g; h] =>
      let t1 := add32 (add32 (add32 h (Sig1 e)) (Ch e f g)) (add32 kw.1 kw.2) in
      let t2 := add32 (Sig0 a) (Maj a b c) in
      [add32 t1 t2; a; b; c; add32 d t1; e; f; g]
  | _ => st
  end.
Definition sha_block (h : list Z) (blk : list Z) : list Z :=
  let w := rev (schedule 48 (rev (map be_word (chunks 16 4 blk)))) in
  zip_with add32 h (foldl sha_round h (zip sha256_K w)).
Definition sha_pad (l : list Z) : list Z :=
  let n := zlen l in
  l ++ 128 :: repeat 0 (Z.to_nat ((55 - n) mod 64)) ++ be_bytes 8 (8 * n).
Definition sha256 (l : list Z) : list Z :=
  let p := sha_pad l in
  concat (map (be_bytes 4) (foldl sha_block sha256_H0 (chunks (length p / 64) 64 p))).

(** ** HMAC-SHA-256: [hmac.New(sha256.New, key)], writes, [Sum(nil)] *)
Definition hmac_sha256 (key msg : list Z) : list Z :=
  let k := if (64 <? length key)%nat then sha256 key else key in
  let k := k ++ repeat 0 (64 - length k) in
  sha256 (map (Z.lxor 0x5c) k ++ sha256 (map (Z.lxor 0x36) k ++ msg)).

(** ** CRC-32 (IEEE): [crc32.ChecksumIEEE] *)
Fixpoint crc_bits (n : nat) (c : Z) : Z :=
  match n with
  | O => c
  | S n => crc_bits n (if Z.testbit c 0 then Z.lxor (Z.shiftr c 1) 0xEDB88320 else Z.shiftr c 1)
  end.
Definition crc32 (l : list Z) : Z :=
  not32 (foldl (λ c b, crc_bits 8 (Z.lxor c b)) (2 ^ 32 - 1) l).

(** Published test vectors. *)
Example sha256_abc : hex_encode (sha256 (to_bytes "abc"))
  = "ba7816bf8f01cfea414140de5dae2223b00361a396177a9cb410ff61f20015ad".
Proof. vm_compute. reflexivity. Qed.
Example sha256_two_blocks :
  hex_encode (sha256 (to_bytes "abcdbcdecdefdefgefghfghighijhijkijkljklmklmnlmnomnopnopq"))
  = "248d6a61d20638b8e5c026930c3e6039a33ce45964ff2167f6ecedd419db06c1".
Proof. vm_compute. reflexivity. Qed.
Example hmac_jefe :
  hex_encode (hmac_sha256 (to_bytes "Jefe") (to_bytes "what do ya want for nothing?"))
  = "5bdcc146bf60754e6a042426089575c75a003f089d2739839dec58b964ec3843".
Proof. vm_compute. reflexivity. Qed.
Example crc32_check : crc32 (to_bytes "123456789") = 0xCBF43926.
Proof. vm_compute. reflexivity. Qed.

Lemma length_sha256_block h blk :
  length h = 8%nat → length (sha_block h blk) = 8%nat.
Proof.
  intros Hh. unfold sha_block. rewrite length_zip_with, Hh.
  assert (∀ l st, length st = 8%nat → length (foldl sha_round st l) = 8%nat) as H.
  { induction l as [|kw l IH]; intros st Hst; [done|]. cbn. apply IH.
    do 8 (destruct st as [|? st]; [done|]). by destruct st. }
  rewrite H by done. done.
Qed.
Lemma length_sha256 l : length (sha256 l) = 32%nat.
Proof.
  unfold sha256. generalize (chunks (length (sha_pad l) / 64) 64 (sha_pad l)). intros bs.
  assert (length (foldl sha_block sha256_H0 bs) = 8%nat) as H.
  { assert (length sha256_H0 = 8%nat) as H0 by done. revert H0. generalize sha256_H0.
    induction bs as [|b bs IH]; intros h Hh; [done|]. cbn. apply IH.
    by apply length_sha256_block. }
  generalize dependent (foldl sha_block sha256_H0 bs). intros h Hh.
  do 8 (destruct h as [|? h]; [done|]). by destruct h.
Qed.
Lemma sha256_bytes l : Forall is_byte (sha256 l).
Proof.
  unfold sha256. apply Forall_concat, Forall_forall. intros x Hx.
  apply list_elem_of_In, in_map_iff in Hx as (w & <- & _). apply be_bytes_range.
Qed.
