(* ===== verification/Utf8.v ===== *)
(** Runes of a string as Go's [range], [[]rune(s)] and [string(runes)] see them. *)
From Stdlib Require Import Ascii.
From stdpp Require Import prelude strings list.
From S2P Require Import Prelude GoStrings Digest.

(** ** Decoding *)
Definition RuneError : Z := 0xFFFD.
(** A continuation byte between two bounds, and the range of the second byte after a leading
    one ([utf8.DecodeRune]'s tables). *)
Definition between (lo hi b : Z) : bool := (lo <=? b) && (b <=? hi).
Definition cont (b : Z) : bool := between 0x80 0xBF b.
Definition second_ok (b0 b1 : Z) : bool :=
  if b0 =? 0xE0 then between 0xA0 0xBF b1
  else if b0 =? 0xED then between 0x80 0x9F b1
  else if b0 =? 0xF0 then between 0x90 0xBF b1
  else if b0 =? 0xF4 then between 0x80 0x8F b1
  else cont b1.
(** The first rune of a non-empty list of bytes, and how many bytes come after its first. *)
Definition decode_rune (b0 : Z) (rest : list Z) : Z * nat :=
  if b0 <? 0x80 then (b0, 0%nat)
  else if between 0xC2 0xDF b0 then
    match rest with
    | b1 :: _ => if cont b1 then ((b0 - 0xC0) * 64 + (b1 - 0x80), 1%nat) else (RuneError, 0%nat)
    | _ => (RuneError, 0%nat)
    end
  else if between 0xE0 0xEF b0 then
    match rest with
    | b1 :: b2 :: _ =>
        if second_ok b0 b1 && cont b2
        then ((b0 - 0xE0) * 4096 + (b1 - 0x80) * 64 + (b2 - 0x80), 2%nat) else (RuneError, 0%nat)
    | _ => (RuneError, 0%nat)
    end
  else if between 0xF0 0xF4 b0 then
    match rest with
    | b1 :: b2 :: b3 :: _ =>
        if second_ok b0 b1 && cont b2 && cont b3
        then ((b0 - 0xF0) * 262144 + (b1 - 0x80) * 4096 + (b2 - 0x80) * 64 + (b3 - 0x80), 3%nat)
        else (RuneError, 0%nat)
    | _ => (RuneError, 0%nat)
    end
  else (RuneError, 0%nat).
(** [for i, r := range s]: the runes with their byte offsets; [skip] bytes of a rune are left. *)
Fixpoint range_bytes (i skip : nat) (l : list Z) : list (nat * Z) :=
  match l with
  | [] => []
  | b :: l =>
      match skip with
      | S skip => range_bytes (S i) skip l
      | O => let '(r, n) := decode_rune b l in (i, r) :: range_bytes (S i) n l
      end
  end.
Definition range_string (s : string) : list (nat * Z) := range_bytes 0 0 (to_bytes s).
Definition runes (s : string) : list Z := (range_string s).*2.

(** ** Encoding *)
Definition encode_rune (r : Z) : list Z :=
  if (r <? 0) || (0x10FFFF <? r) || between 0xD800 0xDFFF r then [0xEF; 0xBF; 0xBD]
  else if r <? 0x80 then [r]
  else if r <? 0x800 then [0xC0 + Z.shiftr r 6; 0x80 + Z.land r 63]
  else if r <? 0x10000 then [0xE0 + Z.shiftr r 12; 0x80 + Z.land (Z.shiftr r 6) 63; 0x80 + Z.land r 63]
  else [0xF0 + Z.shiftr r 18; 0x80 + Z.land (Z.shiftr r 12) 63; 0x80 + Z.land (Z.shiftr r 6) 63;
        0x80 + Z.land r 63].
Definition string_of_runes (l : list Z) : string := of_bytes (mjoin (map encode_rune l)).

(** ** ASCII *)
Definition is_ascii (s : string) : bool := str_all (λ c, byte_of c <? 128) s.
Definition ascii_rune (r : Z) : Prop := 0 <= r < 128.
Lemma encode_rune_ascii r : ascii_rune r → encode_rune r = [r].
Proof.
  unfold ascii_rune, encode_rune, between. intros Hr.
  replace (r <? 0) with false by lia. replace (0x10FFFF <? r) with false by lia.
  replace (0xD800 <=? r) with false by lia. by replace (r <? 0x80) with true by lia.
Qed.
Lemma encode_runes_ascii l : Forall ascii_rune l → mjoin (map encode_rune l) = l.
Proof. induction 1 as [|r l Hr _ IH]; [done|]. cbn. rewrite encode_rune_ascii by done. cbn. by f_equal. Qed.
Lemma to_string_of_runes l : Forall ascii_rune l → to_bytes (string_of_runes l) = l.
Proof.
  intros Hl. unfold string_of_runes. rewrite encode_runes_ascii by done. apply to_of_bytes.
  eapply Forall_impl; [exact Hl|]. unfold ascii_rune, is_byte. lia.
Qed.
(** Every rune of an ASCII string is its byte, at its index. *)
Lemma range_bytes_ascii i l : Forall ascii_rune l → range_bytes i 0 l = imap (λ k b, ((i + k)%nat, b)) l.
Proof.
  intros Hl. revert i. induction Hl as [|b l Hb _ IH]; intros i; [done|].
  cbn [range_bytes]. unfold decode_rune. assert ((b <? 0x80) = true) as -> by (unfold ascii_rune in Hb; lia).
  rewrite imap_cons, IH, Nat.add_0_r. f_equal. apply imap_ext. intros k x _. cbn. f_equal. lia.
Qed.
Lemma snd_imap {A B} (f : nat → A) (l : list B) : (imap (λ k b, (f k, b)) l).*2 = l.
Proof.
  revert f. induction l as [|b l IH]; intros f; [done|]. rewrite imap_cons. cbn. f_equal. apply (IH (f ∘ S)).
Qed.
Lemma is_ascii_bytes s : is_ascii s = true ↔ Forall ascii_rune (to_bytes s).
Proof.
  induction s as [|c s IH]; [done|]. cbn [is_ascii str_all to_bytes].
  rewrite Forall_cons, andb_true_iff, Z.ltb_lt. pose proof (byte_of_range c) as Hc.
  unfold is_byte in Hc. unfold ascii_rune at 1. fold (is_ascii s). rewrite IH. intuition lia.
Qed.
Lemma runes_ascii s : is_ascii s = true → runes s = to_bytes s.
Proof.
  intros Hs%is_ascii_bytes. unfold runes, range_string. rewrite range_bytes_ascii by done.
  apply snd_imap.
Qed.
Lemma string_of_runes_ascii s : is_ascii s = true → string_of_runes (runes s) = s.
Proof.
  intros Hs. rewrite runes_ascii by done. unfold string_of_runes.
  rewrite encode_runes_ascii by (by apply is_ascii_bytes). apply of_to_bytes.
Qed.

(** A decoded rune is encoded as the bytes it was read from, unless they are not UTF-8. *)
Example decode_two : runes (of_bytes [0xC3; 0xA9; 0x41; 0xE4; 0xBD; 0xA0; 0xFF; 0xF0; 0x9F; 0x98; 0x80])
  = [0xE9; 0x41; 0x4F60; RuneError; 0x1F600].
Proof. vm_compute. reflexivity. Qed.
Example encode_two : to_bytes (string_of_runes [0xE9; 0x41; 0x4F60; 0x1F600])
  = [0xC3; 0xA9; 0x41; 0xE4; 0xBD; 0xA0; 0xF0; 0x9F; 0x98; 0x80].
Proof. vm_compute. reflexivity. Qed.
