(* ===== verification/SchedClient.v ===== *)
(** The submission side of the scheduler SDK: [Client] (client.go), request signing
    (signature.go), gRPC error classification (errors.go), the unary calls (submit.go) and
    the local fallback path with its replay loop (submit_buffer.go). *)
From stdpp Require Import prelude gmap strings list.
From S2P Require Import Prelude GoStrings GoOs Digest SubmitTypes SubmitBuffer SubmitSpool.

(** ** Protocol messages (the fields the SDK reads or fills) *)
Record SubmitTaskRequest := mkSubmitTaskRequest {
  req_AppName : string; req_AppKey : string; req_Signature : string; req_Nonce : string;
  req_Ts : Z; req_JobName : string; req_BizKey : string; req_Payload : string;
  req_DedupeWindowSec : Z; req_TraceId : string; req_SpanId : string }.
Record SubmitTaskResponse := mkSubmitTaskResponse { resp_RunId : string; resp_Dedup : bool }.
Record CancelRunResponse := mkCancelRunResponse { resp_Ok : bool; resp_Error : string }.

(** What the client needs from the outside.  [n] numbers the observations: [clock n] is the
    n-th reading of the clock (unix nanoseconds), [rand8 n] the eight random bytes
    or a failure; the [rpc_*] functions are the generated gRPC stubs with the server behind
    them ([dl] is the deadline of the call's context); [FromError] is grpc-go's
    [status.FromError] with the code's name, [None] when the error carries no status;
    [concurrent n] are the tasks other goroutines put in the fallback queue while call
    [n] is in flight. *)
Class Platform := {
  Run : Type;
  JobSpec : Type;
  clock : nat → Z;
  rand8 : nat → option (list Z);
  FromError : goerr → option string;
  rpc_SubmitTask : nat → option Z → SubmitTaskRequest → goerr + SubmitTaskResponse;
  rpc_GetRun : nat → option Z → string → goerr + Run;
  rpc_GetJob : nat → option Z → string → option goerr;
  rpc_CreateJob : nat → option Z → string * string * JobSpec → option goerr;
  rpc_CancelRun : nat → option Z → string * string → goerr + CancelRunResponse;
  concurrent : nat → list bufferedTask }.

(** ** signature.go *)
Definition sign (appSecret appKey nonce : string) (ts : Z) : string :=
  hex_encode (hmac_sha256 (to_bytes appSecret)
                (to_bytes appKey ++ to_bytes nonce ++ to_bytes (FormatInt ts))).

(** [strconv.FormatInt(n, 16)] *)
Fixpoint itoa16 (fuel : nat) (n : Z) (acc : string) : string :=
  match fuel with
  | O => acc
  | S f =>
      let acc := String (hex_digit (n mod 16)) acc in
      if n / 16 =? 0 then acc else itoa16 f (n / 16) acc
  end.
Definition FormatInt16 (n : Z) : string :=
  if n <? 0 then "-" +++ itoa16 (S (Z.to_nat (Z.log2 (- n)))) (- n) ""
  else itoa16 (S (Z.to_nat (Z.log2 n))) n "".

Definition newNonce (rnd : option (list Z)) (nowNano : Z) : string :=
  match rnd with
  | Some b => hex_encode b
  | None => FormatInt16 nowNano
  end.

Record signedCreds := mkSignedCreds { Nonce : string; Ts : Z; Signature : string }.

(** ** The client and its world *)
(** A registered [HandlerFunc], by identity. *)
Definition HandlerFunc := nat.

Record Client := mkClient {
  cfg : Config;
  schedCli : bool;   (* non-nil *)
  handlers : gmap string HandlerFunc;
  concurrencySem : Z;   (* capacity *)
  negotiatedHbDelay : Z;
  started : bool;
  localBuffer : option submitBuffer;
  localSpool : option submitSpool }.

(** The state threaded through the calls: the file system, the number of observations made
    and the submit requests sent, with the client itself. *)
Record World := mkWorld {
  w_fs : Fs;
  w_tick : nat;
  w_sent : list SubmitTaskRequest;
  w_cli : Client }.

Definition set_buffer (b : option submitBuffer) (c : Client) : Client :=
  mkClient (cfg c) (schedCli c) (handlers c) (concurrencySem c) (negotiatedHbDelay c)
    (started c) b (localSpool c).
Definition set_spool (s : option submitSpool) (c : Client) : Client :=
  mkClient (cfg c) (schedCli c) (handlers c) (concurrencySem c) (negotiatedHbDelay c)
    (started c) (localBuffer c) s.
Definition upd_cli (f : Client → Client) : State World unit :=
  modify (λ w, mkWorld (w_fs w) (w_tick w) (w_sent w) (f (w_cli w))).
Definition cli : State World Client := gets w_cli.
Definition tick : State World nat :=
  λ w, (w_tick w, mkWorld (w_fs w) (S (w_tick w)) (w_sent w) (w_cli w)).
Definition lift_fs {A} (m : State Fs A) : State World A :=
  λ w, let '(a, fs) := m (w_fs w) in (a, mkWorld fs (w_tick w) (w_sent w) (w_cli w)).
Definition log_sent (r : SubmitTaskRequest) : State World unit :=
  modify (λ w, mkWorld (w_fs w) (w_tick w) (w_sent w ++ [r]) (w_cli w)).

(** ** client.go *)
Definition New (hostname : option string) (pid : Z) (tempDir : string) (now : Z) (c : Config)
    : State Fs (goerr + Client) :=
  let c := applyDefaults hostname pid c in
  match Validate c with
  | Some e => mret (inl e)
  | None =>
      let cl := mkClient c false ∅ (MaxConcurrency c) (HeartbeatInterval c) false None None in
      if LocalBufferEnabled c then
        let cl := set_buffer (Some (newSubmitBuffer (LocalBufferCapacity c))) cl in
        if LocalBufferDiskSpillEnabled c then
          r ← newSubmitSpool tempDir now (LocalBufferDiskSpillDir c)
                (LocalBufferDiskSpillMaxBytes c);
          mret match r with
               | inl e => inl e
               | inr s => inr (set_spool (Some s) cl)
               end
        else mret (inr cl)
      else mret (inr cl)
  end.

Definition RegisterHandler (jobName : string) (h : option HandlerFunc) (c : Client)
    : gores Client :=
  if bool_decide (jobName = "") then Panic "scheduler: RegisterHandler with empty jobName"
  else match h with
       | None => Panic "scheduler: RegisterHandler with nil handler"
       | Some h => Ret (mkClient (cfg c) (schedCli c) (<[jobName := h]> (handlers c))
                          (concurrencySem c) (negotiatedHbDelay c) (started c)
                          (localBuffer c) (localSpool c))
       end.
(** In the order of some map iteration; only its elements are used. *)
Definition handlerNames (c : Client) : list string := (map_to_list (handlers c)).*1.
Definition lookupHandler (jobName : string) (c : Client) : option HandlerFunc :=
  handlers c !! jobName.

Definition ErrAlreadyStarted : goerr := ErrSentinel "scheduler: client already started".
Definition set_started (b conn : bool) (c : Client) : Client :=
  mkClient (cfg c) conn (handlers c) (concurrencySem c) (negotiatedHbDelay c) b
    (localBuffer c) (localSpool c).
(** The goroutines a successful [Start] launches. *)
Inductive goroutine := GoStreamLoop | GoBufferRetryLoop.
(** [Start]; [dial] is the outcome of [grpc.DialContext]. *)
Definition Start (dial : option goerr) (c : Client) : (option goerr * list goroutine) * Client :=
  if started c then ((Some ErrAlreadyStarted, []), c)
  else
    let c := set_started true (schedCli c) c in
    match dial with
    | Some e =>
        ((Some (ErrWrap ("scheduler: dial " +++ Endpoint (cfg c)) e), []),
         set_started false (schedCli c) c)
    | None =>
        ((None, GoStreamLoop ::
           match localBuffer c with Some _ => [GoBufferRetryLoop] | None => [] end),
         set_started true true c)
    end.
(** The steps of [Stop] with an effect on others, in order; [schedCli] stays set. *)
Inductive stop_action := ActRootCancel | ActAwaitStream | ActAwaitInflight | ActCloseConn.
Definition Stop (c : Client) : list stop_action * Client :=
  if started c then
    ([ActRootCancel; ActAwaitStream; ActAwaitInflight; ActCloseConn],
     set_started false (schedCli c) c)
  else ([], c).

Definition ErrSubmitNotConnected : goerr :=
  ErrSentinel "scheduler: SubmitTask requires Start() first".
Definition ErrLocalBufferDisabled : goerr :=
  ErrSentinel "scheduler: local buffer disabled, set Config.LocalBufferEnabled=true".
Definition ErrLocalBufferFull : goerr := ErrSentinel "scheduler: local buffer full".

Section client.
Context `{!Platform, !SpoolCodec}.

Definition now : State World Z := n ← tick; mret (clock n).

(** [newSignedCreds] *)
Definition newSignedCreds (appKey appSecret : string) : State World signedCreds :=
  n ← tick;
  let nonce := newNonce (rand8 n) (clock n) in
  t ← now;
  let ts := t / Second in
  mret (mkSignedCreds nonce ts (sign appSecret appKey nonce ts)).

(** The default timeout the unary calls put on a context without a deadline. *)
Definition with_default_timeout (ctx : option Z) (c : Client) : State World (option Z) :=
  match ctx with
  | Some d => mret (Some d)
  | None => t ← now; mret (Some (t + SubmitTimeout (cfg c)))
  end.

(** *** errors.go *)
Definition grpcStatus (e : goerr) : string * bool :=
  match FromError e with Some code => (code, true) | None => ("", false) end.
Definition isNotFoundErr (e : goerr) : bool := bool_decide (FromError e = Some "NotFound").
Definition isAlreadyExistsErr (e : goerr) : bool :=
  bool_decide (FromError e = Some "AlreadyExists").
Definition isRetriableSubmitErr (e : option goerr) : bool :=
  match e with
  | None => false
  | Some e =>
      match FromError e with
      | None => true
      | Some code =>
          bool_decide (code ∈ ["Unavailable"; "DeadlineExceeded"; "Canceled";
                               "ResourceExhausted"; "Aborted"; "Internal"])
      end
  end.

(** *** The fallback path *)
Definition enqueueBufferedTask (t : bufferedTask) : State World bool :=
  c ← cli;
  match localBuffer c with
  | None => mret false   (* callers check: a method call on the nil queue would panic *)
  | Some b =>
      let '(ok, b) := SubmitBuffer.push b t in
      _ ← upd_cli (set_buffer (Some b));
      if ok then mret true
      else match localSpool c with
           | None => mret false
           | Some _ =>
               '(e, s) ← lift_fs (SubmitSpool.push t (localSpool c));
               _ ← upd_cli (set_spool s);
               mret (match e with None => true | Some _ => false end)
           end
  end.
Fixpoint enqueue_all (ts : list bufferedTask) : State World unit :=
  match ts with [] => mret tt | t :: ts => _ ← enqueueBufferedTask t; enqueue_all ts end.

(** *** submit.go *)
Definition submit_request (c : Client) (cr : signedCreds) (o : SubmitOptions)
    : SubmitTaskRequest :=
  {| req_AppName := AppName (cfg c); req_AppKey := AppKey (cfg c);
     req_Signature := Signature cr; req_Nonce := Nonce cr; req_Ts := Ts cr;
     req_JobName := JobName o; req_BizKey := BizKey o; req_Payload := Payload o;
     req_DedupeWindowSec := DedupeWindowSec o; req_TraceId := TraceID o;
     req_SpanId := SpanID o |}.

Definition SubmitTask (ctx : option Z) (o : SubmitOptions)
    : State World (goerr + (string * bool)) :=
  c ← cli;
  if negb (schedCli c) then mret (inl ErrSubmitNotConnected)
  else if bool_decide (JobName o = "") then
    mret (inl (ErrNew "scheduler: SubmitOptions.JobName required"))
  else
    dl ← with_default_timeout ctx c;
    cr ← newSignedCreds (AppKey (cfg c)) (AppSecret (cfg c));
    let req := submit_request c cr o in
    n ← tick;
    _ ← log_sent req;
    _ ← enqueue_all (concurrent n);
    mret match rpc_SubmitTask n dl req with
         | inl e => inl (ErrWrap "submit task" e)
         | inr r => inr (resp_RunId r, resp_Dedup r)
         end.

Definition GetRun (ctx : option Z) (runID : string) : State World (goerr + Run) :=
  c ← cli;
  if negb (schedCli c) then mret (inl ErrSubmitNotConnected)
  else if bool_decide (runID = "") then
    mret (inl (ErrNew "scheduler: GetRun runID required"))
  else
    dl ← with_default_timeout ctx c;
    n ← tick;
    mret match rpc_GetRun n dl runID with
         | inl e => inl (ErrWrap ("get run " +++ runID) e)
         | inr r => inr r
         end.

(** A [pb.Job] is its name, its application and the rest; [None] is the nil pointer.  The
    job is returned because [EnsureJob] writes the caller's [AppName]. *)
Definition EnsureJob (ctx : option Z) (job : option (string * string * JobSpec))
    : State World ((goerr + bool) * option (string * string * JobSpec)) :=
  c ← cli;
  if negb (schedCli c) then mret (inl ErrSubmitNotConnected, job)
  else match job with
  | None => mret (inl (ErrNew "scheduler: EnsureJob job.job_name required"), job)
  | Some (jname, app, spec) =>
      if bool_decide (jname = "") then
        mret (inl (ErrNew "scheduler: EnsureJob job.job_name required"), job)
      else
        dl ← with_default_timeout ctx c;
        n ← tick;
        match rpc_GetJob n dl jname with
        | None => mret (inr false, job)
        | Some e =>
            let '(st, ok) := grpcStatus e in
            if negb (ok && bool_decide (st = "NotFound")) && negb (isNotFoundErr e) then
              mret (inl (ErrWrap ("get job " +++ jname) e), job)
            else
              let app := if bool_decide (app = "") then AppName (cfg c) else app in
              let job := (jname, app, spec) in
              n ← tick;
              mret match rpc_CreateJob n dl job with
                   | None => (inr true, Some job)
                   | Some e =>
                       if isAlreadyExistsErr e then (inr false, Some job)
                       else (inl (ErrWrap ("create job " +++ jname) e), Some job)
                   end
        end
  end.

Definition CancelRun (ctx : option Z) (runID reason : string) : State World (option goerr) :=
  c ← cli;
  if negb (schedCli c) then mret (Some ErrSubmitNotConnected)
  else if bool_decide (runID = "") then
    mret (Some (ErrNew "scheduler: CancelRun runID required"))
  else
    dl ← with_default_timeout ctx c;
    n ← tick;
    mret match rpc_CancelRun n dl (runID, reason) with
         | inl e => Some (ErrWrap ("cancel run " +++ runID) e)
         | inr r => if resp_Ok r then None
                    else Some (ErrNew ("cancel run " +++ runID +++ ": " +++ resp_Error r))
         end.

Definition err_of {A} (r : goerr + A) : option goerr :=
  match r with inl e => Some e | inr _ => None end.

Definition EnqueueTask (ctx : option Z) (o : SubmitOptions) : State World (goerr + bool) :=
  c ← cli;
  match LocalBufferEnabled (cfg c), localBuffer c with
  | true, Some _ =>
      let fallback : State World (goerr + bool) :=
        t ← now;
        ok ← enqueueBufferedTask (mkBufferedTask o t 0);
        mret (if ok : bool then inr true else inl ErrLocalBufferFull) in
      if bool_decide (JobName o = "") then
        mret (inl (ErrNew "scheduler: SubmitOptions.JobName required"))
      else if negb (schedCli c) then fallback
      else
        r ← SubmitTask ctx o;
        match r with
        | inr _ => mret (inr false)
        | inl e => if isRetriableSubmitErr (Some e) then fallback else mret (inl e)
        end
  | _, _ => mret (inl ErrLocalBufferDisabled)
  end.

Definition BufferedCount (c : Client) : Z :=
  match localBuffer c with None => 0 | Some b => Len b end.
Definition SpilledCount (c : Client) : Z :=
  match localSpool c with None => 0 | Some _ => SubmitSpool.len (localSpool c) end.
Definition SpilledBytes (c : Client) : Z :=
  match localSpool c with None => 0 | Some _ => SubmitSpool.bytes (localSpool c) end.

(** *** The replay round *)
(** [context.WithTimeout(c.rootCtx, c.cfg.SubmitTimeout)] around one submission. *)
Definition submit_with_timeout (o : SubmitOptions) : State World (goerr + (string * bool)) :=
  c ← cli; t ← now; SubmitTask (Some (t + SubmitTimeout (cfg c))) o.

Fixpoint flush_spool_loop (batch : list spoolTask) : State World unit :=
  match batch with
  | [] => mret tt
  | t :: batch =>
      r ← submit_with_timeout (Opts t);
      match r with
      | inl e =>
          if isRetriableSubmitErr (Some e) then mret tt
          else
            c ← cli;
            '(_, s) ← lift_fs (SubmitSpool.ack (Seq t) (localSpool c));
            _ ← upd_cli (set_spool s);
            flush_spool_loop batch
      | inr _ =>
          c ← cli;
          '(_, s) ← lift_fs (SubmitSpool.ack (Seq t) (localSpool c));
          _ ← upd_cli (set_spool s);
          flush_spool_loop batch
      end
  end.
Definition flushSpoolOnce : State World unit :=
  c ← cli;
  match localSpool c, schedCli c with
  | Some _, true =>
      r ← lift_fs (SubmitSpool.drain (LocalBufferRetryBatch (cfg c)) (localSpool c));
      match r with
      | inl _ => mret tt
      | inr batch => flush_spool_loop batch
      end
  | _, _ => mret tt
  end.

Definition with_buffer {A} (f : submitBuffer → A * submitBuffer) (default : A)
    : State World A :=
  c ← cli;
  match localBuffer c with
  | None => mret default
  | Some b => let '(a, b) := f b in _ ← upd_cli (set_buffer (Some b)); mret a
  end.

(** [true] when the loop ran to its end. *)
Fixpoint flush_loop (batch : list bufferedTask) : State World bool :=
  match batch with
  | [] => mret true
  | t :: batch =>
      r ← submit_with_timeout (opts t);
      match r with
      | inr _ => flush_loop batch
      | inl e =>
          if isRetriableSubmitErr (Some e) then
            let t := mkBufferedTask (opts t) (enqueuedAt t) (i64 (attempts t + 1)) in
            _ ← with_buffer (λ b, (tt, putBack (t :: batch) b)) tt;
            mret false
          else flush_loop batch
      end
  end.
Definition flushBufferOnce : State World unit :=
  c ← cli;
  if negb (schedCli c) then mret tt
  else
    batch ← with_buffer (SubmitBuffer.drain (LocalBufferRetryBatch (cfg c))) [];
    match batch with
    | [] => flushSpoolOnce
    | _ =>
        done ← flush_loop batch;
        if (done : bool) then flushSpoolOnce else mret tt
    end.

(** [runBufferRetryLoop]: the rounds of a schedule of wake-ups. *)
Inductive wakeup := WTicker | WNotify | WRootDone.
Fixpoint runBufferRetryLoop (ws : list wakeup) : State World unit :=
  match ws with
  | [] | WRootDone :: _ => mret tt
  | WTicker :: ws => _ ← flushBufferOnce; runBufferRetryLoop ws
  | WNotify :: ws =>
      _ ← upd_cli (λ c, set_buffer ((λ b, mkSubmitBuffer (cap b) (queue b) false)
                                    <$> localBuffer c) c);
      _ ← flushBufferOnce; runBufferRetryLoop ws
  end.
End client.
