(* ===== verification/SchedClientProofs.v ===== *)
(** Properties of the submission path modelled in SchedClient: what a replay round does to
    the queue, whatever the server answers and whatever other goroutines enqueue meanwhile. *)
From stdpp Require Import prelude gmap strings list sorting.
From S2P Require Import Prelude GoStrings GoOs Digest SubmitTypes.
From S2P Require Import SubmitBuffer SubmitSpool SchedClient.

(** ** What other goroutines may do between two points of a round *)
Section evolves.
Context `{!Platform, !SpoolCodec}.

(** The tasks offered to the fallback queue by others while observations [w_tick w] to
    [w_tick w'] were made. *)
Definition window (w w' : World) : list bufferedTask :=
  concat (concurrent <$> List.seq (w_tick w) (w_tick w' - w_tick w)).

(** From [w] to [w'] the client keeps its configuration and connection, and its queue only
    grows, by the tasks [acc] that others offered. *)
Record evolves (acc : list bufferedTask) (w w' : World) : Prop := {
  ev_cfg : cfg (w_cli w') = cfg (w_cli w);
  ev_conn : schedCli (w_cli w') = schedCli (w_cli w);
  ev_tick : (w_tick w <= w_tick w')%nat;
  ev_win : acc `sublist_of` window w w';
  ev_buf b : localBuffer (w_cli w) = Some b →
    ∃ b', localBuffer (w_cli w') = Some b' ∧ cap b' = cap b ∧ queue b' = queue b ++ acc ∧
          (wf_buffer b → wf_buffer b') }.

Lemma window_split w w1 w2 :
  (w_tick w <= w_tick w1)%nat → (w_tick w1 <= w_tick w2)%nat →
  window w w2 = window w w1 ++ window w1 w2.
Proof.
  intros H1 H2. unfold window. rewrite <- concat_app, <- fmap_app. f_equal. f_equal.
  replace (w_tick w2 - w_tick w)%nat
    with ((w_tick w1 - w_tick w) + (w_tick w2 - w_tick w1))%nat by lia.
  rewrite seq_app. do 2 f_equal. lia.
Qed.
Lemma evolves_refl w : evolves [] w w.
Proof.
  split; try done; [apply sublist_nil_l|]. intros b ->. exists b. by rewrite app_nil_r.
Qed.
Lemma evolves_trans a1 a2 w w1 w2 :
  evolves a1 w w1 → evolves a2 w1 w2 → evolves (a1 ++ a2) w w2.
Proof.
  intros [A1 A2 A3 A4 A5] [B1 B2 B3 B4 B5]. split; try congruence; [lia| |].
  - rewrite (window_split w w1 w2) by done. by apply sublist_app.
  - intros b Hb. destruct (A5 b Hb) as (b1 & Hb1 & Hc1 & Hq1 & Hw1).
    destruct (B5 b1 Hb1) as (b2 & Hb2 & Hc2 & Hq2 & Hw2). exists b2.
    split_and!; [done|congruence| |auto]. by rewrite Hq2, Hq1, app_assoc.
Qed.

(** A step that only advances the observation counter, the log, the disk or the spool. *)
Lemma evolves_quiet w w' :
  cfg (w_cli w') = cfg (w_cli w) → schedCli (w_cli w') = schedCli (w_cli w) →
  localBuffer (w_cli w') = localBuffer (w_cli w) → (w_tick w <= w_tick w')%nat →
  evolves [] w w'.
Proof.
  intros H1 H2 H3 H4. split; try done; [apply sublist_nil_l|].
  intros b Hb. exists b. rewrite H3, app_nil_r. done.
Qed.

(** The world after [enqueueBufferedTask]: the task is appended or the queue is as it was. *)
Lemma enqueue_spec t w :
  let '(_, w') := enqueueBufferedTask t w in
  cfg (w_cli w') = cfg (w_cli w) ∧ schedCli (w_cli w') = schedCli (w_cli w) ∧
  w_tick w' = w_tick w ∧ w_sent w' = w_sent w ∧
  ∃ acc, acc `sublist_of` [t] ∧ ∀ b, localBuffer (w_cli w) = Some b →
    ∃ b', localBuffer (w_cli w') = Some b' ∧ cap b' = cap b ∧ queue b' = queue b ++ acc ∧
          (wf_buffer b → wf_buffer b').
Proof.
  destruct w as [fs n sent c]. unfold enqueueBufferedTask, cli, upd_cli, lift_fs. run_st.
  cbn [w_cli w_fs w_tick w_sent].
  destruct (localBuffer c) as [b|] eqn:Hb; cbn [fst snd w_cli w_fs w_tick w_sent].
  2: { split_and!; try done. exists []. split; [apply sublist_nil_l|]. intros b' Hb'. congruence. }
  pose proof (wf_push b t) as Hwf. unfold SubmitBuffer.push in *.
  destruct (cap b <=? zlen (queue b)); cbn [fst snd] in *.
  - unfold set_buffer at 1. cbn [localSpool].
    destruct (localSpool c); cbn [fst snd w_cli w_fs w_tick w_sent].
    + destruct (SubmitSpool.push t (Some s) fs) as [[e s'] fs'] eqn:Hp.
      cbn [fst snd w_cli w_fs w_tick w_sent localSpool set_buffer]. rewrite ?Hp.
      cbn. split_and!; try done. exists []. split; [apply sublist_nil_l|].
      intros b' [= <-]. exists b. rewrite app_nil_r. by split_and!.
    + split_and!; try done. exists []. split; [apply sublist_nil_l|].
      intros b' [= <-]. exists b. cbn. rewrite app_nil_r. by split_and!.
  - split_and!; try done. exists [t]. split; [done|]. intros b' [= <-].
    eexists. split; [done|]. by split_and!.
Qed.

Lemma enqueue_all_spec ts w :
  let '(_, w') := enqueue_all ts w in
  cfg (w_cli w') = cfg (w_cli w) ∧ schedCli (w_cli w') = schedCli (w_cli w) ∧
  w_tick w' = w_tick w ∧ w_sent w' = w_sent w ∧
  ∃ acc, acc `sublist_of` ts ∧ ∀ b, localBuffer (w_cli w) = Some b →
    ∃ b', localBuffer (w_cli w') = Some b' ∧ cap b' = cap b ∧ queue b' = queue b ++ acc ∧
          (wf_buffer b → wf_buffer b').
Proof.
  revert w. induction ts as [|t ts IH]; intros w; cbn [enqueue_all].
  { run_st. split_and!; try done. exists []. split; [done|]. intros b Hb. exists b.
    by rewrite app_nil_r. }
  run_st. pose proof (enqueue_spec t w) as Ht. destruct (enqueueBufferedTask t w) as [ok w1].
  destruct Ht as (C1 & S1 & T1 & L1 & a1 & A1 & B1). cbn [fst snd].
  specialize (IH w1). destruct (enqueue_all ts w1) as [u w2].
  destruct IH as (C2 & S2 & T2 & L2 & a2 & A2 & B2).
  split_and!; try congruence. exists (a1 ++ a2). split.
  - change (t :: ts) with ([t] ++ ts). by apply sublist_app.
  - intros b Hb. destruct (B1 b Hb) as (b1 & Hb1 & Hc1 & Hq1 & Hw1).
    destruct (B2 b1 Hb1) as (b2 & Hb2 & Hc2 & Hq2 & Hw2). exists b2.
    split_and!; [done|congruence| |auto]. by rewrite Hq2, Hq1, app_assoc.
Qed.

(** The options a request carries. *)
Definition req_opts (r : SubmitTaskRequest) : SubmitOptions :=
  mkSubmitOptions (req_JobName r) (req_BizKey r) (req_Payload r) (req_DedupeWindowSec r)
    (req_TraceId r) (req_SpanId r).
Lemma req_opts_submit c cr o : req_opts (submit_request c cr o) = o.
Proof. by destruct o. Qed.

Definition submit_result (n : nat) (dl : option Z) (req : SubmitTaskRequest)
    : goerr + (string * bool) :=
  match rpc_SubmitTask n dl req with
  | inl e => inl (ErrWrap "submit task" e)
  | inr r => inr (resp_RunId r, resp_Dedup r)
  end.

Lemma SubmitTask_spec ctx o w :
  schedCli (w_cli w) = true → JobName o ≠ "" →
  ∃ n dl req w' acc, SubmitTask ctx o w = (submit_result n dl req, w') ∧
    evolves acc w w' ∧ w_sent w' = w_sent w ++ [req] ∧ req_opts req = o ∧
    (w_tick w <= n < w_tick w')%nat ∧ acc `sublist_of` concurrent n.
Proof.
  destruct w as [fs tk sent c]. cbn [w_cli w_sent w_tick]. intros Hc Hj.
  unfold SubmitTask, cli. run_st. cbn [w_cli]. rewrite Hc. cbn [negb].
  rewrite bool_decide_eq_false_2 by done.
  set (tk' := match ctx with Some _ => tk | None => S tk end).
  assert (∃ dl, with_default_timeout ctx c (mkWorld fs tk sent c) = (Some dl, mkWorld fs tk' sent c))
    as [dl Hdl] by (subst tk'; destruct ctx; eexists; reflexivity).
  run_st. rewrite Hdl. cbn [fst snd].
  unfold newSignedCreds, now, tick, log_sent. run_st.
  cbn [fst snd w_tick w_fs w_sent w_cli].
  set (cr := mkSignedCreds _ _ _). set (req := submit_request c cr o).
  set (w1 := mkWorld fs (S (S (S tk'))) (sent ++ [req]) c).
  pose proof (enqueue_all_spec (concurrent (S (S tk'))) w1) as He.
  destruct (enqueue_all (concurrent (S (S tk'))) w1) as [u w2].
  destruct He as (C & S' & T & L & acc & A & B). cbn [fst snd].
  exists (S (S tk')), (Some dl), req, w2, acc. assert (tk <= tk')%nat by (subst tk'; destruct ctx; lia).
  subst w1. cbn [w_tick w_sent w_cli] in *.
  split_and!; [done| |done|apply req_opts_submit|lia|lia|done].
  split; cbn [w_tick w_sent w_cli]; try done; [lia|]. unfold window. cbn [w_tick].
  rewrite T. replace (S (S (S tk')) - tk)%nat with ((S (S tk') - tk) + 1)%nat by lia.
  rewrite seq_app, fmap_app, concat_app. replace (tk + (S (S tk') - tk))%nat with (S (S tk')) by lia.
  apply sublist_inserts_l. cbn. by rewrite app_nil_r.
Qed.

Lemma submit_with_timeout_spec o w :
  schedCli (w_cli w) = true → JobName o ≠ "" →
  ∃ n dl req w' acc, submit_with_timeout o w = (submit_result n dl req, w') ∧
    evolves acc w w' ∧ w_sent w' = w_sent w ++ [req] ∧ req_opts req = o.
Proof.
  intros Hc Hj. unfold submit_with_timeout, cli, now, tick. run_st.
  destruct (SubmitTask_spec (Some (clock (w_tick w) + SubmitTimeout (cfg (w_cli w)))) o
    (mkWorld (w_fs w) (S (w_tick w)) (w_sent w) (w_cli w))) as
    (n & dl & req & w' & acc & Hr & Hev & Hs & Ho & _); [done|done|].
  exists n, dl, req, w', acc. split_and!; try done.
  change acc with ([] ++ acc). eapply evolves_trans; [|exact Hev].
  apply evolves_quiet; cbn; auto.
Qed.

(** A submission of [o] that the server answered for good, and one to try again. *)
Definition settled (o : SubmitOptions) : Prop :=
  ∃ n dl req, req_opts req = o ∧ isRetriableSubmitErr (err_of (submit_result n dl req)) = false.
Definition refused (o : SubmitOptions) : Prop :=
  ∃ n dl req, req_opts req = o ∧ isRetriableSubmitErr (err_of (submit_result n dl req)) = true.

(** What a pass over [batch] does to world [w] with queue [b]. *)
Definition flush_post (batch : list bufferedTask) (b : submitBuffer) (w : World)
    (ok : bool) (w' : World) : Prop :=
  ∃ k acc b',
    cfg (w_cli w') = cfg (w_cli w) ∧ schedCli (w_cli w') = schedCli (w_cli w) ∧
    (w_tick w <= w_tick w')%nat ∧ acc `sublist_of` window w w' ∧
    localBuffer (w_cli w') = Some b' ∧ wf_buffer b' ∧ cap b' = cap b ∧
    Forall settled (take k (opts <$> batch)) ∧
    (req_opts <$> w_sent w') = (req_opts <$> w_sent w) ++
      take (k + if ok then 0 else 1) (opts <$> batch) ∧
    if ok then k = length batch ∧ queue b' = queue b ++ acc
    else (∃ o, (opts <$> batch) !! k = Some o ∧ refused o) ∧
         (opts <$> queue b') = lastn (Z.to_nat (cap b)) (opts <$> drop k batch ++ queue b ++ acc).

Lemma putBack_lastn items b :
  items ≠ [] → wf_buffer b →
  queue (putBack items b) = lastn (Z.to_nat (cap b)) (items ++ queue b).
Proof.
  intros Hi [Hc Hl]. destruct items as [|t items]; [done|]. unfold putBack. cbn [queue].
  case_bool; [done|]. rewrite lastn_all; [done|]. unfold zlen in *. lia.
Qed.
Lemma fmap_lastn {A B} (f : A → B) n l : (f <$> lastn n l) = lastn n (f <$> l).
Proof. unfold lastn. by rewrite fmap_drop, length_fmap. Qed.

Lemma flush_loop_spec batch b w :
  localBuffer (w_cli w) = Some b → wf_buffer b → schedCli (w_cli w) = true →
  Forall (λ t, JobName (opts t) ≠ "") batch →
  ∃ ok w', flush_loop batch w = (ok, w') ∧ flush_post batch b w ok w'.
Proof.
  revert b w. induction batch as [|t batch IH]; intros b w Hb Hwf Hc Hn; cbn [flush_loop].
  { exists true, w. split; [done|]. exists 0%nat, [], b. rewrite !app_nil_r.
    split_and!; try done. apply sublist_nil_l. }
  apply Forall_cons in Hn as [Hj Hn].
  destruct (submit_with_timeout_spec (opts t) w Hc Hj) as (n & dl & req & w1 & a1 & Hr & Hev & Hs & Ho).
  destruct (ev_buf _ _ _ Hev b Hb) as (b1 & Hb1 & Hc1 & Hq1 & Hw1). specialize (Hw1 Hwf).
  pose proof (ev_conn _ _ _ Hev) as Hcn. rewrite Hc in Hcn.
  run_st. rewrite Hr. cbn [fst snd].
  assert (∀ (Hset : settled (opts t)), ∃ ok w', flush_loop batch w1 = (ok, w') ∧
    flush_post (t :: batch) b w ok w') as Hgo.
  { intros Hset. destruct (IH b1 w1 Hb1 Hw1 Hcn Hn) as (ok & w2 & Hr2 & k & a2 & b2 & C & S' & T & W & B & Wf & Cap & Fa & Sent & Q).
    exists ok, w2. split; [done|]. exists (S k), (a1 ++ a2), b2.
    pose proof (ev_tick _ _ _ Hev).
    split_and!; try done; [rewrite C; apply Hev|congruence|lia| |congruence| | |].
    - rewrite (window_split w w1 w2) by done. apply sublist_app; [apply Hev|done].
    - cbn. by constructor.
    - rewrite Sent, Hs, fmap_app. cbn. rewrite Ho. by rewrite <- app_assoc.
    - destruct ok; [split; [cbn; destruct Q as [-> _]; done|]; destruct Q as [_ ->]; by rewrite Hq1, app_assoc|].
      destruct Q as [Q1 Q2]. split; [done|]. rewrite Q2, Hq1, Hc1. cbn. by rewrite <- app_assoc. }
  destruct (submit_result n dl req) as [e|r] eqn:Hres.
  - destruct (isRetriableSubmitErr (Some e)) eqn:Hret.
    2: { apply Hgo. exists n, dl, req. split; [done|]. by rewrite Hres. }
    clear IH Hgo. eexists false, _. split; [reflexivity|].
    unfold with_buffer, cli, upd_cli. run_st. rewrite Hb1. cbn [fst snd].
    pose proof (wf_putBack (mkBufferedTask (opts t) (enqueuedAt t) (i64 (attempts t + 1)) :: batch) b1 Hw1) as Hwp.
    eexists 0%nat, a1, _. cbn [w_cli w_tick w_sent w_fs set_buffer cfg schedCli localBuffer].
    split_and!; [apply Hev|apply Hev|apply Hev|apply Hev|done|exact Hwp|by rewrite putBack_cap|constructor| | |].
    + rewrite Hs, fmap_app. cbn. by rewrite Ho, take_0.
    + exists (opts t). split; [done|]. exists n, dl, req. split; [done|]. by rewrite Hres.
    + rewrite putBack_lastn, fmap_lastn by done. rewrite Hq1, Hc1. cbn. by rewrite !fmap_app.
  - apply Hgo. exists n, dl, req. split; [done|]. by rewrite Hres.
Qed.

(** Everything after the memory pass only lets the queue grow and sends more requests. *)
Definition grows (w w' : World) : Prop :=
  ∃ acc more, evolves acc w w' ∧ w_sent w' = w_sent w ++ more.
Lemma grows_refl w : grows w w.
Proof. exists [], []. by rewrite app_nil_r; auto using evolves_refl. Qed.
Lemma grows_trans w w1 w2 : grows w w1 → grows w1 w2 → grows w w2.
Proof.
  intros (a1 & m1 & H1 & E1) (a2 & m2 & H2 & E2). exists (a1 ++ a2), (m1 ++ m2).
  split; [by eapply evolves_trans|]. by rewrite E2, E1, app_assoc.
Qed.
Lemma grows_quiet w w' :
  cfg (w_cli w') = cfg (w_cli w) → schedCli (w_cli w') = schedCli (w_cli w) →
  localBuffer (w_cli w') = localBuffer (w_cli w) → (w_tick w <= w_tick w')%nat →
  w_sent w' = w_sent w → grows w w'.
Proof.
  intros. exists [], []. rewrite app_nil_r. split; [by apply evolves_quiet|done].
Qed.
Lemma submit_grows o w : grows w (submit_with_timeout o w).2.
Proof.
  destruct (schedCli (w_cli w)) eqn:Hc.
  - destruct (decide (JobName o = "")) as [Hj|Hj].
    + unfold submit_with_timeout, SubmitTask, cli, now, tick. run_st. cbn [w_cli].
      rewrite Hc. cbn [negb]. rewrite bool_decide_eq_true_2 by done. by apply grows_quiet; cbn; auto.
    + destruct (submit_with_timeout_spec o w Hc Hj) as (n & dl & req & w' & acc & Hr & Hev & Hs & _).
      rewrite Hr. by exists acc, [req].
  - unfold submit_with_timeout, SubmitTask, cli, now, tick. run_st. cbn [w_cli].
    rewrite Hc. by apply grows_quiet; cbn; auto.
Qed.
Lemma flush_spool_loop_grows batch w : grows w (flush_spool_loop batch w).2.
Proof.
  revert w. induction batch as [|t batch IH]; intros w; [apply grows_refl|].
  cbn [flush_spool_loop]. run_st. pose proof (submit_grows (Opts t) w) as Hg.
  destruct (submit_with_timeout (Opts t) w) as [r w1]. cbn [fst snd] in *.
  assert (∀ w2, w2 = (let m := lift_fs (SubmitSpool.ack (Seq t) (localSpool (w_cli w1))) w1 in
    mkWorld (w_fs m.2) (w_tick m.2) (w_sent m.2) (set_spool m.1.2 (w_cli m.2))) →
    grows w (flush_spool_loop batch w2).2) as Hack.
  { intros w2 ->. eapply grows_trans; [exact Hg|]. eapply grows_trans; [|apply IH].
    unfold lift_fs. destruct (SubmitSpool.ack _ _ _) as [[e s] fs].
    by apply grows_quiet; cbn; auto. }
  unfold cli, upd_cli. destruct r as [e|r]; [destruct (isRetriableSubmitErr (Some e)); [exact Hg|]|];
    run_st; (match goal with |- context [lift_fs ?m w1] =>
      specialize (Hack _ eq_refl); destruct (lift_fs m w1) as [[e' s'] w2] end); exact Hack.
Qed.
Lemma flushSpoolOnce_grows w : grows w (flushSpoolOnce w).2.
Proof.
  unfold flushSpoolOnce, cli. run_st. destruct (localSpool (w_cli w)) as [s|]; [|apply grows_refl].
  destruct (schedCli (w_cli w)); [|apply grows_refl]. run_st. unfold lift_fs.
  destruct (SubmitSpool.drain _ (Some s) (w_fs w)) as [[e|batch] fs]; cbn [fst snd].
  - by apply grows_quiet.
  - eapply grows_trans; [|apply flush_spool_loop_grows]. by apply grows_quiet.
Qed.
End evolves.

Section rounds.
Context `{!Platform, !SpoolCodec}.

(** The effect of a round on queue [b]: [k] tasks settled and gone, [acc] newcomers behind, [lost]
    the oldest of the others when they all no longer fit, [stopped] when the round met a temporary
    failure, [more] the requests of the spool. *)
Definition round_post (w : World) (b : submitBuffer) (w' : World) : Prop :=
  ∃ b' k acc lost (stopped : bool) more,
    localBuffer (w_cli w') = Some b' ∧ wf_buffer b' ∧
    acc `sublist_of` window w w' ∧
    (opts <$> drop k (queue b)) ++ (opts <$> acc) = lost ++ (opts <$> queue b') ∧
    (lost ≠ [] → stopped = true ∧ Len b' = cap b ∧ (length lost <= length acc)%nat) ∧
    Forall settled (opts <$> take k (queue b)) ∧
    (if stopped then ∃ t, queue b !! k = Some t ∧ refused (opts t)
     else k = Z.to_nat (clamp_max (LocalBufferRetryBatch (cfg (w_cli w))) (Len b))) ∧
    (req_opts <$> w_sent w')
      = (req_opts <$> w_sent w)
        ++ (opts <$> take (if stopped then k + 1 else k)%nat (queue b)) ++ more ∧
    (stopped = true → more = []).
(** The last [n] elements, and those before them. *)
Lemma lastn_split {A} n (l : list A) :
  ∃ pre, l = pre ++ lastn n l ∧ length pre = (length l - n)%nat ∧ (pre ≠ [] → length (lastn n l) = n).
Proof.
  exists (take (length l - n) l). unfold lastn. split_and!; [by rewrite take_drop|rewrite length_take; lia|].
  intros Hne. rewrite length_drop. destruct (decide (n <= length l)%nat); [lia|].
  destruct Hne. by replace (length l - n)%nat with 0%nat by lia.
Qed.

(** A round whose memory pass ran to its end goes on to the spool. *)
Lemma round_spool w b w1 b1 batch acc :
  localBuffer (w_cli w1) = Some b1 → wf_buffer b1 → cap b1 = cap b →
  batch ++ queue b1 = queue b ++ acc →
  length batch = Z.to_nat (clamp_max (LocalBufferRetryBatch (cfg (w_cli w))) (Len b)) →
  acc `sublist_of` window w w1 → (w_tick w <= w_tick w1)%nat → Forall settled (opts <$> batch) →
  (req_opts <$> w_sent w1) = (req_opts <$> w_sent w) ++ (opts <$> batch) →
  ∃ w', flushSpoolOnce w1 = (tt, w') ∧ round_post w b w'.
Proof.
  intros B Wf Cap Q Hn W T Set' Sent.
  assert (length batch <= length (queue b))%nat as Hlen.
  { pose proof (clamp_max_bounds (LocalBufferRetryBatch (cfg (w_cli w))) (Len b) (zlen_nonneg _)).
    unfold Len, zlen in *. lia. }
  destruct (flushSpoolOnce_grows w1) as (a2 & more & Hev & Hs2).
  destruct (flushSpoolOnce w1) as [[] w2]. cbn [snd] in *. exists w2. split; [done|].
  destruct (ev_buf _ _ _ Hev b1 B) as (b2 & Hb2 & Hc2 & Hq2 & Hw2). specialize (Hw2 Wf).
  assert (take (length batch) (queue b) = batch) as Ht.
  { rewrite <- (take_app_le (queue b) acc) by done. by rewrite <- Q, take_app_length. }
  assert (queue b1 = drop (length batch) (queue b) ++ acc) as Hq.
  { rewrite <- drop_app_le by done. by rewrite <- Q, drop_app_length. }
  exists b2, (length batch), (acc ++ a2), [], false, (req_opts <$> more). rewrite Ht.
  split_and!; try done.
  - rewrite (window_split w w1 w2) by (done || apply Hev). apply sublist_app; [done|apply Hev].
  - by rewrite <- fmap_app, app_assoc, <- Hq, <- Hq2.
  - by rewrite Hs2, fmap_app, Sent, <- app_assoc.
Qed.

End rounds.

(** ** Replay of the spool, with nobody else enqueueing and a healthy disk *)
Section spool_replay.
Context `{!Platform, !SpoolCodec}.
Hypothesis quiet : ∀ n, concurrent n = [].

Lemma SubmitTask_quiet ctx o w :
  schedCli (w_cli w) = true → JobName o ≠ "" →
  ∃ n dl req tk, SubmitTask ctx o w
    = (submit_result n dl req, mkWorld (w_fs w) tk (w_sent w ++ [req]) (w_cli w)) ∧
    req_opts req = o.
Proof.
  destruct w as [fs tk sent c]. cbn [w_cli w_fs w_sent]. intros Hc Hj.
  unfold SubmitTask, with_default_timeout, newSignedCreds, cli, now, tick, log_sent. run_st.
  cbn [w_cli w_fs w_sent w_tick]. rewrite Hc. cbn [negb].
  rewrite bool_decide_eq_false_2 by done.
  destruct ctx; run_st; cbn [w_cli w_fs w_sent w_tick]; rewrite quiet; cbn [enqueue_all];
    run_st; (do 4 eexists; split; [reflexivity|apply req_opts_submit]).
Qed.
Lemma submit_with_timeout_quiet o w :
  schedCli (w_cli w) = true → JobName o ≠ "" →
  ∃ n dl req tk, submit_with_timeout o w
    = (submit_result n dl req, mkWorld (w_fs w) tk (w_sent w ++ [req]) (w_cli w)) ∧
    req_opts req = o.
Proof. intros Hc Hj. by apply (SubmitTask_quiet _ o (mkWorld _ _ _ _)). Qed.

(** Two states of one spool: same directory and budget, same next number. *)
Definition same_place (s s' : submitSpool) : Prop :=
  dir s' = dir s ∧ maxBytes s' = maxBytes s ∧ nextSeq s' = nextSeq s.
Lemma ack_head m s t sts :
  owned m s → decodes m s (t :: sts) →
  ∃ s' m', SubmitSpool.ack (Seq t) (Some s) (mkFs m []) = ((None, Some s'), mkFs m' []) ∧
    owned m' s' ∧ decodes m' s' sts ∧ same_place s s'.
Proof.
  intros Ho Hd. unfold ack. run_st.
  destruct (ack_loop (Seq t) [] (files s) s (mkFs m [])) as [[e s'] st'] eqn:Hr.
  pose proof (ack_loop_spec _ _ _ _ _ _ _ _ Hr Ho eq_refl (Forall_nil_2 _))
    as (Ho' & Hpl1 & Hpl2 & Hpl3 & Hc).
  pose proof (ow_sorted _ _ Ho) as Hs. pose proof (ow_disk _ _ Ho) as Hdisk.
  unfold decodes, contents in Hd. destruct (files s) as [|f fs] eqn:Hf; [by inversion Hd|].
  inversion Hd as [|? ? ? ? [Hseq _] Hd']; subst. cbn in Hseq.
  cbn [ack_loop] in Hr. rewrite bool_decide_eq_false_2 in Hr by (intros Hne; by apply Hne).
  apply Forall_cons in Hdisk as [(d & Hdf & _) _].
  unfold Remove, next_fault, set_nodes in Hr. run_st_in Hr.
  cbn [fs_faults fs_nodes fst snd] in Hr. rewrite Hdf in Hr. run_st_in Hr. cbn in Hr.
  injection Hr as <- <- <-. eexists _, _. split; [reflexivity|]. split; [exact Ho'|]. split; [|done].
  unfold decodes. cbn [fs_nodes] in Hc. rewrite Hc. unfold contents. rewrite Hf.
  rewrite fmap_cons, filter_cons_False by (cbn; rewrite Hseq; auto).
  rewrite list_filter_all; [exact Hd'|]. apply Forall_forall.
  intros x (g & -> & Hg)%list_elem_of_fmap. cbn. apply StronglySorted_inv in Hs as [_ Hlt].
  pose proof (proj1 (Forall_forall _ _) Hlt g Hg) as Hg'. unfold seq_lt in Hg'. lia.
Qed.

Definition replay_post (w w' : World) (sts : list spoolTask) (n : nat) : Prop :=
  ∃ k (stopped : bool) s',
    localSpool (w_cli w') = Some s' ∧ fs_faults (w_fs w') = [] ∧
    owned (fs_nodes (w_fs w')) s' ∧ decodes (fs_nodes (w_fs w')) s' (drop k sts) ∧
    Forall settled (Opts <$> take k sts) ∧
    (req_opts <$> w_sent w')
      = (req_opts <$> w_sent w) ++ (Opts <$> take (if stopped then k + 1 else k)%nat sts) ∧
    (if stopped then (k < n)%nat ∧ ∃ t, sts !! k = Some t ∧ refused (Opts t)
     else k = n) ∧
    (∀ s, localSpool (w_cli w) = Some s → same_place s s').

Lemma flush_spool_loop_spec n sts s m w :
  schedCli (w_cli w) = true → localSpool (w_cli w) = Some s → w_fs w = mkFs m [] →
  owned m s → decodes m s sts → Forall (λ t, JobName (Opts t) ≠ "") sts →
  (n <= length sts)%nat →
  replay_post w (flush_spool_loop (take n sts) w).2 sts n.
Proof.
  revert sts s m w. induction n as [|n IH]; intros sts s m w Hc Hl Hfs Ho Hd Hn Hlen.
  { rewrite take_0. cbn [flush_spool_loop]. run_st. exists 0%nat, false, s.
    rewrite Hfs, take_0, app_nil_r. split_and!; try done. intros s0 Hs0.
    by assert (s0 = s) as -> by congruence. }
  destruct sts as [|t sts]; [cbn in Hlen; lia|]. cbn [take flush_spool_loop].
  apply Forall_cons in Hn as [Hj Hn]. run_st.
  destruct (submit_with_timeout_quiet (Opts t) w Hc Hj) as (i & dl & req & tk & Hr & Hreq).
  rewrite Hr. cbn [fst snd].
  set (w1 := mkWorld (w_fs w) tk (w_sent w ++ [req]) (w_cli w)).
  destruct (ack_head m s t sts Ho Hd) as (s' & m' & Hack & Ho' & Hd' & Hpl).
  assert (settled (Opts t) → ∀ w2,
    w2 = mkWorld (mkFs m' []) tk (w_sent w ++ [req]) (set_spool (Some s') (w_cli w)) →
    replay_post w (flush_spool_loop (take n sts) w2).2 (t :: sts) (S n)) as Hgo.
  { intros Hset w2 Hw2.
    destruct (IH sts s' m' w2) as (k & st & s2 & H1 & H2 & H3 & H4 & H5 & H6 & H7 & H8);
      [by subst w2|by subst w2|by subst w2|done|done|done|cbn in Hlen; lia|].
    exists (S k), st, s2. split_and!; try done; [by constructor| | |].
    - rewrite H6, Hw2. cbn [w_sent]. rewrite fmap_app, <- app_assoc. f_equal.
      destruct st; cbn; by rewrite Hreq.
    - destruct st; [|by rewrite H7]. destruct H7 as [? ?]. split; [lia|done].
    - intros s0 Hs0. assert (s0 = s) as -> by congruence. subst w2.
      destruct (H8 s' eq_refl) as (? & ? & ?), Hpl as (? & ? & ?). split_and!; congruence. }
  unfold cli, upd_cli, lift_fs.
  destruct (submit_result i dl req) as [e|r] eqn:Hres;
    [destruct (isRetriableSubmitErr (Some e)) eqn:Hret|].
  - run_st. exists 0%nat, true, s. subst w1. cbn [w_cli w_fs w_sent]. rewrite Hfs.
    split_and!; try done; [|lia| |].
    + rewrite fmap_app. cbn. by rewrite Hreq, take_0.
    + exists t. split; [done|]. exists i, dl, req. split; [done|]. by rewrite Hres.
    + intros s0 Hs0. by assert (s0 = s) as -> by congruence.
  - run_st. subst w1. cbn [w_cli w_fs w_tick w_sent fst snd]. rewrite Hl, Hfs, Hack.
    cbn [w_cli w_fs w_tick w_sent fst snd]. apply Hgo; [|done].
    exists i, dl, req. split; [done|]. by rewrite Hres.
  - run_st. subst w1. cbn [w_cli w_fs w_tick w_sent fst snd]. rewrite Hl, Hfs, Hack.
    cbn [w_cli w_fs w_tick w_sent fst snd]. apply Hgo; [|done].
    exists i, dl, req. split; [done|]. by rewrite Hres.
Qed.

(** A spool round removes from disk exactly the records the server answered for good.
    It delivers the oldest records in order, at most the batch size; every record before the
    point where it stops is settled and its file deleted; the record it stops at and all
    later ones stay on disk, in order, still owned by the spool. *)
Lemma spool_round (w : World) (s : submitSpool) (m : gmap path node)
    (sts : list spoolTask) :
  schedCli (w_cli w) = true → localSpool (w_cli w) = Some s → w_fs w = mkFs m [] →
  owned m s → decodes m s sts → Forall (λ t, JobName (Opts t) ≠ "") sts →
  replay_post w (flushSpoolOnce w).2 sts
    (Z.to_nat (clamp_max (LocalBufferRetryBatch (cfg (w_cli w))) (zlen sts))).
Proof.
  intros Hc Hl Hfs Ho Hd Hn. unfold flushSpoolOnce, cli, lift_fs. run_st.
  rewrite Hl, Hc. run_st. rewrite Hfs.
  assert (len (Some s) = zlen sts) as Hlen.
  { apply Forall2_length in Hd. unfold contents in Hd. rewrite length_fmap in Hd.
    cbn. unfold zlen. lia. }
  set (mx := LocalBufferRetryBatch (cfg (w_cli w))).
  pose proof (clamp_max_bounds mx (zlen sts) (zlen_nonneg sts)) as Hcl.
  rewrite (drain_ok mx m s sts) by done. rewrite Hlen. cbn [fst snd].
  set (w1 := mkWorld _ _ _ _).
  destruct (flush_spool_loop_spec (Z.to_nat (clamp_max mx (zlen sts))) sts s m w1)
    as (k & st & s' & H1 & H2 & H3 & H4 & H5 & H6 & H7 & H8); try done.
  { unfold zlen in *. lia. }
  by exists k, st, s'.
Qed.
End spool_replay.

(** ** [EnqueueTask] *)
Section enqueue.
Context `{!Platform, !SpoolCodec}.

(** Where a task given to the fallback path ends up: at the tail of the memory queue if that has
    room; otherwise the spool takes it.  Or nobody does: the queue is full and there is no spool,
    or the spool failed. *)
Definition task_stored (o : SubmitOptions) (b : submitBuffer) (w w' : World) : Prop :=
  ∃ t, opts t = o ∧ attempts t = 0 ∧
    ((Len b < cap b ∧ w_fs w' = w_fs w ∧ localSpool (w_cli w') = localSpool (w_cli w) ∧
      ∃ b', localBuffer (w_cli w') = Some b' ∧ queue b' = queue b ++ [t]) ∨
     (cap b <= Len b ∧ localBuffer (w_cli w') = Some b ∧ ∃ s,
      localSpool (w_cli w) = Some s ∧
      SubmitSpool.push t (Some s) (w_fs w) = ((None, localSpool (w_cli w')), w_fs w'))).
Definition task_refused (o : SubmitOptions) (b : submitBuffer) (w w' : World) : Prop :=
  cap b <= Len b ∧ localBuffer (w_cli w') = Some b ∧
  match localSpool (w_cli w) with
  | None => w_fs w' = w_fs w ∧ localSpool (w_cli w') = None
  | Some s => ∃ t e, opts t = o ∧ attempts t = 0 ∧
      SubmitSpool.push t (Some s) (w_fs w) = ((Some e, localSpool (w_cli w')), w_fs w')
  end.
(** One request for [o] was sent, and the server's answer was [a]. *)
Definition asked (o : SubmitOptions) (w w' : World) (a : goerr + SubmitTaskResponse) : Prop :=
  ∃ n dl req, req_opts req = o ∧ rpc_SubmitTask n dl req = a ∧ w_sent w' = w_sent w ++ [req].
(** Why a task takes the fallback path: the client is not connected, or the server could not take
    the task. *)
Definition unreachable (o : SubmitOptions) (w w' : World) : Prop :=
  if schedCli (w_cli w) then
    ∃ e, asked o w w' (inl e) ∧ isRetriableSubmitErr (Some (ErrWrap "submit task" e)) = true
  else w_sent w' = w_sent w.

Lemma enqueueBufferedTask_spec o b at_ w :
  localBuffer (w_cli w) = Some b →
  let '(ok, w') := enqueueBufferedTask (mkBufferedTask o at_ 0) w in
  w_sent w' = w_sent w ∧ if (ok : bool) then task_stored o b w w' else task_refused o b w w'.
Proof.
  destruct w as [fs tk sent c]. unfold enqueueBufferedTask, cli, upd_cli, lift_fs. run_st.
  cbn [w_cli w_fs w_tick w_sent]. intros Hb. rewrite Hb. set (t := mkBufferedTask o at_ 0).
  unfold SubmitBuffer.push. destruct (Z.leb_spec (cap b) (zlen (queue b))) as [Hle|Hlt];
    cbn [fst snd].
  2: { split; [done|]. exists t. do 2 (split; [done|]). left. split_and!; try done.
       eexists. by split. }
  cbn [localSpool set_buffer]. destruct (localSpool c) as [s|] eqn:Hs; run_st.
  - cbn [w_cli w_fs w_tick w_sent set_buffer localSpool]. rewrite ?Hs.
    destruct (SubmitSpool.push t (Some s) fs) as [[[e|] s'] fs'] eqn:Hp; cbn; (split; [done|]).
    + split_and!; try done. cbn. rewrite Hs. by exists t, e.
    + exists t. do 2 (split; [done|]). right. split_and!; try done. by exists s.
  - split; [done|]. split_and!; try done. cbn. by rewrite Hs.
Qed.
Lemma fallback_spec o b w0 w :
  localBuffer (w_cli w) = Some b → w_cli w = w_cli w0 → w_fs w = w_fs w0 →
  let '(r, w') := (t ← now; ok ← enqueueBufferedTask (mkBufferedTask o t 0);
                   mret (if ok : bool then inr true else inl ErrLocalBufferFull) :
                     State World (goerr + bool)) w in
  w_sent w' = w_sent w ∧
  (r = inr true ∧ task_stored o b w0 w' ∨ r = inl ErrLocalBufferFull ∧ task_refused o b w0 w').
Proof.
  intros Hb Hc Hf. unfold now, tick. run_st. set (at_ := clock _). set (w1 := mkWorld _ _ _ _).
  pose proof (enqueueBufferedTask_spec o b at_ w1 Hb) as Hs.
  destruct (enqueueBufferedTask _ w1) as [ok w']. cbn [fst snd]. unfold task_stored, task_refused in *.
  subst w1. cbn [w_cli w_fs w_sent] in Hs. rewrite Hc, Hf in Hs. destruct Hs as [Hsent Hs].
  split; [done|]. destruct ok; [by left|by right].
Qed.

(** C16: The contract of [EnqueueTask], with no other goroutine enqueueing meanwhile.  The answer
    is [ErrLocalBufferDisabled] exactly when the fallback is off, and the error of a missing job
    name when the name is empty; neither touches anything.  Otherwise a connected client sends the
    server one request for the task, and a client not connected none.  [false] without error means
    the server accepted it; a final answer of the server is handed to the caller; both leave queue,
    spool and disk alone.  After a temporary failure, or when not connected, [true] means the task
    is stored with no attempt counted: last in the memory queue if that had room, otherwise by the
    spool, and the queue is as it was; [ErrLocalBufferFull] means the queue was full and there is
    no spool, or the spool's push failed; the queue is as it was. *)
Theorem enqueue_contract (ctx : option Z) (o : SubmitOptions) (w : World) :
  (∀ n, concurrent n = []) →
  let '(r, w') := EnqueueTask ctx o w in
  match LocalBufferEnabled (cfg (w_cli w)), localBuffer (w_cli w) with
  | true, Some b =>
      if bool_decide (JobName o = "") then
        r = inl (ErrNew "scheduler: SubmitOptions.JobName required") ∧ w' = w
      else match r with
      | inr false => schedCli (w_cli w) = true ∧ (∃ a, asked o w w' (inr a)) ∧
          w_cli w' = w_cli w ∧ w_fs w' = w_fs w
      | inr true => unreachable o w w' ∧ task_stored o b w w'
      | inl e =>
          e = ErrLocalBufferFull ∧ unreachable o w w' ∧ task_refused o b w w' ∨
          schedCli (w_cli w) = true ∧ (∃ e', asked o w w' (inl e') ∧ e = ErrWrap "submit task" e' ∧
            isRetriableSubmitErr (Some e) = false) ∧ w_cli w' = w_cli w ∧ w_fs w' = w_fs w
      end
  | _, _ => r = inl ErrLocalBufferDisabled ∧ w' = w
  end.
Proof.
  intros Hq. unfold EnqueueTask, cli. run_st.
  destruct (LocalBufferEnabled (cfg (w_cli w))); [|done].
  destruct (localBuffer (w_cli w)) as [b|] eqn:Hb; [|done].
  case_bool_decide as Hj; [done|]. unfold unreachable.
  destruct (schedCli (w_cli w)) eqn:Hc; cbn [negb].
  2: { pose proof (fallback_spec o b w w Hb eq_refl eq_refl) as Hs. revert Hs. run_st.
       destruct (enqueueBufferedTask _ _) as [[|] w']; cbn [fst snd]; naive_solver. }
  destruct (SubmitTask_quiet Hq ctx o w Hc Hj) as (n & dl & req & tk & Hr & Ho).
  run_st. rewrite Hr. cbn [fst snd]. unfold submit_result.
  destruct (rpc_SubmitTask n dl req) as [e|a] eqn:Ha.
  2: { split_and!; try done. by exists a, n, dl, req. }
  destruct (isRetriableSubmitErr (Some (ErrWrap "submit task" e))) eqn:Hret.
  2: { right. split_and!; try done. exists e. split; [by exists n, dl, req|done]. }
  set (w1 := mkWorld _ _ _ _).
  pose proof (fallback_spec o b w w1 Hb eq_refl eq_refl) as Hs. revert Hs. run_st.
  destruct (enqueueBufferedTask _ _) as [ok w']; cbn [fst snd]. intros [Hsent Hs].
  assert (asked o w w' (inl e)) as Hask.
  { exists n, dl, req. split_and!; done. }
  destruct ok; naive_solver.
Qed.
End enqueue.

(** ** A concrete platform: the server rejects the job "bad", cannot take the job "later", and
    accepts the others; while observation 3 is made another goroutine offers a task. *)
Definition demo_platform : Platform := {|
  Run := unit; JobSpec := unit;
  clock := λ n, 1000000000 * Z.of_nat n;
  rand8 := λ n, if Nat.even n then Some [1; 2; 3; 4; 5; 6; 7; 8] else None;
  FromError := λ e, match e with ErrExt c | ErrWrap _ (ErrExt c) => Some c | _ => None end;
  rpc_SubmitTask := λ n dl req,
    if bool_decide (req_JobName req = "bad") then inl (ErrExt "InvalidArgument")
    else if bool_decide (req_JobName req = "later") then inl (ErrExt "Unavailable")
    else inr (mkSubmitTaskResponse (FormatInt (Z.of_nat n)) false);
  rpc_GetRun := λ _ _ _, inr tt;
  rpc_GetJob := λ _ _ _, None;
  rpc_CreateJob := λ _ _ _, None;
  rpc_CancelRun := λ _ _ _, inr (mkCancelRunResponse true "");
  concurrent := λ n, if (n =? 3)%nat then [demo_submit "new"] else [] |}.
Definition quiet_platform : Platform := {|
  Run := unit; JobSpec := unit; clock := @clock demo_platform; rand8 := @rand8 demo_platform;
  FromError := @FromError demo_platform; rpc_SubmitTask := @rpc_SubmitTask demo_platform;
  rpc_GetRun := λ _ _ _, inr tt; rpc_GetJob := λ _ _ _, None; rpc_CreateJob := λ _ _ _, None;
  rpc_CancelRun := λ _ _ _, inr (mkCancelRunResponse true ""); concurrent := λ _, [] |}.

Definition demo_cfg : Config :=
  applyDefaults (Some "h") 1
    (mkConfig "sched:9000" "app" "key" "secret" "" "" "" "" 0 0 0 0 0 0 0 0 true 3 0 0 true
       "/spool" 170).
Definition demo_buffer : submitBuffer :=
  mkSubmitBuffer 3 [demo_submit "bad"; demo_submit "later"; demo_submit "b"] true.
Definition demo_world (b : submitBuffer) (sp : submitSpool * Fs) : World :=
  mkWorld (mkFs (fs_nodes sp.2) []) 0 []
    (mkClient demo_cfg true ∅ 50 0 true (Some b) (Some sp.1)).

(** Tasks lost although the spool has room: while the first request of a round is under way three
    newcomers fill the emptied queue; the server cannot take the task, and the three tasks put
    back do not fit.  The disk is empty. *)
Definition busy_platform : Platform := {|
  Run := unit; JobSpec := unit; clock := @clock demo_platform; rand8 := @rand8 demo_platform;
  FromError := @FromError demo_platform; rpc_SubmitTask := @rpc_SubmitTask demo_platform;
  rpc_GetRun := λ _ _ _, inr tt; rpc_GetJob := λ _ _ _, None; rpc_CreateJob := λ _ _ _, None;
  rpc_CancelRun := λ _ _ _, inr (mkCancelRunResponse true "");
  concurrent := λ n, if (n =? 3)%nat then [demo_submit "x"; demo_submit "y"; demo_submit "z"] else [] |}.
Example put_back_drops :
  let w := demo_world (mkSubmitBuffer 3 [demo_submit "later"; demo_submit "b"; demo_submit "c"] true)
             (demo_spool, mkFs ∅ []) in
  let w' := (@flushBufferOnce busy_platform demo_codec w).2 in
  (opts <$> from_option queue [] (localBuffer (w_cli w')))
    = opts <$> [demo_submit "x"; demo_submit "y"; demo_submit "z"] ∧
  (files <$> localSpool (w_cli w')) = Some [].
Proof. vm_compute. by split. Qed.

Lemma spool_round_witness :
  let w := demo_world demo_buffer demo_after in
  @replay_post quiet_platform demo_codec w
    (@flushSpoolOnce quiet_platform demo_codec w).2 demo_records 2.
Proof.
  intros w.
  assert (Z.to_nat (clamp_max (LocalBufferRetryBatch (cfg (w_cli w))) (zlen demo_records)) = 2%nat)
    as Hn by (vm_compute; reflexivity).
  rewrite <- Hn.
  apply (@spool_round quiet_platform demo_codec (λ n, eq_refl) w demo_after.1
           (fs_nodes demo_after.2) demo_records); [reflexivity|reflexivity|reflexivity| | |].
  - exact demo_after_owned.
  - unfold decodes. apply (bool_decide_unpack _). vm_compute. exact I.
  - apply (bool_decide_unpack _). vm_compute. exact I.
Defined.
Lemma enqueue_contract_witness :
  let w := demo_world (mkSubmitBuffer 3 [] false) (demo_spool, mkFs ∅ []) in
  let o := opts (demo_submit "later") in
  ∃ w', @EnqueueTask quiet_platform demo_codec None o w = (inr true, w') ∧
        @unreachable quiet_platform o w w' ∧ @task_stored demo_codec o (mkSubmitBuffer 3 [] false) w w'.
Proof.
  intros w o.
  pose proof (@enqueue_contract quiet_platform demo_codec None o w (λ n, eq_refl)) as H.
  destruct (@EnqueueTask quiet_platform demo_codec None o w) as [r w'] eqn:E.
  assert (r = inr true) as ->.
  { apply (f_equal fst) in E. cbn [fst] in E. rewrite <- E. vm_compute. reflexivity. }
  exists w'. split; [reflexivity|exact H].
Defined.
