(* ===== verification/Delivery.v ===== *)
(** The submission side as a whole: a life of one client process after another over the same
    disk, made of submissions, wake-ups of the replay loop, connections and restarts, and the
    accounting of every task and every request over it. *)
From stdpp Require Import prelude gmap strings list sorting.
From S2P Require Import Prelude GoStrings GoOs Digest SubmitTypes.
From S2P Require Import SubmitBuffer SubmitSpool SchedClient SchedClientProofs.

(** ** A disk without faults stays without faults *)
Section calm.
Context `{!SpoolCodec}.
Definition calm (st : Fs) : Prop := fs_faults st = [].

Lemma Remove_calm p st : calm st → calm (Remove p st).2.
Proof.
  destruct st as [m fts]. unfold calm, Remove, next_fault, set_nodes. cbn [fs_faults]. intros ->.
  run_st. cbn. by destruct (m !! p).
Qed.
Lemma WriteFile_calm p d st : calm st → calm (WriteFile p d st).2.
Proof.
  destruct st as [m fts]. unfold calm, WriteFile, next_fault, set_nodes. cbn [fs_faults].
  intros ->. run_st. cbn. by destruct (m !! p) as [[]|].
Qed.
Lemma Rename_calm p q st : calm st → calm (Rename p q st).2.
Proof.
  destruct st as [m fts]. unfold calm, Rename, next_fault, set_nodes. cbn [fs_faults].
  intros ->. run_st. cbn. destruct (m !! p); [|done]. by destruct (m !! q) as [[]|].
Qed.
Lemma evict_calm msg limit extra cur fs st :
  calm st → calm (evict msg limit extra cur fs st).2.
Proof.
  revert cur st. induction fs as [|f fs IH]; intros cur st Hst; cbn [evict]; [done|].
  destruct (limit <? i64 (cur + extra)); [|done]. run_st.
  pose proof (Remove_calm (fpath f) st Hst) as H1. destruct (Remove (fpath f) st) as [e st1].
  cbn [fst snd] in *. destruct (fatal e); [done|by apply IH].
Qed.
Lemma commit_calm q data s st : calm st → calm (commit q data s st).2.
Proof.
  intros Hst. unfold commit. run_st.
  pose proof (WriteFile_calm (dir s, tmp_name q) data st Hst) as H1.
  destruct (WriteFile _ data st) as [[e|] st1]; cbn [fst snd] in *; [done|].
  pose proof (Rename_calm (dir s, tmp_name q) (dir s, final_name q) st1 H1) as H2.
  destruct (Rename _ _ st1) as [[e|] st2]; cbn [fst snd] in *; [|done].
  by apply (Remove_calm (dir s, tmp_name q)) in H2.
Qed.
Lemma push_locked_calm t s st : calm st → calm (push_locked t s st).2.
Proof.
  intros Hst. unfold push_locked. destruct (encode (nextSeq s) t) as [e|[task data]]; [done|].
  cbn [maxBytes currentBytes files dir nextSeq].
  destruct (maxBytes s <? slen data); [done|]. run_st.
  match goal with |- context [evict ?a ?b ?c ?d ?f st] =>
    pose proof (evict_calm a b c d f st Hst) as H1;
    destruct (evict a b c d f st) as [[e [cur fs]] st1] end.
  cbn [fst snd] in *. destruct e; [done|].
  destruct (maxBytes s <? i64 (cur + slen data)); [done|]. by apply commit_calm.
Qed.
End calm.

(** ** The life of the submission side *)
#[global] Instance wakeup_eq_dec : EqDecision wakeup.
Proof. solve_decision. Defined.

Inductive action :=
  | AEnqueue (ctx : option Z) (o : SubmitOptions)   (* a caller submits *)
  | AWake (e : wakeup)                              (* an iteration of runBufferRetryLoop *)
  | AStart (dial : option goerr)
  | AStop
  | AReboot (hostname : option string) (pid now : Z).   (* a new process, on the same disk *)

Section life.
Context `{!Platform, !SpoolCodec}.
(** The service's configuration, and [os.TempDir()]. *)
Variable c0 : Config.
Variable tempDir : string.

Definition act (a : action) : State World (list (SubmitOptions * (goerr + bool))) :=
  match a with
  | AEnqueue ctx o => r ← EnqueueTask ctx o; mret [(o, r)]
  | AWake e => _ ← runBufferRetryLoop [e]; mret []
  | AStart dial => _ ← upd_cli (λ c, (Start dial c).2); mret []
  | AStop => _ ← upd_cli (λ c, (Stop c).2); mret []
  | AReboot h pid now =>
      r ← lift_fs (New h pid tempDir now c0);
      match r with
      | inl _ => mret []
      | inr c => _ ← upd_cli (λ _, c); mret []
      end
  end.
(** The answers the callers of [EnqueueTask] get over a life. *)
Fixpoint life (l : list action) : State World (list (SubmitOptions * (goerr + bool))) :=
  match l with
  | [] => mret []
  | a :: l => rs ← act a; rs' ← life l; mret (rs ++ rs')
  end.

(** The tasks stored for later, by the answer [true]. *)
Definition stored (rs : list (SubmitOptions * (goerr + bool))) : list SubmitOptions :=
  omap (λ r, match r.2 with inr true => Some r.1 | _ => None end) rs.
(** The tasks whose caller got the server's own answer: accepted, or refused for good. *)
Definition answered (rs : list (SubmitOptions * (goerr + bool))) : list SubmitOptions :=
  omap (λ r, match r.2 with
             | inr false | inl (ErrWrap _ _) => Some r.1
             | _ => None
             end) rs.
Lemma stored_app r1 r2 : stored (r1 ++ r2) = stored r1 ++ stored r2.
Proof. apply omap_app. Qed.
Lemma answered_app r1 r2 : answered (r1 ++ r2) = answered r1 ++ answered r2.
Proof. apply omap_app. Qed.

(** What waits: the memory queue, then the disk. *)
Definition waiting (b : submitBuffer) (sts : list spoolTask) : list SubmitOptions :=
  (opts <$> queue b) ++ (Opts <$> sts).
Definition sendable (o : SubmitOptions) : Prop := JobName o ≠ "" ∧ json_ok o.

(** A client of this service between two actions, and what it holds. *)
Record steady (w : World) (b : submitBuffer) (s : submitSpool) (sts : list spoolTask)
    : Prop := {
  sd_cfg : ∃ h pid, cfg (w_cli w) = applyDefaults h pid c0;
  sd_buf : localBuffer (w_cli w) = Some b;
  sd_wf : wf_buffer b;
  sd_spool : localSpool (w_cli w) = Some s;
  sd_calm : calm (w_fs w);
  sd_owned : owned (fs_nodes (w_fs w)) s;
  sd_decodes : decodes (fs_nodes (w_fs w)) s sts;
  sd_names : Forall (λ o, JobName o ≠ "") (waiting b sts);
  sd_dir : dir s = LocalBufferDiskSpillDir c0;
  sd_max : maxBytes s = LocalBufferDiskSpillMaxBytes (applyDefaults None 0 c0) }.

(** The actions at which tasks can be lost: a restart with tasks in memory, and a submission
    that finds both the queue full and no room in the spool's budget. *)
Definition loses (a : action) (w : World) : Prop :=
  match a with
  | AReboot _ _ _ => ∃ b, localBuffer (w_cli w) = Some b ∧ queue b ≠ []
  | AEnqueue _ o => ∃ b s t, localBuffer (w_cli w) = Some b ∧ localSpool (w_cli w) = Some s ∧
      cap b <= Len b ∧ opts t = o ∧ no_room t s 0
  | _ => False
  end.

(** The account of one action or of a whole life from [w] to [w'] with answers [rs]: [gone]
    were replayed and answered for good, [lost] were dropped, and [again] are the requests
    that met a temporary failure. *)
Record account (w : World) (b : submitBuffer) (sts : list spoolTask)
    (rs : list (SubmitOptions * (goerr + bool)))
    (w' : World) (b' : submitBuffer) (sts' : list spoolTask)
    (gone lost again : list SubmitOptions) : Prop := {
  ac_tasks : stored rs ++ waiting b sts ≡ₚ gone ++ lost ++ waiting b' sts';
  ac_requests : (req_opts <$> w_sent w')
    ≡ₚ (req_opts <$> w_sent w) ++ gone ++ answered rs ++ again;
  ac_gone : Forall settled gone;
  ac_again : Forall refused again }.

Lemma account_refl w b sts : account w b sts [] w b sts [] [] [].
Proof. split; try constructor; cbn; rewrite ?app_nil_r; done. Qed.
Lemma account_trans w b sts r1 w1 b1 sts1 g1 l1 a1 r2 w2 b2 sts2 g2 l2 a2 :
  account w b sts r1 w1 b1 sts1 g1 l1 a1 → account w1 b1 sts1 r2 w2 b2 sts2 g2 l2 a2 →
  account w b sts (r1 ++ r2) w2 b2 sts2 (g1 ++ g2) (l1 ++ l2) (a1 ++ a2).
Proof.
  intros [T1 R1 G1 A1] [T2 R2 G2 A2]. split.
  - rewrite stored_app. transitivity (stored r2 ++ (stored r1 ++ waiting b sts)); [solve_Permutation|].
    rewrite T1. transitivity (g1 ++ l1 ++ (stored r2 ++ waiting b1 sts1)); [solve_Permutation|].
    rewrite T2. solve_Permutation.
  - rewrite R2, R1, answered_app. solve_Permutation.
  - by apply Forall_app.
  - by apply Forall_app.
Qed.

Lemma steady_ext w w' b s sts :
  w_cli w' = w_cli w → w_fs w' = w_fs w → steady w b s sts → steady w' b s sts.
Proof. intros H1 H2 [? ? ? ? ? ? ? ? ? ?]. split; try done; rewrite ?H1, ?H2; done. Qed.

(** ** Storing a task: in memory if there is room, else on disk *)
Lemma contents_decodes_snoc m m' s s' sts k q t st data :
  decodes m s sts → json_ok (opts t) → encode q t = inr (st, data) →
  contents m' s' = drop k (contents m s) ++ [(q, data)] →
  decodes m' s' (drop k sts ++ [st]) ∧ Opts st = opts t.
Proof.
  intros Hd Hok He Hc. destruct (encode_decodes _ _ _ _ Hok He) as (Hu & Hs & Ho).
  split; [|done]. unfold decodes. rewrite Hc. apply Forall2_app; [by apply Forall2_drop|].
  constructor; [|constructor]. by split.
Qed.

Lemma names_kept (ok : bool) o l lost l' :
  (if ok then [o] else []) ++ l ≡ₚ lost ++ l' → JobName o ≠ "" →
  Forall (λ o, JobName o ≠ "") l → Forall (λ o, JobName o ≠ "") l'.
Proof.
  intros Hp Ho Hl. assert (Forall (λ o, JobName o ≠ "") (lost ++ l')) as Hall.
  { rewrite <- Hp. apply Forall_app. split; [|done]. destruct ok; by repeat constructor. }
  by apply Forall_app in Hall as [_ ?].
Qed.
Lemma store_spec t w b s sts :
  steady w b s sts → sendable (opts t) → nextSeq s + 1 < 2 ^ 63 →
  ∃ ok w' b' s' sts' lost, enqueueBufferedTask t w = (ok, w') ∧ steady w' b' s' sts' ∧
    w_sent w' = w_sent w ∧ schedCli (w_cli w') = schedCli (w_cli w) ∧
    ((if ok : bool then [opts t] else []) ++ waiting b sts ≡ₚ lost ++ waiting b' sts') ∧
    nextSeq s' <= nextSeq s + 1 ∧
    (lost ≠ [] → cap b <= Len b ∧ no_room t s 0).
Proof.
  intros [Scfg Sb Swf Ssp Sfs Sow Sde Sna Sdir Smx] [Hj Hok] Hn.
  destruct w as [fs tk sent c]. cbn [w_cli w_fs w_sent] in *.
  unfold enqueueBufferedTask, cli, upd_cli, lift_fs. run_st. cbn [w_cli w_fs w_tick w_sent].
  rewrite Sb. pose proof (wf_push b t Swf) as Hwf. unfold SubmitBuffer.push in *.
  destruct (Z.leb_spec (cap b) (zlen (queue b))) as [Hfull|Hroom]; cbn [fst snd] in *.
  2: { set (b' := mkSubmitBuffer _ _ _) in *.
       assert ([opts t] ++ waiting b sts ≡ₚ [] ++ waiting b' sts) as Hp.
       { unfold waiting, b'. cbn [queue]. rewrite fmap_app. cbn. solve_Permutation. }
       eexists true, _, b', s, sts, []. split; [reflexivity|]. cbn [w_cli w_fs w_sent].
       split_and!; try done; [|lia]. split; try done. by eapply (names_kept true). }
  cbn [localSpool set_buffer]. rewrite Ssp. run_st.
  cbn [w_cli w_fs w_tick w_sent localSpool set_buffer].
  unfold SubmitSpool.push. run_st.
  pose proof (push_locked_calm t s fs Sfs) as Hcalm.
  destruct (push_locked t s fs) as [[e s'] fs'] eqn:Hp. cbn [fst snd] in *.
  apply push_locked_spec in Hp as (Ow' & D' & M' & N' & k & Hev & Hwhy & Hpost); [|done|done].
  set (w' := mkWorld fs' tk sent (set_spool (Some s') (set_buffer (Some b) c))).
  assert (∀ (ok : bool) sts', decodes (fs_nodes fs') s' sts' →
    (if ok then [opts t] else []) ++ (Opts <$> sts)
      ≡ₚ (Opts <$> take k sts) ++ (Opts <$> sts') →
    ∃ w1 b' s0 sts0 lost, (ok, w') = (ok, w1) ∧ steady w1 b' s0 sts0 ∧
      w_sent w1 = sent ∧ schedCli (w_cli w1) = schedCli c ∧
      ((if ok then [opts t] else []) ++ waiting b sts ≡ₚ lost ++ waiting b' sts0) ∧
      nextSeq s0 <= nextSeq s + 1 ∧ (lost ≠ [] → cap b <= Len b ∧ no_room t s 0)) as Hfin.
  { intros ok sts' Hde Hperm. exists w', b, s', sts', (Opts <$> take k sts).
    assert ((if ok then [opts t] else []) ++ waiting b sts
      ≡ₚ (Opts <$> take k sts) ++ waiting b sts') as HP.
    { unfold waiting. transitivity ((opts <$> queue b) ++
        ((if ok then [opts t] else []) ++ (Opts <$> sts))); [solve_Permutation|].
      rewrite Hperm. solve_Permutation. }
    split_and!; [done| |done|done|exact HP|lia|].
    - split; try done; [by eapply names_kept|congruence|congruence].
    - intros Hl. split; [exact Hfull|]. apply Hev. destruct k; [by rewrite take_0 in Hl|lia]. }
  destruct e as [e|]; cbn [fst snd].
  - exists false. apply (Hfin false (drop k sts)).
    + unfold decodes. rewrite Hpost. by apply Forall2_drop.
    + cbn. by rewrite <- fmap_app, take_drop.
  - destruct Hpost as (st & data & He & Hc).
    destruct (contents_decodes_snoc _ _ _ _ _ _ _ _ _ _ Sde Hok He Hc) as [Hd' Ho].
    exists true. apply (Hfin true (drop k sts ++ [st])); [done|].
    rewrite fmap_app. cbn. rewrite Ho, app_assoc, <- fmap_app, take_drop. solve_Permutation.
Qed.

(** ** One action *)
Definition boot_time (a : action) : Z := match a with AReboot _ _ now => now | _ => 0 end.
Definition accounted (a : action) (w : World) (b : submitBuffer) (s : submitSpool)
    (sts : list spoolTask) (rs : list (SubmitOptions * (goerr + bool))) (w' : World) : Prop :=
  ∃ b' s' sts' gone lost again,
    steady w' b' s' sts' ∧ account w b sts rs w' b' sts' gone lost again ∧
    (length again <= 1)%nat ∧ nextSeq s' <= Z.max (nextSeq s) (boot_time a) + 1 ∧
    (lost ≠ [] → loses a w).

(** Nothing happened to the tasks. *)
Lemma accounted_idle a w b s sts rs w' :
  0 <= boot_time a → steady w' b s sts → w_sent w' = w_sent w → stored rs = [] →
  answered rs = [] → accounted a w b s sts rs w'.
Proof.
  intros Ha Hs Hse H1 H2. exists b, s, sts, [], [], [].
  split_and!; [done| |cbn; lia|lia|done].
  split; [by rewrite H1|by rewrite Hse, H2, app_nil_r|constructor|constructor].
Qed.

Section steps.
Hypothesis quiet : ∀ n, concurrent n = [].
Hypothesis buffered : LocalBufferEnabled c0 = true.
Hypothesis spilled : LocalBufferDiskSpillEnabled c0 = true.
Hypothesis valid : Validate (applyDefaults None 0 c0) = None.
Hypothesis place : LocalBufferDiskSpillDir c0 ≠ "".

Definition fallback (o : SubmitOptions) : State World (goerr + bool) :=
  t ← now; ok ← enqueueBufferedTask (mkBufferedTask o t 0);
  mret (if ok : bool then inr true else inl ErrLocalBufferFull).
(** The fallback, from [w1] where the request of [w], if any, was refused. *)
Lemma fallback_step ctx o w w1 b s sts again :
  steady w b s sts → w_cli w1 = w_cli w → w_fs w1 = w_fs w →
  (req_opts <$> w_sent w1) = (req_opts <$> w_sent w) ++ again → (length again <= 1)%nat →
  Forall refused again → sendable o → nextSeq s + 1 < 2 ^ 63 →
  ∃ r w', fallback o w1 = (r, w') ∧ accounted (AEnqueue ctx o) w b s sts [(o, r)] w'.
Proof.
  intros Hst Hc Hf Hse Hle Hag Hok Hn. unfold fallback, now, tick. run_st.
  set (t := mkBufferedTask o _ 0). set (w2 := mkWorld _ _ _ _).
  assert (steady w2 b s sts) as Hst2 by (by eapply (steady_ext w)).
  destruct (store_spec t w2 b s sts Hst2 Hok Hn)
    as (ok & w' & b' & s' & sts' & lost & Hr & Hst' & Hse' & _ & Hp & Hn' & Hl).
  rewrite Hr. cbn [fst snd]. eexists _, w'. split; [reflexivity|].
  exists b', s', sts', [], lost, again. split_and!; [done| |done|cbn; lia|].
  - split; [|rewrite Hse'; cbn [w_sent w2]; rewrite Hse|constructor|done].
    + change (opts t) with o in Hp. destruct ok; exact Hp.
    + destruct ok; cbn; done.
  - intros Hne. destruct (Hl Hne) as [H1 H2]. exists b, s, t.
    destruct Hst. by split_and!.
Qed.

Lemma enqueue_step ctx o w b s sts :
  steady w b s sts → json_ok o → nextSeq s + 1 < 2 ^ 63 →
  ∃ r w', EnqueueTask ctx o w = (r, w') ∧ accounted (AEnqueue ctx o) w b s sts [(o, r)] w'.
Proof.
  intros Hst Hok Hn. pose proof Hst as [[h [pid Scfg]] Sb _ _ _ _ _ _ _ _].
  unfold EnqueueTask, cli. run_st. rewrite Sb, Scfg. cbn [LocalBufferEnabled applyDefaults].
  rewrite buffered. fold (fallback o). case_bool_decide as Hj.
  { eexists _, w. split; [reflexivity|]. by apply accounted_idle. }
  destruct (schedCli (w_cli w)) eqn:Hc; cbn [negb].
  2: { apply (fallback_step ctx o w w b s sts []); try done; rewrite ?app_nil_r; auto; cbn; lia. }
  run_st. destruct (SubmitTask_quiet quiet ctx o w Hc Hj) as (n & dl & req & tk & Hr & Ho).
  rewrite Hr. cbn [fst snd]. set (w1 := mkWorld _ _ _ _).
  assert (steady w1 b s sts) as Hst1 by (by eapply (steady_ext w)).
  assert (∀ r, stored [(o, r)] = [] → answered [(o, r)] = [o] →
    accounted (AEnqueue ctx o) w b s sts [(o, r)] w1) as Hans.
  { intros r H1 H2. exists b, s, sts, [], [], [].
    split_and!; [done| |cbn; lia|cbn; lia|done].
    split; [by rewrite H1|rewrite H2|constructor|constructor].
    cbn [w_sent w1]. rewrite fmap_app. cbn. by rewrite Ho. }
  unfold submit_result. destruct (rpc_SubmitTask n dl req) as [e|a] eqn:Ha.
  - destruct (isRetriableSubmitErr (Some (ErrWrap "submit task" e))) eqn:Hret.
    2: { eexists _, w1. split; [reflexivity|]. by apply Hans. }
    apply (fallback_step ctx o w w1 b s sts [o]); try done; [|repeat constructor].
    + cbn [w_sent w1]. rewrite fmap_app. cbn. by rewrite Ho.
    + exists n, dl, req. split; [done|]. unfold submit_result. by rewrite Ha.
  - eexists _, w1. split; [reflexivity|]. by apply Hans.
Qed.

(** ** A wake-up of the replay loop *)
Lemma window_quiet w w' : window w w' = [].
Proof.
  unfold window. induction (List.seq _ _) as [|n l IH]; cbn; [done|]. by rewrite quiet, IH.
Qed.

(** The memory pass, with nobody else enqueueing: it touches nothing but the queue. *)
Lemma flush_loop_quiet batch b w :
  localBuffer (w_cli w) = Some b → schedCli (w_cli w) = true →
  Forall (λ o, JobName o ≠ "") (opts <$> batch) → zlen batch + Len b <= cap b →
  ∃ ok tk reqs b' k, flush_loop batch w
      = (ok, mkWorld (w_fs w) tk (w_sent w ++ reqs) (set_buffer (Some b') (w_cli w))) ∧
    cap b' = cap b ∧ Forall settled (take k (opts <$> batch)) ∧
    (opts <$> queue b') = drop k (opts <$> batch) ++ (opts <$> queue b) ∧
    if ok : bool then k = length batch ∧ (req_opts <$> reqs) = opts <$> batch
    else ∃ o, refused o ∧ (req_opts <$> reqs) = take k (opts <$> batch) ++ [o].
Proof.
  revert w. induction batch as [|t batch IH]; intros w Hb Hc Hn Hfit; cbn [flush_loop].
  { exists true, (w_tick w), [], b, 0%nat. destruct w as [fs tk sent c]. cbn in *.
    rewrite app_nil_r. split_and!; try done. destruct c. cbn in *. by rewrite <- Hb. }
  apply Forall_cons in Hn as [Hj Hn]. rewrite zlen_cons in Hfit. run_st.
  destruct (submit_with_timeout_quiet quiet (opts t) w Hc Hj) as (n & dl & req & tk & Hr & Ho).
  rewrite Hr. cbn [fst snd]. set (w1 := mkWorld _ _ _ _).
  assert (settled (opts t) → ∃ ok tk reqs b' k, flush_loop batch w1
      = (ok, mkWorld (w_fs w) tk (w_sent w ++ reqs) (set_buffer (Some b') (w_cli w))) ∧
    cap b' = cap b ∧ Forall settled (take k (opts <$> t :: batch)) ∧
    (opts <$> queue b') = drop k (opts <$> t :: batch) ++ (opts <$> queue b) ∧
    if ok : bool then k = length (t :: batch) ∧ (req_opts <$> reqs) = opts <$> t :: batch
    else ∃ o, refused o ∧ (req_opts <$> reqs) = take k (opts <$> t :: batch) ++ [o]) as Hgo.
  { intros Hset. destruct (IH w1) as (ok & tk' & reqs & b' & k & Hrun & Hcap & Hfa & Hq & Hs);
      [done|done|done|pose proof (zlen_nonneg batch); lia|].
    exists ok, tk', (req :: reqs), b', (S k). rewrite Hrun. cbn [w_fs w_sent w_cli w1].
    rewrite <- app_assoc. split_and!; try done; [by constructor|].
    rewrite !fmap_cons, Ho. destruct ok.
    - destruct Hs as [-> ->]. done.
    - destruct Hs as (o & Href & ->). exists o. done. }
  destruct (submit_result n dl req) as [e|r] eqn:Hres.
  2: { apply Hgo. exists n, dl, req. split; [done|]. by rewrite Hres. }
  destruct (isRetriableSubmitErr (Some e)) eqn:Hret.
  2: { apply Hgo. exists n, dl, req. split; [done|]. by rewrite Hres. }
  unfold with_buffer, cli, upd_cli. run_st. subst w1. cbn [w_cli w_fs w_tick w_sent].
  rewrite Hb. cbn [fst snd w_cli w_fs w_tick w_sent].
  eexists false, tk, [req], _, 0%nat. split; [reflexivity|].
  rewrite putBack_cap, putBack_fits by (rewrite zlen_cons; done).
  split_and!; [done|constructor| |].
  - cbn. by rewrite fmap_app.
  - exists (opts t). split; [exists n, dl, req; split; [done|]; by rewrite Hres|]. cbn. by rewrite Ho.
Qed.

(** What a round of a connected client does: nothing is lost, and when no request is refused,
    a batch leaves the queue ([batch] tasks did before [w]) and a batch leaves the disk. *)
Definition share (w : World) (n : Z) : nat :=
  Z.to_nat (clamp_max (LocalBufferRetryBatch (cfg (w_cli w))) n).
Definition flushed (batch : nat) (w : World) (b : submitBuffer) (s : submitSpool)
    (sts : list spoolTask) (w' : World) : Prop :=
  ∃ b' s' sts' gone again,
    steady w' b' s' sts' ∧ account w b sts [] w' b' sts' gone [] again ∧
    (length again <= 1)%nat ∧ nextSeq s' = nextSeq s ∧
    cfg (w_cli w') = cfg (w_cli w) ∧ schedCli (w_cli w') = schedCli (w_cli w) ∧
    (schedCli (w_cli w) = true → again = [] →
     length (queue b') = (length (queue b) - batch)%nat ∧
     length sts' = (length sts - share w (zlen sts))%nat).
Lemma flushed_accounted n e w b s sts w' :
  flushed n w b s sts w' → accounted (AWake e) w b s sts [] w'.
Proof.
  intros (b' & s' & sts' & g & ag & H1 & H2 & H3 & H4 & _). exists b', s', sts', g, [], ag.
  split_and!; try done. cbn. lia.
Qed.

(** The pass over the disk. *)
Lemma flush_spool_step w b s sts :
  steady w b s sts → schedCli (w_cli w) = true →
  ∃ w', flushSpoolOnce w = (tt, w') ∧ flushed 0 w b s sts w'.
Proof.
  intros [Scfg Sb Swf Ssp Sfs Sow Sde Sna Sdir Smx] Hc.
  pose proof Sna as [_ Snd]%Forall_app. apply (Forall_fmap Opts) in Snd.
  assert (w_fs w = mkFs (fs_nodes (w_fs w)) []) as Hfs.
  { unfold calm in Sfs. destruct (w_fs w). cbn in *. by subst. }
  pose proof (spool_round quiet w s _ sts Hc Ssp Hfs Sow Sde Snd) as Hrp.
  destruct (flushSpoolOnce_grows w) as (acc & more & Hev & _).
  destruct (flushSpoolOnce w) as [[] w'] eqn:Hrun. cbn [snd] in *. exists w'. split; [done|].
  destruct Hrp as (k & st & s' & H1 & H2 & H3 & H4 & H5 & H6 & H7 & H8).
  destruct (H8 s Ssp) as (P1 & P2 & P3).
  destruct (ev_buf _ _ _ Hev b Sb) as (b' & B1 & B2 & B3 & B4).
  pose proof (ev_win _ _ _ Hev) as Hw. rewrite window_quiet in Hw.
  apply sublist_nil_r in Hw as ->. rewrite app_nil_r in B3.
  set (again := if st then Opts <$> take 1 (drop k sts) else []).
  exists b', s', (drop k sts), (Opts <$> take k sts), again.
  split_and!; [| | |lia|apply (ev_cfg _ _ _ Hev)|apply (ev_conn _ _ _ Hev)|].
  - split; try done; [destruct Scfg as (h & pid & E); exists h, pid; rewrite (ev_cfg _ _ _ Hev); done
                     |by apply B4| |congruence|congruence].
    unfold waiting in *. rewrite B3. apply Forall_app in Sna as [? Sn]. apply Forall_app.
    split; [done|]. rewrite <- (take_drop k sts), fmap_app in Sn. by apply Forall_app in Sn as [_ ?].
  - split; [cbn; unfold waiting; rewrite B3; rewrite <- (take_drop k sts) at 1; rewrite fmap_app; solve_Permutation| |done|].
    + rewrite H6. cbn. unfold again. destruct st; [|by rewrite app_nil_r].
      by rewrite <- take_take_drop, fmap_app.
    + unfold again. destruct st; [|constructor]. destruct H7 as (_ & t & Ht & Href).
      rewrite (drop_S sts t k Ht). cbn. by repeat constructor.
  - unfold again. destruct st; [|cbn; lia]. rewrite length_fmap, length_take. lia.
  - intros _ Hag. rewrite B3, length_drop. split; [lia|]. destruct st; [|subst k; done].
    exfalso. destruct H7 as (_ & t & Ht & _). unfold again in Hag. by rewrite (drop_S sts t k Ht) in Hag.
Qed.

(** The pass over the memory queue, up to and including the put-back. *)
Lemma memory_pass w b s sts :
  steady w b s sts → schedCli (w_cli w) = true →
  let '(batch, b0) := SubmitBuffer.drain (LocalBufferRetryBatch (cfg (w_cli w))) b in
  ∃ ok w' b' gone again,
    flush_loop batch (mkWorld (w_fs w) (w_tick w) (w_sent w) (set_buffer (Some b0) (w_cli w)))
      = (ok, w') ∧
    steady w' b' s sts ∧ schedCli (w_cli w') = true ∧ cfg (w_cli w') = cfg (w_cli w) ∧
    account w b sts [] w' b' sts gone [] again ∧
    if ok : bool then again = [] ∧ length (queue b') = (length (queue b) - length batch)%nat
    else length again = 1%nat.
Proof.
  intros Hst Hc. pose proof Hst as [Scfg Sb Swf Ssp Sfs Sow Sde Sna Sdir Smx].
  set (mx := LocalBufferRetryBatch _).
  pose proof (drain_split mx b) as Hsp. pose proof (wf_drain mx b Swf) as Hwd.
  pose proof (drain_cap mx b) as Hcd.
  destruct (SubmitBuffer.drain mx b) as [batch b0]. cbn [fst snd] in *.
  set (w0 := mkWorld _ _ _ _). pose proof Sna as [Snm _]%Forall_app.
  rewrite <- Hsp, fmap_app in Snm. apply Forall_app in Snm as [Snb _].
  destruct (flush_loop_quiet batch b0 w0) as (ok & tk & reqs & b' & k & Hr & Hcap & Hset & Hq & Hs);
    [done|done|done| |].
  { destruct Swf as [_ Hl]. unfold Len, zlen in *. rewrite <- Hsp, length_app in Hl. lia. }
  rewrite Hr. cbn [w_fs w_sent w_cli w0].
  assert ((opts <$> queue b) = take k (opts <$> batch) ++ (opts <$> queue b')) as Hsplit.
  { by rewrite Hq, app_assoc, take_drop, <- fmap_app, Hsp. }
  assert (length (queue b') <= length (queue b))%nat as Hlen.
  { apply (f_equal length) in Hsplit. rewrite length_app, !length_fmap in Hsplit. lia. }
  assert (∃ again, (req_opts <$> reqs) = take k (opts <$> batch) ++ again ∧
    Forall refused again ∧
    if ok then again = [] ∧ length (queue b') = (length (queue b) - length batch)%nat
    else length again = 1%nat) as (again & Hre & Href & Hle).
  { destruct ok; [destruct Hs as [-> Hs]|destruct Hs as (o & Ho & Hs)].
    - exists []. rewrite Hs, app_nil_r, take_ge by (by rewrite length_fmap).
      split_and!; [done|constructor|done|]. apply (f_equal length) in Hsplit.
      rewrite length_app, length_take, !length_fmap in Hsplit. lia.
    - exists [o]. split_and!; [done|by repeat constructor|done]. }
  eexists ok, _, b', (take k (opts <$> batch)), again. split; [reflexivity|].
  split_and!; [|done|done| |exact Hle].
  - split; try done; cbn.
    + destruct Swf. unfold wf_buffer, Len, zlen in *. rewrite Hcap, Hcd. lia.
    + unfold waiting in *. rewrite Hsplit, <- app_assoc in Sna. by apply Forall_app in Sna as [_ ?].
  - split; [cbn; unfold waiting; by rewrite Hsplit, app_assoc| |done|done].
    cbn [w_sent]. by rewrite fmap_app, Hre.
Qed.

Lemma flush_step w b s sts :
  steady w b s sts →
  ∃ w', flushBufferOnce w = (tt, w') ∧ flushed (share w (Len b)) w b s sts w'.
Proof.
  intros Hst. unfold flushBufferOnce, with_buffer, upd_cli, cli. run_st.
  destruct (schedCli (w_cli w)) eqn:Hc; cbn [negb].
  2: { exists w. split; [done|]. exists b, s, sts, [], [].
       split_and!; try done; [apply account_refl|cbn; lia|by rewrite Hc]. }
  run_st. rewrite (sd_buf _ _ _ _ Hst). pose proof (memory_pass w b s sts Hst Hc) as Hm.
  pose proof (drain_length (LocalBufferRetryBatch (cfg (w_cli w))) b) as Hdl.
  fold (share w (Len b)) in Hdl.
  destruct (SubmitBuffer.drain _ b) as [batch b0]. cbn [fst snd] in *. rewrite <- Hdl.
  destruct Hm as (ok & w1 & b1 & gone & again & Hr & Hst1 & Hc1 & Hcf & Hac & Hle).
  assert (∃ w', (if ok then flushSpoolOnce else mret tt) w1 = (tt, w') ∧
    flushed (length batch) w b s sts w') as (w' & Hrun & Hfin).
  { destruct ok; [destruct Hle as [-> Hlen]|].
    - destruct (flush_spool_step w1 b1 s sts Hst1 Hc1)
        as (w' & Hr' & b' & s' & sts' & g' & a' & Hst' & Hac' & Hle' & Hn & Hcf' & Hcc & Hp).
      exists w'. split; [done|].
      pose proof (account_trans _ _ _ _ _ _ _ _ _ _ _ _ _ _ _ _ _ Hac Hac') as Ht.
      exists b', s', sts', (gone ++ g'), a'. split_and!; [exact Hst'|exact Ht|exact Hle'|done|congruence|congruence|].
      intros _ Hag. destruct (Hp Hc1 Hag) as [P1 P2]. unfold share in *. rewrite Hcf in P2.
      split; [lia|done].
    - exists w1. split; [done|]. exists b1, s, sts, gone, again.
      split_and!; try done; [lia|congruence|]. intros _ ->. done. }
  exists w'. split; [|exact Hfin]. destruct batch as [|t batch].
  - cbn [flush_loop] in Hr. injection Hr as <- <-. exact Hrun.
  - rewrite Hr. exact Hrun.
Qed.

(** One iteration of the loop. *)
Lemma wake_step e w b s sts :
  e ≠ WRootDone → steady w b s sts →
  ∃ w', (∀ ws, runBufferRetryLoop (e :: ws) w = runBufferRetryLoop ws w') ∧
    flushed (share w (Len b)) w b s sts w'.
Proof.
  intros He Hst. destruct e; [| |done].
  - destruct (flush_step w b s sts Hst) as (w' & Hr & Hf). exists w'. split; [|done].
    intros ws. cbn [runBufferRetryLoop]. run_st. by rewrite Hr.
  - set (b1 := mkSubmitBuffer (cap b) (queue b) false).
    set (w1 := mkWorld (w_fs w) (w_tick w) (w_sent w) (set_buffer (Some b1) (w_cli w))).
    assert (steady w1 b1 s sts) as Hst1 by (destruct Hst; by split).
    destruct (flush_step w1 b1 s sts Hst1) as (w' & Hr & Hf). exists w'. split.
    + intros ws. cbn [runBufferRetryLoop]. unfold upd_cli. run_st.
      rewrite (sd_buf _ _ _ _ Hst). cbn [fmap option_fmap option_map].
      fold b1. fold w1. by rewrite Hr.
    + destruct Hf as (b' & s' & sts' & g & ag & H1 & [A1 A2 A3 A4] & H3 & H4 & H5).
      exists b', s', sts', g, ag. split; [done|]. split; [by split|]. split; [done|]. exact (conj H4 H5).
Qed.

(** With a server that answers every request for good, [n] wake-ups take [n] batches from the
    queue and [n] from the disk. *)
Definition answering : Prop :=
  ∀ n dl req, isRetriableSubmitErr (err_of (submit_result n dl req)) = false.
Definition batch_size (w : World) : nat := Z.to_nat (LocalBufferRetryBatch (cfg (w_cli w))).
Lemma share_batch {A} w b s sts (l : list A) :
  steady w b s sts → share w (zlen l) = (batch_size w `min` length l)%nat.
Proof.
  intros [(h & pid & E) _ _ _ _ _ _ _ _ _]. unfold share, batch_size.
  assert (0 < LocalBufferRetryBatch (cfg (w_cli w))) by (rewrite E; by apply or_pos_pos).
  unfold clamp_max, zlen. repeat case_bool; cbn in *; lia.
Qed.
Lemma wakes_account ws w b s sts :
  answering → schedCli (w_cli w) = true → Forall (λ e, e ≠ WRootDone) ws → steady w b s sts →
  ∃ w' b' s' sts' gone, runBufferRetryLoop ws w = (tt, w') ∧ steady w' b' s' sts' ∧
    account w b sts [] w' b' sts' gone [] [] ∧
    length (queue b') = (length (queue b) - length ws * batch_size w)%nat ∧
    length sts' = (length sts - length ws * batch_size w)%nat.
Proof.
  intros Hup Hc Hws. revert w b s sts Hc. induction Hws as [|e ws He Hws IH]; intros w b s sts Hc Hst.
  { exists w, b, s, sts, []. split_and!; try done; [apply account_refl|cbn; lia|cbn; lia]. }
  destruct (wake_step e w b s sts He Hst)
    as (w1 & Hr1 & b1 & s1 & sts1 & g1 & ag & Hst1 & Hac1 & _ & _ & Hcf & Hcc & Hp).
  assert (ag = []) as ->.
  { pose proof (ac_again _ _ _ _ _ _ _ _ _ _ Hac1) as Hre. destruct Hre as [|o ? (n & dl & req & _ & Hre) _]; [done|].
    by rewrite Hup in Hre. }
  destruct (Hp Hc eq_refl) as [P1 P2]. rewrite Hc in Hcc.
  destruct (IH w1 b1 s1 sts1 Hcc Hst1) as (w' & b' & s' & sts' & g2 & Hr & Hst' & Hac & L1 & L2).
  exists w', b', s', sts', (g1 ++ g2). rewrite Hr1. split_and!; [done|done| | |].
  - pose proof (account_trans _ _ _ _ _ _ _ _ _ _ _ _ _ _ _ _ _ Hac1 Hac) as Ht. exact Ht.
  - unfold batch_size in L1. rewrite Hcf in L1. fold (batch_size w) in L1.
    unfold Len in P1. rewrite (share_batch _ _ _ _ _ Hst) in P1. cbn [length]. lia.
  - unfold batch_size in L2. rewrite Hcf in L2. fold (batch_size w) in L2.
    rewrite (share_batch _ _ _ _ _ Hst) in P2. cbn [length]. lia.
Qed.

(** ** The other actions *)
Lemma start_stop_step a w b s sts f :
  0 <= boot_time a → (∀ c, cfg (f c) = cfg c ∧ localBuffer (f c) = localBuffer c ∧
    localSpool (f c) = localSpool c) → steady w b s sts →
  accounted a w b s sts [] (upd_cli f w).2.
Proof.
  intros Ha Hf [Scfg Sb Swf Ssp Sfs Sow Sde Sna Sdir Smx].
  destruct (Hf (w_cli w)) as (F1 & F2 & F3).
  apply accounted_idle; try done. split; try done; cbn; by rewrite ?F1, ?F2, ?F3.
Qed.

Lemma New_steady h pid now w b s sts :
  steady w b s sts → 0 <= now < 2 ^ 63 - 1 → nextSeq s <= 2 ^ 63 - 1 →
  ∃ c s', lift_fs (New h pid tempDir now c0) w
      = (inr c, mkWorld (w_fs w) (w_tick w) (w_sent w) (w_cli w)) ∧
    ∀ w', w_fs w' = w_fs w → w_cli w' = c →
      steady w' (newSubmitBuffer (LocalBufferCapacity (applyDefaults h pid c0))) s' sts ∧
      nextSeq s' <= Z.max (now + 1) (nextSeq s).
Proof.
  intros [Scfg Sb Swf Ssp Sfs Sow Sde Sna Sdir Smx] Hnow Hn.
  assert (w_fs w = mkFs (fs_nodes (w_fs w)) []) as Hfs.
  { unfold calm in Sfs. destruct (w_fs w). cbn in *. by subst. }
  destruct (restart_owned _ s tempDir now Sow) as (s' & Hr & Hfl & Hcu & Hdi & Hmx & Hns & Hlt);
    [by rewrite Sdir|lia|done|].
  unfold lift_fs, New. replace (Validate (applyDefaults h pid c0)) with (@None goerr)
    by (by rewrite <- valid). cbn [LocalBufferEnabled applyDefaults LocalBufferDiskSpillEnabled].
  rewrite buffered, spilled. run_st. rewrite Sdir, Smx, <- Hfs in Hr.
  cbn [applyDefaults LocalBufferDiskSpillDir LocalBufferDiskSpillMaxBytes] in Hr |- *.
  rewrite Hr. cbn [fst snd]. eexists _, s'. split; [reflexivity|].
  intros w' E1 E2. split; [|lia].
  assert (fs_nodes (w_fs w') = fs_nodes (w_fs w)) as E3 by (by rewrite E1).
  split; rewrite ?E1, ?E2; try done; [by exists h, pid| | | | |congruence|congruence].
  - apply wf_newSubmitBuffer. apply or_pos_pos. done.
  - destruct Sow as [O1 O2 O3 O4 O5 O6 O7 O8].
    split; rewrite ?Hfl, ?Hcu, ?Hdi, ?Hmx; try done; [lia|].
    apply Forall_forall. intros f Hf. destruct (proj1 (Forall_forall _ _) O5 f Hf) as [? ?].
    rewrite Hfl in Hlt. split; [|done]. pose proof (proj1 (Forall_forall _ _) Hlt f Hf). cbn in *. lia.
  - unfold decodes, contents in *. by rewrite Hfl.
  - unfold waiting in *. by apply Forall_app in Sna as [_ ?].
Qed.

Definition action_ok (a : action) : Prop :=
  match a with
  | AEnqueue _ o => json_ok o
  | AReboot _ _ now => 0 <= now <= 2 ^ 62
  | _ => True
  end.
Lemma reboot_step h pid now w b s sts :
  steady w b s sts → 0 <= now <= 2 ^ 62 → nextSeq s + 1 < 2 ^ 63 →
  ∃ rs w', act (AReboot h pid now) w = (rs, w') ∧
    accounted (AReboot h pid now) w b s sts rs w'.
Proof.
  intros Hst Hnow Hn. cbn [act].
  destruct (New_steady h pid now w b s sts Hst ltac:(lia) ltac:(lia)) as (c & s' & Hr & Hst').
  run_st. rewrite Hr. cbn [fst snd]. unfold upd_cli. run_st. cbn [w_fs w_tick w_sent w_cli].
  eexists _, _. split; [reflexivity|]. set (w' := mkWorld _ _ _ _).
  destruct (Hst' w' eq_refl eq_refl) as [Hs1 Hn1].
  exists (newSubmitBuffer (LocalBufferCapacity (applyDefaults h pid c0))), s', sts,
    [], (opts <$> queue b), [].
  split_and!; [done| |cbn; lia|cbn [boot_time]; lia|].
  - split; [done|cbn; by rewrite app_nil_r|constructor|constructor].
  - intros Hq. exists b. split; [apply Hst|]. intros E. by rewrite E in Hq.
Qed.
Lemma act_step a w b s sts :
  steady w b s sts → action_ok a → nextSeq s + 1 < 2 ^ 63 →
  ∃ rs w', act a w = (rs, w') ∧ accounted a w b s sts rs w'.
Proof.
  intros Hst Ha Hn. destruct a as [ctx o|e|dial| |h pid now]; cbn [act].
  - destruct (enqueue_step ctx o w b s sts Hst Ha Hn) as (r & w' & Hr & Hac).
    run_st. rewrite Hr. cbn [fst snd]. by eexists _, w'.
  - exists []. destruct (decide (e = WRootDone)) as [->|He].
    + exists w. split; [done|]. by apply accounted_idle.
    + destruct (wake_step e w b s sts He Hst) as (w' & Hr & Hac%(flushed_accounted _ e)).
      exists w'. run_st. by rewrite (Hr []).
  - exists [], (upd_cli (λ c, (Start dial c).2) w).2. split; [done|].
    apply start_stop_step; try done. intros c. unfold Start, set_started.
    destruct (started c); [done|]. by destruct dial.
  - exists [], (upd_cli (λ c, (Stop c).2) w).2. split; [done|].
    apply start_stop_step; try done. intros c. unfold Stop, set_started. by destruct (started c).
  - by apply reboot_step.
Qed.

(** C14: A backlog clears. Let no submission arrive meanwhile, the disk be sound and every record
    on it readable, and let a connected client's server answer every request for good (accepting or
    refusing it, [answering]). Then the iterations of the replay loop, whatever woke each of them
    short of the client's end, empty memory and disk after as many wake-ups as there are batches in
    the longer of the two, and have sent each waiting task exactly once. *)
Theorem backlog_clears (ws : list wakeup) (w : World) (b : submitBuffer) (s : submitSpool)
    (sts : list spoolTask) :
  answering → schedCli (w_cli w) = true → Forall (λ e, e ≠ WRootDone) ws → steady w b s sts →
  (length (queue b) `max` length sts <= length ws * batch_size w)%nat →
  ∃ w' b' s', runBufferRetryLoop ws w = (tt, w') ∧ steady w' b' s' [] ∧ queue b' = [] ∧
    (req_opts <$> w_sent w') ≡ₚ (req_opts <$> w_sent w) ++ waiting b sts.
Proof.
  intros Hup Hc Hws Hst Hlen.
  destruct (wakes_account ws w b s sts Hup Hc Hws Hst)
    as (w' & b' & s' & sts' & gone & Hr & Hst' & [T R _ _] & L1 & L2).
  assert (queue b' = []) as Hq by (apply length_zero_iff_nil; lia).
  assert (sts' = []) as -> by (apply length_zero_iff_nil; lia).
  exists w', b', s'. split_and!; try done. rewrite R, app_nil_r. cbn in T. rewrite T.
  unfold waiting. by rewrite Hq, !app_nil_r.
Qed.

(** C1: Delivery from end to end. Take any life of a service with queue and spool enabled
    on a sound disk, made of actions one after another: submissions of tasks JSON can represent, wake-ups of the replay loop, starts,
    stops and restarts on the same disk, none arriving while the round of another is under way, with
    any server answers. The tasks stored for their callers and the tasks that waited before are
    exactly the tasks replayed and answered for good, the tasks still waiting in memory or on
    disk, and the lost ones; and the requests sent are exactly one for each task that left,
    one for each caller who got the server's own answer, and at most one refused attempt per
    action. Tasks are lost only at a restart with tasks in memory, or when a submission finds
    the queue full and the spool's budget without room.  (A submission that arrives during a round
    can push out the oldest task put back: [flush_round], [put_back_drops].) *)
Theorem delivery_accounts (l : list action) (w : World) (b : submitBuffer) (s : submitSpool)
    (sts : list spoolTask) :
  steady w b s sts → Forall action_ok l → nextSeq s + zlen l < 2 ^ 63 → zlen l < 2 ^ 62 →
  ∃ rs w' b' s' sts' gone lost again,
    life l w = (rs, w') ∧ steady w' b' s' sts' ∧
    account w b sts rs w' b' sts' gone lost again ∧ (length again <= length l)%nat ∧
    (lost ≠ [] → ∃ pre a post, l = pre ++ a :: post ∧ loses a (life pre w).2).
Proof.
  intros Hst Hl Hn Hz. revert w b s sts Hst Hn.
  induction Hl as [|a l Ha Hl IH]; intros w b s sts Hst Hn.
  { exists [], w, b, s, sts, [], [], []. split_and!; try done. apply account_refl. }
  rewrite zlen_cons in *. pose proof (zlen_nonneg l).
  destruct (act_step a w b s sts Hst Ha ltac:(lia)) as (r1 & w1 & Hr1 & b1 & s1 & sts1 & g1 & l1 & a1 & Hst1 & Hac1 & Hle1 & Hn1 & Hl1).
  assert (boot_time a <= 2 ^ 62) by (destruct a; cbn in *; lia).
  destruct (IH ltac:(lia) w1 b1 s1 sts1 Hst1 ltac:(lia))
    as (r2 & w2 & b2 & s2 & sts2 & g2 & l2 & a2 & Hr2 & Hst2 & Hac2 & Hle2 & Hl2).
  exists (r1 ++ r2), w2, b2, s2, sts2, (g1 ++ g2), (l1 ++ l2), (a1 ++ a2).
  cbn [life]. run_st. rewrite Hr1. cbn [fst snd]. rewrite Hr2. cbn [fst snd].
  split_and!; [done|done|by eapply account_trans|rewrite length_app; cbn; lia|].
  intros Hne. destruct (decide (l1 = [])) as [->|Hne1].
  - destruct (Hl2 Hne) as (pre & a' & post & -> & Hlo). exists (a :: pre), a', post.
    split; [done|]. cbn [life]. run_st. rewrite Hr1. cbn [fst snd].
    by destruct (life pre w1).
  - exists [], a, l. split; [done|]. by apply Hl1.
Qed.
End steps.
End life.

(** ** A day of one service: the queue takes three tasks, the disk two. *)
Definition demo_conf : Config :=
  mkConfig "sched:9000" "app" "key" "secret" "" "" "" "" 0 0 0 0 0 0 0 0 true 3 0 0 true
    "/spool" 170.
Definition demo_start (conn : bool) (q : list bufferedTask) : World :=
  mkWorld (mkFs ∅ []) 0 []
    (mkClient (applyDefaults (Some "h") 1 demo_conf) conn ∅ 50 0 false
       (Some (mkSubmitBuffer 3 q false)) (Some demo_spool)).
Lemma demo_steady conn q :
  (length q <= 3)%nat → Forall (λ t, JobName (opts t) ≠ "") q →
  @steady demo_codec demo_conf (demo_start conn q) (mkSubmitBuffer 3 q false) demo_spool [].
Proof.
  intros Hq Hn. split; try done; cbn.
  - by exists (Some "h"), 1.
  - unfold wf_buffer, Len, zlen. cbn. lia.
  - by apply owned_empty.
  - constructor.
  - unfold waiting. cbn. rewrite app_nil_r. by apply (Forall_fmap opts).
Qed.
Definition demo_enqueue (job : string) : action := AEnqueue None (opts (demo_submit job)).
Definition demo_life : list action :=
  [demo_enqueue "a"; demo_enqueue "later"; demo_enqueue "c"; demo_enqueue "d"; AStart None;
   demo_enqueue "bad"; AWake WNotify; AWake WTicker; AReboot None 7 50; AStart None;
   demo_enqueue "e"].
Lemma delivery_accounts_witness :
  let w := demo_start false [] in
  (∃ rs w' b' s' sts' gone lost again,
    @life quiet_platform demo_codec demo_conf "/tmp" demo_life w = (rs, w') ∧
    @steady demo_codec demo_conf w' b' s' sts' ∧
    @account quiet_platform w (mkSubmitBuffer 3 [] false) [] rs w' b' sts' gone lost again ∧
    (length again <= 11)%nat ∧
    (lost ≠ [] → ∃ pre a post, demo_life = pre ++ a :: post ∧
       @loses demo_codec a (@life quiet_platform demo_codec demo_conf "/tmp" pre w).2)) ∧
  stored (@life quiet_platform demo_codec demo_conf "/tmp" demo_life w).1
  = opts <$> [demo_submit "a"; demo_submit "later"; demo_submit "c"; demo_submit "d"].
Proof.
  intros w. split; [|vm_compute; reflexivity].
  apply (@delivery_accounts quiet_platform demo_codec demo_conf "/tmp" (λ n, eq_refl)
           eq_refl eq_refl eq_refl ltac:(done) demo_life w (mkSubmitBuffer 3 [] false)
           demo_spool []).
  - apply demo_steady; [cbn; lia|constructor].
  - repeat constructor; lia.
  - vm_compute. reflexivity.
  - vm_compute. reflexivity.
Defined.
(** The same platform with a server that takes everything. *)
Definition kind_platform : Platform := {|
  Run := unit; JobSpec := unit; clock := @clock demo_platform; rand8 := @rand8 demo_platform;
  FromError := @FromError demo_platform;
  rpc_SubmitTask := λ n _ _, inr (mkSubmitTaskResponse (FormatInt (Z.of_nat n)) false);
  rpc_GetRun := λ _ _ _, inr tt; rpc_GetJob := λ _ _ _, None; rpc_CreateJob := λ _ _ _, None;
  rpc_CancelRun := λ _ _ _, inr (mkCancelRunResponse true ""); concurrent := λ _, [] |}.
Lemma backlog_clears_witness :
  let q := [demo_submit "a"; demo_submit "b"; demo_submit "c"] in
  let w := demo_start true q in
  ∃ w' b' s', @runBufferRetryLoop kind_platform demo_codec [WTicker] w = (tt, w') ∧
    @steady demo_codec demo_conf w' b' s' [] ∧ queue b' = [] ∧
    (req_opts <$> w_sent w') ≡ₚ opts <$> q.
Proof.
  intros q w.
  apply (@backlog_clears kind_platform demo_codec demo_conf (λ n, eq_refl) [WTicker] w
           (mkSubmitBuffer 3 q false) demo_spool []).
  - done.
  - done.
  - repeat constructor. done.
  - apply demo_steady; [cbn; lia|by repeat constructor].
  - vm_compute. lia.
Defined.
