(* ===== verification/WorkerSession.v ===== *)
(** The worker side of the scheduler SDK (executor.go, stream.go): one stream session after
    another, with a receive loop, a sender, a heartbeat and one goroutine per dispatched
    run.  Goroutines are interleaved by explicit events: [wstep ev w] performs the next
    atomic step named by [ev], [None] when that step is not enabled (the goroutine is blocked or
    elsewhere), [Panic] when Go would panic. *)
From stdpp Require Import prelude gmap strings list fin_maps.
From Stdlib Require Import Ascii.
From S2P Require Import Prelude GoStrings SubmitTypes.

(** ** Messages *)
Record Dispatch := mkDispatch {
  RunId : string; d_JobName : string; d_BizKey : string; d_Payload : string;
  TriggerType : Z; RetryCount : Z; RetryMax : Z; ShardIndex : Z; ShardTotal : Z;
  TimeoutSec : Z; d_TraceId : string; d_SpanId : string; DispatchedAt : Z }.
#[global] Instance Dispatch_eq_dec : EqDecision Dispatch.
Proof. solve_decision. Defined.

Inductive RunStatus := STATUS_SUCCESS | STATUS_FAILED | STATUS_TIMEOUT | STATUS_CANCELED.
#[global] Instance RunStatus_eq_dec : EqDecision RunStatus.
Proof. solve_decision. Defined.

Inductive WorkerMessage :=
  | MAck (run_id : string) (accepted : bool) (reason : string)
  | MResult (run_id : string) (status : RunStatus) (output error : string)
      (duration_ms started_at ended_at : Z)
  | MHeartbeat (worker_id : string) (ts inflight uptime_sec : Z).
#[global] Instance WorkerMessage_eq_dec : EqDecision WorkerMessage.
Proof. solve_decision. Defined.

Inductive SchedulerMessage :=
  | SDispatch (d : option Dispatch)
  | SCancel (run_id reason : option string)   (* [None]: a nil message *)
  | SReload
  | SRegister
  | SUnknown.

(** [err.Error()] *)
Fixpoint Error (e : goerr) : string :=
  match e with
  | ErrSentinel s | ErrNew s | ErrExt s => s
  | ErrWrap m e => m +++ ": " +++ Error e
  end.

(** ** executor.go: running a handler *)
(** The [Job] a handler receives. *)
Record Job := mkJob {
  job_RunID : string; job_JobName : string; job_BizKey : string; job_Payload : string;
  job_TriggerType : Z; job_RetryCount : Z; job_RetryMax : Z; job_ShardIndex : Z;
  job_ShardTotal : Z; job_TimeoutSec : Z; job_TraceID : string; job_SpanID : string;
  job_DispatchedAt : Z }.
Definition job_of (d : Dispatch) : Job :=
  mkJob (RunId d) (d_JobName d) (d_BizKey d) (d_Payload d) (TriggerType d) (RetryCount d)
    (RetryMax d) (ShardIndex d) (ShardTotal d) (TimeoutSec d) (d_TraceId d) (d_SpanId d)
    (DispatchedAt d).

(** How a handler ends: it returns, or panics with a value (and a stack trace). *)
Inductive outcome := HReturn (output : string) (err : option goerr) | HPanic (v stack : string).
Definition runHandlerSafe (o : outcome) : string * option goerr :=
  match o with
  | HReturn out err => (out, err)
  | HPanic v stack => ("", Some (ErrNew ("handler panic: " +++ v +++ String (ascii_of_nat 10) stack)))
  end.

Definition classify (err : option goerr) : RunStatus :=
  match err with
  | None => STATUS_SUCCESS
  | Some e =>
      if errors_Is e context_DeadlineExceeded then STATUS_TIMEOUT
      else if errors_Is e context_Canceled then STATUS_CANCELED
      else STATUS_FAILED
  end.
Definition result_message (d : Dispatch) (o : outcome) (startedAt endedAt : Z) : WorkerMessage :=
  let '(output, err) := runHandlerSafe o in
  MResult (RunId d) (classify err) output (from_option Error "" err)
    (i32 (Z.quot (endedAt - startedAt) Millisecond))
    (startedAt / Millisecond) (endedAt / Millisecond).

(** ** State *)
Record Session := mkSession {
  sendCh : list WorkerMessage;    (* buffered, capacity 64 *)
  ch_closed : bool;
  ctx_done : bool;                (* sessCtx *)
  sender_up : bool;
  hb_pending : option WorkerMessage;
  hb_up : bool;
  wire : list WorkerMessage }.    (* what stream.Send has sent *)

(** What a goroutine launched by [onDispatch] is doing. *)
Inductive gphase := GRunning (startedAt : Z) | GReport (m : WorkerMessage).
Record goroutine := mkGoroutine {
  g_disp : Dispatch;
  g_sess : nat;                   (* the session whose channel and context it captured *)
  g_timeout : option Z;           (* handlerCtx timeout *)
  g_cancelled : bool;             (* handlerCtx, by its cancel function *)
  g_phase : gphase }.

(** The receive loop: waiting for a message, or inside [onDispatch] at its ack. *)
Inductive rphase :=
  | RRecv
  | RAck (m : WorkerMessage) (start : option Dispatch)
  | RClosing.                     (* the loop returned; cancel() done, close(sendCh) not yet *)

Record Worker := mkWorker {
  wcfg : Config;
  whandlers : gmap string nat;
  sem : Z;                        (* len(concurrencySem) *)
  cancels : gmap string nat;      (* run_id -> goroutine whose context it cancels *)
  active : gmap nat goroutine;
  next_g : nat;
  sessions : gmap nat Session;
  cur : option (nat * rphase);
  next_s : nat;
  hbDelay : Z;
  seen : list Dispatch;           (* dispatches taken from the stream, oldest first *)
  outlog : list (WorkerMessage * bool) }.  (* completed sendOrDrop calls: sent or dropped *)

Definition currentInflight (w : Worker) : Z :=
  MaxConcurrency (wcfg w) - (MaxConcurrency (wcfg w) - sem w).

Definition set_recv (r : option (nat * rphase)) (w : Worker) : Worker :=
  mkWorker (wcfg w) (whandlers w) (sem w) (cancels w) (active w) (next_g w) (sessions w) r
    (next_s w) (hbDelay w) (seen w) (outlog w).
Definition set_session (i : nat) (s : Session) (w : Worker) : Worker :=
  mkWorker (wcfg w) (whandlers w) (sem w) (cancels w) (active w) (next_g w)
    (<[i := s]> (sessions w)) (cur w) (next_s w) (hbDelay w) (seen w) (outlog w).
Definition set_goroutine (g : nat) (x : goroutine) (w : Worker) : Worker :=
  mkWorker (wcfg w) (whandlers w) (sem w) (cancels w) (<[g := x]> (active w)) (next_g w)
    (sessions w) (cur w) (next_s w) (hbDelay w) (seen w) (outlog w).
Definition set_log (m : WorkerMessage) (sent : bool) (w : Worker) : Worker :=
  mkWorker (wcfg w) (whandlers w) (sem w) (cancels w) (active w) (next_g w) (sessions w)
    (cur w) (next_s w) (hbDelay w) (seen w) (outlog w ++ [(m, sent)]).

(** ** Channel operations *)
(** Which ready case a [select] takes. *)
Inductive choice := ChSend | ChDone.
Definition send_ch (m : WorkerMessage) (s : Session) : option (gores Session) :=
  if ch_closed s then Some (Panic "send on closed channel")
  else if (64 <=? length (sendCh s))%nat then None
  else Some (Ret (mkSession (sendCh s ++ [m]) (ch_closed s) (ctx_done s) (sender_up s)
                    (hb_pending s) (hb_up s) (wire s))).

(** [sendOrDrop] on session [i]; [None] while neither case is ready. *)
Definition sendOrDrop (i : nat) (m : WorkerMessage) (c : choice) (w : Worker)
    : option (gores Worker) :=
  match sessions w !! i with
  | None => None
  | Some s =>
      match c with
      | ChSend => match send_ch m s with
                  | None => None
                  | Some (Panic e) => Some (Panic e)
                  | Some (Ret s) => Some (Ret (set_log m true (set_session i s w)))
                  end
      | ChDone => if ctx_done s then Some (Ret (set_log m false w)) else None
      end
  end.

(** ** onDispatch *)
(** Up to the ack: lookup, semaphore, and the ack to send. *)
Definition onDispatch_begin (i : nat) (od : option Dispatch) (w : Worker) : Worker :=
  match od with
  | None => w
  | Some d =>
      if bool_decide (RunId d = "") then w
      else
        let w := mkWorker (wcfg w) (whandlers w) (sem w) (cancels w) (active w) (next_g w)
                   (sessions w) (cur w) (next_s w) (hbDelay w) (seen w ++ [d]) (outlog w) in
        match whandlers w !! d_JobName d with
        | None =>
            set_recv (Some (i, RAck (MAck (RunId d) false
              ("handler not registered: " +++ d_JobName d)) None)) w
        | Some _ =>
            if sem w <? MaxConcurrency (wcfg w) then
              set_recv (Some (i, RAck (MAck (RunId d) true "") (Some d)))
                (mkWorker (wcfg w) (whandlers w) (sem w + 1) (cancels w) (active w) (next_g w)
                   (sessions w) (cur w) (next_s w) (hbDelay w) (seen w) (outlog w))
            else
              set_recv (Some (i, RAck (MAck (RunId d) false "inflight full") None)) w
        end
  end.
(** After the ack: derive the handler context, register its cancel function, start the
    goroutine. *)
Definition onDispatch_launch (i : nat) (d : Dispatch) (startedAt : Z) (w : Worker) : Worker :=
  let g := next_g w in
  let timeout := if 0 <? TimeoutSec d then Some (TimeoutSec d * Second) else None in
  mkWorker (wcfg w) (whandlers w) (sem w) (<[RunId d := g]> (cancels w))
    (<[g := mkGoroutine d i timeout false (GRunning startedAt)]> (active w)) (S g)
    (sessions w) (cur w) (next_s w) (hbDelay w) (seen w) (outlog w).

(** The deferred calls of the goroutine, after its report: cancel, delete the handle, release
    the semaphore. *)
Definition finish (g : nat) (d : Dispatch) (w : Worker) : Worker :=
  mkWorker (wcfg w) (whandlers w) (sem w - 1) (delete (RunId d) (cancels w))
    (delete g (active w)) (next_g w) (sessions w) (cur w) (next_s w) (hbDelay w) (seen w)
    (outlog w).

(** ** stream.go *)
Definition onCancel (run_id : option string) (w : Worker) : Worker :=
  match run_id with
  | None => w
  | Some r =>
      if bool_decide (r = "") then w
      else match cancels w !! r with
           | None => w
           | Some g =>
               match active w !! g with
               | None => w   (* cancelling a finished context has no effect *)
               | Some x => set_goroutine g (mkGoroutine (g_disp x) (g_sess x) (g_timeout x) true
                                              (g_phase x)) w
               end
           end
  end.

Record RegisterResponse := mkRegisterResponse {
  reg_Ok : bool; reg_Error : string; reg_HeartbeatInterval : Z }.
(** The handshake of [runOneSession]: what [Connect], [Send] and [Recv] gave. *)
Definition handshake (connect send : option goerr) (recv : goerr + option RegisterResponse)
    : goerr + RegisterResponse :=
  match connect with
  | Some e => inl e
  | None =>
      match send with
      | Some e => inl e
      | None =>
          match recv with
          | inl e => inl e
          | inr None => inl (ErrNew "first server message is not RegisterResponse")
          | inr (Some r) =>
              if negb (reg_Ok r) then inl (ErrNew ("register denied: " +++ reg_Error r)) else inr r
          end
      end
  end.
(** Its error at the end: the sender's error first, a clean EOF is none. *)
Definition io_EOF : goerr := ErrSentinel "EOF".
Definition session_error (sendErr : option goerr) (recvErr : goerr) : option goerr :=
  match sendErr with
  | Some e => Some e
  | None => if errors_Is recvErr io_EOF then None else Some recvErr
  end.
Definition heartbeat_delay (w : Worker) : Z :=
  if hbDelay w <=? 0 then HeartbeatInterval (wcfg w) else hbDelay w.

(** One tick of [runHeartbeat]: the message it then offers to [sendCh]. *)
Definition runHeartbeat_tick (ts uptime : Z) (w : Worker) : WorkerMessage :=
  MHeartbeat (WorkerID (wcfg w)) ts (i32 (currentInflight w)) uptime.

Inductive event :=
  | EvOpen (r : RegisterResponse)             (* a handshake succeeded *)
  | EvRecv (m : SchedulerMessage)             (* stream.Recv returned a message *)
  | EvAck (c : choice) (startedAt : Z)        (* the ack's select proceeds *)
  | EvReturn (g : nat) (o : outcome) (endedAt : Z)
  | EvReport (g : nat) (c : choice)           (* the result's select proceeds *)
  | EvHbTick (ts uptime : Z)
  | EvHbSend (c : choice)
  | EvHbDone                                  (* the heartbeat loop sees ctx.Done *)
  | EvSend (ok : bool)                        (* the sender takes a message; stream.Send *)
  | EvRecvErr                                 (* stream.Recv failed: cancel() *)
  | EvClose                                   (* close(sendCh) *)
  | EvStop                                    (* rootCancel() *)
  | EvJoin.                                   (* the session's goroutines ended; it returns *)

Definition with_session (i : nat) (w : Worker) (f : Session → option (gores Session))
    : option (gores Worker) :=
  match sessions w !! i with
  | None => None
  | Some s => match f s with
              | None => None
              | Some (Panic e) => Some (Panic e)
              | Some (Ret s) => Some (Ret (set_session i s w))
              end
  end.

Definition cancel_ctx (s : Session) : Session :=
  mkSession (sendCh s) (ch_closed s) true (sender_up s) (hb_pending s) (hb_up s) (wire s).
Definition set_hb (p : option WorkerMessage) (up : bool) (s : Session) : Session :=
  mkSession (sendCh s) (ch_closed s) (ctx_done s) (sender_up s) p up (wire s).

(** The receive loop on one message ([runRecvLoop]'s switch). *)
Definition recv_message (i : nat) (m : SchedulerMessage) (w : Worker) : Worker :=
  match m with
  | SDispatch d => onDispatch_begin i d w
  | SCancel r _ => onCancel r w
  | SReload | SRegister | SUnknown => w
  end.

Definition wstep (ev : event) (w : Worker) : option (gores Worker) :=
  match ev with
  | EvOpen r =>
      match cur w with
      | Some _ => None
      | None =>
          let hb := if 0 <? reg_HeartbeatInterval r then reg_HeartbeatInterval r * Second
                    else hbDelay w in
          let i := next_s w in
          Some (Ret (mkWorker (wcfg w) (whandlers w) (sem w) (cancels w) (active w) (next_g w)
            (<[i := mkSession [] false false true None true []]> (sessions w))
            (Some (i, RRecv)) (S i) hb (seen w) (outlog w)))
      end
  | EvRecv m =>
      match cur w with
      | Some (i, RRecv) => Some (Ret (recv_message i m w))
      | _ => None
      end
  | EvAck c startedAt =>
      match cur w with
      | Some (i, RAck m start) =>
          match sendOrDrop i m c w with
          | None => None
          | Some (Panic e) => Some (Panic e)
          | Some (Ret w) =>
              let w := set_recv (Some (i, RRecv)) w in
              Some (Ret match start with
                        | Some d => onDispatch_launch i d startedAt w
                        | None => w
                        end)
          end
      | _ => None
      end
  | EvReturn g o endedAt =>
      match active w !! g with
      | Some x =>
          match g_phase x with
          | GRunning startedAt =>
              Some (Ret (set_goroutine g (mkGoroutine (g_disp x) (g_sess x) (g_timeout x)
                (g_cancelled x) (GReport (result_message (g_disp x) o startedAt endedAt))) w))
          | GReport _ => None
          end
      | None => None
      end
  | EvReport g c =>
      match active w !! g with
      | Some x =>
          match g_phase x with
          | GReport m =>
              match sendOrDrop (g_sess x) m c w with
              | None => None
              | Some (Panic e) => Some (Panic e)
              | Some (Ret w) => Some (Ret (finish g (g_disp x) w))
              end
          | GRunning _ => None
          end
      | None => None
      end
  | EvHbTick ts uptime =>
      match cur w with
      | Some (i, _) =>
          with_session i w (λ s,
            if hb_up s && bool_decide (hb_pending s = None) then
              Some (Ret (set_hb (Some (runHeartbeat_tick ts uptime w)) true s))
            else None)
      | None => None
      end
  | EvHbSend c =>
      match cur w with
      | Some (i, _) =>
          with_session i w (λ s,
            match hb_pending s, c with
            | Some m, ChSend =>
                match send_ch m s with
                | Some (Ret s) => Some (Ret (set_hb None true s))
                | r => r
                end
            | Some _, ChDone => if ctx_done s then Some (Ret (set_hb None false s)) else None
            | None, _ => None
            end)
      | None => None
      end
  | EvHbDone =>
      match cur w with
      | Some (i, _) =>
          with_session i w (λ s,
            if hb_up s && bool_decide (hb_pending s = None) && ctx_done s then
              Some (Ret (set_hb None false s))
            else None)
      | None => None
      end
  | EvSend ok =>
      match cur w with
      | Some (i, _) =>
          with_session i w (λ s,
            match sender_up s, sendCh s with
            | true, m :: rest =>
                Some (Ret (mkSession rest (ch_closed s) (ctx_done s) ok (hb_pending s) (hb_up s)
                             (if ok : bool then wire s ++ [m] else wire s)))
            | _, _ => None
            end)
      | None => None
      end
  | EvRecvErr =>
      match cur w with
      | Some (i, RRecv) =>
          with_session i (set_recv (Some (i, RClosing)) w) (λ s, Some (Ret (cancel_ctx s)))
      | _ => None
      end
  | EvClose =>
      match cur w with
      | Some (i, RClosing) =>
          with_session i w (λ s,
            if ch_closed s then None
            else Some (Ret (mkSession (sendCh s) true (ctx_done s) (sender_up s) (hb_pending s)
                              (hb_up s) (wire s))))
      | _ => None
      end
  | EvStop =>
      match cur w with
      | Some (i, _) => with_session i w (λ s, Some (Ret (cancel_ctx s)))
      | None => None
      end
  | EvJoin =>
      match cur w with
      | Some (i, RClosing) =>
          match sessions w !! i with
          | Some s =>
              if ch_closed s && negb (hb_up s) &&
                 (negb (sender_up s) || bool_decide (sendCh s = [])) then
                Some (Ret (set_recv None w))
              else None
          | None => None
          end
      | _ => None
      end
  end.

Fixpoint wrun (evs : list event) (w : Worker) : option (gores Worker) :=
  match evs with
  | [] => Some (Ret w)
  | ev :: evs =>
      match wstep ev w with
      | Some (Ret w) => wrun evs w
      | r => r
      end
  end.
Definition init_worker (c : Config) (h : gmap string nat) : Worker :=
  mkWorker c h 0 ∅ ∅ 0 ∅ None 0 (HeartbeatInterval c) [] [].

(** ** The reconnect loop *)
(** One turn of [runStreamLoop]'s loop after a session that lasted [lasted] and before the
    next: the delay to wait, and the backoff for the turn after it. *)
Definition backoff_turn (c : Config) (lasted backoff : Z) : Z * Z :=
  let backoff := if 30 * Second <? lasted then ReconnectMinBackoff c else backoff in
  let next := i64 (backoff * 2) in
  (backoff, if ReconnectMaxBackoff c <? next then ReconnectMaxBackoff c else next).
(** The delays of [runStreamLoop] for sessions of the given durations. *)
Fixpoint backoff_delays (c : Config) (sessions : list Z) (backoff : Z) : list Z :=
  match sessions with
  | [] => []
  | lasted :: sessions =>
      let '(d, next) := backoff_turn c lasted backoff in d :: backoff_delays c sessions next
  end.
Definition runStreamLoop (c : Config) (sessions : list Z) : list Z :=
  backoff_delays c sessions (ReconnectMinBackoff c).
