(* ===== verification/WorkerSessionProofs.v ===== *)
(** Properties of the worker session machine: concurrency bound, acknowledgements, cancel
    handles, panics and reconnect backoff. *)
From stdpp Require Import prelude gmap strings list fin_maps.
From S2P Require Import Prelude GoStrings SubmitTypes WorkerSession.

(** ** The bookkeeping invariant *)
(** The slot and the ack of a dispatch the receive loop is working on. *)
Definition pending_slot (w : Worker) : Z :=
  match cur w with Some (_, RAck _ (Some _)) => 1 | _ => 0 end.
Definition pending_ack (w : Worker) : list WorkerMessage :=
  match cur w with Some (_, RAck m _) => [m] | _ => [] end.

Definition ack_id (m : WorkerMessage) : option string :=
  match m with MAck r _ _ => Some r | _ => None end.
Definition is_accept (m : WorkerMessage) : bool :=
  match m with MAck _ true _ => true | _ => false end.
Definition is_result (m : WorkerMessage) : bool :=
  match m with MResult _ _ _ _ _ _ _ => true | _ => false end.
Definition accepts (ms : list WorkerMessage) : Z := zlen (filter (λ m, is_accept m = true) ms).
Definition results (ms : list WorkerMessage) : Z := zlen (filter (λ m, is_result m = true) ms).

Record winv (w : Worker) : Prop := {
  wi_max : 0 < MaxConcurrency (wcfg w);
  wi_sem : sem w = Z.of_nat (size (active w)) + pending_slot w;
  wi_le : sem w <= MaxConcurrency (wcfg w);
  wi_fresh g x : active w !! g = Some x → (g < next_g w)%nat;
  wi_sess g x : active w !! g = Some x → is_Some (sessions w !! g_sess x);
  wi_report g x m : active w !! g = Some x → g_phase x = GReport m → is_result m = true;
  wi_cur i r : cur w = Some (i, r) → is_Some (sessions w !! i);
  wi_pending i m st : cur w = Some (i, RAck m st) → is_Some (ack_id m) ∧
    (is_accept m = match st with Some _ => true | None => false end);
  wi_cancels r g : cancels w !! r = Some g →
    ∃ x, active w !! g = Some x ∧ RunId (g_disp x) = r;
  wi_acks : omap ack_id ((outlog w).*1 ++ pending_ack w) = RunId <$> seen w;
  wi_launched : accepts ((outlog w).*1) = Z.of_nat (next_g w);
  wi_results : results ((outlog w).*1) + Z.of_nat (size (active w)) = Z.of_nat (next_g w) }.

(** A step that changes only sessions, and the receive loop outside an ack. *)
Lemma winv_frame w w' :
  winv w → wcfg w' = wcfg w → sem w' = sem w → cancels w' = cancels w → active w' = active w →
  next_g w' = next_g w → seen w' = seen w → outlog w' = outlog w →
  pending_ack w' = pending_ack w → pending_slot w' = pending_slot w →
  (∀ i, is_Some (sessions w !! i) → is_Some (sessions w' !! i)) →
  (∀ i r, cur w' = Some (i, r) → is_Some (sessions w' !! i)) →
  (∀ i m st, cur w' = Some (i, RAck m st) → cur w = Some (i, RAck m st)) → winv w'.
Proof.
  intros [] E1 E2 E3 E4 E5 E6 E7 E8 E9 Hs Hc Hp.
  split; rewrite ?E1, ?E2, ?E3, ?E4, ?E5, ?E6, ?E7, ?E8, ?E9; eauto.
Qed.
Lemma with_session_inv i w f w' :
  with_session i w f = Some (Ret w') →
  ∃ s s', sessions w !! i = Some s ∧ f s = Some (Ret s') ∧ w' = set_session i s' w.
Proof.
  unfold with_session. intros H. destruct (sessions w !! i) as [s|]; [|done].
  destruct (f s) as [[s'|]|] eqn:Hf; [|done|done]. injection H as <-. eauto.
Qed.
Lemma winv_set_session i s w : winv w → winv (set_session i s w).
Proof.
  intros H. apply (winv_frame w); try done; cbn.
  - intros j Hj. destruct (decide (i = j)) as [->|]; [by rewrite lookup_insert_eq|].
    by rewrite lookup_insert_ne.
  - intros j r Hj. destruct (decide (i = j)) as [->|]; [by rewrite lookup_insert_eq|].
    rewrite lookup_insert_ne by done. by eapply wi_cur.
Qed.
Lemma winv_with_session i w f w' : winv w → with_session i w f = Some (Ret w') → winv w'.
Proof.
  intros Hi (s & s' & _ & _ & ->)%with_session_inv. by apply winv_set_session.
Qed.

(** [sendOrDrop] logs its message, sent or dropped, and touches nothing else but a session. *)
Lemma sendOrDrop_inv i m c w w' :
  sendOrDrop i m c w = Some (Ret w') →
  ∃ b ss, w' = mkWorker (wcfg w) (whandlers w) (sem w) (cancels w) (active w) (next_g w) ss
                 (cur w) (next_s w) (hbDelay w) (seen w) (outlog w ++ [(m, b)]) ∧
          (∀ j, is_Some (sessions w !! j) → is_Some (ss !! j)).
Proof.
  unfold sendOrDrop, send_ch. intros H. destruct (sessions w !! i) as [s|] eqn:Hs; [|done].
  destruct c.
  - destruct (ch_closed s); [done|]. destruct (64 <=? length (sendCh s))%nat; [done|].
    injection H as <-. exists true. eexists. split; [reflexivity|]. cbn. intros j Hj.
    destruct (decide (i = j)) as [->|]; [by rewrite lookup_insert_eq|].
    by rewrite lookup_insert_ne.
  - destruct (ctx_done s); [|done]. injection H as <-. exists false. eexists.
    split; [by destruct w|done].
Qed.

Lemma accepts_app l1 l2 : accepts (l1 ++ l2) = accepts l1 + accepts l2.
Proof. unfold accepts. by rewrite filter_app, zlen_app. Qed.
Lemma results_app l1 l2 : results (l1 ++ l2) = results l1 + results l2.
Proof. unfold results. by rewrite filter_app, zlen_app. Qed.
Lemma omap_ack_app (l1 l2 : list WorkerMessage) :
  omap ack_id (l1 ++ l2) = omap ack_id l1 ++ omap ack_id l2.
Proof. apply omap_app. Qed.
Lemma accept_result m : is_Some (ack_id m) → results [m] = 0 ∧ accepts [m] = if is_accept m then 1 else 0.
Proof. destruct m as [r [] ?| |]; intros [? ?]; done. Qed.
Lemma result_accept m : is_result m = true → results [m] = 1 ∧ accepts [m] = 0 ∧ ack_id m = None.
Proof. by destruct m. Qed.

(** ** Preservation, operation by operation *)
Lemma winv_init c h : 0 < MaxConcurrency c → winv (init_worker c h).
Proof.
  intros H. split; cbn; try done; try lia; intros *; by rewrite lookup_empty.
Qed.
Lemma winv_begin i od w : winv w → cur w = Some (i, RRecv) → winv (onDispatch_begin i od w).
Proof.
  intros Hw Hc. unfold onDispatch_begin. destruct od as [d|]; [|done].
  case_bool_decide as Hr; [done|]. cbn [whandlers sem wcfg].
  pose proof (wi_cur _ Hw _ _ Hc) as Hsess.
  assert (pending_slot w = 0 ∧ pending_ack w = []) as [Hp0 Hpa]
    by (unfold pending_slot, pending_ack; by rewrite Hc).
  destruct Hw. rewrite Hp0, Hpa in *.
  assert (omap ack_id ((outlog w).*1 ++ [MAck (RunId d) false ""]) = RunId <$> (seen w ++ [d])) as Hack.
  { rewrite omap_ack_app, fmap_app, app_nil_r in *. cbn. by rewrite <- wi_acks0. }
  rewrite omap_ack_app, fmap_app in Hack. cbn in Hack.
  destruct (whandlers w !! d_JobName d) as [h|];
    [destruct (Z.ltb_spec (sem w) (MaxConcurrency (wcfg w)))|];
    split; cbn; eauto; try lia; try (intros; by simplify_eq);
    by rewrite ?omap_ack_app, ?fmap_app.
Qed.
Lemma winv_ack c t w i m st w' :
  winv w → cur w = Some (i, RAck m st) → sendOrDrop i m c w = Some (Ret w') →
  winv (let w := set_recv (Some (i, RRecv)) w' in
        match st with Some d => onDispatch_launch i d t w | None => w end).
Proof.
  intros Hw Hc Hs. apply sendOrDrop_inv in Hs as (b & ss & -> & Hss).
  destruct (wi_pending _ Hw _ _ _ Hc) as [Hid Hacc]. pose proof (wi_cur _ Hw _ _ Hc) as Hsess.
  assert (pending_slot w = match st with Some _ => 1 | None => 0 end) as Hp
    by (unfold pending_slot; rewrite Hc; by destruct st).
  assert (pending_ack w = [m]) as Hpa by (unfold pending_ack; by rewrite Hc).
  destruct (accept_result m Hid) as [Hres Haccn]. rewrite Hacc in Haccn.
  destruct Hw. rewrite Hp, Hpa in *.
  assert (active w !! next_g w = None) as Hnew.
  { destruct (active w !! next_g w) eqn:E; [|done]. apply wi_fresh0 in E. lia. }
  destruct st as [d|]; split; cbn; eauto; try lia;
    rewrite ?fmap_app, ?accepts_app, ?results_app; cbn [fmap list_fmap fst];
    rewrite ?Hres, ?Haccn, ?app_nil_r, ?map_size_insert_None by done; try done; try lia.
  - intros g x Hg. apply lookup_insert_Some in Hg as [[<- _]|[_ Hg]]; [lia|].
    apply wi_fresh0 in Hg. lia.
  - intros g x Hg. apply lookup_insert_Some in Hg as [[_ <-]|[_ Hg]]; cbn; eauto.
  - intros g x m' Hg. apply lookup_insert_Some in Hg as [[_ <-]|[_ Hg]]; cbn; [done|eauto].
  - intros j r [= <- <-]. eauto.
  - intros r g Hg. apply lookup_insert_Some in Hg as [[<- <-]|[Hne Hg]].
    + eexists. by rewrite lookup_insert_eq.
    + destruct (wi_cancels0 _ _ Hg) as (x & Hx & Hr). exists x. split; [|done].
      apply lookup_insert_Some. right. split; [|done]. intros <-. congruence.
  - intros j r [= <- <-]. eauto.
Qed.
Lemma winv_return w g x t o e :
  winv w → active w !! g = Some x → g_phase x = GRunning t →
  winv (set_goroutine g (mkGoroutine (g_disp x) (g_sess x) (g_timeout x) (g_cancelled x)
          (GReport (result_message (g_disp x) o t e))) w).
Proof.
  intros Hw Hg Hp. destruct Hw.
  split; cbn; eauto; rewrite ?map_size_insert_Some by (by eexists);
    try exact wi_sem0; eauto.
  - intros g' x' Hg'. apply lookup_insert_Some in Hg' as [[<- _]|[_ Hg']]; eauto.
  - intros g' x' Hg'. apply lookup_insert_Some in Hg' as [[_ <-]|[_ Hg']]; cbn; eauto.
  - intros g' x' m Hg'. apply lookup_insert_Some in Hg' as [[_ <-]|[_ Hg']]; cbn; eauto.
    intros [= <-]. unfold result_message. by destruct (runHandlerSafe o).
  - intros r g' Hr. destruct (wi_cancels0 _ _ Hr) as (x' & Hx & Hid).
    destruct (decide (g = g')) as [->|Hne].
    + eexists. rewrite lookup_insert_eq. split; [done|]. cbn. congruence.
    + exists x'. by rewrite lookup_insert_ne.
Qed.
Lemma winv_cancel r w : winv w → winv (onCancel r w).
Proof.
  intros Hw. unfold onCancel. destruct r as [r|]; [|done]. case_bool_decide; [done|].
  destruct (cancels w !! r) as [g|] eqn:Hr; [|done].
  destruct (active w !! g) as [x|] eqn:Hg; [|done]. destruct Hw.
  split; cbn; eauto; rewrite ?map_size_insert_Some by (by eexists);
    try exact wi_sem0; eauto.
  - intros g' x' Hg'. apply lookup_insert_Some in Hg' as [[<- _]|[_ Hg']]; eauto.
  - intros g' x' Hg'. apply lookup_insert_Some in Hg' as [[_ <-]|[_ Hg']]; cbn; eauto.
  - intros g' x' m Hg'. apply lookup_insert_Some in Hg' as [[_ <-]|[_ Hg']]; cbn; eauto.
  - intros r' g' Hr'. destruct (wi_cancels0 _ _ Hr') as (x' & Hx & Hid).
    destruct (decide (g = g')) as [->|Hne].
    + eexists. rewrite lookup_insert_eq. split; [done|]. cbn. congruence.
    + exists x'. by rewrite lookup_insert_ne.
Qed.
Lemma winv_report c w g x m w' :
  winv w → active w !! g = Some x → g_phase x = GReport m →
  sendOrDrop (g_sess x) m c w = Some (Ret w') → winv (finish g (g_disp x) w').
Proof.
  intros Hw Hg Hp Hs. apply sendOrDrop_inv in Hs as (b & ss & -> & Hss).
  destruct (result_accept m (wi_report _ Hw _ _ _ Hg Hp)) as (Hres & Hacc & Hid).
  destruct Hw. assert (size (active w) ≠ 0%nat) as Hsz.
  { intros E. apply map_size_empty_inv in E. by rewrite E, lookup_empty in Hg. }
  split; cbn; eauto; rewrite ?fmap_app, ?accepts_app, ?results_app; cbn [fmap list_fmap fst];
    rewrite ?Hres, ?Hacc, ?map_size_delete_Some by (by eexists); try lia.
  - rewrite wi_sem0. change (pending_slot (finish _ _ _)) with (pending_slot w). lia.
  - intros g' x' Hg'. apply lookup_delete_Some in Hg' as [_ Hg']. eauto.
  - intros g' x' Hg'. apply lookup_delete_Some in Hg' as [_ Hg']. eauto.
  - intros g' x' m' Hg'. apply lookup_delete_Some in Hg' as [_ Hg']. eauto.
  - intros r g' Hr. apply lookup_delete_Some in Hr as [Hne Hr].
    destruct (wi_cancels0 _ _ Hr) as (x' & Hx & Hid'). exists x'. split; [|done].
    apply lookup_delete_Some. split; [|done]. intros <-. rewrite Hx in Hg. by simplify_eq.
  - rewrite <- app_assoc, omap_ack_app. cbn. rewrite Hid. rewrite <- wi_acks0, omap_ack_app. done.
Qed.

Lemma winv_set_recv w i r :
  winv w → is_Some (sessions w !! i) → pending_slot w = 0 → pending_ack w = [] →
  (∀ m st, r ≠ RAck m st) → winv (set_recv (Some (i, r)) w).
Proof.
  intros Hw Hs Hp Ha Hr. apply (winv_frame w); try done.
  - rewrite Ha. unfold pending_ack. cbn. by destruct r as [|m st|]; [|destruct (Hr m st)|].
  - rewrite Hp. unfold pending_slot. cbn. by destruct r as [|m st|]; [|destruct (Hr m st)|].
  - intros j r' [= <- <-]. done.
  - intros j m st [= -> ->]. by destruct (Hr m st).
Qed.
Lemma winv_open w r :
  winv w → cur w = None →
  winv (mkWorker (wcfg w) (whandlers w) (sem w) (cancels w) (active w) (next_g w)
          (<[next_s w := mkSession [] false false true None true []]> (sessions w))
          (Some (next_s w, RRecv)) (S (next_s w)) r (seen w) (outlog w)).
Proof.
  intros Hw Hc. apply (winv_frame w); try done; cbn.
  - unfold pending_ack. by rewrite Hc.
  - unfold pending_slot. by rewrite Hc.
  - intros j Hj. destruct (decide (next_s w = j)) as [->|]; [by rewrite lookup_insert_eq|].
    by rewrite lookup_insert_ne.
  - intros j r' [= <- <-]. by rewrite lookup_insert_eq.
Qed.

Lemma winv_step ev w w' : winv w → wstep ev w = Some (Ret w') → winv w'.
Proof.
  intros Hw. destruct ev; cbn [wstep].
  - destruct (cur w) eqn:Hc; [done|]. intros [= <-]. by apply winv_open.
  - destruct (cur w) as [[i []]|] eqn:Hc; try done. intros [= <-].
    destruct m; cbn; try done; [by apply winv_begin|by apply winv_cancel].
  - destruct (cur w) as [[i [|m st|]]|] eqn:Hc; try done.
    destruct (sendOrDrop i m c w) as [[w1|]|] eqn:Hs; try done. intros [= <-].
    by apply (winv_ack c startedAt w i m st w1).
  - destruct (active w !! g) as [x|] eqn:Hg; [|done].
    destruct (g_phase x) as [t|] eqn:Hp; [|done]. intros [= <-]. by eapply winv_return.
  - destruct (active w !! g) as [x|] eqn:Hg; [|done].
    destruct (g_phase x) as [|m] eqn:Hp; [done|].
    destruct (sendOrDrop (g_sess x) m c w) as [[w1|]|] eqn:Hs; try done. intros [= <-].
    by eapply winv_report.
  - destruct (cur w) as [[i r]|]; [|done]. by apply winv_with_session.
  - destruct (cur w) as [[i r]|]; [|done]. by apply winv_with_session.
  - destruct (cur w) as [[i r]|]; [|done]. by apply winv_with_session.
  - destruct (cur w) as [[i r]|]; [|done]. by apply winv_with_session.
  - destruct (cur w) as [[i []]|] eqn:Hc; try done. apply winv_with_session.
    apply winv_set_recv; [done|by eapply wi_cur| | |done];
      unfold pending_slot, pending_ack; by rewrite Hc.
  - destruct (cur w) as [[i []]|] eqn:Hc; try done. by apply winv_with_session.
  - destruct (cur w) as [[i r]|]; [|done]. by apply winv_with_session.
  - destruct (cur w) as [[i []]|] eqn:Hc; try done.
    destruct (sessions w !! i) as [s|]; [|done].
    destruct (ch_closed s && negb (hb_up s) && _); [|done]. intros [= <-].
    apply (winv_frame w); try done; unfold pending_ack, pending_slot; by rewrite Hc.
Qed.
Lemma winv_run evs w w' : winv w → wrun evs w = Some (Ret w') → winv w'.
Proof.
  revert w. induction evs as [|ev evs IH]; intros w Hw; cbn; [by intros [= <-]|].
  destruct (wstep ev w) as [[w1|]|] eqn:Hs; try done. intros Hr. apply (IH w1); [|done].
  by eapply winv_step.
Qed.

(** C4: Concurrency bound and exactly one acknowledgement per dispatch. Whatever the server
    sends, in whatever order goroutines run and sessions break and reconnect: the number of
    running handlers never exceeds [MaxConcurrency] and is what the heartbeat reports (plus
    the slot of a dispatch being acknowledged); the acks issued are those of the dispatches
    received, one each and in order (the last one possibly still pending); a handler was
    launched for exactly the positive acks, and each ended handler produced exactly one
    result. *)
Theorem worker_accounting (c : Config) (h : gmap string nat) (evs : list event) (w : Worker) :
  0 < MaxConcurrency c → wrun evs (init_worker c h) = Some (Ret w) →
  Z.of_nat (size (active w)) <= sem w <= MaxConcurrency (wcfg w) ∧
  currentInflight w = Z.of_nat (size (active w)) + pending_slot w ∧
  omap ack_id ((outlog w).*1 ++ pending_ack w) = RunId <$> seen w ∧
  accepts ((outlog w).*1) = Z.of_nat (next_g w) ∧
  results ((outlog w).*1) + Z.of_nat (size (active w)) = Z.of_nat (next_g w).
Proof.
  intros Hc Hr. pose proof (winv_run _ _ _ (winv_init c h Hc) Hr) as [].
  assert (0 <= pending_slot w) by (unfold pending_slot; repeat case_match; lia).
  unfold currentInflight. split_and!; auto; lia.
Qed.

(** ** Panics *)
(** Between cancelling its context and closing its channel a session is in order. *)
Definition closed_ok (w : Worker) : Prop :=
  (∀ i s, sessions w !! i = Some s → ch_closed s = true → ctx_done s = true) ∧
  (∀ i, cur w = Some (i, RClosing) → ∀ s, sessions w !! i = Some s → ctx_done s = true).
(** The session an event's [select] is about, and whether it takes the send case. *)
Definition session_done (i : nat) (w : Worker) : bool :=
  match sessions w !! i with Some s => ctx_done s | None => false end.
Definition sends_after_done (ev : event) (w : Worker) : bool :=
  match ev with
  | EvAck ChSend _ | EvHbSend ChSend =>
      match cur w with Some (i, _) => session_done i w | None => false end
  | EvReport g ChSend =>
      match active w !! g with Some x => session_done (g_sess x) w | None => false end
  | _ => false
  end.

Lemma sendOrDrop_panic i m c w e :
  sendOrDrop i m c w = Some (Panic e) →
  c = ChSend ∧ ∃ s, sessions w !! i = Some s ∧ ch_closed s = true.
Proof.
  unfold sendOrDrop, send_ch. destruct (sessions w !! i) as [s|]; [|done].
  destruct c; [|by destruct (ctx_done s)]. destruct (ch_closed s) eqn:Hc; [|by destruct (64 <=? _)%nat].
  intros _. eauto.
Qed.
Lemma step_panic ev w e :
  closed_ok w → wstep ev w = Some (Panic e) → sends_after_done ev w = true.
Proof.
  intros [Hok _]. destruct ev; cbn [wstep sends_after_done]; intros H;
    try by (repeat (case_match; try done); simplify_eq).
  - destruct (cur w) as [[i [|m st|]]|] eqn:Hc; try done.
    destruct (sendOrDrop i m c w) as [[w1|e']|] eqn:Hs; try done.
    apply sendOrDrop_panic in Hs as [-> (s & Hs & Hcl)]. unfold session_done. rewrite Hs. eauto.
  - destruct (active w !! g) as [x|] eqn:Hg; [|done]. destruct (g_phase x); [done|].
    destruct (sendOrDrop (g_sess x) m c w) as [[w1|e']|] eqn:Hs; try done.
    apply sendOrDrop_panic in Hs as [-> (s & Hs & Hcl)]. unfold session_done. rewrite Hs. eauto.
  - destruct (cur w) as [[i r]|]; [|done]. unfold with_session in H.
    destruct (sessions w !! i) as [s|]; [|done]. destruct (hb_up s && _); done.
  - destruct (cur w) as [[i r]|] eqn:Hc; [|done]. unfold with_session, send_ch in H.
    destruct (sessions w !! i) as [s|] eqn:Hs; [|done]. destruct (hb_pending s); [|done].
    destruct c; [|by destruct (ctx_done s)].
    destruct (ch_closed s) eqn:Hcl; [|by destruct (64 <=? _)%nat]. unfold session_done. rewrite Hs. eauto.
  - destruct (cur w) as [[i r]|]; [|done]. unfold with_session in H.
    destruct (sessions w !! i) as [s|]; [|done]. by destruct (hb_up s && _ && _).
  - destruct (cur w) as [[i r]|]; [|done]. unfold with_session in H.
    destruct (sessions w !! i) as [s|]; [|done]. by destruct (sender_up s), (sendCh s).
  - destruct (cur w) as [[i []]|]; try done. unfold with_session in H. cbn in H.
    by destruct (sessions w !! i).
  - destruct (cur w) as [[i []]|]; try done. unfold with_session in H.
    destruct (sessions w !! i) as [s|]; [|done]. by destruct (ch_closed s).
  - destruct (cur w) as [[i r]|]; [|done]. unfold with_session in H.
    by destruct (sessions w !! i).
Qed.

Lemma closed_ok_set_session i s s' w :
  closed_ok w → sessions w !! i = Some s → (ch_closed s' = true → ctx_done s' = true) →
  (ctx_done s = true → ctx_done s' = true) → closed_ok (set_session i s' w).
Proof.
  intros [H1 H2] Hs Hok Hm. split; cbn.
  - intros j t Hj. apply lookup_insert_Some in Hj as [[_ <-]|[_ Hj]]; eauto.
  - intros j Hc t Hj. apply lookup_insert_Some in Hj as [[<- <-]|[_ Hj]]; eauto.
Qed.
Lemma closed_ok_same w w' :
  closed_ok w → sessions w' = sessions w →
  (∀ i, cur w' = Some (i, RClosing) → cur w = Some (i, RClosing)) → closed_ok w'.
Proof. intros [H1 H2] Hs Hc. split; rewrite Hs; eauto. Qed.
Lemma closed_ok_sendOrDrop i m c w w' :
  closed_ok w → sendOrDrop i m c w = Some (Ret w') → closed_ok w'.
Proof.
  intros Hok. unfold sendOrDrop, send_ch. destruct (sessions w !! i) as [s|] eqn:Hs; [|done].
  destruct c; [destruct (ch_closed s) eqn:Hcl; [done|]; destruct (64 <=? _)%nat; [done|]
              |destruct (ctx_done s); [|done]]; intros [= <-].
  - eapply closed_ok_same; [|reflexivity|done].
    by apply (closed_ok_set_session i s); cbn.
  - by eapply closed_ok_same.
Qed.
(** A received message leaves the sessions alone, and does not close one. *)
Lemma closed_ok_recv i m w : closed_ok w → cur w = Some (i, RRecv) → closed_ok (recv_message i m w).
Proof.
  intros Hok Hc.
  assert (∀ w2, sessions w2 = sessions w → (∀ j, cur w2 ≠ Some (j, RClosing)) → closed_ok w2)
    as Hs by (intros w2 Hs2 Hc2; apply (closed_ok_same w); [done|done|];
              intros j Hj; by destruct (Hc2 j)).
  destruct m as [[d|]|r rs| | |]; cbn; try done.
  - case_bool_decide; [done|]. cbn.
    destruct (whandlers w !! _); [destruct (sem w <? _)|]; by apply Hs.
  - unfold onCancel. destruct r as [r|]; [|done]. case_bool_decide; [done|].
    destruct (cancels w !! r); [|done]. destruct (active w !! n); [|done].
    apply Hs; [done|]. cbn. by rewrite Hc.
Qed.
(** A step of one session that closes its channel only after its context is done. *)
Lemma closed_ok_session i f w w' :
  closed_ok w →
  (∀ s s', sessions w !! i = Some s → f s = Some (Ret s') →
    (ch_closed s' = true → ctx_done s' = true) ∧ (ctx_done s = true → ctx_done s' = true)) →
  with_session i w f = Some (Ret w') → closed_ok w'.
Proof.
  intros Hok Hf (s & s' & Hs & Hfs & ->)%with_session_inv.
  destruct (Hf s s' Hs Hfs). by eapply closed_ok_set_session.
Qed.
Lemma closed_ok_step ev w w' : closed_ok w → wstep ev w = Some (Ret w') → closed_ok w'.
Proof.
  intros Hok. pose proof Hok as [H1 H2].
  pose proof (λ i f, closed_ok_session i f w w' Hok) as Hsess.
  destruct ev; cbn [wstep].
  - destruct (cur w) eqn:Hc; [done|]. intros [= <-]. split; cbn; [|done].
    intros j t Hj. apply lookup_insert_Some in Hj as [[_ <-]|[_ Hj]]; [done|eauto].
  - destruct (cur w) as [[i []]|] eqn:Hc; try done. intros [= <-]. by apply closed_ok_recv.
  - destruct (cur w) as [[i [|m st|]]|] eqn:Hc; try done.
    destruct (sendOrDrop i m c w) as [[w1|]|] eqn:Hs; try done. intros [= <-].
    apply closed_ok_sendOrDrop in Hs; [|done].
    destruct st; by eapply (closed_ok_same w1).
  - destruct (active w !! g) as [x|]; [|done]. destruct (g_phase x); [|done].
    intros [= <-]. by eapply (closed_ok_same w).
  - destruct (active w !! g) as [x|]; [|done]. destruct (g_phase x) as [|m]; [done|].
    destruct (sendOrDrop (g_sess x) m c w) as [[w1|]|] eqn:Hs; try done. intros [= <-].
    apply closed_ok_sendOrDrop in Hs; [|done]. by eapply (closed_ok_same w1).
  - destruct (cur w) as [[i r]|]; [|done]. apply Hsess. intros s s' Hs Hf.
    destruct (hb_up s && _); [|done]. injection Hf as <-. cbn. eauto.
  - destruct (cur w) as [[i r]|]; [|done]. apply Hsess. unfold send_ch. intros s s' Hs Hf.
    destruct (hb_pending s); [|done]. destruct c.
    + destruct (ch_closed s); [done|]. destruct (64 <=? _)%nat; [done|]. by injection Hf as <-.
    + destruct (ctx_done s) eqn:E; [|done]. injection Hf as <-. cbn. eauto.
  - destruct (cur w) as [[i r]|]; [|done]. apply Hsess. intros s s' Hs Hf.
    destruct (hb_up s && _ && _); [|done]. injection Hf as <-. cbn. eauto.
  - destruct (cur w) as [[i r]|]; [|done]. apply Hsess. intros s s' Hs Hf.
    destruct (sender_up s); [|done]. destruct (sendCh s); [done|]. injection Hf as <-. cbn. eauto.
  - destruct (cur w) as [[i []]|] eqn:Hc; try done.
    intros (s & s' & Hs & [= <-] & ->)%with_session_inv. split; cbn.
    + intros j t Hj. apply lookup_insert_Some in Hj as [[_ <-]|[_ Hj]]; [done|eauto].
    + intros j [= <-] t Hj. rewrite lookup_insert_eq in Hj. by injection Hj as <-.
  - destruct (cur w) as [[i []]|] eqn:Hc; try done. apply Hsess. intros s s' Hs Hf.
    destruct (ch_closed s); [done|]. injection Hf as <-. cbn. eauto.
  - destruct (cur w) as [[i r]|]; [|done]. apply Hsess. by intros s s' Hs [= <-].
  - destruct (cur w) as [[i []]|] eqn:Hc; try done.
    destruct (sessions w !! i) as [s|]; [|done].
    destruct (ch_closed s && negb (hb_up s) && _); [|done]. intros [= <-].
    by eapply (closed_ok_same w).
Qed.

(** A schedule in which no [select] takes the send case once the context is done. *)
Fixpoint polite (evs : list event) (w : Worker) : bool :=
  match evs with
  | [] => true
  | ev :: evs => negb (sends_after_done ev w) &&
                 match wstep ev w with Some (Ret w') => polite evs w' | _ => true end
  end.

(** C18: The only panic of a session is a send on the channel of a finished one. If no [select]
    picks its send case after the session's context is cancelled, no sequence of events, over
    any number of sessions, makes the worker panic. *)
Theorem worker_no_panic (c : Config) (h : gmap string nat) (evs : list event) (e : string) :
  polite evs (init_worker c h) = true → wrun evs (init_worker c h) ≠ Some (Panic e).
Proof.
  assert (closed_ok (init_worker c h)) as Hok by (split; cbn; [intros *; by rewrite lookup_empty|done]).
  revert Hok. generalize (init_worker c h). induction evs as [|ev evs IH]; intros w Hok; cbn; [done|].
  intros [Hp Hrest]%andb_true_iff. apply negb_true_iff in Hp.
  destruct (wstep ev w) as [[w'|e']|] eqn:Hs; [|apply step_panic in Hs; congruence|done].
  apply IH; [by eapply closed_ok_step|done].
Qed.

(** ** Cancel handles *)
Definition run_active (r : string) (w : Worker) : Prop :=
  ∃ g x, active w !! g = Some x ∧ RunId (g_disp x) = r.
(** Every running handler can be cancelled by its run id, and the run about to start is new. *)
Definition handles (w : Worker) : Prop :=
  (∀ g x, active w !! g = Some x → cancels w !! RunId (g_disp x) = Some g) ∧
  (∀ i m d, cur w = Some (i, RAck m (Some d)) → ¬ run_active (RunId d) w).
Definition fresh_event (ev : event) (w : Worker) : Prop :=
  match ev with EvRecv (SDispatch (Some d)) => ¬ run_active (RunId d) w | _ => True end.
Fixpoint fresh_runs (evs : list event) (w : Worker) : Prop :=
  match evs with
  | [] => True
  | ev :: evs => fresh_event ev w ∧
                 match wstep ev w with Some (Ret w') => fresh_runs evs w' | _ => True end
  end.

Lemma handles_same w w' :
  handles w → active w' = active w → cancels w' = cancels w →
  (∀ i m d, cur w' = Some (i, RAck m (Some d)) → cur w = Some (i, RAck m (Some d))) → handles w'.
Proof. intros [H1 H2] Ha Hc Hr. unfold handles, run_active in *. rewrite Ha, Hc. eauto. Qed.
Lemma handles_set_goroutine w g x y :
  handles w → active w !! g = Some x → RunId (g_disp y) = RunId (g_disp x) →
  handles (set_goroutine g y w).
Proof.
  intros [H1 H2] Hg Hr. split; cbn.
  - intros g' x' Hg'. apply lookup_insert_Some in Hg' as [[<- <-]|[_ Hg']]; [rewrite Hr|]; eauto.
  - intros i m d Hc (g' & x' & Hg' & Hid). apply (H2 i m d Hc).
    cbn in Hg'. apply lookup_insert_Some in Hg' as [[<- <-]|[_ Hg']];
      [exists g, x; split; [done|congruence]|by exists g', x'].
Qed.
Lemma handles_finish w g x :
  handles w → active w !! g = Some x → handles (finish g (g_disp x) w).
Proof.
  intros [H1 H2] Hg. split; cbn.
  - intros g' x' Hg'. apply lookup_delete_Some in Hg' as [Hne Hg'].
    rewrite lookup_delete_ne; [by apply H1|]. intros E. apply Hne.
    apply H1 in Hg as Hg1. apply H1 in Hg' as Hg2. rewrite E in Hg1. congruence.
  - intros i m d Hc (g' & x' & Hg' & Hid). apply (H2 i m d Hc).
    cbn in Hg'. apply lookup_delete_Some in Hg' as [_ Hg']. by exists g', x'.
Qed.
Lemma handles_step ev w w' :
  winv w → handles w → fresh_event ev w → wstep ev w = Some (Ret w') → handles w'.
Proof.
  intros Hw Hh Hf. pose proof Hh as [H1 H2].
  assert (∀ i f, with_session i w f = Some (Ret w') → handles w') as Hsess.
  { intros i f (s & s' & _ & _ & ->)%with_session_inv. by eapply handles_same. }
  destruct ev; cbn [wstep fresh_event] in *.
  - destruct (cur w) eqn:Hc; [done|]. intros [= <-]. by eapply handles_same.
  - destruct (cur w) as [[i []]|] eqn:Hc; try done. intros [= <-].
    destruct m as [[d|]|r rs| | |]; cbn; try done.
    + case_bool_decide; [done|]. cbn.
      destruct (whandlers w !! _); [destruct (sem w <? _)|]; try by eapply handles_same.
      split; cbn; [done|]. intros j m d' [= <- <- <-]. exact Hf.
    + unfold onCancel. destruct r as [r|]; [|done]. case_bool_decide; [done|].
      destruct (cancels w !! r); [|done]. destruct (active w !! n) eqn:Hg; [|done].
      by eapply handles_set_goroutine.
  - destruct (cur w) as [[i [|m st|]]|] eqn:Hc; try done.
    destruct (sendOrDrop i m c w) as [[w1|]|] eqn:Hs; try done. intros [= <-].
    apply sendOrDrop_inv in Hs as (b & ss & -> & _). destruct st as [d|]; [|by eapply handles_same].
    split; cbn; [|done]. intros g x Hg. apply lookup_insert_Some in Hg as [[<- <-]|[Hne Hg]].
    + apply lookup_insert_eq.
    + rewrite lookup_insert_ne; [by apply H1|]. intros E. apply (H2 _ _ _ eq_refl). by exists g, x.
  - destruct (active w !! g) as [x|] eqn:Hg; [|done]. destruct (g_phase x); [|done].
    intros [= <-]. by eapply handles_set_goroutine.
  - destruct (active w !! g) as [x|] eqn:Hg; [|done]. destruct (g_phase x) as [|m]; [done|].
    destruct (sendOrDrop (g_sess x) m c w) as [[w1|]|] eqn:Hs; try done. intros [= <-].
    apply sendOrDrop_inv in Hs as (b & ss & -> & _). apply handles_finish; [|done].
    by eapply handles_same.
  - destruct (cur w) as [[i r]|]; [|done]. apply Hsess.
  - destruct (cur w) as [[i r]|]; [|done]. apply Hsess.
  - destruct (cur w) as [[i r]|]; [|done]. apply Hsess.
  - destruct (cur w) as [[i r]|]; [|done]. apply Hsess.
  - destruct (cur w) as [[i []]|] eqn:Hc; try done.
    intros (s & s' & _ & _ & ->)%with_session_inv. by eapply handles_same.
  - destruct (cur w) as [[i []]|] eqn:Hc; try done. apply Hsess.
  - destruct (cur w) as [[i r]|]; [|done]. apply Hsess.
  - destruct (cur w) as [[i []]|] eqn:Hc; try done.
    destruct (sessions w !! i) as [s|]; [|done].
    destruct (ch_closed s && negb (hb_up s) && _); [|done]. intros [= <-]. by eapply handles_same.
Qed.

(** A cancel request reaches its run. If the server never dispatches a run id that is still
    running here, then at any time a [Cancel] for a running handler's id cancels that
    handler's context, and no other's. *)
Lemma cancel_reaches_run (c : Config) (h : gmap string nat) (evs : list event) (w : Worker)
    (g : nat) (x : goroutine) :
  0 < MaxConcurrency c → fresh_runs evs (init_worker c h) →
  wrun evs (init_worker c h) = Some (Ret w) →
  active w !! g = Some x → RunId (g_disp x) ≠ "" →
  active (onCancel (Some (RunId (g_disp x))) w)
  = <[g := mkGoroutine (g_disp x) (g_sess x) (g_timeout x) true (g_phase x)]> (active w).
Proof.
  intros Hc Hfr Hr Hg Hid.
  assert (handles w) as [Hh _].
  { assert (handles (init_worker c h)) as H0 by (split; cbn; [intros *; by rewrite lookup_empty|done]).
    pose proof (winv_init c h Hc) as Hw. revert H0 Hw Hfr Hr. generalize (init_worker c h).
    induction evs as [|ev evs IH]; intros w0 H0 Hw Hfr Hr; cbn in *; [by injection Hr as <-|].
    destruct Hfr as [Hf Hfr]. destruct (wstep ev w0) as [[w1|]|] eqn:Hs; try done.
    apply (IH w1); [by eapply handles_step|by eapply winv_step|done|done]. }
  unfold onCancel. rewrite bool_decide_eq_false_2 by done. by rewrite (Hh g x Hg), Hg.
Qed.

(** ** The end of a session *)
(** Session [i] is over: another one is the worker's, or none is, or its receive loop returned. *)
Definition session_over (i : nat) (w : Worker) : bool :=
  match cur w with
  | None | Some (_, RClosing) => true
  | Some (j, _) => negb (bool_decide (j = i))
  end.
(** The context of a session that is over is cancelled. *)
Definition over_done (w : Worker) : Prop :=
  ∀ i s, sessions w !! i = Some s → session_over i w = true → ctx_done s = true.
Lemma over_same w w' :
  over_done w → sessions w' = sessions w →
  (∀ i, session_over i w' = true → session_over i w = true) → over_done w'.
Proof. intros H Hs Ho i s. rewrite Hs. eauto. Qed.
Lemma over_session i f w w' :
  over_done w →
  (∀ s s', sessions w !! i = Some s → f s = Some (Ret s') → ctx_done s = true → ctx_done s' = true) →
  with_session i w f = Some (Ret w') → over_done w'.
Proof.
  intros H Hf (s & s' & Hs & Hfs & ->)%with_session_inv j t Hj Ho. cbn in Hj.
  change (session_over j w = true) in Ho.
  apply lookup_insert_Some in Hj as [[<- <-]|[_ Hj]]; [|by eapply H]. eapply Hf; eauto.
Qed.
Lemma over_sendOrDrop i m c w w' : over_done w → sendOrDrop i m c w = Some (Ret w') → over_done w' ∧ cur w' = cur w.
Proof.
  intros H. unfold sendOrDrop, send_ch. destruct (sessions w !! i) as [s|] eqn:Hs; [|done].
  destruct c; [destruct (ch_closed s); [done|]; destruct (64 <=? _)%nat; [done|]
              |destruct (ctx_done s); [|done]]; intros [= <-]; (split; [|done]); [|exact H].
  intros j t Hj Ho. change (session_over j w = true) in Ho. cbn in Hj.
  apply lookup_insert_Some in Hj as [[<- <-]|[_ Hj]]; [|by eapply H]. cbn. by apply (H i s).
Qed.
Lemma over_recv i m w : over_done w → cur w = Some (i, RRecv) → over_done (recv_message i m w).
Proof.
  intros H Hc. destruct m as [[d|]|r rs| | |]; cbn; try done.
  - case_bool_decide; [done|]. cbn.
    destruct (whandlers w !! _); [destruct (sem w <? _)|]; (apply (over_same w); [done|done|]);
      intros j; unfold session_over; cbn; by rewrite Hc.
  - unfold onCancel. destruct r as [r|]; [|done]. case_bool_decide; [done|].
    destruct (cancels w !! r); [|done]. by destruct (active w !! n).
Qed.
Lemma over_done_step ev w w' : over_done w → wstep ev w = Some (Ret w') → over_done w'.
Proof.
  intros H. pose proof (λ i f, over_session i f w w' H) as Hsess.
  destruct ev; cbn [wstep].
  - destruct (cur w) eqn:Hc; [done|]. intros [= <-] j t Hj. unfold session_over. cbn in *.
    apply lookup_insert_Some in Hj as [[<- <-]|[_ Hj]]; [by rewrite bool_decide_eq_true_2|].
    intros _. apply (H j t Hj). unfold session_over. by rewrite Hc.
  - destruct (cur w) as [[i []]|] eqn:Hc; try done. intros [= <-]. by apply over_recv.
  - destruct (cur w) as [[i [|m st|]]|] eqn:Hc; try done.
    destruct (sendOrDrop i m c w) as [[w1|]|] eqn:Hs; try done. intros [= <-].
    apply over_sendOrDrop in Hs as [Hs Hc1]; [|done].
    destruct st; (apply (over_same w1); [done|done|]); intros j; unfold session_over; cbn; by rewrite Hc1, Hc.
  - destruct (active w !! g) as [x|]; [|done]. destruct (g_phase x); [|done]. intros [= <-]. exact H.
  - destruct (active w !! g) as [x|]; [|done]. destruct (g_phase x) as [|m]; [done|].
    destruct (sendOrDrop (g_sess x) m c w) as [[w1|]|] eqn:Hs; try done. intros [= <-].
    apply over_sendOrDrop in Hs as [Hs _]; [|done]. exact Hs.
  - destruct (cur w) as [[i r]|]; [|done]. apply Hsess. intros s s' Hs Hf.
    destruct (hb_up s && _); [|done]. by injection Hf as <-.
  - destruct (cur w) as [[i r]|]; [|done]. apply Hsess. unfold send_ch. intros s s' Hs Hf.
    destruct (hb_pending s); [|done]. destruct c.
    + destruct (ch_closed s); [done|]. destruct (64 <=? _)%nat; [done|]. by injection Hf as <-.
    + destruct (ctx_done s) eqn:E; [|done]. injection Hf as <-. cbn. by rewrite E.
  - destruct (cur w) as [[i r]|]; [|done]. apply Hsess. intros s s' Hs Hf.
    destruct (hb_up s && _ && _); [|done]. by injection Hf as <-.
  - destruct (cur w) as [[i r]|]; [|done]. apply Hsess. intros s s' Hs Hf.
    destruct (sender_up s); [|done]. destruct (sendCh s); [done|]. by injection Hf as <-.
  - destruct (cur w) as [[i []]|] eqn:Hc; try done.
    intros (s & s' & Hs & [= <-] & ->)%with_session_inv j t Hj _. cbn in Hj.
    apply lookup_insert_Some in Hj as [[_ <-]|[Hne Hj]]; [done|]. apply (H j t Hj).
    unfold session_over. rewrite Hc. by rewrite bool_decide_eq_false_2.
  - destruct (cur w) as [[i []]|] eqn:Hc; try done. apply Hsess. intros s s' Hs Hf.
    destruct (ch_closed s); [done|]. by injection Hf as <-.
  - destruct (cur w) as [[i r]|]; [|done]. apply Hsess. by intros s s' Hs [= <-].
  - destruct (cur w) as [[i []]|] eqn:Hc; try done.
    destruct (sessions w !! i) as [s|]; [|done].
    destruct (ch_closed s && negb (hb_up s) && _); [|done]. intros [= <-].
    apply (over_same w); [done|done|]. intros j _. unfold session_over. by rewrite Hc.
Qed.
Lemma over_done_run evs w w' : over_done w → wrun evs w = Some (Ret w') → over_done w'.
Proof.
  revert w. induction evs as [|ev evs IH]; intros w Hw; cbn; [by intros [= <-]|].
  destruct (wstep ev w) as [[w1|]|] eqn:Hs; try done. apply IH. by eapply over_done_step.
Qed.
Lemma wrun_app l1 l2 w w1 : wrun l1 w = Some (Ret w1) → wrun (l1 ++ l2) w = wrun l2 w1.
Proof.
  revert w. induction l1 as [|ev l1 IH]; intros w; cbn; [by intros [= ->]|].
  destruct (wstep ev w) as [[w2|]|]; try done. apply IH.
Qed.

(** What a goroutine has left to do when its handler ends as [o] at [t]: to return, unless it has,
    and to give up its report for the cancelled context; and that report. *)
Definition last_steps (out : nat → outcome * Z) (gx : nat * goroutine) : list event :=
  match g_phase gx.2 with GRunning _ => [EvReturn gx.1 (out gx.1).1 (out gx.1).2] | GReport _ => [] end
  ++ [EvReport gx.1 ChDone].
Definition last_report (out : nat → outcome * Z) (gx : nat * goroutine) : WorkerMessage :=
  match g_phase gx.2 with
  | GRunning t => result_message (g_disp gx.2) (out gx.1).1 t (out gx.1).2
  | GReport m => m
  end.
Lemma last_steps_run out w g x s :
  active w !! g = Some x → sessions w !! g_sess x = Some s → ctx_done s = true →
  wrun (last_steps out (g, x)) w = Some (Ret (finish g (g_disp x) (set_log (last_report out (g, x)) false w))).
Proof.
  intros Hg Hs Hd. unfold last_steps, last_report. cbn [fst snd].
  destruct (g_phase x) as [t|m] eqn:Hp; cbn [app wrun wstep].
  - rewrite Hg, Hp. cbn [wstep set_goroutine active]. rewrite lookup_insert_eq.
    unfold sendOrDrop. cbn [g_phase g_sess g_disp sessions set_goroutine]. rewrite Hs, Hd.
    unfold finish. cbn. by rewrite delete_insert_eq.
  - rewrite Hg, Hp. unfold sendOrDrop. by rewrite Hs, Hd.
Qed.
Lemma drain_run out l w :
  (∀ g x, (g, x) ∈ l → active w !! g = Some x ∧
     ∃ s, sessions w !! g_sess x = Some s ∧ ctx_done s = true) → NoDup l.*1 →
  ∃ w', wrun (l ≫= last_steps out) w = Some (Ret w') ∧ cur w' = cur w ∧ sessions w' = sessions w ∧
    sem w' = sem w - zlen l ∧ outlog w' = outlog w ++ map (λ gx, (last_report out gx, false)) l ∧
    ∀ g, active w' !! g = if decide (g ∈ l.*1) then None else active w !! g.
Proof.
  revert w. induction l as [|[g x] l IH]; intros w Hl Hnd.
  { exists w. cbn. split_and!; try done; [unfold zlen; cbn; lia|by rewrite app_nil_r]. }
  destruct (Hl g x) as (Hg & s & Hs & Hd); [by left|]. apply NoDup_cons in Hnd as [Hni Hnd].
  pose proof (last_steps_run out w g x s Hg Hs Hd) as Hr.
  set (w1 := finish g (g_disp x) (set_log (last_report out (g, x)) false w)) in *.
  destruct (IH w1) as (w' & R & C & S & M & O & A); [|done|].
  { intros g' x' Hin. destruct (Hl g' x') as [Hg' Hs']; [by right|]. split; [|done].
    cbn. rewrite lookup_delete_ne; [done|]. intros <-. apply Hni.
    apply list_elem_of_fmap. by exists (g, x'). }
  exists w'. cbn [mbind list_bind]. rewrite (wrun_app _ _ _ _ Hr). split_and!; try done.
  - rewrite M, zlen_cons. cbn. lia.
  - rewrite O. cbn. by rewrite <-app_assoc.
  - intros g'. rewrite A. cbn [fmap list_fmap fst w1 finish active].
    destruct (decide (g' = g)) as [->|Hne].
    + rewrite decide_False by done. rewrite (decide_True _ _) by by left. apply lookup_delete_eq.
    + cbn. rewrite lookup_delete_ne by done.
      destruct (decide (g' ∈ l.*1)); [rewrite decide_True by by right|rewrite decide_False by (intros [?|?]%elem_of_cons; done)]; done.
Qed.

(** C38: Handlers outlive their session without holding their slots. At any time, after any events:
    the goroutines of the sessions that are over can, in any order [l] and whatever their handlers
    return or panic with, all run to their end, without any other goroutine moving and without
    touching a session; each reports once, its report is dropped, and each frees its slot.  When no
    session is on, no slot is taken afterwards. *)
Theorem report_after_session_proceeds (c : Config) (h : gmap string nat) (evs : list event) (w : Worker)
    (out : nat → outcome * Z) (l : list (nat * goroutine)) :
  0 < MaxConcurrency c → wrun evs (init_worker c h) = Some (Ret w) →
  l ≡ₚ filter (λ gx, session_over (g_sess gx.2) w = true) (map_to_list (active w)) →
  ∃ w', wrun (l ≫= last_steps out) w = Some (Ret w') ∧ cur w' = cur w ∧ sessions w' = sessions w ∧
    sem w' = sem w - zlen l ∧ (cur w = None → sem w' = 0) ∧
    outlog w' = outlog w ++ map (λ gx, (last_report out gx, false)) l ∧
    ∀ g x, active w' !! g = Some x ↔ active w !! g = Some x ∧ session_over (g_sess x) w = false.
Proof.
  intros Hc Hr Hl. pose proof (winv_run _ _ _ (winv_init c h Hc) Hr) as Hw.
  assert (over_done w) as Ho.
  { eapply over_done_run; [|exact Hr]. intros i s. cbn. by rewrite lookup_empty. }
  assert (∀ g x, (g, x) ∈ l ↔ active w !! g = Some x ∧ session_over (g_sess x) w = true) as Hin.
  { intros g x. rewrite Hl, list_elem_of_filter, elem_of_map_to_list. cbn. tauto. }
  destruct (drain_run out l w) as (w' & R & C & S & M & O & A).
  { intros g x [Hg Hov]%Hin. split; [done|]. destruct (wi_sess _ Hw _ _ Hg) as [s Hs]. eauto. }
  { rewrite Hl. refine (sublist_NoDup _ (map_to_list (active w)).*1 (NoDup_fst_map_to_list _) _).
    apply fmap_sublist, sublist_filter. }
  assert (∀ g x, active w' !! g = Some x ↔ active w !! g = Some x ∧ session_over (g_sess x) w = false) as HA.
  { intros g x. rewrite A. destruct (decide (g ∈ l.*1)) as [Hg|Hg].
    - split; [done|]. intros [Hx Hf]. apply list_elem_of_fmap in Hg as ([g' y] & -> & Hy).
      cbn in *. apply Hin in Hy as [Hy Ht]. congruence.
    - split; [|tauto]. intros Hx. split; [done|]. apply not_true_is_false. intros Ht. apply Hg.
      apply list_elem_of_fmap. exists (g, x). split; [done|]. by apply Hin. }
  exists w'. split_and!; try done. intros Hn.
  assert (active w' = ∅) as He.
  { apply map_eq. intros g. rewrite lookup_empty. destruct (active w' !! g) as [x|] eqn:E; [|done].
    apply HA in E as [_ E]. unfold session_over in E. by rewrite Hn in E. }
  pose proof (wi_sem _ (winv_run _ _ _ Hw R)) as Hsem. rewrite He in Hsem. unfold pending_slot in Hsem.
  by rewrite C, Hn in Hsem.
Qed.

(** ** Reconnect backoff *)
Lemma backoff_delays_spec c ss b :
  wf_config c → ReconnectMaxBackoff c < 2 ^ 62 → ReconnectMinBackoff c <= b <= ReconnectMaxBackoff c →
  Forall (λ d, ReconnectMinBackoff c <= d <= ReconnectMaxBackoff c) (backoff_delays c ss b).
Proof.
  intros Hc Hb. destruct Hc. revert b. induction ss as [|l ss IH]; intros b Hr; cbn; [done|].
  set (b' := if 30 * Second <? l then _ else _).
  assert (ReconnectMinBackoff c <= b' <= ReconnectMaxBackoff c) by (subst b'; case_bool; lia).
  constructor; [done|]. apply IH. rewrite i64_id by (unfold in_i64; lia). case_bool; lia.
Qed.

Lemma backoff_short c l ss b :
  l <= 30 * Second →
  backoff_delays c (l :: ss) b
  = b :: backoff_delays c ss
           (if ReconnectMaxBackoff c <? i64 (b * 2) then ReconnectMaxBackoff c else i64 (b * 2)).
Proof. intros H. cbn. destruct (Z.ltb_spec (30 * Second) l); [lia|done]. Qed.

(** Reconnect backoff. Every delay lies between the configured bounds; after [n]
    consecutive short sessions the delay is the minimum doubled [n] times, capped at the
    maximum; a session longer than 30 s puts it back to the minimum. *)
Lemma backoff_bounded_doubling (c : Config) (ss : list Z) (n : nat) (long : Z) (rest : list Z) :
  wf_config c → ReconnectMaxBackoff c < 2 ^ 62 →
  Forall (λ d, ReconnectMinBackoff c <= d <= ReconnectMaxBackoff c) (runStreamLoop c ss) ∧
  (∀ l, l <= 30 * Second →
     runStreamLoop c (repeat l (S n)) !! n
     = Some (Z.min (ReconnectMinBackoff c * 2 ^ Z.of_nat n) (ReconnectMaxBackoff c))) ∧
  (30 * Second < long →
     runStreamLoop c (ss ++ long :: rest) !! length ss = Some (ReconnectMinBackoff c)).
Proof.
  intros Hc Hb. split_and!.
  - apply backoff_delays_spec; [done|done|]. destruct Hc. lia.
  - intros l Hl. unfold runStreamLoop. pose proof Hc as [].
    assert (∀ k b, ReconnectMinBackoff c <= b <= ReconnectMaxBackoff c →
      backoff_delays c (repeat l (S k)) b !! k
      = Some (Z.min (b * 2 ^ Z.of_nat k) (ReconnectMaxBackoff c))) as H.
    { induction k as [|k IH]; intros b Hr; cbn [repeat];
        rewrite backoff_short by done; cbn [lookup list_lookup].
      - f_equal. lia.
      - rewrite i64_id by (unfold in_i64; lia). change (l :: repeat l k) with (repeat l (S k)).
        rewrite IH by (case_bool; lia). f_equal.
        replace (Z.of_nat (S k)) with (Z.of_nat k + 1) by lia. rewrite Z.pow_add_r by lia.
        pose proof (Z.pow_pos_nonneg 2 (Z.of_nat k)). case_bool; nia. }
    apply H. lia.
  - intros Hl. unfold runStreamLoop. generalize (ReconnectMinBackoff c) at 1.
    induction ss as [|l ss IH]; intros b; cbn; [|apply IH].
    destruct (Z.ltb_spec (30 * Second) long); [done|lia].
Qed.

(** ** Concrete schedules *)
Definition demo_config : Config :=
  applyDefaults (Some "h") 1
    (mkConfig "sched:9000" "app" "key" "secret" "" "" "" "" 2 0 0 0 0 0 0 0 false 0 0 0 false "" 0).
Definition demo_handlers : gmap string nat := {["job" := 0%nat]}.
Definition demo_dispatch (run : string) : Dispatch :=
  mkDispatch run "job" "" "" 0 0 0 0 0 5 "" "" 0.
Definition ok_register : RegisterResponse := mkRegisterResponse true "" 10.
Definition dispatch_run (run : string) : list event :=
  [EvRecv (SDispatch (Some (demo_dispatch run))); EvAck ChSend 0].

(** The panic is reachable: a handler still running when its session ends reports its
    result after [close(sendCh)], and the [select] may take the send case although the
    context is done. *)
Lemma closed_channel_panic_reachable :
  wrun (EvOpen ok_register :: dispatch_run "r1" ++
        [EvRecvErr; EvClose; EvReturn 0 (HReturn "done" None) 0; EvReport 0 ChSend])
    (init_worker demo_config demo_handlers) = Some (Panic "send on closed channel").
Proof. vm_compute. reflexivity. Qed.

(** A run id dispatched again while it is still running loses its cancel handle: when the
    first of the two handlers ends it deletes the handle of the second, which is still running
    and can no longer be cancelled by the server. *)
Lemma duplicate_run_loses_handle :
  ∃ w x, wrun (EvOpen ok_register :: dispatch_run "r1" ++ dispatch_run "r1" ++
               [EvReturn 0 (HReturn "" None) 0; EvReport 0 ChSend])
           (init_worker demo_config demo_handlers) = Some (Ret w) ∧
    active w !! 1%nat = Some x ∧ RunId (g_disp x) = "r1" ∧ g_cancelled x = false ∧
    active (onCancel (Some "r1") w) = active w.
Proof. eexists _, _. split; [vm_compute; reflexivity|]. vm_compute. by split_and!. Qed.

Definition demo_events : list event :=
  EvOpen ok_register :: dispatch_run "r1" ++ dispatch_run "r2" ++ dispatch_run "r3" ++
  [EvHbTick 1 2; EvHbSend ChSend; EvSend true; EvReturn 0 (HPanic "boom" "stack") 3000000].
Lemma worker_accounting_witness :
  ∃ w, wrun demo_events (init_worker demo_config demo_handlers) = Some (Ret w) ∧
       Z.of_nat (size (active w)) <= sem w <= 2 ∧
       omap ack_id ((outlog w).*1 ++ pending_ack w) = ["r1"; "r2"; "r3"].
Proof.
  destruct (wrun demo_events (init_worker demo_config demo_handlers)) as [[w|e]|] eqn:E;
    [|vm_compute in E; discriminate E..].
  exists w. split; [reflexivity|].
  destruct (worker_accounting demo_config demo_handlers demo_events w) as (H1 & _ & H2 & _);
    [done|exact E|].
  split; [|rewrite H2]; vm_compute in E; injection E as <-; [exact H1|reflexivity].
Defined.
Lemma worker_no_panic_witness :
  wrun (EvOpen ok_register :: dispatch_run "r1" ++
        [EvRecvErr; EvClose; EvReturn 0 (HReturn "done" None) 0; EvReport 0 ChDone; EvHbDone; EvJoin])
    (init_worker demo_config demo_handlers) ≠ Some (Panic "send on closed channel").
Proof.
  apply worker_no_panic. vm_compute. reflexivity.
Defined.
Lemma cancel_reaches_run_witness :
  ∃ w x, wrun (EvOpen ok_register :: dispatch_run "r1") (init_worker demo_config demo_handlers)
         = Some (Ret w) ∧ active w !! 0%nat = Some x ∧
    active (onCancel (Some "r1") w)
    = <[0%nat := mkGoroutine (g_disp x) (g_sess x) (g_timeout x) true (g_phase x)]> (active w).
Proof.
  destruct (wrun (EvOpen ok_register :: dispatch_run "r1") (init_worker demo_config demo_handlers))
    as [[w|e]|] eqn:E; [|vm_compute in E; discriminate E..].
  assert (∃ x, active w !! 0%nat = Some x ∧ RunId (g_disp x) = "r1") as (x & Hx & Hr).
  { vm_compute in E. injection E as <-. eexists. split; [vm_compute; reflexivity|reflexivity]. }
  exists w, x. split_and!; [reflexivity|exact Hx|]. rewrite <- Hr.
  apply (cancel_reaches_run demo_config demo_handlers (EvOpen ok_register :: dispatch_run "r1"));
    [done| |exact E|exact Hx|by rewrite Hr].
  cbn. split_and!; try done. intros (g & y & Hg & _). vm_compute in Hg. discriminate Hg.
Defined.
(** Two handlers of a broken session: one still runs, one has its result. *)
Lemma report_after_session_proceeds_witness :
  let evs := EvOpen ok_register :: dispatch_run "r1" ++ dispatch_run "r2" ++
             [EvReturn 1 (HReturn "ok" None) 0; EvRecvErr; EvClose; EvHbDone; EvSend true; EvSend true; EvJoin] in
  ∃ w w' l, wrun evs (init_worker demo_config demo_handlers) = Some (Ret w) ∧ sem w = 2 ∧
    wrun (l ≫= last_steps (λ _, (HPanic "boom" "stack", 1))) w = Some (Ret w') ∧ sem w' = 0.
Proof.
  intros evs. destruct (wrun evs (init_worker demo_config demo_handlers)) as [[w|e]|] eqn:E;
    [|vm_compute in E; discriminate E..].
  assert (sem w = 2 ∧ cur w = None) as [Hsem Hcur] by (vm_compute in E; injection E as <-; by split).
  destruct (report_after_session_proceeds demo_config demo_handlers evs w (λ _, (HPanic "boom" "stack", 1))
              (filter (λ gx, session_over (g_sess gx.2) w = true) (map_to_list (active w))))
    as (w' & R & _ & _ & _ & H0 & _); [done|exact E|reflexivity|].
  exists w, w', (filter (λ gx, session_over (g_sess gx.2) w = true) (map_to_list (active w))).
  split_and!; [reflexivity|exact Hsem|exact R|exact (H0 Hcur)].
Defined.
Lemma backoff_bounded_doubling_witness :
  runStreamLoop demo_config (repeat 0 7) !! 6%nat = Some (30 * Second).
Proof.
  destruct (backoff_bounded_doubling demo_config [] 6 0 []) as (_ & H & _).
  - apply validate_wf. reflexivity.
  - reflexivity.
  - rewrite (H 0); [reflexivity|vm_compute; discriminate].
Defined.
