(* ===== verification/GoFloat.v ===== *)
(** IEEE-754 double precision, as Go's [float64]: the Standard Library's executable
    specification of floating point, with precision 53 and maximal exponent 1024. *)
From stdpp Require Import prelude list sorting.
From Stdlib Require Import SpecFloat.
From S2P Require Import Prelude.

Definition float64 : Type := spec_float.
#[global] Instance float64_eq_dec : EqDecision float64.
Proof. solve_decision. Defined.

(** The conversion [float64(z)] of an integer, rounding to nearest even. *)
Definition f_of_Z (z : Z) : float64 := binary_normalize 53 1024 z 0 false.
Definition fadd : float64 → float64 → float64 := SFadd 53 1024.
Definition fsub : float64 → float64 → float64 := SFsub 53 1024.
Definition fmul : float64 → float64 → float64 := SFmul 53 1024.
Definition fdiv : float64 → float64 → float64 := SFdiv 53 1024.
Definition fabs : float64 → float64 := SFabs.
Definition flt (a b : float64) : bool := SFltb a b.
Definition fgt (a b : float64) : bool := SFltb b a.
Definition feq (a b : float64) : bool := SFeqb a b.
Definition is_nan (a : float64) : bool := match a with S754_nan => true | _ => false end.

Definition f0 : float64 := S754_zero false.
Definition f1 : float64 := f_of_Z 1.
Definition f100 : float64 := f_of_Z 100.
(** The literals [0.50], [0.95], [0.99]: the quotients are correctly rounded. *)
Definition f_percent (n : Z) : float64 := fdiv (f_of_Z n) f100.
Definition SmallestNonzeroFloat64 : float64 := S754_finite false 1 (-1074).
Definition MaxFloat64 : float64 := S754_finite false (2 ^ 53 - 1) 971.

(** The conversion [int(f)] of a finite float, towards zero. *)
Definition f_trunc (f : float64) : Z :=
  match f with
  | S754_finite s m e =>
      let a := if 0 <=? e then Z.pos m * 2 ^ e else Z.pos m / 2 ^ (- e) in
      if s then - a else a
  | _ => 0
  end.

(** [sort.Float64s]: ascending, NaN first. *)
Definition f_le (a b : float64) : Prop :=
  is_nan a = true ∨ (is_nan b = false ∧ SFltb b a = false).
#[global] Instance f_le_dec : RelDecision f_le.
Proof. intros a b. unfold f_le. apply _. Defined.
Definition Float64s : list float64 → list float64 := merge_sort f_le.

Lemma length_Float64s l : length (Float64s l) = length l.
Proof. unfold Float64s. by rewrite merge_sort_Permutation. Qed.

(** ** The order *)
Lemma fcompare_opp a b :
  SFcompare b a = CompOpp <$> SFcompare a b.
Proof.
  destruct a as [sa|sa| |sa ma ea], b as [sb|sb| |sb mb eb]; cbn; try done;
    try (by destruct sa); try (by destruct sb); try (by destruct sa, sb).
  destruct sa, sb; cbn; try done; rewrite (Z.compare_antisym ea eb);
    destruct (ea ?= eb); cbn; try done;
    change (Pos.compare_cont Eq mb ma) with (Pos.compare_cont (CompOpp Eq) mb ma);
    rewrite <- Pos.compare_cont_antisym; by destruct (Pos.compare_cont Eq ma mb).
Qed.
Lemma flt_asym a b : flt a b = true → flt b a = false.
Proof.
  unfold flt, SFltb. rewrite (fcompare_opp a b).
  by destruct (SFcompare a b) as [[]|].
Qed.
Lemma flt_irrefl a : flt a a = false.
Proof. destruct (flt a a) eqn:E; [|done]. by apply flt_asym in E as E'; congruence. Qed.

(** [x - x] is zero for a finite [x], and zero over anything finite and non-zero is zero. *)
Definition is_finite (a : float64) : bool :=
  match a with S754_zero _ | S754_finite _ _ _ => true | _ => false end.
Definition is_zero (a : float64) : bool := match a with S754_zero _ => true | _ => false end.

Lemma fsub_diag a : is_finite a = true → is_zero (fsub a a) = true.
Proof.
  destruct a as [s| | |s m e]; intros H; try done; [by destruct s|].
  unfold fsub, SFsub. rewrite Z.min_id.
  match goal with |- is_zero (binary_normalize _ _ ?x _ _) = true => replace x with 0 by lia end.
  done.
Qed.

(** [flt] on finite floats: by sign, then exponent, then mantissa. *)
Lemma flt_finite sa ma ea sb mb eb :
  flt (S754_finite sa ma ea) (S754_finite sb mb eb) = true ↔
  match sa, sb with
  | true, false => True
  | false, true => False
  | false, false => ea < eb ∨ (ea = eb ∧ Z.pos ma < Z.pos mb)
  | true, true => eb < ea ∨ (ea = eb ∧ Z.pos mb < Z.pos ma)
  end.
Proof.
  unfold flt, SFltb. destruct sa, sb; cbn; try done; destruct (Z.compare_spec ea eb); cbn;
    try (split; [done|lia]); try (split; [lia|done]);
    change (Pos.compare_cont Eq ma mb) with (ma ?= mb)%positive;
    destruct (Pos.compare_spec ma mb); cbn; (split; [done || lia|done || lia]).
Qed.
Lemma flt_trans a b c : flt a b = true → flt b c = true → flt a c = true.
Proof.
  destruct a as [sa|sa| |sa ma ea], b as [sb|sb| |sb mb eb], c as [sc|sc| |sc mc ec];
    rewrite ?flt_finite; unfold flt, SFltb; cbn;
    repeat match goal with s : bool |- _ => destruct s end; cbn; try done; lia.
Qed.
Lemma flt_split a b c : is_nan b = false → flt a c = true → flt a b = true ∨ flt b c = true.
Proof.
  destruct a as [sa|sa| |sa ma ea], b as [sb|sb| |sb mb eb], c as [sc|sc| |sc mc ec];
    rewrite ?flt_finite; unfold flt, SFltb; cbn;
    repeat match goal with s : bool |- _ => destruct s end; cbn; auto; lia.
Qed.
Lemma flt_not_nan a b : flt a b = true → is_nan a = false ∧ is_nan b = false.
Proof. destruct a as [[]|[]| |[] ma ea], b as [[]|[]| |[] mb eb]; done. Qed.

(** ** Rounding: an upper bound for a product with a float below one

    Enough of the rounding algorithm's behaviour to bound [int(p * float64(k))] by [k]. *)
Lemma digits2_bound m : 2 ^ (Z.pos (digits2_pos m) - 1) <= Z.pos m < 2 ^ Z.pos (digits2_pos m).
Proof.
  induction m as [m IH|m IH|]; cbn [digits2_pos]; [| |done];
    rewrite Pos2Z.inj_succ; replace (Z.succ (Z.pos (digits2_pos m)) - 1)
      with (Z.pos (digits2_pos m) - 1 + 1) by lia;
    rewrite Z.pow_succ_r, Z.pow_add_r by lia; lia.
Qed.
Lemma shr_1_spec r : 0 <= shr_m r → shr_m (shr_1 r) = shr_m r / 2.
Proof.
  destruct r as [[|[p|p|]|p] a b]; cbn; intros H; try done; try lia.
  - rewrite Pos2Z.inj_xI. dlia.
  - rewrite Pos2Z.inj_xO. dlia.
Qed.
Lemma iter_shr_spec p : ∀ r, 0 <= shr_m r →
  shr_m (iter_pos shr_1 p r) = shr_m r / 2 ^ Z.pos p.
Proof.
  assert (∀ x a b, 0 <= a → 0 <= b → x / 2 ^ a / 2 ^ b = x / 2 ^ (a + b)) as Hdiv.
  { intros x a b Ha Hb. rewrite Z.div_div, Z.pow_add_r by (try apply Z.pow_pos_nonneg; lia). done. }
  assert (∀ x a, 0 <= x → 0 <= a → 0 <= x / 2 ^ a) as Hpos
    by (intros; apply Z.div_pos; [done|apply Z.pow_pos_nonneg; lia]).
  induction p as [p IH|p IH|]; intros r Hr; cbn [iter_pos].
  - assert (shr_m (shr_1 r) = shr_m r / 2 ^ 1) as H1 by (by rewrite shr_1_spec).
    assert (0 <= shr_m (shr_1 r)) by (rewrite H1; by apply Hpos).
    rewrite !IH, H1, !Hdiv by (rewrite ?IH by done; auto with lia). f_equal. f_equal. lia.
  - rewrite !IH, Hdiv by (rewrite ?IH by done; auto with lia). f_equal. f_equal. lia.
  - by apply shr_1_spec.
Qed.
Lemma shr_record_m m l : shr_m (shr_record_of_loc m l) = m.
Proof. by destruct l as [|[]]. Qed.

Lemma shr_fexp_spec m e l r e' :
  0 <= m → shr_fexp 53 1024 m e l = (r, e') →
  e' = Z.max e (fexp 53 1024 (Zdigits2 m + e)) ∧ shr_m r = m / 2 ^ (e' - e).
Proof.
  unfold shr_fexp, shr. intros Hm H.
  destruct (fexp 53 1024 (Zdigits2 m + e) - e) as [|p|p] eqn:E; injection H as <- <-.
  - rewrite shr_record_m. replace (e - e) with 0 by lia. split; [lia|by rewrite Z.div_1_r].
  - rewrite iter_shr_spec, shr_record_m by (by rewrite shr_record_m).
    replace (e + Z.pos p - e) with (Z.pos p) by lia. split; [lia|done].
  - rewrite shr_record_m. replace (e - e) with 0 by lia. split; [lia|by rewrite Z.div_1_r].
Qed.
Lemma round_ne_bound m l : m <= round_nearest_even m l <= m + 1.
Proof. destruct l as [|[]]; cbn; try lia. destruct (Z.even m); lia. Qed.

(** The conversion of the rounding of [M * 2^e] is at most [k] when [M * 2^e] is below [k]. *)
Lemma trunc_round_bound M e k :
  0 < M → e <= 0 → 0 < k < 2 ^ 50 → M < k * 2 ^ (- e) →
  0 <= f_trunc (binary_round_aux 53 1024 false M e loc_Exact) <= k.
Proof.
  intros HM He Hk Hb. unfold binary_round_aux.
  destruct (shr_fexp 53 1024 M e loc_Exact) as [r1 e1] eqn:H1.
  apply shr_fexp_spec in H1 as [He1 Hr1]; [|lia].
  pose proof (round_ne_bound (shr_m r1) (loc_of_shr_record r1)) as Hrd.
  set (m2 := round_nearest_even _ _) in *.
  assert (e1 <= 0 ∧ e <= e1) as [He10 Hee1].
  { split; [|lia]. rewrite He1. unfold fexp, emin.
    assert (Zdigits2 M + e <= 51) as Hd; [|lia].
    destruct M as [|p|p]; cbn [Zdigits2]; try lia. pose proof (digits2_bound p) as [Hd _].
    assert (2 ^ (Z.pos (digits2_pos p) - 1) < 2 ^ (50 - e)) as Hlt.
    { eapply Z.le_lt_trans; [exact Hd|]. replace (50 - e) with (50 + - e) by lia.
      rewrite Z.pow_add_r by lia. pose proof (Z.pow_pos_nonneg 2 (- e)). nia. }
    apply Z.pow_lt_mono_r_iff in Hlt; lia. }
  assert (0 <= shr_m r1 ∧ shr_m r1 * 2 ^ (e1 - e) <= M) as [Hr10 Hr1M].
  { rewrite Hr1. split; [apply Z.div_pos; [lia|]; by apply Z.pow_pos_nonneg; lia|].
    rewrite Z.mul_comm. apply Z.mul_div_le. by apply Z.pow_pos_nonneg; lia. }
  destruct (shr_fexp 53 1024 m2 e1 loc_Exact) as [r2 e2] eqn:H2.
  apply shr_fexp_spec in H2 as [He2 Hr2]; [|lia].
  assert (0 <= shr_m r2 ∧ shr_m r2 * 2 ^ (e2 - e1) <= m2) as [Hr20 Hr2m].
  { rewrite Hr2. split; [apply Z.div_pos; [lia|]; by apply Z.pow_pos_nonneg; lia|].
    rewrite Z.mul_comm. apply Z.mul_div_le. by apply Z.pow_pos_nonneg; lia. }
  assert (shr_m r2 * 2 ^ (e2 - e) < (k + 1) * 2 ^ (- e)) as Hfin.
  { replace (e2 - e) with ((e2 - e1) + (e1 - e)) by lia. rewrite Z.pow_add_r by lia.
    assert (2 ^ (e1 - e) <= 2 ^ (- e)) by (apply Z.pow_le_mono_r; lia).
    pose proof (Z.pow_pos_nonneg 2 (e1 - e)). nia. }
  destruct (shr_m r2) as [|p|p] eqn:Hp; [cbn; lia| |lia].
  destruct (e2 <=? 1024 - 53); [|cbn; lia]. cbn [f_trunc].
  destruct (Z.leb_spec 0 e2).
  - assert (2 ^ (e2 - e) = 2 ^ e2 * 2 ^ (- e)) as E
      by (replace (e2 - e) with (e2 + - e) by lia; rewrite Z.pow_add_r by lia; done).
    rewrite E in Hfin. pose proof (Z.pow_pos_nonneg 2 (- e)). pose proof (Z.pow_pos_nonneg 2 e2).
    split; [nia|]. assert (Z.pos p * 2 ^ e2 < k + 1) by nia. lia.
  - assert (2 ^ (- e) = 2 ^ (e2 - e) * 2 ^ (- e2)) as E
      by (replace (- e) with ((e2 - e) + - e2) by lia; rewrite Z.pow_add_r by lia; done).
    rewrite E in Hfin. pose proof (Z.pow_pos_nonneg 2 (e2 - e)).
    pose proof (Z.pow_pos_nonneg 2 (- e2)).
    assert (Z.pos p < (k + 1) * 2 ^ (- e2)) by nia.
    split; [apply Z.div_pos; lia|]. apply Z.lt_succ_r. apply Z.div_lt_upper_bound; lia.
Qed.


Lemma iter_xO_spec m d :
  Z.pos (Pos.iter xO m d) = Z.pos m * 2 ^ Z.pos d ∧
  Z.pos (digits2_pos (Pos.iter xO m d)) = Z.pos (digits2_pos m) + Z.pos d.
Proof.
  induction d as [|d IH] using Pos.peano_ind; [cbn; lia|].
  rewrite Pos.iter_succ. destruct IH as [IH1 IH2]. cbn [digits2_pos]. split.
  - rewrite Pos2Z.inj_xO, IH1, Pos2Z.inj_succ, Z.pow_succ_r by lia. lia.
  - rewrite !Pos2Z.inj_succ, IH2. lia.
Qed.
(** Integers below [2^50] convert exactly. *)
Lemma f_of_Z_exact k :
  0 < k < 2 ^ 50 →
  ∃ m e, f_of_Z k = S754_finite false m e ∧ e <= 0 ∧ Z.pos m = k * 2 ^ (- e).
Proof.
  intros Hk. destruct k as [|p|p]; try lia. unfold f_of_Z, binary_normalize, binary_round.
  pose proof (digits2_bound p) as [Hd _].
  assert (Z.pos (digits2_pos p) <= 50) as Hdig.
  { assert (2 ^ (Z.pos (digits2_pos p) - 1) < 2 ^ 50) as H by lia.
    apply Z.pow_lt_mono_r_iff in H; lia. }
  set (D := Z.pos (digits2_pos p)) in *.
  assert (fexp 53 1024 (D + 0) = D - 53) as Hf by (unfold fexp, emin; lia).
  rewrite Hf. unfold shl_align. replace (D - 53 - 0) with (D - 53) by lia.
  destruct (D - 53) as [|q|q] eqn:E; try lia.
  destruct (iter_xO_spec p q) as [Hm Hdm]. fold D in Hdm.
  set (M := Pos.iter xO p q) in *. unfold binary_round_aux.
  assert (shr_fexp 53 1024 (Z.pos M) (Z.neg q) loc_Exact
          = (Build_shr_record (Z.pos M) false false, Z.neg q)) as Hshr.
  { unfold shr_fexp. cbn [Zdigits2]. rewrite Hdm.
    replace (D + Z.pos q + Z.neg q) with (D + 0) by lia. rewrite Hf.
    by rewrite Z.sub_diag. }
  rewrite Hshr. cbn [shr_m loc_of_shr_record round_nearest_even]. rewrite Hshr. cbn [shr_m].
  destruct (Z.leb_spec (Z.neg q) (1024 - 53)); [|lia].
  exists M, (Z.neg q). split_and!; [done|lia|]. cbn. by rewrite Hm.
Qed.

(** [0 <= int(p * float64(k)) <= k] for a positive float [p] below one. *)
Lemma trunc_mul_bound ma ea k :
  Z.pos ma < 2 ^ (- ea) → ea <= 0 → 0 < k < 2 ^ 50 →
  0 <= f_trunc (fmul (S754_finite false ma ea) (f_of_Z k)) <= k.
Proof.
  intros Ha Hea Hk. destruct (f_of_Z_exact k Hk) as (m & e & -> & He & Hm).
  unfold fmul, SFmul. apply trunc_round_bound; [lia|lia|done|].
  rewrite Pos2Z.inj_mul, Hm. replace (- (ea + e)) with (- ea + - e) by lia.
  rewrite Z.pow_add_r by lia. pose proof (Z.pow_pos_nonneg 2 (- e)). nia.
Qed.
