(* ===== verification/Metrics.v ===== *)
(** The in-process metrics of pkg/metrics: counters, gauges, histograms, rates, the registry
    that collects them into snapshots, and the global registry.  Atomic operations are single
    steps; a metric obtained from the registry is the registry's own entry of that name. *)
From stdpp Require Import prelude gmap strings list sorting.
From Stdlib Require Import SpecFloat.
From S2P Require Import Prelude GoStrings GoFloat.

Definition tagmap := gmap string string.
(** The loop [for k, v := range tags { c.tags[k] = v }]. *)
Definition set_tags (tags old : tagmap) : tagmap := tags ∪ old.

(** ** counter.go *)
Record CounterMetric := mkCounter { c_name : string; c_value : Z; c_tags : tagmap }.
Definition newCounter (name : string) : CounterMetric := mkCounter name 0 ∅.
Definition Counter_Add (delta : Z) (c : CounterMetric) : CounterMetric :=
  mkCounter (c_name c) (i64 (c_value c + delta)) (c_tags c).
Definition Counter_Inc (c : CounterMetric) : CounterMetric :=
  mkCounter (c_name c) (i64 (c_value c + 1)) (c_tags c).
Definition Counter_Value (c : CounterMetric) : Z := c_value c.
Definition Counter_Reset (c : CounterMetric) : Z * CounterMetric :=
  (c_value c, mkCounter (c_name c) 0 (c_tags c)).
Definition Counter_WithTags (tags : tagmap) (c : CounterMetric) : CounterMetric :=
  mkCounter (c_name c) (c_value c) (set_tags tags (c_tags c)).

(** ** gauge.go (the compare-and-swap loops retry until they apply to the current value) *)
Record GaugeMetric := mkGauge { g_name : string; g_val : float64; g_tags : tagmap }.
Definition newGauge (name : string) : GaugeMetric := mkGauge name f0 ∅.
Definition Gauge_Set (v : float64) (g : GaugeMetric) : GaugeMetric :=
  mkGauge (g_name g) v (g_tags g).
Definition Gauge_Add (delta : float64) (g : GaugeMetric) : GaugeMetric :=
  mkGauge (g_name g) (fadd (g_val g) delta) (g_tags g).
Definition Gauge_Inc (g : GaugeMetric) : GaugeMetric :=
  mkGauge (g_name g) (fadd (g_val g) f1) (g_tags g).
Definition Gauge_Dec (g : GaugeMetric) : GaugeMetric :=
  mkGauge (g_name g) (fsub (g_val g) f1) (g_tags g).
Definition Gauge_Value (g : GaugeMetric) : float64 := g_val g.
Definition Gauge_WithTags (tags : tagmap) (g : GaugeMetric) : GaugeMetric :=
  mkGauge (g_name g) (g_val g) (set_tags tags (g_tags g)).

(** ** histogram.go *)
Record HistogramMetric := mkHistogram {
  h_name : string; h_values : list float64; h_tags : tagmap; h_maxSize : Z }.
Record HistogramSnapshot := mkHSnap {
  hs_Count : Z; hs_P50 : float64; hs_P95 : float64; hs_P99 : float64;
  hs_Avg : float64; hs_Max : float64; hs_Min : float64 }.
#[global] Instance HistogramSnapshot_eq_dec : EqDecision HistogramSnapshot.
Proof. solve_decision. Defined.
Definition defaultMaxSampleSize : Z := 10000.
Definition newHistogram (name : string) : HistogramMetric :=
  mkHistogram name [] ∅ defaultMaxSampleSize.
Definition Observe (v : float64) (h : HistogramMetric) : HistogramMetric :=
  if zlen (h_values h) <? h_maxSize h then
    mkHistogram (h_name h) (h_values h ++ [v]) (h_tags h) (h_maxSize h)
  else h.

(** [percentile]; an index out of range would panic. *)
Definition nth_panic (l : list float64) (i : Z) : gores float64 :=
  if i <? 0 then Panic "index out of range"
  else match l !! Z.to_nat i with
       | Some v => Ret v
       | None => Panic "index out of range"
       end.
Definition percentile (sorted : list float64) (p : float64) : gores float64 :=
  let n := zlen sorted in
  if n =? 0 then Ret f0
  else if n =? 1 then nth_panic sorted 0
  else
    let idx := fmul p (f_of_Z (n - 1)) in
    let lower := f_trunc idx in
    let upper := lower + 1 in
    if n <=? upper then nth_panic sorted (n - 1)
    else
      let frac := fsub idx (f_of_Z lower) in
      match nth_panic sorted lower, nth_panic sorted upper with
      | Ret a, Ret b => Ret (fadd (fmul a (fsub f1 frac)) (fmul b frac))
      | Panic e, _ | _, Panic e => Panic e
      end.

(** The loop of [calcSnapshot]: sum, maximum and minimum. *)
Definition stats_step (acc : float64 * float64 * float64) (v : float64) :=
  let '(sum, maxVal, minVal) := acc in
  (fadd sum v, if fgt v maxVal then v else maxVal, if flt v minVal then v else minVal).
Definition stats (values : list float64) : float64 * float64 * float64 :=
  foldl stats_step (f0, SmallestNonzeroFloat64, MaxFloat64) values.

Definition calcSnapshot (values : list float64) : gores HistogramSnapshot :=
  let n := zlen values in
  if n =? 0 then Ret (mkHSnap 0 f0 f0 f0 f0 f0 f0)
  else
    let values := Float64s values in
    let '(sum, maxVal, minVal) := stats values in
    match percentile values (f_percent 50), percentile values (f_percent 95),
          percentile values (f_percent 99) with
    | Ret p50, Ret p95, Ret p99 =>
        Ret (mkHSnap n p50 p95 p99 (fdiv sum (f_of_Z n)) maxVal minVal)
    | Panic e, _, _ | _, Panic e, _ | _, _, Panic e => Panic e
    end.
Definition Histogram_Snapshot (h : HistogramMetric) : gores HistogramSnapshot :=
  calcSnapshot (h_values h).
Definition Histogram_Reset (h : HistogramMetric) : gores HistogramSnapshot * HistogramMetric :=
  (calcSnapshot (h_values h), mkHistogram (h_name h) [] (h_tags h) (h_maxSize h)).
Definition Histogram_WithTags (tags : tagmap) (h : HistogramMetric) : HistogramMetric :=
  mkHistogram (h_name h) (h_values h) (set_tags tags (h_tags h)) (h_maxSize h).

(** ** rate.go *)
Record RateMetric := mkRate { r_name : string; r_success : Z; r_fail : Z; r_tags : tagmap }.
Record RateSnapshot := mkRSnap {
  rs_Total : Z; rs_Success : Z; rs_Fail : Z; rs_Rate : float64 }.
#[global] Instance RateSnapshot_eq_dec : EqDecision RateSnapshot.
Proof. solve_decision. Defined.
Definition newRate (name : string) : RateMetric := mkRate name 0 0 ∅.
Definition RecordSuccess (r : RateMetric) : RateMetric :=
  mkRate (r_name r) (i64 (r_success r + 1)) (r_fail r) (r_tags r).
Definition RecordFail (r : RateMetric) : RateMetric :=
  mkRate (r_name r) (r_success r) (i64 (r_fail r + 1)) (r_tags r).
Definition buildRateSnapshot (success fail : Z) : RateSnapshot :=
  let total := i64 (success + fail) in
  let rate := if 0 <? total then fdiv (f_of_Z fail) (f_of_Z total) else f0 in
  mkRSnap total success fail rate.
Definition Rate_Snapshot (r : RateMetric) : RateSnapshot :=
  buildRateSnapshot (r_success r) (r_fail r).
Definition Rate_Reset (r : RateMetric) : RateSnapshot * RateMetric :=
  (buildRateSnapshot (r_success r) (r_fail r), mkRate (r_name r) 0 0 (r_tags r)).
Definition Rate_WithTags (tags : tagmap) (r : RateMetric) : RateMetric :=
  mkRate (r_name r) (r_success r) (r_fail r) (set_tags tags (r_tags r)).

(** ** snapshot.go *)
(** [Type] and the one pointer field it sets. *)
Inductive SnapValue :=
  | SnapCounter (v : Z)
  | SnapGauge (v : float64)
  | SnapHistogram (h : HistogramSnapshot)
  | SnapRate (r : RateSnapshot).
#[global] Instance SnapValue_eq_dec : EqDecision SnapValue.
Proof. solve_decision. Defined.
Record Snapshot := mkSnapshot {
  s_Name : string; s_Value : SnapValue; s_Tags : tagmap; s_ServiceName : string;
  s_Timestamp : Z }.
#[global] Instance Snapshot_eq_dec : EqDecision Snapshot.
Proof. solve_decision. Defined.

(** ** registry.go *)
(** Who receives the snapshots: the Prometheus exporter and the configured callback. *)
Inductive consumer := ToPrometheus | ToCallback.
Record Registry := mkRegistry {
  counters : gmap string CounterMetric;
  gauges : gmap string GaugeMetric;
  histograms : gmap string HistogramMetric;
  rates : gmap string RateMetric;
  serviceName : string;
  interval : Z;
  onSnapshot : option (list consumer);   (* [None]: a nil callback *)
  stopCh_closed : bool }.
Definition newRegistry (service : string) (ival : Z) (cb : option (list consumer)) : Registry :=
  mkRegistry ∅ ∅ ∅ ∅ service ival cb false.

Definition set_counters (m : gmap string CounterMetric) (r : Registry) : Registry :=
  mkRegistry m (gauges r) (histograms r) (rates r) (serviceName r) (interval r)
    (onSnapshot r) (stopCh_closed r).
Definition set_gauges (m : gmap string GaugeMetric) (r : Registry) : Registry :=
  mkRegistry (counters r) m (histograms r) (rates r) (serviceName r) (interval r)
    (onSnapshot r) (stopCh_closed r).
Definition set_histograms (m : gmap string HistogramMetric) (r : Registry) : Registry :=
  mkRegistry (counters r) (gauges r) m (rates r) (serviceName r) (interval r)
    (onSnapshot r) (stopCh_closed r).
Definition set_rates (m : gmap string RateMetric) (r : Registry) : Registry :=
  mkRegistry (counters r) (gauges r) (histograms r) m (serviceName r) (interval r)
    (onSnapshot r) (stopCh_closed r).

(** [Load], and [LoadOrStore] of a fresh metric when absent. *)
Definition GetOrCreateCounter (name : string) (r : Registry) : CounterMetric * Registry :=
  match counters r !! name with
  | Some c => (c, r)
  | None => let c := newCounter name in (c, set_counters (<[name := c]> (counters r)) r)
  end.
Definition GetOrCreateGauge (name : string) (r : Registry) : GaugeMetric * Registry :=
  match gauges r !! name with
  | Some g => (g, r)
  | None => let g := newGauge name in (g, set_gauges (<[name := g]> (gauges r)) r)
  end.
Definition GetOrCreateHistogram (name : string) (r : Registry) : HistogramMetric * Registry :=
  match histograms r !! name with
  | Some h => (h, r)
  | None => let h := newHistogram name in (h, set_histograms (<[name := h]> (histograms r)) r)
  end.
Definition GetOrCreateRate (name : string) (r : Registry) : RateMetric * Registry :=
  match rates r !! name with
  | Some x => (x, r)
  | None => let x := newRate name in (x, set_rates (<[name := x]> (rates r)) r)
  end.

(** A metric's snapshot; [None] when computing a histogram would panic. *)
Definition snap_counter (svc : string) (now : Z) (name : string) (c : CounterMetric) : Snapshot :=
  mkSnapshot name (SnapCounter (Counter_Reset c).1) (c_tags c) svc now.
Definition snap_gauge (svc : string) (now : Z) (name : string) (g : GaugeMetric) : Snapshot :=
  mkSnapshot name (SnapGauge (Gauge_Value g)) (g_tags g) svc now.
Definition snap_histogram (svc : string) (now : Z) (name : string) (h : HistogramMetric)
    : option Snapshot :=
  match calcSnapshot (h_values h) with
  | Ret s => Some (mkSnapshot name (SnapHistogram s) (h_tags h) svc now)
  | Panic _ => None
  end.
Definition snap_rate (svc : string) (now : Z) (name : string) (x : RateMetric) : Snapshot :=
  mkSnapshot name (SnapRate (Rate_Reset x).1) (r_tags x) svc now.

(** [collectAndNotify]: the four [Range] loops write one map, a later kind over an earlier one
    of the same name; counters, histograms and rates are reset.  The result is what is
    delivered, if anything. *)
Definition collectAndNotify (now : Z) (r : Registry)
    : option (list consumer * gmap string Snapshot) * Registry :=
  match onSnapshot r with
  | None => (None, r)
  | Some cb =>
      let svc := serviceName r in
      let snaps :=
        map_imap (λ n x, Some (snap_rate svc now n x)) (rates r) ∪
        (map_imap (λ n h, snap_histogram svc now n h) (histograms r) ∪
        (map_imap (λ n g, Some (snap_gauge svc now n g)) (gauges r) ∪
         map_imap (λ n c, Some (snap_counter svc now n c)) (counters r))) in
      let r' := mkRegistry ((λ c, (Counter_Reset c).2) <$> counters r) (gauges r)
                  ((λ h, (Histogram_Reset h).2) <$> histograms r)
                  ((λ x, (Rate_Reset x).2) <$> rates r)
                  (serviceName r) (interval r) (onSnapshot r) (stopCh_closed r) in
      (if bool_decide (snaps = ∅) then None else Some (cb, snaps), r')
  end.

(** [Stop] closes the channel (panicking when it is closed already) and waits for the loop's
    last collection. *)
Definition Registry_Stop (now : Z) (r : Registry)
    : gores (option (list consumer * gmap string Snapshot) * Registry) :=
  if stopCh_closed r then Panic "close of closed channel"
  else
    let '(out, r) := collectAndNotify now r in
    Ret (out, mkRegistry (counters r) (gauges r) (histograms r) (rates r) (serviceName r)
                (interval r) (onSnapshot r) true).
(** [aggregateLoop] over a schedule of wake-ups: one collection per tick and a last one when
    the stop channel closes. *)
Inductive wake := WTick (now : Z) | WStop (now : Z).
Fixpoint aggregateLoop (ws : list wake) (r : Registry)
    : list (option (list consumer * gmap string Snapshot)) * Registry :=
  match ws with
  | [] => ([], r)
  | WTick t :: ws =>
      let '(o, r) := collectAndNotify t r in
      let '(os, r) := aggregateLoop ws r in (o :: os, r)
  | WStop t :: _ => let '(o, r) := collectAndNotify t r in ([o], r)
  end.

(** ** metrics.go: the global registry *)
Record MConfig := mkMConfig {
  m_ServiceName : string; m_AggregateInterval : Z; m_OnSnapshot : bool; m_EnablePrometheus : bool }.
Definition defaultAggregateInterval : Z := 10 * Second.
Definition finalCallback (cfg : MConfig) : option (list consumer) :=
  if m_EnablePrometheus cfg then
    Some (ToPrometheus :: if m_OnSnapshot cfg then [ToCallback] else [])
  else if m_OnSnapshot cfg then Some [ToCallback] else None.
Definition Init (now : Z) (cfg : MConfig) (d : option Registry) : gores (option Registry) :=
  let ival := if m_AggregateInterval cfg <=? 0 then defaultAggregateInterval
              else m_AggregateInterval cfg in
  let fresh := Ret (Some (newRegistry (m_ServiceName cfg) ival (finalCallback cfg))) in
  match d with
  | Some r => match Registry_Stop now r with Panic e => Panic e | Ret _ => fresh end
  | None => fresh
  end.
Definition MStop (now : Z) (d : option Registry) : gores (option Registry) :=
  match d with
  | Some r => match Registry_Stop now r with Panic e => Panic e | Ret (_, r) => Ret (Some r) end
  | None => Ret None
  end.
Definition ensureRegistry (d : option Registry) : Registry :=
  match d with Some r => r | None => newRegistry "" defaultAggregateInterval None end.
(** [Counter], [Gauge], [Histogram] and [Rate] on the global registry. *)
Definition Counter (name : string) (d : option Registry) : CounterMetric * option Registry :=
  let '(c, r) := GetOrCreateCounter name (ensureRegistry d) in (c, Some r).
Definition Gauge (name : string) (d : option Registry) : GaugeMetric * option Registry :=
  let '(g, r) := GetOrCreateGauge name (ensureRegistry d) in (g, Some r).
Definition Histogram (name : string) (d : option Registry) : HistogramMetric * option Registry :=
  let '(h, r) := GetOrCreateHistogram name (ensureRegistry d) in (h, Some r).
Definition Rate (name : string) (d : option Registry) : RateMetric * option Registry :=
  let '(x, r) := GetOrCreateRate name (ensureRegistry d) in (x, Some r).

(** ** Histograms never panic

    The two indices [percentile] reads are in range: the rounded product of a fraction below one
    with [n - 1] truncates to at most [n - 1]. *)
Lemma index_in_range n p :
  1 < n < 2 ^ 50 → p = 50 ∨ p = 95 ∨ p = 99 →
  0 <= f_trunc (fmul (f_percent p) (f_of_Z (n - 1))) <= n - 1.
Proof.
  intros Hn Hp.
  assert (∃ m e, f_percent p = S754_finite false m e ∧ e <= 0 ∧ Z.pos m < 2 ^ (- e)) as (m & e & -> & He & Hm).
  { destruct Hp as [->|[->| ->]]; eexists _, _;
      (split; [vm_compute; reflexivity|split; [lia|vm_compute; reflexivity]]). }
  apply trunc_mul_bound; [done|done|lia].
Qed.
Lemma nth_panic_ret l i : 0 <= i < zlen l → ∃ v, nth_panic l i = Ret v ∧ v ∈ l.
Proof.
  intros H. unfold nth_panic, zlen in *. destruct (Z.ltb_spec i 0); [lia|].
  destruct (lookup_lt_is_Some_2 l (Z.to_nat i)) as [v Hv]; [lia|]. rewrite Hv.
  exists v. split; [done|]. by eapply list_elem_of_lookup_2.
Qed.
Lemma percentile_ret l p :
  zlen l <= 10000 → p = 50 ∨ p = 95 ∨ p = 99 → ∃ v, percentile l (f_percent p) = Ret v.
Proof.
  intros Hl Hp. unfold percentile. pose proof (zlen_nonneg l).
  destruct (Z.eqb_spec (zlen l) 0); [by eexists|].
  destruct (Z.eqb_spec (zlen l) 1).
  { destruct (nth_panic_ret l 0) as (v & -> & _); [lia|by eexists]. }
  pose proof (index_in_range (zlen l) p ltac:(lia) Hp) as Hi.
  destruct (Z.leb_spec (zlen l) (f_trunc (fmul (f_percent p) (f_of_Z (zlen l - 1))) + 1)).
  { destruct (nth_panic_ret l (zlen l - 1)) as (v & -> & _); [lia|by eexists]. }
  destruct (nth_panic_ret l (f_trunc (fmul (f_percent p) (f_of_Z (zlen l - 1))))) as (a & -> & _); [lia|].
  destruct (nth_panic_ret l (f_trunc (fmul (f_percent p) (f_of_Z (zlen l - 1))) + 1)) as (b & -> & _); [lia|].
  by eexists.
Qed.

(** The observations of one histogram between two collections. *)
Inductive hop := HObserve (v : float64) | HSnapshot | HReset.
Definition hstep (o : hop) (h : HistogramMetric) : HistogramMetric :=
  match o with
  | HObserve v => Observe v h
  | HSnapshot => h
  | HReset => (Histogram_Reset h).2
  end.
Lemma hstep_bound o h :
  h_maxSize h = defaultMaxSampleSize → zlen (h_values h) <= h_maxSize h →
  h_maxSize (hstep o h) = defaultMaxSampleSize ∧
  zlen (h_values (hstep o h)) <= h_maxSize (hstep o h).
Proof.
  intros Hm Hl. destruct o; cbn; unfold Observe; [|done|unfold zlen; cbn; rewrite Hm; done].
  destruct (Z.ltb_spec (zlen (h_values h)) (h_maxSize h)); [|done]. cbn. split; [done|].
  rewrite zlen_app. unfold zlen in *. cbn. lia.
Qed.

Lemma calcSnapshot_ret values :
  zlen values <= 10000 → ∃ s, calcSnapshot values = Ret s ∧ hs_Count s = zlen values.
Proof.
  intros Hl. unfold calcSnapshot. pose proof (zlen_nonneg values).
  destruct (Z.eqb_spec (zlen values) 0) as [E|]; [exists (mkHSnap 0 f0 f0 f0 f0 f0 f0); auto|].
  destruct (stats (Float64s values)) as [[sum mx] mn].
  assert (zlen (Float64s values) <= 10000) as Hs by (unfold zlen in *; by rewrite length_Float64s).
  destruct (percentile_ret (Float64s values) 50) as [a ->]; [done|auto|].
  destruct (percentile_ret (Float64s values) 95) as [b ->]; [done|auto|].
  destruct (percentile_ret (Float64s values) 99) as [c ->]; [done|auto|].
  eexists. split; [reflexivity|done].
Qed.
(** A histogram never panics and never holds more than 10000 samples: after any sequence
    of observations, snapshots and resets its snapshot is computed, with the number of samples
    held as its count. *)
Lemma histogram_total (ops : list hop) (name : string) :
  let h := foldl (λ h o, hstep o h) (newHistogram name) ops in
  zlen (h_values h) <= 10000 ∧
  ∃ s, Histogram_Snapshot h = Ret s ∧ hs_Count s = zlen (h_values h).
Proof.
  assert (h_maxSize (newHistogram name) = defaultMaxSampleSize) as Hm by done.
  assert (zlen (h_values (newHistogram name)) <= h_maxSize (newHistogram name)) as Hl by done.
  revert Hm Hl. generalize (newHistogram name). induction ops as [|o ops IH]; intros h Hm Hl; cbn.
  - rewrite Hm in Hl. split; [done|]. by apply calcSnapshot_ret.
  - destruct (hstep_bound o h Hm Hl) as [Hm' Hl']. by apply IH.
Qed.

(** ** Maximum and minimum *)
Lemma stats_cons values : ∀ sum mx mn,
  ∃ sum', foldl stats_step (sum, mx, mn) values
    = (sum', foldl (λ m v, if fgt v m then v else m) mx values,
             foldl (λ m v, if flt v m then v else m) mn values).
Proof.
  induction values as [|v values IH]; intros sum mx mn; cbn; [by eexists|]. apply IH.
Qed.
Lemma fold_max values mx :
  is_nan mx = false →
  let m := foldl (λ m v, if fgt v m then v else m) mx values in
  (m = mx ∨ m ∈ values) ∧ Forall (λ v, fgt v m = false) values ∧ fgt mx m = false ∧
  is_nan m = false.
Proof.
  revert mx. induction values as [|v values IH]; intros mx Hmx; cbn.
  - split_and!; [by left|done|apply flt_irrefl|done].
  - destruct (fgt v mx) eqn:E.
    + destruct (IH v) as (H1 & H2 & H3 & H4); [by apply flt_not_nan in E as [_ ?]|].
      split_and!; [right|by constructor| |done].
      * destruct H1 as [->|H1]; [by left|by right].
      * apply not_true_iff_false. intros E'. apply not_true_iff_false in H3. apply H3.
        exact (flt_trans _ _ _ E' E).
    + destruct (IH mx Hmx) as (H1 & H2 & H3 & H4).
      split_and!; [|constructor; [|done]|done|done].
      * destruct H1 as [->|H1]; [by left|by right; right].
      * apply not_true_iff_false. intros E'. apply not_true_iff_false in H3, E.
        by destruct (flt_split _ mx _ Hmx E').
Qed.
Lemma fold_min values mn :
  is_nan mn = false →
  let m := foldl (λ m v, if flt v m then v else m) mn values in
  (m = mn ∨ m ∈ values) ∧ Forall (λ v, flt v m = false) values ∧ flt mn m = false ∧
  is_nan m = false.
Proof.
  revert mn. induction values as [|v values IH]; intros mn Hmn; cbn.
  - split_and!; [by left|done|apply flt_irrefl|done].
  - destruct (flt v mn) eqn:E.
    + destruct (IH v) as (H1 & H2 & H3 & H4); [by apply flt_not_nan in E as [? _]|].
      split_and!; [right|by constructor| |done].
      * destruct H1 as [->|H1]; [by left|by right].
      * apply not_true_iff_false. intros E'. apply not_true_iff_false in H3. apply H3.
        exact (flt_trans _ _ _ E E').
    + destruct (IH mn Hmn) as (H1 & H2 & H3 & H4).
      split_and!; [|constructor; [|done]|done|done].
      * destruct H1 as [->|H1]; [by left|by right; right].
      * apply not_true_iff_false. intros E'. apply not_true_iff_false in H3, E.
        by destruct (flt_split _ mn _ Hmn E').
Qed.

(** The snapshot's extrema, for the sample list as given. *)
Lemma calcSnapshot_extrema values s :
  calcSnapshot values = Ret s → values ≠ [] →
  ∃ sorted, sorted ≡ₚ values ∧ hs_Count s = zlen values ∧
    hs_Max s = foldl (λ m v, if fgt v m then v else m) SmallestNonzeroFloat64 sorted ∧
    hs_Min s = foldl (λ m v, if flt v m then v else m) MaxFloat64 sorted.
Proof.
  unfold calcSnapshot. intros H Hne. destruct (Z.eqb_spec (zlen values) 0) as [E|].
  { destruct values; [done|]. rewrite zlen_cons in E. pose proof (zlen_nonneg values). lia. }
  exists (Float64s values). split; [apply merge_sort_Permutation|].
  unfold stats in H.
  destruct (stats_cons (Float64s values) f0 SmallestNonzeroFloat64 MaxFloat64) as [sum Hs].
  rewrite Hs in H. destruct (percentile _ (f_percent 50)); [|done].
  destruct (percentile _ (f_percent 95)); [|done]. destruct (percentile _ (f_percent 99)); [|done].
  by injection H as <-.
Qed.

(** The extrema of a histogram. If some sample is greater than the smallest positive
    float, [Max] is a sample and no sample is greater; if some sample is below the greatest
    float, [Min] is a sample and no sample is smaller. *)
Lemma histogram_extrema (values : list float64) (s : HistogramSnapshot) (v : float64) :
  calcSnapshot values = Ret s → v ∈ values →
  (fgt v SmallestNonzeroFloat64 = true →
     hs_Max s ∈ values ∧ Forall (λ u, fgt u (hs_Max s) = false) values) ∧
  (flt v MaxFloat64 = true →
     hs_Min s ∈ values ∧ Forall (λ u, flt u (hs_Min s) = false) values).
Proof.
  intros H Hv. destruct (calcSnapshot_extrema _ _ H) as (sorted & Hp & _ & -> & ->).
  { intros ->. by apply not_elem_of_nil in Hv. }
  pose proof (fold_max sorted SmallestNonzeroFloat64 eq_refl) as HA.
  pose proof (fold_min sorted MaxFloat64 eq_refl) as HB. cbv zeta in HA, HB.
  revert HA HB.
  generalize (foldl (λ m v, if fgt v m then v else m) SmallestNonzeroFloat64 sorted)
    (foldl (λ m v, if flt v m then v else m) MaxFloat64 sorted).
  intros mx mn (A1 & A2 & _) (B1 & B2 & _). rewrite Hp in A1, A2, B1, B2.
  split; intros Hx; (split; [|done]).
  - destruct A1 as [A1|A1]; [|done]. rewrite Forall_forall in A2.
    pose proof (A2 v Hv) as Hv'. rewrite A1 in Hv'. congruence.
  - destruct B1 as [B1|B1]; [|done]. rewrite Forall_forall in B2.
    pose proof (B2 v Hv) as Hv'. rewrite B1 in Hv'. congruence.
Qed.

(** The maximum of samples none of which is positive is not a sample: [Max] is then the
    smallest positive float, whatever the samples, because that is what the scan starts from. *)
Lemma histogram_max_nonpositive (values : list float64) (s : HistogramSnapshot) :
  calcSnapshot values = Ret s → values ≠ [] →
  Forall (λ v, fgt v f0 = false) values →
  hs_Max s = SmallestNonzeroFloat64 ∧ hs_Max s ∉ values.
Proof.
  intros H Hne Hneg. destruct (calcSnapshot_extrema _ _ H Hne) as (sorted & Hp & _ & -> & _).
  rewrite <- Hp in Hneg. rewrite <- Hp. clear Hp H.
  assert (foldl (λ m v, if fgt v m then v else m) SmallestNonzeroFloat64 sorted
          = SmallestNonzeroFloat64) as ->.
  { induction Hneg as [|v l Hv Hl IH]; cbn; [done|].
    destruct (fgt v SmallestNonzeroFloat64) eqn:E; [|done].
    assert (flt f0 SmallestNonzeroFloat64 = true) as H0 by done.
    apply not_true_iff_false in Hv. destruct (Hv (flt_trans _ _ _ H0 E)). }
  split; [done|]. intros Hin. rewrite Forall_forall in Hneg. by apply Hneg in Hin.
Qed.

(** ** The registry *)
(** What a program does with the metrics named [name_of], and the aggregation loop's ticks. *)
Inductive mop :=
  | MAdd (name : string) (delta : Z)
  | MGaugeSet (name : string) (v : float64)
  | MObserve (name : string) (v : float64)
  | MRecord (name : string) (ok : bool)
  | MCollect (now : Z).
Definition delivery := option (list consumer * gmap string Snapshot).
Definition mstep (o : mop) (r : Registry) : list delivery * Registry :=
  match o with
  | MAdd n d =>
      let '(c, r) := GetOrCreateCounter n r in
      ([], set_counters (<[n := Counter_Add d c]> (counters r)) r)
  | MGaugeSet n v =>
      let '(g, r) := GetOrCreateGauge n r in
      ([], set_gauges (<[n := Gauge_Set v g]> (gauges r)) r)
  | MObserve n v =>
      let '(h, r) := GetOrCreateHistogram n r in
      ([], set_histograms (<[n := Observe v h]> (histograms r)) r)
  | MRecord n ok =>
      let '(x, r) := GetOrCreateRate n r in
      ([], set_rates (<[n := if ok : bool then RecordSuccess x else RecordFail x]> (rates r)) r)
  | MCollect now => let '(d, r) := collectAndNotify now r in ([d], r)
  end.
Fixpoint mrun (os : list mop) (r : Registry) : list delivery * Registry :=
  match os with
  | [] => ([], r)
  | o :: os => let '(d, r) := mstep o r in let '(ds, r) := mrun os r in (d ++ ds, r)
  end.

Definition counter_value (n : string) (r : Registry) : Z :=
  from_option c_value 0 (counters r !! n).
(** The counter value a delivery carries for [n]. *)
Definition delivered (n : string) (d : delivery) : Z :=
  match d with
  | Some (_, m) => match m !! n with Some s => match s_Value s with SnapCounter v => v | _ => 0 end
                                 | None => 0 end
  | None => 0
  end.
Definition delta_of (n : string) (o : mop) : Z :=
  match o with MAdd n' d => if bool_decide (n' = n) then d else 0 | _ => 0 end.
(** [n] names a counter and no metric of another kind. *)
Definition counter_only (n : string) (r : Registry) : Prop :=
  gauges r !! n = None ∧ histograms r !! n = None ∧ rates r !! n = None.
Definition op_kind_ok (n : string) (o : mop) : Prop :=
  match o with
  | MGaugeSet n' _ | MObserve n' _ | MRecord n' _ => n' ≠ n
  | MAdd _ _ | MCollect _ => True
  end.

Lemma collect_counter n now r :
  onSnapshot r ≠ None → counter_only n r → in_i64 (counter_value n r) →
  let '(d, r') := collectAndNotify now r in
  delivered n d = counter_value n r ∧ counter_value n r' = 0 ∧ counter_only n r' ∧
  onSnapshot r' = onSnapshot r.
Proof.
  intros Hcb (Hg & Hh & Hr) _. unfold collectAndNotify.
  destruct (onSnapshot r) as [cb|] eqn:Ecb; [|done].
  set (snaps := map_imap _ (rates r) ∪ _).
  assert (snaps !! n = (λ c, snap_counter (serviceName r) now n c) <$> counters r !! n) as Hs.
  { subst snaps. rewrite lookup_union_r by (by rewrite map_lookup_imap, Hr).
    rewrite lookup_union_r by (by rewrite map_lookup_imap, Hh).
    rewrite lookup_union_r by (by rewrite map_lookup_imap, Hg).
    rewrite map_lookup_imap. by destruct (counters r !! n). }
  split_and!.
  - unfold delivered, counter_value. case_bool_decide as E.
    + rewrite E, lookup_empty in Hs. by destruct (counters r !! n).
    + rewrite Hs. by destruct (counters r !! n).
  - unfold counter_value. cbn. rewrite lookup_fmap. by destruct (counters r !! n).
  - unfold counter_only. cbn. rewrite !lookup_fmap. by rewrite Hg, Hh, Hr.
  - done.
Qed.
Lemma mstep_counter n o r :
  onSnapshot r ≠ None → counter_only n r → op_kind_ok n o → in_i64 (counter_value n r) →
  let '(ds, r') := mstep o r in
  i64 (zsum (delivered n <$> ds) + counter_value n r') = i64 (counter_value n r + delta_of n o) ∧
  counter_only n r' ∧ onSnapshot r' = onSnapshot r ∧ in_i64 (counter_value n r').
Proof.
  intros Hcb Hk Hok Hin. destruct o as [n' d|n' v|n' v|n' ok|now]; cbn [mstep delta_of op_kind_ok] in *.
  - assert (∀ c r0, counters r0 = counters r ∨ (counters r !! n' = None ∧
      counters r0 = <[n' := newCounter n']> (counters r)) → c_value c = counter_value n' r →
      let r' := set_counters (<[n' := Counter_Add d c]> (counters r0)) r0 in
      counter_value n r' = if bool_decide (n' = n) then i64 (counter_value n r + d)
                           else counter_value n r) as Hval.
    { intros c r0 Hr0 Hc. unfold counter_value in *. cbn. case_bool_decide as E.
      - subst n'. rewrite lookup_insert_eq. cbn. by rewrite Hc.
      - rewrite lookup_insert_ne by done. destruct Hr0 as [->|[_ ->]]; [done|].
        by rewrite lookup_insert_ne. }
    unfold GetOrCreateCounter. destruct (counters r !! n') as [c|] eqn:Hc.
    + specialize (Hval c r (or_introl eq_refl)). cbv zeta in Hval.
      rewrite Hval by (unfold counter_value; by rewrite Hc). cbn [zsum fmap list_fmap].
      split_and!; try done; case_bool_decide; auto using i64_range.
      * rewrite i64_id by apply i64_range. done.
      * by rewrite Z.add_0_r.
    + specialize (Hval (newCounter n') (set_counters (<[n' := newCounter n']> (counters r)) r)).
      cbv zeta in Hval.
      rewrite Hval by (first [right; by split|unfold counter_value; by rewrite Hc]).
      cbn [zsum fmap list_fmap].
      split_and!; try done; case_bool_decide; auto using i64_range.
      * rewrite i64_id by apply i64_range. done.
      * by rewrite Z.add_0_r.
  - destruct Hk as (Hg & Hh & Hr). unfold GetOrCreateGauge, counter_only.
    destruct (gauges r !! n'); cbn; rewrite ?lookup_insert_ne by done;
      split_and!; try done; by rewrite Z.add_0_r.
  - destruct Hk as (Hg & Hh & Hr). unfold GetOrCreateHistogram, counter_only.
    destruct (histograms r !! n'); cbn; rewrite ?lookup_insert_ne by done;
      split_and!; try done; by rewrite Z.add_0_r.
  - destruct Hk as (Hg & Hh & Hr). unfold GetOrCreateRate, counter_only.
    destruct (rates r !! n'); cbn; rewrite ?lookup_insert_ne by done;
      split_and!; try done; by rewrite Z.add_0_r.
  - pose proof (collect_counter n now r Hcb Hk Hin) as H.
    destruct (collectAndNotify now r) as [d r']. destruct H as (H1 & H2 & H3 & H4).
    cbn. rewrite H1, H2. split_and!; try done; f_equal; lia.
Qed.

(** No count is lost or reported twice. Over any program of counter, gauge, histogram and
    rate operations interleaved with collections, the values delivered for a counter plus the
    value it still holds are its initial value plus everything added to it (in 64-bit
    arithmetic), as long as no metric of another kind has its name. *)
Lemma counter_conservation (n : string) (os : list mop) (r : Registry) :
  onSnapshot r ≠ None → counter_only n r → in_i64 (counter_value n r) →
  Forall (op_kind_ok n) os →
  let '(ds, r') := mrun os r in
  i64 (zsum (delivered n <$> ds) + counter_value n r')
  = i64 (counter_value n r + zsum (delta_of n <$> os)).
Proof.
  intros Hcb Hk Hin Hos. revert r Hcb Hk Hin.
  induction Hos as [|o os Ho Hos IH]; intros r Hcb Hk Hin; cbn [mrun].
  { cbn. f_equal. lia. }
  pose proof (mstep_counter n o r Hcb Hk Ho Hin) as Hs. destruct (mstep o r) as [d r1].
  destruct Hs as (H1 & Hk1 & Hcb1 & Hin1). specialize (IH r1 ltac:(congruence) Hk1 Hin1).
  destruct (mrun os r1) as [ds r2]. rewrite fmap_app, zsum_app. cbn [fmap list_fmap zsum].
  rewrite <- Z.add_assoc, <- (i64_add_r _ (_ + counter_value n r2)), IH, i64_add_r.
  rewrite Z.add_assoc, <- i64_add_l, H1, i64_add_l. f_equal. fold (delta_of n <$> os). lia.
Qed.

(** A counter that shares its name with a gauge is lost at every collection: the delivered
    snapshot of that name is the gauge's, and the count is reset all the same. *)
Lemma shared_name_loses_counter (r : Registry) (n : string) (c : CounterMetric)
    (g : GaugeMetric) (cb : list consumer) (now : Z) :
  onSnapshot r = Some cb → counters r !! n = Some c → gauges r !! n = Some g →
  histograms r !! n = None → rates r !! n = None →
  ∃ m r', collectAndNotify now r = (Some (cb, m), r') ∧
    m !! n = Some (snap_gauge (serviceName r) now n g) ∧ counter_value n r' = 0.
Proof.
  intros Hcb Hc Hg Hh Hr. unfold collectAndNotify. rewrite Hcb.
  set (snaps := map_imap _ (rates r) ∪ _).
  assert (snaps !! n = Some (snap_gauge (serviceName r) now n g)) as Hs.
  { subst snaps. rewrite lookup_union_r by (by rewrite map_lookup_imap, Hr).
    rewrite lookup_union_r by (by rewrite map_lookup_imap, Hh).
    apply lookup_union_Some_l. by rewrite map_lookup_imap, Hg. }
  rewrite bool_decide_eq_false_2 by (intros E; by rewrite E, lookup_empty in Hs).
  eexists snaps, _. split_and!; [reflexivity|done|].
  unfold counter_value. cbn. by rewrite lookup_fmap, Hc.
Qed.

(** ** Concrete instances *)
Definition demo_samples : list float64 := [f_of_Z 3; f_of_Z (-2); f_of_Z 7].
Lemma histogram_extrema_witness :
  ∃ s, calcSnapshot demo_samples = Ret s ∧ hs_Max s ∈ demo_samples ∧
       Forall (λ u, fgt u (hs_Max s) = false) demo_samples.
Proof.
  destruct (calcSnapshot demo_samples) as [s|e] eqn:E; [|vm_compute in E; discriminate E].
  exists s. split; [reflexivity|].
  apply (histogram_extrema demo_samples s (f_of_Z 3) E); [by left|vm_compute; reflexivity].
Defined.
Lemma histogram_max_nonpositive_witness :
  ∃ s, calcSnapshot [f_of_Z (-5); f0] = Ret s ∧ hs_Max s = SmallestNonzeroFloat64 ∧
       hs_Max s ∉ [f_of_Z (-5); f0].
Proof.
  destruct (calcSnapshot [f_of_Z (-5); f0]) as [s|e] eqn:E; [|vm_compute in E; discriminate E].
  exists s. split; [reflexivity|].
  apply (histogram_max_nonpositive [f_of_Z (-5); f0] s E); [done|].
  by repeat constructor.
Defined.
Definition demo_registry : Registry :=
  set_gauges {["q" := Gauge_Set (f_of_Z 4) (newGauge "q")]}
    (set_counters {["q" := Counter_Add 9 (newCounter "q")]}
       (newRegistry "svc" Second (Some [ToCallback]))).
Lemma counter_conservation_witness :
  let os := [MAdd "hits" 3; MGaugeSet "q" f1; MCollect 10; MAdd "hits" 4; MRecord "r" true;
             MCollect 20; MAdd "hits" 5] in
  let '(ds, r') := mrun os demo_registry in
  i64 (zsum (delivered "hits" <$> ds) + counter_value "hits" r') = 12.
Proof.
  cbv zeta.
  exact (counter_conservation "hits"
    [MAdd "hits" 3; MGaugeSet "q" f1; MCollect 10; MAdd "hits" 4; MRecord "r" true;
     MCollect 20; MAdd "hits" 5] demo_registry
    ltac:(discriminate) ltac:(by split_and!) ltac:(by split) ltac:(by repeat constructor)).
Defined.
Lemma shared_name_loses_counter_witness :
  ∃ m r', collectAndNotify 5 demo_registry = (Some ([ToCallback], m), r') ∧
    m !! "q" = Some (snap_gauge "svc" 5 "q" (Gauge_Set (f_of_Z 4) (newGauge "q"))) ∧
    counter_value "q" r' = 0.
Proof.
  apply (shared_name_loses_counter demo_registry "q" (Counter_Add 9 (newCounter "q"))
           (Gauge_Set (f_of_Z 4) (newGauge "q")) [ToCallback] 5); reflexivity.
Defined.
