(* ===== verification/MetricsConcurrent.v ===== *)
(** Metrics under concurrency (pkg/metrics): the compare-and-swap loops of a gauge, step by step,
    between any number of callers (the bits of a gauge are its float, every NaN the same one);
    and a collection that visits the metrics one by one while the program goes on counting. *)
From stdpp Require Import prelude gmap strings list.
From Stdlib Require Import SpecFloat.
From S2P Require Import Prelude GoStrings GoFloat Metrics.

(** ** The loops of gauge.go *)
Inductive gcall := GSet (v : float64) | GInc | GDec | GAdd (delta : float64) | GValue.
(** The new value from the one that was read. *)
Definition gcompute (c : gcall) (old : float64) : float64 :=
  match c with
  | GSet v => v
  | GInc => fadd old f1
  | GDec => fsub old f1
  | GAdd delta => fadd old delta
  | GValue => old
  end.
(** A call that has not begun its turn of the loop, one that has loaded the bits, and one that has
    returned (with what [Value] answers). *)
Inductive gpc := GStart | GLoaded (old : float64) | GReturned (answer : float64).
Record gsystem := mkGSystem { bits : float64; pcs : list gpc; returned : list nat }.
Section gauge.
Context (calls : list gcall).
Definition set_pc (i : nat) (p : gpc) (s : gsystem) : gsystem := mkGSystem (bits s) (<[i := p]> (pcs s)) (returned s).
Definition ret_with (i : nat) (new answer : float64) (s : gsystem) : gsystem :=
  mkGSystem new (<[i := GReturned answer]> (pcs s)) (returned s ++ [i]).
(** One atomic operation of call [i]; a call that has returned does none. *)
Definition gstep (i : nat) (s : gsystem) : option gsystem :=
  match calls !! i, pcs s !! i with
  | Some c, Some GStart =>
      match c with
      | GSet v => Some (ret_with i v v s)
      | GValue => Some (ret_with i (bits s) (bits s) s)
      | _ => Some (set_pc i (GLoaded (bits s)) s)
      end
  | Some c, Some (GLoaded old) =>
      if bool_decide (bits s = old) then Some (ret_with i (gcompute c old) old s)
      else Some (set_pc i GStart s)
  | _, _ => None
  end.
Definition gstart (v : float64) : gsystem := mkGSystem v (replicate (length calls) GStart) [].
(** The steps of a schedule that do something. *)
Fixpoint grun (sched : list nat) (s : gsystem) : nat * gsystem :=
  match sched with
  | [] => (O, s)
  | i :: sched =>
      match gstep i s with
      | Some s => let '(n, s) := grun sched s in (S n, s)
      | None => grun sched s
      end
  end.

(** ** They implement atomic operations *)
(** The calls in the order of their returns, each applied in one piece. *)
Fixpoint atomically (v : float64) (order : list nat) : float64 :=
  match order with
  | [] => v
  | i :: order => atomically (match calls !! i with Some c => gcompute c v | None => v end) order
  end.
Lemma atomically_app v o1 o2 : atomically v (o1 ++ o2) = atomically (atomically v o1) o2.
Proof. revert v. induction o1 as [|i o1 IH]; intros v; [done|]. apply IH. Qed.
Record linear (v0 : float64) (s : gsystem) : Prop := {
  ln_length : length (pcs s) = length calls;
  ln_bits : bits s = atomically v0 (returned s);
  ln_returned i : i ∈ returned s ↔ ∃ a, pcs s !! i = Some (GReturned a);
  ln_once : NoDup (returned s);
  ln_answer i a : pcs s !! i = Some (GReturned a) → calls !! i = Some GValue →
    ∃ before after, returned s = before ++ i :: after ∧ a = atomically v0 before }.
Lemma linear_start v : linear v (gstart v).
Proof.
  split; cbn [gstart pcs bits returned]; [by rewrite length_replicate|done| |constructor|].
  - intros i. split; [by intros ?%not_elem_of_nil|]. intros (a & [? _]%lookup_replicate). done.
  - by intros i a [? _]%lookup_replicate.
Qed.
Lemma linear_pc v0 s i p p' :
  linear v0 s → pcs s !! i = Some p → (∀ a, p ≠ GReturned a) → (∀ a, p' ≠ GReturned a) → linear v0 (set_pc i p' s).
Proof.
  intros [Hl Hb Hr Hn Ha] Hi Hp Hp'. assert (i < length (pcs s))%nat as Hlt by (by eapply lookup_lt_Some).
  split; cbn [set_pc pcs bits returned]; [by rewrite length_insert|done| |done|].
  - intros j. rewrite Hr. destruct (decide (j = i)) as [->|Hne]; [|by rewrite list_lookup_insert_ne].
    rewrite list_lookup_insert_eq by done. split; intros (a & E); [|by injection E as E; destruct (Hp' a)].
    rewrite Hi in E. injection E as E. by destruct (Hp a).
  - intros j a E Hc. destruct (decide (j = i)) as [->|Hne].
    + rewrite list_lookup_insert_eq in E by done. injection E as E. by destruct (Hp' a).
    + rewrite list_lookup_insert_ne in E by done. by eapply Ha.
Qed.
Lemma linear_ret v0 s i c p answer :
  linear v0 s → calls !! i = Some c → pcs s !! i = Some p → (∀ a, p ≠ GReturned a) → (c = GValue → answer = bits s) →
  linear v0 (ret_with i (gcompute c (bits s)) answer s).
Proof.
  intros [Hl Hb Hr Hn Ha] Hc Hi Hp Hans. assert (i < length (pcs s))%nat as Hlt by (by eapply lookup_lt_Some).
  assert (i ∉ returned s) as Hni by (rewrite Hr, Hi; intros (a & E); injection E as E; by destruct (Hp a)).
  split; cbn [ret_with pcs bits returned].
  - by rewrite length_insert.
  - rewrite atomically_app, <-Hb. cbn [atomically]. by rewrite Hc.
  - intros j. rewrite elem_of_app, list_elem_of_singleton, Hr. destruct (decide (j = i)) as [->|Hne].
    + rewrite list_lookup_insert_eq by done. split; [by eexists|by right].
    + rewrite list_lookup_insert_ne by done. split; [by intros [?| ->]|by left].
  - apply NoDup_app. split_and!; [done|by intros j Hj ->%list_elem_of_singleton|apply NoDup_singleton].
  - intros j a E Hcj. destruct (decide (j = i)) as [->|Hne].
    + rewrite list_lookup_insert_eq in E by done. injection E as <-. exists (returned s), [].
      split; [done|]. rewrite <-Hb. apply Hans. congruence.
    + rewrite list_lookup_insert_ne in E by done. destruct (Ha j a E Hcj) as (b & af & -> & ->).
      exists b, (af ++ [i]). by rewrite <-app_assoc.
Qed.
Lemma linear_step v0 i s s' : linear v0 s → gstep i s = Some s' → linear v0 s'.
Proof.
  intros Hs E. unfold gstep in E. destruct (calls !! i) as [c|] eqn:Hc; [|done].
  destruct (pcs s !! i) as [[|old|a]|] eqn:Hi; [| |by destruct c|by destruct c].
  - destruct c as [v| | |delta|]; injection E as <-; try (by eapply linear_pc).
    + by apply (linear_ret v0 s i (GSet v) GStart).
    + by apply (linear_ret v0 s i GValue GStart).
  - case_bool_decide as Eb; injection E as <-; [|by eapply linear_pc].
    rewrite <-Eb. by eapply linear_ret.
Qed.

(** ** They end *)
(** What a call may still cost: a turn of the loop that is bound to fail costs more than one that
    may succeed, and a return can make all the others fail once. *)
Definition n1 : Z := Z.of_nat (length calls) + 1.
Definition cost (b : float64) (p : gpc) : Z :=
  match p with
  | GStart => n1 * n1 + 1
  | GLoaded old => if bool_decide (b = old) then n1 * n1 else n1 * n1 + n1
  | GReturned _ => 0
  end.
Definition costs (b : float64) (l : list gpc) : Z := zsum (map (cost b) l).
Lemma n1_pos : 1 <= n1.
Proof. unfold n1. lia. Qed.
Lemma cost_bounds b p : 0 <= cost b p <= n1 * n1 + n1.
Proof. pose proof n1_pos. destruct p; cbn; [| case_bool_decide|]; nia. Qed.
Lemma costs_insert b l i p p' : l !! i = Some p → costs b (<[i := p']> l) = costs b l - cost b p + cost b p'.
Proof. apply zsum_insert. Qed.
Lemma costs_change b b' l : costs b' l <= costs b l + n1 * Z.of_nat (length l).
Proof.
  unfold costs. induction l as [|p l IH]; cbn [map zsum length]; [lia|].
  assert (cost b' p <= cost b p + n1) as Hp; [|lia].
  pose proof n1_pos. destruct p; cbn; repeat case_bool_decide; lia.
Qed.
Lemma costs_nonneg b l : 0 <= costs b l.
Proof. apply zsum_nonneg, Forall_fmap, Forall_true. intros p. cbn. pose proof (cost_bounds b p). lia. Qed.
Lemma gstep_costs i s s' :
  length (pcs s) = length calls → gstep i s = Some s' →
  length (pcs s') = length calls ∧ costs (bits s') (pcs s') + 1 <= costs (bits s) (pcs s).
Proof.
  intros Hl E. pose proof n1_pos as Hn. unfold gstep in E. destruct (calls !! i) as [c|] eqn:Hc; [|done].
  assert (∀ p new a, pcs s !! i = Some p → n1 * n1 <= cost (bits s) p →
    length (pcs (ret_with i new a s)) = length calls ∧
    costs (bits (ret_with i new a s)) (pcs (ret_with i new a s)) + 1 <= costs (bits s) (pcs s)) as Hret.
  { intros p new a Hp Hcost. cbn [ret_with pcs bits]. rewrite length_insert. split; [done|].
    pose proof (costs_change (bits s) new (<[i:=GReturned a]> (pcs s))) as H1.
    rewrite length_insert, (costs_insert (bits s) _ _ p), Hl in H1 by done. cbn [cost] in H1.
    assert (Z.of_nat (length calls) = n1 - 1) as E1 by (unfold n1; lia). rewrite E1 in H1. lia. }
  destruct (pcs s !! i) as [[|old|a]|] eqn:Hi; [| |by destruct c|by destruct c].
  - destruct c as [v| | |delta|]; injection E as <-; try (apply (Hret GStart); [done|cbn; lia]);
      cbn [set_pc pcs bits]; rewrite length_insert, (costs_insert _ _ _ GStart) by done; cbn [cost];
      rewrite bool_decide_eq_true_2 by done; (split; [done|lia]).
  - case_bool_decide as Eb; injection E as <-.
    + apply (Hret (GLoaded old)); [done|]. cbn. by rewrite bool_decide_eq_true_2 by done.
    + cbn [set_pc pcs bits]. rewrite length_insert, (costs_insert _ _ _ (GLoaded old)) by done. cbn [cost].
      rewrite bool_decide_eq_false_2 by done. split; [done|].
      assert (2 <= n1); [|lia]. unfold n1. apply lookup_lt_Some in Hc. lia.
Qed.
Lemma grun_linear v0 sched s :
  linear v0 s → let '(k, s') := grun sched s in linear v0 s' ∧ Z.of_nat k + costs (bits s') (pcs s') <= costs (bits s) (pcs s).
Proof.
  revert s. induction sched as [|i sched IH]; intros s Hs; cbn [grun]; [split; [done|lia]|].
  destruct (gstep i s) as [s1|] eqn:E; [|by apply IH].
  pose proof (linear_step v0 i s s1 Hs E) as Hs1. destruct (gstep_costs i s s1) as [_ Hcost]; [by destruct Hs|done|].
  specialize (IH s1 Hs1). destruct (grun sched s1) as [k s']. destruct IH as [? ?]. split; [done|lia].
Qed.
Lemma costs_start b k : costs b (replicate k GStart) = Z.of_nat k * (n1 * n1 + 1).
Proof. unfold costs. induction k as [|k IH]; [done|]. cbn [replicate map zsum cost]. rewrite IH. lia. Qed.

(** C21: The compare-and-swap loops are atomic operations. Any number of calls on one gauge, in any
    schedule of their loads, stores and swaps: the gauge holds what the calls that have
    returned give when applied in one piece in the order of their returns, each once; a [Value]
    answers what those before it give; every call that has not returned can go on; and all
    schedules together have a bounded number of steps, so that every call returns. *)
Theorem gauge_calls_atomic (v0 : float64) (sched : list nat) :
  let n := Z.of_nat (length calls) in
  let '(k, s) := grun sched (gstart v0) in
  bits s = atomically v0 (returned s) ∧ NoDup (returned s) ∧
  (∀ i a, pcs s !! i = Some (GReturned a) → calls !! i = Some GValue →
     ∃ before after, returned s = before ++ i :: after ∧ a = atomically v0 before) ∧
  (∀ i, (i < length calls)%nat → i ∉ returned s → is_Some (gstep i s)) ∧
  Z.of_nat k <= n * ((n + 1) * (n + 1) + 1).
Proof.
  intros n. pose proof (grun_linear v0 sched (gstart v0) (linear_start v0)) as Hr.
  destruct (grun sched (gstart v0)) as [k s]. destruct Hr as [[Hl Hb Hret Hnd Ha] Hk].
  split_and!; [done|done|done| |].
  - intros i Hi Hni. unfold gstep. destruct (lookup_lt_is_Some_2 calls i Hi) as [c ->].
    destruct (lookup_lt_is_Some_2 (pcs s) i) as [p Hp]; [by rewrite Hl|]. rewrite Hp.
    destruct p as [|old|a]; [by destruct c|by case_bool_decide|]. exfalso. apply Hni, Hret. by exists a.
  - cbn [gstart bits pcs] in Hk. rewrite costs_start in Hk. pose proof (costs_nonneg (bits s) (pcs s)). unfold n1, n in *. lia.
Qed.
End gauge.
(** Two additions and a reader: the second addition swaps first, the first one's swap fails and
    its loop turns again. *)
Example gauge_race :
  let calls := [GAdd (f_of_Z 2); GInc; GValue] in
  let '(k, s) := grun calls [0; 1; 1; 0; 2; 0; 0]%nat (gstart calls (f_of_Z 10)) in
  (k, returned s, bits s, pcs s !! 2%nat) = (7%nat, [1; 2; 0]%nat, f_of_Z 13, Some (GReturned (f_of_Z 11))).
Proof. vm_compute. reflexivity. Qed.

(** ** A collection, metric by metric *)
(** [collectAndNotify] makes four passes; [sync.Map.Range] visits each of the names that were
    there when the pass began, perhaps some of those stored since, and none twice. *)
Inductive pass := PCounters | PGauges | PHistograms | PRates.
#[global] Instance pass_eq_dec : EqDecision pass.
Proof. solve_decision. Defined.
Definition pass_no (p : pass) : Z :=
  match p with PCounters => 0 | PGauges => 1 | PHistograms => 2 | PRates => 3 end.
Definition snap_pass (s : Snapshot) : pass :=
  match s_Value s with
  | SnapCounter _ => PCounters | SnapGauge _ => PGauges | SnapHistogram _ => PHistograms | SnapRate _ => PRates
  end.
Definition names (p : pass) (r : Registry) : gset string :=
  match p with
  | PCounters => dom (counters r) | PGauges => dom (gauges r)
  | PHistograms => dom (histograms r) | PRates => dom (rates r)
  end.
(** The goroutine's locals: the pass, the names it must still visit and those it has visited, the
    rate between its two swaps with the successes taken from it, and the map it fills. *)
Record collection := mkCollection {
  c_now : Z; c_pass : pass; c_due : gset string; c_seen : gset string; c_half : option (string * Z);
  c_snaps : gmap string Snapshot }.
Record msystem := mkMSystem { registry : Registry; collecting : option collection; deliveries : list delivery }.
(** A step of the program ([o] an update; making a metric without touching it is adding 0), or
    of the aggregation goroutine: begin, visit a name (a rate in two swaps), end the pass. *)
Inductive mlabel := LDo (o : mop) | LBegin (now : Z) | LVisit (n : string) | LEndPass.
(** One metric's visit: the registry after it and the snapshot it stores. *)
Definition visit_metric (p : pass) (now : Z) (n : string) (r : Registry) : option (Registry * Snapshot) :=
  match p with
  | PCounters =>
      c ← counters r !! n;
      Some (set_counters (<[n := (Counter_Reset c).2]> (counters r)) r, snap_counter (serviceName r) now n c)
  | PGauges => g ← gauges r !! n; Some (r, snap_gauge (serviceName r) now n g)
  | PHistograms =>
      h ← histograms r !! n; s ← snap_histogram (serviceName r) now n h;
      Some (set_histograms (<[n := (Histogram_Reset h).2]> (histograms r)) r, s)
  | PRates => None
  end.
(** The two swaps of [RateMetric.Reset]. *)
Definition swap_success (x : RateMetric) : Z * RateMetric := (r_success x, mkRate (r_name x) 0 (r_fail x) (r_tags x)).
Definition swap_fail (x : RateMetric) : Z * RateMetric := (r_fail x, mkRate (r_name x) (r_success x) 0 (r_tags x)).
Definition with_snap (n : string) (s : Snapshot) (c : collection) : collection :=
  mkCollection (c_now c) (c_pass c) (c_due c ∖ {[n]}) ({[n]} ∪ c_seen c) None (<[n := s]> (c_snaps c)).
Definition visit_rate (n : string) (x : RateMetric) (r : Registry) (c : collection) : Registry * collection :=
  match c_half c with
  | None =>
      let '(s, x) := swap_success x in
      (set_rates (<[n := x]> (rates r)) r,
       mkCollection (c_now c) (c_pass c) (c_due c) (c_seen c) (Some (n, s)) (c_snaps c))
  | Some (_, s) =>
      let '(f, x) := swap_fail x in
      (set_rates (<[n := x]> (rates r)) r,
       with_snap n (mkSnapshot n (SnapRate (buildRateSnapshot s f)) (r_tags x) (serviceName r) (c_now c)) c)
  end.
Definition next_pass (p : pass) : option pass :=
  match p with PCounters => Some PGauges | PGauges => Some PHistograms | PHistograms => Some PRates | PRates => None end.
Definition begin_pass (now : Z) (p : pass) (snaps : gmap string Snapshot) (r : Registry) : collection :=
  mkCollection now p (names p r) ∅ None snaps.
(** Another rate is between its swaps. *)
Definition other_half (n : string) (c : collection) : bool :=
  match c_half c with Some (n', _) => negb (bool_decide (n' = n)) | None => false end.
Definition mlstep (l : mlabel) (s : msystem) : option msystem :=
  let r := registry s in
  match l, collecting s with
  | LDo (MCollect _), _ => None
  | LDo o, col => Some (mkMSystem (mstep o r).2 col (deliveries s))
  | LBegin now, None =>
      match onSnapshot r with
      | None => None
      | Some _ => Some (mkMSystem r (Some (begin_pass now PCounters ∅ r)) (deliveries s))
      end
  | LVisit n, Some c =>
      if bool_decide (n ∈ c_seen c) || other_half n c then None else
      match c_pass c with
      | PRates =>
          x ← rates r !! n;
          let '(r, c) := visit_rate n x r c in Some (mkMSystem r (Some c) (deliveries s))
      | p => '(r, sn) ← visit_metric p (c_now c) n r; Some (mkMSystem r (Some (with_snap n sn c)) (deliveries s))
      end
  | LEndPass, Some c =>
      if bool_decide (c_due c = ∅ ∧ c_half c = None) then
        match next_pass (c_pass c), onSnapshot r with
        | Some p, _ => Some (mkMSystem r (Some (begin_pass (c_now c) p (c_snaps c) r)) (deliveries s))
        | None, Some cb =>
            Some (mkMSystem r None
              (if bool_decide (c_snaps c = ∅) then deliveries s else deliveries s ++ [Some (cb, c_snaps c)]))
        | None, None => None
        end
      else None
  | _, _ => None
  end.
Fixpoint mlrun (ls : list mlabel) (s : msystem) : msystem :=
  match ls with [] => s | l :: ls => mlrun ls (default s (mlstep l s)) end.
Definition mstart (r : Registry) : msystem := mkMSystem r None [].

(** ** Nothing is lost and nothing counted twice *)
(** What is counted: the value of a counter, or one side of a rate. *)
Inductive quantity := QCount | QSuccess | QFail.
Definition held (q : quantity) (n : string) (r : Registry) : Z :=
  match q with
  | QCount => counter_value n r
  | QSuccess => from_option r_success 0 (rates r !! n)
  | QFail => from_option r_fail 0 (rates r !! n)
  end.
Definition snap_count (q : quantity) (s : Snapshot) : Z :=
  match q, s_Value s with
  | QCount, SnapCounter v => v
  | QSuccess, SnapRate x => rs_Success x
  | QFail, SnapRate x => rs_Fail x
  | _, _ => 0
  end.
Definition in_snaps (q : quantity) (n : string) (m : gmap string Snapshot) : Z := from_option (snap_count q) 0 (m !! n).
Definition sent (q : quantity) (n : string) (d : delivery) : Z :=
  match d with Some (_, m) => in_snaps q n m | None => 0 end.
Definition in_flight (q : quantity) (n : string) (col : option collection) : Z :=
  match col with
  | None => 0
  | Some c =>
      in_snaps q n (c_snaps c) +
      match q, c_half c with QSuccess, Some (n', s) => if bool_decide (n' = n) then s else 0 | _, _ => 0 end
  end.
Definition tally (q : quantity) (n : string) (s : msystem) : Z :=
  zsum (sent q n <$> deliveries s) + in_flight q n (collecting s) + held q n (registry s).
(** What an update records. *)
Definition recorded (q : quantity) (n : string) (l : mlabel) : Z :=
  match q, l with
  | QCount, LDo (MAdd n' d) => if bool_decide (n' = n) then d else 0
  | QSuccess, LDo (MRecord n' true) | QFail, LDo (MRecord n' false) => if bool_decide (n' = n) then 1 else 0
  | _, _ => 0
  end.
(** A counter shares its name with no metric of another kind; a rate may. *)
Definition own_name (q : quantity) (n : string) (r : Registry) : Prop := q = QCount → counter_only n r.
Definition keeps_own (q : quantity) (n : string) (l : mlabel) : Prop :=
  match l with LDo o => q = QCount → op_kind_ok n o | _ => True end.
(** A snapshot in the map is of a pass that has begun, and of the current one only when its
    name has been visited. *)
Definition orderly (c : collection) : Prop :=
  (∀ n s, c_snaps c !! n = Some s →
     pass_no (snap_pass s) <= pass_no (c_pass c) ∧ (snap_pass s = c_pass c → n ∈ c_seen c)) ∧
  (c_half c = None ∨ c_pass c = PRates).
Definition orderly_system (s : msystem) : Prop := from_option orderly True (collecting s).
Lemma in_snaps_empty q n : in_snaps q n ∅ = 0.
Proof. unfold in_snaps. by rewrite lookup_empty. Qed.
Lemma in_snaps_insert q n n' sn m : in_snaps q n (<[n' := sn]> m) = if bool_decide (n' = n) then snap_count q sn else in_snaps q n m.
Proof. unfold in_snaps. case_bool_decide as E; [subst; by rewrite lookup_insert_eq|by rewrite lookup_insert_ne]. Qed.
Ltac destruct_lookup :=
  match goal with
  | |- context [match ?m !! ?k with _ => _ end] => destruct (m !! k) eqn:?
  | |- context [?m !! ?k] => destruct (m !! k) eqn:?
  end.
(** What the updates do to the maps. *)
Lemma counters_after o r :
  (∀ now, o ≠ MCollect now) →
  counters (mstep o r).2 =
  match o with
  | MAdd n d => <[n := Counter_Add d (default (newCounter n) (counters r !! n))]> (counters r)
  | _ => counters r
  end.
Proof.
  intros Hnc. destruct o as [n d|n v|n v|n ok|now]; [| | | |by destruct (Hnc now)]; cbn [mstep];
    unfold GetOrCreateCounter, GetOrCreateGauge, GetOrCreateHistogram, GetOrCreateRate;
    destruct_lookup; cbn; by rewrite ?insert_insert_eq.
Qed.
Lemma rates_after o r :
  (∀ now, o ≠ MCollect now) →
  rates (mstep o r).2 =
  match o with
  | MRecord n ok =>
      <[n := (if ok then RecordSuccess else RecordFail) (default (newRate n) (rates r !! n))]> (rates r)
  | _ => rates r
  end.
Proof.
  intros Hnc. destruct o as [n d|n v|n v|n ok|now]; [| | | |by destruct (Hnc now)]; cbn [mstep];
    unfold GetOrCreateCounter, GetOrCreateGauge, GetOrCreateHistogram, GetOrCreateRate;
    destruct_lookup; cbn; rewrite ?insert_insert_eq; try done; by destruct ok.
Qed.
Lemma update_own n o r :
  (∀ now, o ≠ MCollect now) → counter_only n r → op_kind_ok n o → counter_only n (mstep o r).2.
Proof.
  intros Hnc (H1 & H2 & H3) Hok. destruct o as [n' d|n' v|n' v|n' ok|now]; [| | | |by destruct (Hnc now)];
    cbn [mstep op_kind_ok] in *;
    unfold GetOrCreateCounter, GetOrCreateGauge, GetOrCreateHistogram, GetOrCreateRate, counter_only;
    destruct_lookup; cbn; rewrite ?lookup_insert_ne by done; done.
Qed.
Lemma i64_twice x : i64 (i64 x) = i64 x.
Proof. apply i64_id, i64_range. Qed.
Lemma update_held q n o r :
  (∀ now, o ≠ MCollect now) → i64 (held q n (mstep o r).2) = i64 (held q n r + recorded q n (LDo o)).
Proof.
  intros Hnc. destruct q; cbn [held]; unfold counter_value;
    rewrite ?(counters_after o r Hnc), ?(rates_after o r Hnc); unfold recorded;
    destruct o as [n' d|n' v|n' v|n' [|]|now]; try (by rewrite Z.add_0_r);
    (destruct (decide (n' = n)) as [->|Hne];
     [rewrite lookup_insert_eq, ?bool_decide_eq_true_2 by done
     |rewrite lookup_insert_ne, ?bool_decide_eq_false_2 by done; by rewrite Z.add_0_r]).
  all: destruct_lookup; cbn; by rewrite ?i64_twice, ?Z.add_0_r.
Qed.
(** What a visit takes from the registry is what its snapshot says. *)
Lemma visit_takes q n p now n' r r' sn :
  visit_metric p now n' r = Some (r', sn) →
  snap_pass sn = p ∧ held q n r' + (if bool_decide (n' = n) then snap_count q sn else 0) = held q n r ∧
  (counter_only n r → counter_only n r' ∧ (n' = n → p = PCounters)) ∧ onSnapshot r' = onSnapshot r ∧
  rates r' = rates r.
Proof.
  destruct p; cbn [visit_metric].
  - intros (c & Hc & [= <- <-])%bind_Some. split_and!; try done.
    destruct q; cbn; try (case_bool_decide; lia). unfold counter_value. cbn. case_bool_decide as E.
    + subst n'. rewrite lookup_insert_eq, Hc. cbn. lia.
    + rewrite lookup_insert_ne by done. lia.
  - intros (g & Hg & [= <- <-])%bind_Some. split_and!; try done; [destruct q; cbn; case_bool_decide; lia|].
    intros (H1 & H2 & H3). split; [done|]. intros ->. congruence.
  - intros (h & Hh & (s & Hs & [= <- <-])%bind_Some)%bind_Some. unfold snap_histogram in Hs.
    destruct (calcSnapshot (h_values h)); [|done]. injection Hs as <-.
    split_and!; try done; [destruct q; cbn; unfold counter_value; cbn; case_bool_decide; lia|].
    intros (H1 & H2 & H3). split; [|intros ->; congruence]. unfold counter_only. cbn. split_and!; try done.
    rewrite lookup_insert_ne; [done|]. intros ->. congruence.
  - done.
Qed.
(** A name not yet visited has no snapshot that a visit of it would lose. *)
Lemma nothing_overwritten q n c :
  orderly c → n ∉ c_seen c → (q = QCount → c_pass c = PCounters) → in_snaps q n (c_snaps c) = 0.
Proof.
  intros [Ho _] Hn Hq. unfold in_snaps. destruct (c_snaps c !! n) as [s|] eqn:E; [|done].
  destruct (Ho n s E) as [Hle Hseen]. cbn.
  assert (snap_pass s ≠ c_pass c) as Hne by (intros Hp; by apply Hn, Hseen).
  unfold snap_count, snap_pass in *.
  destruct q, (s_Value s), (c_pass c); cbn in *; try done; try lia; by specialize (Hq eq_refl).
Qed.
Lemma with_snap_orderly n sn c : orderly c → snap_pass sn = c_pass c → orderly (with_snap n sn c).
Proof.
  intros [Ho _] Hp. split; [|by left]. intros m s. cbn. destruct (decide (m = n)) as [->|Hne].
  - rewrite lookup_insert_eq. intros [= <-]. rewrite Hp. split; [done|]. intros _. set_solver.
  - rewrite lookup_insert_ne by done. intros E. destruct (Ho m s E) as [? Hs]. split; [done|]. intros. set_solver.
Qed.
Lemma begin_orderly now p snaps r :
  (∀ n s, snaps !! n = Some s → pass_no (snap_pass s) < pass_no p) → orderly (begin_pass now p snaps r).
Proof.
  intros Hs. split; [|by left]. intros n s E. cbn in *. specialize (Hs n s E).
  split; [lia|]. intros Hp. rewrite Hp in Hs. lia.
Qed.
Definition keeps (q : quantity) (n : string) (l : mlabel) (s s' : msystem) : Prop :=
  i64 (tally q n s') = i64 (tally q n s + recorded q n l) ∧ orderly_system s' ∧ own_name q n (registry s').
Lemma visit_keeps q n n' p c r r' sn ds :
  orderly c → own_name q n r → n' ∉ c_seen c → c_half c = None → p = c_pass c →
  visit_metric p (c_now c) n' r = Some (r', sn) →
  keeps q n (LVisit n') (mkMSystem r (Some c) ds) (mkMSystem r' (Some (with_snap n' sn c)) ds).
Proof.
  intros Ho Hown Hn Hhalf Hp E. destruct (visit_takes q n _ _ _ _ _ _ E) as (Hsp & Htake & Hco & _ & _).
  split_and!.
  - f_equal. unfold tally, in_flight. cbn [deliveries collecting registry with_snap c_snaps c_half].
    rewrite in_snaps_insert, Hhalf. replace (recorded q n (LVisit n')) with 0 by (by destruct q).
    destruct (decide (n' = n)) as [->|Hne].
    + rewrite bool_decide_eq_true_2 in Htake |- * by done. rewrite (nothing_overwritten q n c Ho Hn); [destruct q; lia|].
      intros ->. rewrite <-Hp. by apply (Hco (Hown eq_refl)).
    + rewrite bool_decide_eq_false_2 in Htake |- * by done. destruct q; lia.
  - apply with_snap_orderly; [done|congruence].
  - intros ->. by apply Hco, Hown.
Qed.
Lemma held_set_rate q n n' x r :
  held q n (set_rates (<[n' := x]> (rates r)) r) =
  match q with
  | QCount => held q n r
  | QSuccess => if bool_decide (n' = n) then r_success x else held q n r
  | QFail => if bool_decide (n' = n) then r_fail x else held q n r
  end.
Proof.
  destruct q; cbn; [done| |]; (case_bool_decide as E; [subst; by rewrite lookup_insert_eq|by rewrite lookup_insert_ne]).
Qed.
Lemma visit_rate_keeps q n n' x c r ds :
  orderly c → own_name q n r → n' ∉ c_seen c → other_half n' c = false → c_pass c = PRates →
  rates r !! n' = Some x →
  let '(r', c') := visit_rate n' x r c in
  keeps q n (LVisit n') (mkMSystem r (Some c) ds) (mkMSystem r' (Some c') ds).
Proof.
  intros Ho Hown Hn Hoh Hp Hx. unfold visit_rate, other_half in *.
  assert (held QSuccess n' r = r_success x ∧ held QFail n' r = r_fail x) as [Hs Hf] by (cbn; by rewrite Hx).
  assert (∀ y, own_name q n (set_rates (<[n' := y]> (rates r)) r)) as Hown'.
  { intros y ->. destruct (Hown eq_refl) as (H1 & H2 & H3). unfold counter_only. cbn. split_and!; try done.
    rewrite lookup_insert_ne; [done|]. intros ->. congruence. }
  destruct (c_half c) as [[n1 s1]|] eqn:Hh; cbn [swap_success swap_fail].
  - apply negb_false_iff, bool_decide_eq_true in Hoh. subst n1. split_and!.
    + f_equal. unfold tally, in_flight. cbn [deliveries collecting registry with_snap c_snaps c_half].
      rewrite in_snaps_insert, held_set_rate, Hh. replace (recorded q n (LVisit n')) with 0 by (by destruct q).
      destruct (decide (n' = n)) as [->|Hne].
      * rewrite !bool_decide_eq_true_2 by done. destruct q; cbn [snap_count s_Value buildRateSnapshot rs_Success rs_Fail r_success r_fail].
        -- destruct (Hown eq_refl) as (_ & _ & Hr). congruence.
        -- rewrite (nothing_overwritten QSuccess n c Ho Hn) by done. lia.
        -- rewrite (nothing_overwritten QFail n c Ho Hn) by done. lia.
      * rewrite !bool_decide_eq_false_2 by done. destruct q; lia.
    + apply with_snap_orderly; [done|by rewrite Hp].
    + apply Hown'.
  - split_and!.
    + f_equal. unfold tally, in_flight. cbn [deliveries collecting registry c_snaps c_half].
      rewrite held_set_rate, Hh. replace (recorded q n (LVisit n')) with 0 by (by destruct q).
      destruct (decide (n' = n)) as [->|Hne].
      * rewrite !bool_decide_eq_true_2 by done. destruct q; cbn [r_success r_fail]; lia.
      * rewrite !bool_decide_eq_false_2 by done. destruct q; lia.
    + destruct Ho as [Ho _]. split; [done|by right].
    + apply Hown'.
Qed.
Lemma mlstep_keeps q n l s s' :
  orderly_system s → own_name q n (registry s) → keeps_own q n l → mlstep l s = Some s' → keeps q n l s s'.
Proof.
  intros Ho Hown Hk E. destruct s as [r col ds]. unfold mlstep in E. cbn [registry collecting deliveries] in *.
  destruct l as [o|now|n'|].
  - assert ((∀ now, o ≠ MCollect now) ∧ s' = mkMSystem (mstep o r).2 col ds) as [Hnc ->]
      by (destruct o; [..|done]; by injection E as <-).
    pose proof (update_held q n o r Hnc) as Hu. split_and!.
    + unfold tally. cbn [deliveries collecting registry].
      by rewrite <-i64_add_r, Hu, i64_add_r, Z.add_assoc.
    + exact Ho.
    + intros ->. apply update_own; [done|by apply Hown|by apply Hk].
  - destruct col as [c|]; [done|]. destruct (onSnapshot r) eqn:Hcb; [|done]. injection E as <-.
    split_and!; [|by apply begin_orderly|done]. f_equal. unfold tally. cbn. rewrite in_snaps_empty. destruct q; cbn; lia.
  - destruct col as [c|]; [|done]. destruct (_ || _) eqn:Hg; [done|]. apply orb_false_iff in Hg as [Hn Hoh].
    apply bool_decide_eq_false in Hn. destruct (c_pass c) eqn:Hp.
    4: { apply bind_Some in E as (x & Hx & E). pose proof (visit_rate_keeps q n n' x c r ds Ho Hown Hn Hoh Hp Hx) as Hv.
         destruct (visit_rate n' x r c) as [r' c']. by injection E as <-. }
    all: apply bind_Some in E as ([r' sn] & Hx & E); injection E as <-;
      (assert (c_half c = None) as Hh by (destruct Ho as [_ [?|?]]; [done|congruence]));
      by eapply visit_keeps.
  - destruct col as [c|]; [|done]. case_bool_decide as Hd; [|done]. destruct Hd as [_ Hh].
    destruct (next_pass (c_pass c)) as [p|] eqn:Hnp.
    + injection E as <-. split_and!; [|..|done].
      * f_equal. unfold tally. cbn [deliveries collecting registry in_flight begin_pass c_snaps c_half]. rewrite Hh. destruct q; cbn; lia.
      * apply begin_orderly. intros m sn Hm. destruct Ho as [Ho _]. destruct (Ho m sn Hm) as [Hle _].
        destruct (c_pass c); simplify_eq/=; lia.
    + destruct (onSnapshot r) as [cb|]; [|done]. injection E as <-. split_and!; [|done|done].
      f_equal. unfold tally. cbn [deliveries collecting registry in_flight]. rewrite Hh.
      case_bool_decide as Em; [rewrite Em, in_snaps_empty; destruct q; cbn; lia|].
      rewrite fmap_app, zsum_app. destruct q; cbn; lia.
Qed.

(** ** A collection can always be completed *)
(** The collector's own steps; the names of a pass are only ever added to. *)
Definition collector (l : mlabel) : bool := match l with LDo _ => false | _ => true end.
Definition sampled (r : Registry) : Prop :=
  ∀ n h, histograms r !! n = Some h → h_maxSize h = defaultMaxSampleSize ∧ zlen (h_values h) <= h_maxSize h.
Definition on_course (c : collection) (r : Registry) : Prop :=
  c_due c ⊆ names (c_pass c) r ∧ c_due c ## c_seen c ∧
  match c_half c with Some (n, _) => n ∈ names PRates r ∧ n ∉ c_seen c | None => True end.
Definition live (s : msystem) : Prop :=
  onSnapshot (registry s) ≠ None ∧ sampled (registry s) ∧
  from_option (λ c, orderly c ∧ on_course c (registry s)) True (collecting s).
Lemma histograms_after o r :
  (∀ now, o ≠ MCollect now) →
  histograms (mstep o r).2 =
  match o with
  | MObserve n v => <[n := Observe v (default (newHistogram n) (histograms r !! n))]> (histograms r)
  | _ => histograms r
  end.
Proof.
  intros Hnc. destruct o as [n d|n v|n v|n ok|now]; [| | | |by destruct (Hnc now)]; cbn [mstep];
    unfold GetOrCreateCounter, GetOrCreateGauge, GetOrCreateHistogram, GetOrCreateRate;
    destruct_lookup; cbn; by rewrite ?insert_insert_eq.
Qed.
Lemma update_frame o r :
  (∀ now, o ≠ MCollect now) →
  onSnapshot (mstep o r).2 = onSnapshot r ∧ (∀ p, names p r ⊆ names p (mstep o r).2) ∧
  (sampled r → sampled (mstep o r).2).
Proof.
  intros Hnc. split_and!.
  - destruct o as [n d|n v|n v|n ok|now]; [| | | |by destruct (Hnc now)]; cbn [mstep];
      unfold GetOrCreateCounter, GetOrCreateGauge, GetOrCreateHistogram, GetOrCreateRate; by destruct_lookup.
  - intros p. destruct p; cbn [names];
      rewrite ?(counters_after o r Hnc), ?(rates_after o r Hnc), ?(histograms_after o r Hnc);
      destruct o as [n d|n v|n v|n ok|now]; try done; rewrite ?dom_insert; try set_solver; cbn [mstep];
      unfold GetOrCreateCounter, GetOrCreateGauge, GetOrCreateHistogram, GetOrCreateRate;
      destruct_lookup; cbn; rewrite ?dom_insert; set_solver.
  - intros Hs n h. rewrite (histograms_after o r Hnc).
    destruct o as [n' d|n' v|n' v|n' ok|now]; try apply Hs.
    destruct (decide (n' = n)) as [->|Hne]; [|rewrite lookup_insert_ne by done; apply Hs].
    rewrite lookup_insert_eq. intros [= <-].
    destruct (histograms r !! n) as [h0|] eqn:E; cbn [from_option id].
    + destruct (Hs n h0 E). by apply (hstep_bound (HObserve v)).
    + by apply (hstep_bound (HObserve v)).
Qed.
Lemma visit_frame p now n r r' sn :
  visit_metric p now n r = Some (r', sn) →
  onSnapshot r' = onSnapshot r ∧ (∀ p', names p' r' = names p' r) ∧ (sampled r → sampled r').
Proof.
  destruct p; cbn [visit_metric].
  - intros (c & Hc & [= <- <-])%bind_Some. split_and!; try done.
    intros []; try done. cbn. apply dom_insert_lookup_L. by eexists.
  - by intros (g & Hg & [= <- <-])%bind_Some.
  - intros (h & Hh & (s & Hs & [= <- <-])%bind_Some)%bind_Some. split_and!; try done.
    + intros []; try done. cbn. apply dom_insert_lookup_L. by eexists.
    + intros Hsm m h1. cbn. destruct (decide (m = n)) as [->|Hne]; [|rewrite lookup_insert_ne by done; apply Hsm].
      rewrite lookup_insert_eq. intros [= <-]. destruct (Hsm n h Hh) as [Hm Hl].
      by apply (hstep_bound HReset).
  - done.
Qed.
Lemma set_rate_frame n x y r :
  rates r !! n = Some x → ∀ p, names p (set_rates (<[n := y]> (rates r)) r) = names p r.
Proof. intros Hx []; try done. cbn. apply dom_insert_lookup_L. by eexists. Qed.
Lemma with_snap_on_course n sn c r r' :
  on_course c r → (∀ p, names p r' = names p r) → on_course (with_snap n sn c) r'.
Proof.
  intros (H1 & H2 & _) Hn. split_and!; cbn; [rewrite Hn|..]; set_solver.
Qed.
Lemma visit_rate_on_course n x c r :
  on_course c r → n ∉ c_seen c → rates r !! n = Some x → let '(r', c') := visit_rate n x r c in on_course c' r'.
Proof.
  intros Hc Hn Hx. pose proof (λ y, set_rate_frame n x y r Hx) as Hf. unfold visit_rate.
  destruct (c_half c) as [[n1 s1]|]; cbn [swap_success swap_fail].
  - by eapply with_snap_on_course.
  - destruct Hc as (H1 & H2 & _). split_and!; cbn [c_due c_pass c_seen c_half]; [by rewrite Hf|done|].
    rewrite Hf. split; [|done]. cbn. apply elem_of_dom. by eexists.
Qed.
Lemma live_some r c ds : onSnapshot r ≠ None → sampled r → orderly c → on_course c r → live (mkMSystem r (Some c) ds).
Proof. intros. by split; [|split; [|split]]. Qed.
Lemma mlstep_live l s s' : live s → mlstep l s = Some s' → live s'.
Proof.
  intros (Hcb & Hsm & Hcol) E.
  assert (orderly_system s') as Ho'.
  { eapply (mlstep_keeps QSuccess (EmptyString : string)); [| | |exact E]; [|by intros ?|by destruct l].
    unfold orderly_system. destruct (collecting s); [by apply Hcol|done]. }
  destruct s as [r col ds]. unfold mlstep in E. cbn [registry collecting deliveries] in *.
  destruct l as [o|now|n|].
  - assert ((∀ now, o ≠ MCollect now) ∧ s' = mkMSystem (mstep o r).2 col ds) as [Hnc ->]
      by (destruct o; [..|done]; by injection E as <-).
    destruct (update_frame o r Hnc) as (H1 & H2 & H3).
    destruct col as [c|]; [|split; [cbn; congruence|split; [by apply H3|done]]].
    destruct Hcol as [Ho (C1 & C2 & C3)]. apply live_some; [congruence|by apply H3|done|]. split; [|split; [done|]].
    + specialize (H2 (c_pass c)). set_solver.
    + destruct (c_half c) as [[n v]|]; [|done]. destruct C3. split; [|done]. by apply (H2 PRates).
  - destruct col as [c|]; [done|]. destruct (onSnapshot r) eqn:Hcb'; [|done]. injection E as <-.
    apply live_some; [congruence|done|exact Ho'|]. split; [|split; [|done]]; set_solver.
  - destruct col as [c|]; [|done]. destruct (_ || _) eqn:Hg; [done|]. apply orb_false_iff in Hg as [Hn _].
    apply bool_decide_eq_false in Hn. destruct Hcol as [_ Hon]. destruct (c_pass c) eqn:Hp.
    4: { apply bind_Some in E as (x & Hx & E). pose proof (visit_rate_on_course n x c r Hon Hn Hx) as Hv.
         unfold visit_rate in *. destruct (c_half c) as [[? ?]|]; injection E as <-; by apply live_some. }
    all: apply bind_Some in E as ([r' sn] & Hx & E); injection E as <-;
      destruct (visit_frame _ _ _ _ _ _ Hx) as (H1 & H2 & H3);
      (apply live_some; [congruence|by apply H3|exact Ho'|by eapply with_snap_on_course]).
  - destruct col as [c|]; [|done]. case_bool_decide as Hd; [|done].
    destruct (next_pass (c_pass c)) as [p|].
    + injection E as <-. apply live_some; [done|done|exact Ho'|]. split; [|split; [|done]]; set_solver.
    + destruct (onSnapshot r) as [cb|] eqn:Hcb'; [|done]. injection E as <-. split; [cbn; congruence|done].
Qed.
Lemma mlrun_app l1 l2 s : mlrun (l1 ++ l2) s = mlrun l2 (mlrun l1 s).
Proof. revert s. induction l1 as [|l l1 IH]; intros s; [done|]. apply IH. Qed.
Lemma mlrun_live ls s : live s → live (mlrun ls s).
Proof.
  revert s. induction ls as [|l ls IH]; intros s Hs; cbn; [done|]. apply IH.
  destruct (mlstep l s) as [s'|] eqn:E; [|done]. by eapply mlstep_live.
Qed.
(** The collector alone leads from the one to the other. *)
Definition alone (s s' : msystem) : Prop := ∃ ls, forallb collector ls = true ∧ mlrun ls s = s'.
Lemma alone_step l s s' : collector l = true → mlstep l s = Some s' → alone s s'.
Proof. intros Hl E. exists [l]. cbn. by rewrite Hl, E. Qed.
Lemma alone_trans s1 s2 s3 : alone s1 s2 → alone s2 s3 → alone s1 s3.
Proof.
  intros (l1 & H1 & <-) (l2 & H2 & <-). exists (l1 ++ l2). by rewrite forallb_app, H1, H2, mlrun_app.
Qed.
Lemma alone_live s s' : alone s s' → live s → live s'.
Proof. intros (ls & _ & <-). apply mlrun_live. Qed.
Lemma second_swap s c n v :
  live s → collecting s = Some c → c_half c = Some (n, v) →
  ∃ s' c', alone s s' ∧ collecting s' = Some c' ∧ c_half c' = None ∧
    c_due c' = c_due c ∖ {[n]} ∧ c_pass c' = c_pass c.
Proof.
  intros (_ & _ & Hs) Hc Hh. rewrite Hc in Hs. destruct Hs as [[_ [Ho|Hp]] (_ & _ & Hn)]; [congruence|].
  rewrite Hh in Hn. cbn [names] in Hn. destruct Hn as [[x Hx]%elem_of_dom Hn].
  assert (∃ c', mlstep (LVisit n) s = Some (mkMSystem (visit_rate n x (registry s) c).1 (Some c') (deliveries s)) ∧
    c_half c' = None ∧ c_due c' = c_due c ∖ {[n]} ∧ c_pass c' = c_pass c) as (c' & E & Hc').
  { unfold mlstep, other_half. rewrite Hc, Hh, Hp, Hx. cbn. rewrite (bool_decide_eq_false_2 _ Hn).
    rewrite bool_decide_eq_true_2 by done. cbn. unfold visit_rate. rewrite Hh. cbn. eexists. split; [done|]. by split_and!. }
  eexists _, c'. split; [by eapply (alone_step (LVisit n))|done].
Qed.
Lemma visit_possible s c n :
  live s → collecting s = Some c → c_half c = None → n ∈ c_due c →
  ∃ s' c', alone s s' ∧ collecting s' = Some c' ∧ c_half c' = None ∧
    c_due c' = c_due c ∖ {[n]} ∧ c_pass c' = c_pass c.
Proof.
  intros Hl Hc Hh Hn. destruct Hl as (Hcb & Hsm & Hs). pose proof Hs as Hs'. rewrite Hc in Hs'.
  destruct Hs' as [Ho (Hdue & Hdis & _)].
  assert (n ∉ c_seen c) as Hns by set_solver. assert (n ∈ names (c_pass c) (registry s)) as Hnm by set_solver.
  destruct (decide (c_pass c = PRates)) as [Hp|Hp].
  - rewrite Hp in Hnm. cbn [names] in Hnm. apply elem_of_dom in Hnm as [x Hx].
    assert (∃ r' c', mlstep (LVisit n) s = Some (mkMSystem r' (Some c') (deliveries s)) ∧
      c_half c' = Some (n, r_success x) ∧ c_due c' = c_due c ∧ c_pass c' = c_pass c) as (r' & c' & E & H1 & H2 & H3).
    { unfold mlstep, other_half. rewrite Hc, Hh, Hp, Hx. cbn. rewrite (bool_decide_eq_false_2 _ Hns).
      cbn. unfold visit_rate. rewrite Hh. cbn. eexists _, _. split; [done|]. by split_and!. }
    pose proof (alone_step (LVisit n) _ _ eq_refl E) as Hal.
    destruct (second_swap _ c' n _ (alone_live _ _ Hal (conj Hcb (conj Hsm Hs))) eq_refl H1)
      as (s2 & c2 & Ha & G1 & G2 & G3 & G4).
    exists s2, c2. split_and!; [by eapply alone_trans|done|done|congruence|congruence].
  - assert (∃ r' sn, visit_metric (c_pass c) (c_now c) n (registry s) = Some (r', sn)) as (r' & sn & Hv).
    { destruct (c_pass c); [..|done]; cbn in *; apply elem_of_dom in Hnm as [x Hx]; rewrite Hx; cbn; eauto.
      destruct (Hsm n x Hx) as [Hm Hlen]. rewrite Hm in Hlen.
      unfold snap_histogram. destruct (calcSnapshot_ret (h_values x)) as (sn & -> & _); [done|]. cbn. eauto. }
    exists (mkMSystem r' (Some (with_snap n sn c)) (deliveries s)), (with_snap n sn c). split_and!; try done.
    apply (alone_step (LVisit n)); [done|]. unfold mlstep, other_half. rewrite Hc, Hh, (bool_decide_eq_false_2 _ Hns).
    cbn [orb]. destruct (c_pass c); [..|done]; by rewrite Hv.
Qed.
Lemma pass_completed s c :
  live s → collecting s = Some c → c_half c = None →
  ∃ s' c', alone s s' ∧ collecting s' = Some c' ∧ c_half c' = None ∧ c_due c' = ∅ ∧ c_pass c' = c_pass c.
Proof.
  remember (size (c_due c)) as k eqn:Hk. revert s c Hk.
  induction k as [k IH] using lt_wf_ind; intros s c -> Hl Hc Hh.
  destruct (decide (c_due c = ∅)) as [He|[n Hn]%set_choose_L].
  - exists s, c. split_and!; try done. by exists [].
  - destruct (visit_possible s c n Hl Hc Hh Hn) as (s1 & c1 & Ha & Hc1 & Hh1 & Hd1 & Hp1).
    destruct (IH (size (c_due c1))) with (s := s1) (c := c1) as (s2 & c2 & Ha2 & ? & ? & ? & Hp2); try done.
    + rewrite Hd1. apply subset_size. set_solver.
    + by eapply alone_live.
    + exists s2, c2. split_and!; [by eapply alone_trans|done|done|done|congruence].
Qed.
Lemma collection_completed s : live s → ∃ s', alone s s' ∧ collecting s' = None.
Proof.
  assert (∀ k s c, Z.to_nat (3 - pass_no (c_pass c)) = k → live s → collecting s = Some c → c_half c = None →
    ∃ s', alone s s' ∧ collecting s' = None) as Hgo.
  { induction k as [|k IH]; intros s1 c Hk Hl Hc Hh;
      destruct (pass_completed s1 c Hl Hc Hh) as (s2 & c2 & Ha & Hc2 & Hh2 & Hd2 & Hp2);
      pose proof (alone_live _ _ Ha Hl) as (Hcb & _);
      destruct (onSnapshot (registry s2)) as [cb|] eqn:Hcb2; try done;
      destruct (mlstep LEndPass s2) as [s3|] eqn:E;
      pose proof E as E'; unfold mlstep in E'; rewrite Hc2, Hh2, Hd2, bool_decide_eq_true_2, Hcb2, Hp2 in E' by done;
      destruct (c_pass c) eqn:Hp; cbn in Hk, E'; try done; try lia; injection E' as <-;
      pose proof (alone_trans _ _ _ Ha (alone_step LEndPass _ _ eq_refl E)) as Ha3.
    1: by eexists.
    all: edestruct IH as (s4 & Ha4 & H4);
      [|by eapply alone_live|done|done|by exists s4; split; [eapply alone_trans|]]; cbn; lia. }
  intros Hl. destruct (collecting s) as [c|] eqn:Hc; [|exists s; split; [by exists []|done]].
  destruct (c_half c) as [[n v]|] eqn:Hh; [|by eapply Hgo].
  destruct (second_swap s c n v Hl Hc Hh) as (s1 & c1 & Ha & Hc1 & Hh1 & _ & _).
  destruct (Hgo _ s1 c1 eq_refl (alone_live _ _ Ha Hl) Hc1 Hh1) as (s2 & Ha2 & H2).
  exists s2. split; [by eapply alone_trans|done].
Qed.
Lemma mlrun_tally q n ls s :
  orderly_system s → own_name q n (registry s) → Forall (keeps_own q n) ls →
  i64 (tally q n (mlrun ls s)) = i64 (tally q n s + zsum (recorded q n <$> ls)).
Proof.
  intros Ho Hown Hk. revert s Ho Hown. induction Hk as [|l ls Hl Hk IH]; intros s Ho Hown; cbn [mlrun fmap list_fmap zsum].
  { f_equal. lia. }
  destruct (mlstep l s) as [s1|] eqn:E; cbn [from_option id].
  - destruct (mlstep_keeps q n l s s1 Ho Hown Hl E) as (Ht & Ho1 & Hown1).
    rewrite (IH s1 Ho1 Hown1), <-i64_add_l, Ht, i64_add_l. f_equal. fold (recorded q n <$> ls). lia.
  - rewrite (IH s Ho Hown). f_equal. fold (recorded q n <$> ls).
    assert (recorded q n l = 0) as ->; [|lia]. destruct l as [o|now|m|]; [|by destruct q..].
    destruct o; [unfold mlstep in E; by destruct (collecting s)..|by destruct q].
Qed.

(** C9: No count is lost between collections that run beside the program. Let a counter's name not
    be used for a metric of another kind (a rate's may be). Whatever the program adds and records,
    and however the aggregation goroutine's visits (a rate's two swaps apart) are interleaved with
    it: what has been delivered for the counter, or for either side of a rate, with what the
    goroutine holds and what the registry still holds, is what was recorded; and from there the
    goroutine alone can end its collection, after which nothing is in flight. *)
Theorem collection_under_load (service : string) (ival : Z) (cb : list consumer) (q : quantity) (n : string)
    (ls : list mlabel) :
  Forall (keeps_own q n) ls →
  let s := mlrun ls (mstart (newRegistry service ival (Some cb))) in
  i64 (tally q n s) = i64 (zsum (recorded q n <$> ls)) ∧
  ∃ more, forallb collector more = true ∧
    let s' := mlrun more s in
    collecting s' = None ∧
    i64 (zsum (sent q n <$> deliveries s') + held q n (registry s')) = i64 (zsum (recorded q n <$> ls)).
Proof.
  intros Hk s. set (s0 := mstart _) in s. assert (own_name q n (registry s0)) as Hown by by intros _.
  assert (live s0) as Hl by (by split_and!).
  assert (tally q n s0 = 0) as H0 by (by destruct q).
  pose proof (mlrun_tally q n ls s0 I Hown Hk) as Ht. rewrite H0, Z.add_0_l in Ht. split; [exact Ht|].
  destruct (collection_completed s) as (s' & (more & Hm & Hs') & Hc); [by apply mlrun_live|].
  exists more. split; [done|]. rewrite Hs'. split; [done|].
  pose proof (mlrun_tally q n (ls ++ more) s0 I Hown) as Ht'. rewrite mlrun_app in Ht'. fold s in Ht'.
  rewrite Hs', H0, fmap_app, zsum_app in Ht'. unfold tally in Ht'. rewrite Hc in Ht'. cbn [in_flight] in Ht'.
  rewrite Z.add_0_r, Z.add_0_l in Ht'. rewrite Ht'.
  - f_equal. assert (zsum (recorded q n <$> more) = 0) as ->; [|lia].
    clear -Hm. induction more as [|l more IH]; [done|]. cbn in Hm |- *. apply andb_true_iff in Hm as [Hl Hm].
    change (recorded q n l + zsum (recorded q n <$> more) = 0). rewrite IH by done. destruct l; [done|by destruct q..].
  - apply Forall_app. split; [done|]. clear -Hm. induction more as [|l more IH]; [constructor|].
    cbn in Hm. apply andb_true_iff in Hm as [Hl Hm]. constructor; [by destruct l|by apply IH].
Qed.
(** The rate is recorded on between its two swaps, and the counter after its visit. *)
Definition demo_run : list mlabel :=
  [LDo (MAdd "hits" 3); LDo (MRecord "calls" true); LBegin 10; LVisit "hits"; LDo (MAdd "hits" 4); LEndPass;
   LEndPass; LEndPass; LVisit "calls"; LDo (MRecord "calls" true); LDo (MRecord "calls" false); LVisit "calls"; LEndPass].
Lemma collection_under_load_witness :
  let s := mlrun demo_run (mstart (newRegistry "svc" Second (Some [ToCallback]))) in
  (zsum (sent QCount "hits" <$> deliveries s), zsum (sent QSuccess "calls" <$> deliveries s),
   zsum (sent QFail "calls" <$> deliveries s), held QSuccess "calls" (registry s)) = (3, 1, 1, 1) ∧
  i64 (tally QCount "hits" s) = 7 ∧ collecting s = None.
Proof.
  split; [vm_compute; reflexivity|]. split; [|vm_compute; reflexivity].
  refine (proj1 (@collection_under_load "svc" Second [ToCallback] QCount "hits" demo_run _)).
  repeat constructor; discriminate.
Defined.
(** Left alone, the passes do what [collectAndNotify] does at once. *)
Example collection_alone :
  let r := (mrun [MAdd "hits" 3; MRecord "calls" true; MObserve "ms" f1; MGaugeSet "hits" f1] (newRegistry "svc" Second (Some [ToCallback]))).2 in
  let s := mlrun [LBegin 10; LVisit "hits"; LEndPass; LVisit "hits"; LEndPass; LVisit "ms"; LEndPass; LVisit "calls";
                  LVisit "calls"; LEndPass] (mstart r) in
  let '(d, r') := collectAndNotify 10 r in
  bool_decide ((λ d, map_to_list (from_option snd ∅ d)) <$> deliveries s = [map_to_list (from_option snd ∅ d)]) = true ∧
  (counter_value "hits" (registry s), counter_value "hits" r') = (0, 0).
Proof. vm_compute. done. Qed.
