(* ===== verification/Alert.v ===== *)
(** The alert engine (pkg/alert): rules evaluated on every metrics snapshot, cooldowns, and the
    configuration provider of pkg/alert/provider.  [fmt.Sprintf] results are kept as the format
    and its arguments; notifiers and the store are identified, and what is handed to them is
    recorded. *)
From stdpp Require Import prelude gmap strings list.
From Stdlib Require Import SpecFloat.
From S2P Require Import Prelude GoStrings GoFloat Metrics.

(** ** types.go, rule.go *)
Definition Level := Z.
Definition Level_Text (l : Level) : string :=
  if l =? 0 then "P0" else if l =? 1 then "P1" else if l =? 2 then "P2" else "UNKNOWN".
Definition Level_Emoji (l : Level) : string :=
  if l =? 0 then "🔴" else if l =? 1 then "🟠" else if l =? 2 then "🟡" else "⚪".

(** [RuleType] is an [int]; values outside the five constants are possible. *)
Definition RuleTypeThreshold : Z := 1.
Definition RuleTypeRate : Z := 2.
Definition RuleTypeSurge : Z := 3.
Definition RuleTypeConsecutive : Z := 4.
Definition RuleTypeImmediate : Z := 5.
Definition RuleType_Text (t : Z) : string :=
  if t =? RuleTypeThreshold then "threshold" else if t =? RuleTypeRate then "rate"
  else if t =? RuleTypeSurge then "surge" else if t =? RuleTypeConsecutive then "consecutive"
  else if t =? RuleTypeImmediate then "immediate" else "unknown".
Definition ParseRuleType (s : string) : Z :=
  if bool_decide (s = "threshold") then RuleTypeThreshold
  else if bool_decide (s = "rate") then RuleTypeRate
  else if bool_decide (s = "surge") then RuleTypeSurge
  else if bool_decide (s = "consecutive") then RuleTypeConsecutive
  else if bool_decide (s = "immediate") then RuleTypeImmediate
  else RuleTypeThreshold.

Record Rule := mkRule {
  MetricName : string; rule_Type : Z; rule_Level : Level; Title : string;
  Threshold : float64; ConsecutiveN : Z; MinSamples : Z; CooldownPeriod : Z }.
#[global] Instance Rule_eq_dec : EqDecision Rule.
Proof. solve_decision. Defined.
Definition defaultMinSamples : Z := 5.

(** The dynamic values of an alert: an [interface{}], with formatted strings unevaluated. *)
Inductive gval :=
  | GNil
  | GInt (z : Z)
  | GFloat (f : float64)
  | GStr (s : string)
  | GFmt (format : string) (args : list gval).
Definition Sprintf (format : string) (args : list gval) : gval := GFmt format args.

Record AlertEvent := mkAlertEvent {
  ev_ServiceName : string; ev_MetricName : string; ev_Level : Level; ev_Title : string;
  ev_Message : gval; ev_Value : gval; ev_Threshold : gval; ev_Tags : tagmap; ev_Timestamp : Z }.

Record NotifierConfig := mkNotifierConfig {
  DingTalkWebhook : string; DingTalkSecret : string; Enabled : bool }.
#[global] Instance NotifierConfig_eq_dec : EqDecision NotifierConfig.
Proof. solve_decision. Defined.

(** ** engine.go *)
Record Engine := mkEngine {
  rules : list Rule;
  notifiers : list nat;
  cooldowns : gmap string Z;
  prevGauges : gmap string float64;
  prevCounters : gmap string Z;
  consecutive : gmap string Z;
  store : bool;
  configProvider : bool;
  e_serviceName : string }.

Inductive EngineOption := WithStore | WithConfigProvider.
Definition apply_option (e : Engine) (o : EngineOption) : Engine :=
  match o with
  | WithStore => mkEngine (rules e) (notifiers e) (cooldowns e) (prevGauges e) (prevCounters e)
                   (consecutive e) true (configProvider e) (e_serviceName e)
  | WithConfigProvider => mkEngine (rules e) (notifiers e) (cooldowns e) (prevGauges e)
                   (prevCounters e) (consecutive e) (store e) true (e_serviceName e)
  end.
Definition NewEngine (service : string) (rs : list Rule) (opts : list EngineOption) : Engine :=
  foldl apply_option (mkEngine rs [] ∅ ∅ ∅ ∅ false false service) opts.
Definition AddNotifier (n : nat) (e : Engine) : Engine :=
  mkEngine (rules e) (notifiers e ++ [n]) (cooldowns e) (prevGauges e) (prevCounters e)
    (consecutive e) (store e) (configProvider e) (e_serviceName e).
Definition SetStore (b : bool) (e : Engine) : Engine :=
  mkEngine (rules e) (notifiers e) (cooldowns e) (prevGauges e) (prevCounters e)
    (consecutive e) b (configProvider e) (e_serviceName e).
Definition SetConfigProvider (b : bool) (e : Engine) : Engine :=
  mkEngine (rules e) (notifiers e) (cooldowns e) (prevGauges e) (prevCounters e)
    (consecutive e) (store e) b (e_serviceName e).
Definition UpdateRules (rs : list Rule) (e : Engine) : Engine :=
  mkEngine rs (notifiers e) (cooldowns e) (prevGauges e) (prevCounters e)
    (consecutive e) (store e) (configProvider e) (e_serviceName e).
Definition set_consecutive (n : string) (v : Z) (e : Engine) : Engine :=
  mkEngine (rules e) (notifiers e) (cooldowns e) (prevGauges e) (prevCounters e)
    (<[n := v]> (consecutive e)) (store e) (configProvider e) (e_serviceName e).
Definition set_cooldown (n : string) (t : Z) (e : Engine) : Engine :=
  mkEngine (rules e) (notifiers e) (<[n := t]> (cooldowns e)) (prevGauges e) (prevCounters e)
    (consecutive e) (store e) (configProvider e) (e_serviceName e).

(** [(true, value, threshold)] or [(false, nil, nil)]. *)
Definition verdict : Type := option (gval * gval).

Definition checkImmediate (snap : Snapshot) : verdict :=
  match s_Value snap with
  | SnapCounter v => if 0 <? v then Some (GInt v, GInt 0) else None
  | SnapGauge v => if fgt v f0 then Some (GFloat v, GFloat f0) else None
  | _ => None
  end.
Definition checkThreshold (rule : Rule) (snap : Snapshot) : verdict :=
  match s_Value snap with
  | SnapCounter v => if fgt (f_of_Z v) (Threshold rule) then Some (GInt v, GFloat (Threshold rule)) else None
  | SnapGauge v => if fgt v (Threshold rule) then Some (GFloat v, GFloat (Threshold rule)) else None
  | SnapHistogram h =>
      if fgt (hs_P99 h) (Threshold rule) then Some (GFloat (hs_P99 h), GFloat (Threshold rule)) else None
  | SnapRate r =>
      if fgt (rs_Rate r) (Threshold rule) then Some (GFloat (rs_Rate r), GFloat (Threshold rule)) else None
  end.
Definition checkRate (rule : Rule) (snap : Snapshot) : verdict :=
  match s_Value snap with
  | SnapRate r =>
      let minSamples := if MinSamples rule <=? 0 then defaultMinSamples else MinSamples rule in
      if (minSamples <=? rs_Total r) && fgt (rs_Rate r) (Threshold rule) then
        Some (Sprintf "%.2f%% (%d/%d)" [GFloat (fmul (rs_Rate r) f100); GInt (rs_Fail r); GInt (rs_Total r)],
              Sprintf "%.2f%%" [GFloat (fmul (Threshold rule) f100)])
      else None
  | _ => None
  end.
Definition surge_percent (prevVal currentVal : float64) : float64 :=
  if feq prevVal f0 then f100
  else fmul (fdiv (fabs (fsub currentVal prevVal)) (fabs prevVal)) f100.
Definition checkSurge (rule : Rule) (snap : Snapshot) (e : Engine) : verdict :=
  match match s_Value snap with
        | SnapGauge v => Some v
        | SnapCounter v => Some (f_of_Z v)
        | _ => None
        end with
  | None => None
  | Some currentVal =>
      let prevVal :=
        match prevGauges e !! s_Name snap with
        | Some v => v
        | None => match prevCounters e !! s_Name snap with Some v => f_of_Z v | None => f0 end
        end in
      if feq prevVal f0 && feq currentVal f0 then None
      else
        let changePercent := surge_percent prevVal currentVal in
        if fgt changePercent (Threshold rule) then
          Some (Sprintf "%.1f%% (%.0f→%.0f)" [GFloat changePercent; GFloat prevVal; GFloat currentVal],
                Sprintf "%.0f%%" [GFloat (Threshold rule)])
        else None
  end.
Definition consecutive_count (n : string) (e : Engine) : Z :=
  match consecutive e !! n with Some c => c | None => 0 end.
Definition checkConsecutive (rule : Rule) (snap : Snapshot) (e : Engine) : verdict * Engine :=
  let v := match checkThreshold rule snap with Some v => Some v | None => checkImmediate snap end in
  let count := consecutive_count (MetricName rule) e in
  match v with
  | Some (value, threshold) =>
      let count := i64 (count + 1) in
      let e := set_consecutive (MetricName rule) count e in
      if ConsecutiveN rule <=? count then
        (Some (Sprintf "%v (连续%d次)" [value; GInt count], threshold), e)
      else (None, e)
  | None => (None, set_consecutive (MetricName rule) 0 e)
  end.
Definition checkRule (rule : Rule) (snap : Snapshot) (e : Engine) : verdict * Engine :=
  if rule_Type rule =? RuleTypeImmediate then (checkImmediate snap, e)
  else if rule_Type rule =? RuleTypeThreshold then (checkThreshold rule snap, e)
  else if rule_Type rule =? RuleTypeRate then (checkRate rule snap, e)
  else if rule_Type rule =? RuleTypeSurge then (checkSurge rule snap e, e)
  else if rule_Type rule =? RuleTypeConsecutive then checkConsecutive rule snap e
  else (None, e).

Definition formatValue (v : gval) : gval :=
  match v with GFloat f => Sprintf "%.2f" [GFloat f] | _ => Sprintf "%v" [v] end.

(** What an evaluation hands to the outside. *)
Inductive emission := Send (notifier : nat) (ev : AlertEvent) | Save (ev : AlertEvent).

(** [handleTriggered]; [cfg] is the provider's answer to this call. *)
Definition handleTriggered (rule : Rule) (value threshold : gval) (now : Z) (snap : Snapshot)
    (cfg : goerr + option NotifierConfig) (e : Engine) : list emission * Engine :=
  if match cooldowns e !! MetricName rule with
     | Some last => time_Sub now last <? CooldownPeriod rule
     | None => false
     end then ([], e)
  else if configProvider e && match cfg with
                              | inr (Some c) => negb (Enabled c)
                              | _ => false
                              end then ([], e)
  else
    let ev := mkAlertEvent (e_serviceName e) (MetricName rule) (rule_Level rule) (Title rule)
                (Sprintf "服务[%s] 指标[%s] 当前值: %s, 阈值: %s"
                   [GStr (e_serviceName e); GStr (MetricName rule); formatValue value;
                    formatValue threshold])
                value threshold (s_Tags snap) now in
    (map (λ n, Send n ev) (notifiers e) ++ (if store e then [Save ev] else []),
     set_cooldown (MetricName rule) now e).

Definition savePrevValues (name : string) (snap : Snapshot) (e : Engine) : Engine :=
  match s_Value snap with
  | SnapGauge v =>
      mkEngine (rules e) (notifiers e) (cooldowns e) (<[name := v]> (prevGauges e))
        (prevCounters e) (consecutive e) (store e) (configProvider e) (e_serviceName e)
  | SnapCounter v =>
      mkEngine (rules e) (notifiers e) (cooldowns e) (prevGauges e)
        (<[name := v]> (prevCounters e)) (consecutive e) (store e) (configProvider e) (e_serviceName e)
  | _ => e
  end.

(** One rule of [Evaluate]'s loop. *)
Definition eval_rule (snapshots : gmap string Snapshot) (now : Z)
    (cfg : goerr + option NotifierConfig) (rule : Rule) (e : Engine) : list emission * Engine :=
  match snapshots !! MetricName rule with
  | None => ([], e)
  | Some snap =>
      let '(v, e) := checkRule rule snap e in
      let '(out, e) :=
        match v with
        | Some (value, threshold) => handleTriggered rule value threshold now snap cfg e
        | None =>
            ([], if rule_Type rule =? RuleTypeConsecutive
                 then set_consecutive (MetricName rule) 0 e else e)
        end in
      (out, savePrevValues (MetricName rule) snap e)
  end.
Fixpoint eval_rules (rs : list Rule) (snapshots : gmap string Snapshot) (now : Z)
    (cfg : nat → goerr + option NotifierConfig) (e : Engine) : list emission * Engine :=
  match rs with
  | [] => ([], e)
  | r :: rs =>
      let '(out, e) := eval_rule snapshots now (cfg (length rs)) r e in
      let '(out', e) := eval_rules rs snapshots now cfg e in
      (out ++ out', e)
  end.
(** [Evaluate]; [cfg k] is the provider's answer when [k] rules remain. *)
Definition Evaluate (snapshots : gmap string Snapshot) (now : Z)
    (cfg : nat → goerr + option NotifierConfig) (e : Engine) : list emission * Engine :=
  eval_rules (rules e) snapshots now cfg e.

(** ** alert.go *)
Record AConfig := mkAConfig {
  a_ServiceName : string; a_DingTalkWebhook : string; a_DingTalkSecret : string;
  a_Rules : list Rule; a_ConfigProvider : bool; a_Store : bool }.
Definition AInit (cfg : AConfig) : Engine :=
  NewEngine (a_ServiceName cfg) (a_Rules cfg)
    ((if a_ConfigProvider cfg then [WithConfigProvider] else []) ++
     (if a_Store cfg then [WithStore] else [])).
Definition EvaluateFunc (snapshots : gmap string Snapshot) (now : Z)
    (cfg : nat → goerr + option NotifierConfig) (e : option Engine) : list emission * option Engine :=
  match e with
  | Some e => let '(out, e) := Evaluate snapshots now cfg e in (out, Some e)
  | None => ([], None)
  end.

(** ** provider/provider.go, over a key-value reader and the JSON decoder *)
Record KVConfigProvider := mkKV {
  kv_key : string; kv_cache : option NotifierConfig; kv_cacheAt : Z; kv_cacheTTL : Z;
  kv_fallback : option NotifierConfig }.
Inductive KVOption := WithKey (key : string) | WithCacheTTL (ttl : Z).
Definition defaultCacheTTL : Z := 30 * Second.
Definition kv_option (p : KVConfigProvider) (o : KVOption) : KVConfigProvider :=
  match o with
  | WithKey k => mkKV k (kv_cache p) (kv_cacheAt p) (kv_cacheTTL p) (kv_fallback p)
  | WithCacheTTL t => mkKV (kv_key p) (kv_cache p) (kv_cacheAt p) t (kv_fallback p)
  end.
Definition NewKVProvider (fallback : option NotifierConfig) (opts : list KVOption)
    : KVConfigProvider :=
  foldl kv_option (mkKV "alert:config" None 0 defaultCacheTTL fallback) opts.

Record RuleJSON := mkRuleJSON {
  j_MetricName : string; j_RuleType : string; j_Level : Z; j_Title : string;
  j_Threshold : float64; j_ConsecutiveN : Z; j_CooldownSeconds : Z }.

Section provider.
(** The reader, and [encoding/json] on the two types it decodes here. *)
Context (Get : string → goerr + string).
Context (decode_config : string → goerr + NotifierConfig).
Context (decode_rules : string → goerr + list RuleJSON).

(** [now1] and [now2] are the two readings of the clock. *)
Definition GetNotifierConfig (now1 now2 : Z) (p : KVConfigProvider)
    : (goerr + NotifierConfig) * KVConfigProvider :=
  let fallback_or e := match kv_fallback p with Some f => (inr f, p) | None => (inl e, p) end in
  let reload :=
    match Get (kv_key p) with
    | inl e => fallback_or e
    | inr val =>
        match decode_config val with
        | inl e => fallback_or e
        | inr cfg =>
            (inr cfg, mkKV (kv_key p) (Some cfg) now2 (kv_cacheTTL p) (kv_fallback p))
        end
    end in
  match kv_cache p with
  | Some c => if time_Sub now1 (kv_cacheAt p) <? kv_cacheTTL p then (inr c, p) else reload
  | None => reload
  end.
Definition InvalidateCache (p : KVConfigProvider) : KVConfigProvider :=
  mkKV (kv_key p) None (kv_cacheAt p) (kv_cacheTTL p) (kv_fallback p).

Definition rule_of_json (jr : RuleJSON) : option Rule :=
  if bool_decide (j_MetricName jr = "") then None
  else
    let cooldown := i64 (j_CooldownSeconds jr * Second) in
    let cooldown := if cooldown <=? 0 then 5 * Minute else cooldown in
    Some (mkRule (j_MetricName jr) (ParseRuleType (j_RuleType jr)) (j_Level jr) (j_Title jr)
            (j_Threshold jr) (j_ConsecutiveN jr) 0 cooldown).
(** [None] is the nil slice of an empty value. *)
Definition GetRules (rulesKey : string) : goerr + list Rule :=
  match Get rulesKey with
  | inl e => inl e
  | inr val =>
      if bool_decide (val = "") then inr []
      else match decode_rules val with
           | inl e => inl (ErrWrap "parse rules json" e)
           | inr js => inr (omap rule_of_json js)
           end
  end.
End provider.
