(* ===== verification/AlertProofs.v ===== *)
(** Properties of the alert engine and its configuration provider. *)
From stdpp Require Import prelude gmap strings list sorting.
From Stdlib Require Import SpecFloat.
From S2P Require Import Prelude GoStrings GoFloat Metrics Alert.

(** ** A run of the engine: one evaluation per snapshot *)
Record round := mkRound {
  rd_snaps : gmap string Snapshot;
  rd_now : Z;
  rd_cfg : nat → goerr + option NotifierConfig }.
Fixpoint erun (rds : list round) (e : Engine) : list emission * Engine :=
  match rds with
  | [] => ([], e)
  | rd :: rds =>
      let '(out, e) := Evaluate (rd_snaps rd) (rd_now rd) (rd_cfg rd) e in
      let '(out', e) := erun rds e in (out ++ out', e)
  end.

Definition emitted (em : emission) : AlertEvent := match em with Send _ ev | Save ev => ev end.

(** An alert is handed once to each notifier, in order, and once to the store if there is one. *)
Definition deliver (e : Engine) (ev : AlertEvent) : list emission :=
  map (λ n, Send n ev) (notifiers e) ++ (if store e then [Save ev] else []).

(** What one rule does, whatever the checks say. *)
Lemma eval_rule_spec snaps now cfg r e out e' :
  eval_rule snaps now cfg r e = (out, e') →
  rules e' = rules e ∧ notifiers e' = notifiers e ∧ store e' = store e ∧
  ((out = [] ∧ cooldowns e' = cooldowns e) ∨
   (∃ ev, ev_MetricName ev = MetricName r ∧ ev_Timestamp ev = now ∧
      out = deliver e ev ∧
      cooldowns e' = <[MetricName r := now]> (cooldowns e) ∧
      (∀ last, cooldowns e !! MetricName r = Some last → CooldownPeriod r <= time_Sub now last))).
Proof.
  unfold eval_rule. intros H. destruct (snaps !! MetricName r) as [snap|].
  2: { injection H as <- <-. split_and!; auto. }
  destruct (checkRule r snap e) as [v e1] eqn:Hc.
  assert (rules e1 = rules e ∧ notifiers e1 = notifiers e ∧ store e1 = store e ∧
          cooldowns e1 = cooldowns e) as (E1 & E2 & E3 & E4).
  { unfold checkRule, checkConsecutive in Hc. repeat case_match; simplify_eq; done. }
  assert (∀ e2, rules (savePrevValues (MetricName r) snap e2) = rules e2 ∧
    notifiers (savePrevValues (MetricName r) snap e2) = notifiers e2 ∧
    store (savePrevValues (MetricName r) snap e2) = store e2 ∧
    cooldowns (savePrevValues (MetricName r) snap e2) = cooldowns e2) as Hsp.
  { intros e2. unfold savePrevValues. by destruct (s_Value snap). }
  destruct v as [[val thr]|].
  - unfold handleTriggered in H.
    destruct (match cooldowns e1 !! MetricName r with Some last => _ | None => _ end) eqn:Hcd.
    { injection H as <- <-. destruct (Hsp e1) as (-> & -> & -> & ->).
      split_and!; try done. left. by rewrite E4. }
    destruct (configProvider e1 && _).
    { injection H as <- <-. destruct (Hsp e1) as (-> & -> & -> & ->).
      split_and!; try done. left. by rewrite E4. }
    injection H as <- <-. destruct (Hsp (set_cooldown (MetricName r) now e1)) as (-> & -> & -> & ->).
    cbn. split_and!; try done. right. eexists.
    split_and!; [| |unfold deliver; by rewrite E2, E3|by rewrite E4|]; [done|done|].
    intros last Hl. rewrite E4, Hl in Hcd. by apply Z.ltb_ge in Hcd.
  - injection H as <- <-. set (e2 := if rule_Type r =? _ then _ else e1).
    assert (rules e2 = rules e1 ∧ notifiers e2 = notifiers e1 ∧ store e2 = store e1 ∧
            cooldowns e2 = cooldowns e1) as (F1 & F2 & F3 & F4)
      by (subst e2; by destruct (rule_Type r =? RuleTypeConsecutive)).
    destruct (Hsp e2) as (-> & -> & -> & ->). split_and!; try congruence. left. by split; [|congruence].
Qed.

(** No part of an evaluation changes whether there is a provider. *)
Lemma savePrevValues_provider name snap e : configProvider (savePrevValues name snap e) = configProvider e.
Proof. unfold savePrevValues. by destruct (s_Value snap). Qed.
Lemma checkRule_provider rule snap e : configProvider (checkRule rule snap e).2 = configProvider e.
Proof. unfold checkRule, checkConsecutive. by repeat case_match. Qed.
Lemma handleTriggered_provider rule value threshold now snap cfg e :
  configProvider (handleTriggered rule value threshold now snap cfg e).2 = configProvider e.
Proof.
  unfold handleTriggered. destruct (match cooldowns e !! _ with Some _ => _ | None => _ end); [done|].
  by destruct (configProvider e && _) eqn:E; cbn.
Qed.

(** ** Cooldown *)
(** The times of the alerts of metric [m] among some alerts, and among those saved. *)
Definition event_times (m : string) (evs : list AlertEvent) : list Z :=
  omap (λ ev, if bool_decide (ev_MetricName ev = m) then Some (ev_Timestamp ev) else None) evs.
Definition alert_times (m : string) (out : list emission) : list Z :=
  event_times m (omap (λ em, match em with Save ev => Some ev | Send _ _ => None end) out).
Definition spaced (C a b : Z) : Prop := a + C <= b.

Lemma event_times_app m l1 l2 : event_times m (l1 ++ l2) = event_times m l1 ++ event_times m l2.
Proof. apply omap_app. Qed.
Lemma alert_times_app m o1 o2 : alert_times m (o1 ++ o2) = alert_times m o1 ++ alert_times m o2.
Proof. unfold alert_times. by rewrite omap_app, event_times_app. Qed.
Lemma alert_times_deliver m e evs :
  store e = true → alert_times m (flat_map (deliver e) evs) = event_times m evs.
Proof.
  intros Hst. induction evs as [|ev evs IH]; [done|]. cbn [flat_map]. rewrite alert_times_app, IH.
  change (event_times m (ev :: evs)) with (event_times m ([ev] ++ evs)). rewrite event_times_app. f_equal.
  unfold alert_times, deliver. rewrite Hst, omap_app. f_equal.
  by induction (notifiers e).
Qed.

Definition in_time (t : Z) : Prop := - 2 ^ 62 <= t < 2 ^ 62.
(** The last alert of [m] is recorded, and is not in the future. *)
Definition cooled (m : string) (now : Z) (e : Engine) : Prop :=
  ∀ last, cooldowns e !! m = Some last → last <= now ∧ in_time last.

Lemma eval_rule_events m C snaps now cfg r e out e' :
  eval_rule snaps now cfg r e = (out, e') → in_time now →
  (MetricName r = m → C <= CooldownPeriod r) → cooled m now e →
  ∃ evs, out = flat_map (deliver e) evs ∧
    ((event_times m evs = [] ∧ cooldowns e' !! m = cooldowns e !! m) ∨
     (event_times m evs = [now] ∧ cooldowns e' !! m = Some now ∧
      ∀ last, cooldowns e !! m = Some last → spaced C last now)).
Proof.
  intros H Hnow Hr Hc. apply eval_rule_spec in H as (_ & _ & _ & [[-> Hcd]|(ev & Hm & Ht & -> & Hcd & Hlast)]).
  { exists []. split; [done|]. left. by rewrite Hcd. }
  exists [ev]. split; [cbn; by rewrite app_nil_r|]. unfold event_times. cbn [omap list_omap].
  rewrite Hm, Ht. case_bool_decide as E; [right|left].
  - rewrite Hcd, E, lookup_insert_eq. split_and!; try done. intros last Hl. unfold spaced.
    rewrite E in Hlast. specialize (Hlast _ Hl). specialize (Hr E). destruct (Hc _ Hl) as [? Hin].
    unfold in_time in *. rewrite time_Sub_id in Hlast by (unfold in_i64; lia). lia.
  - split; [done|]. by rewrite Hcd, lookup_insert_ne.
Qed.
Lemma eval_rule_times m C snaps now cfg r e out e' :
  eval_rule snaps now cfg r e = (out, e') → store e = true → in_time now →
  (MetricName r = m → C <= CooldownPeriod r) → cooled m now e →
  (alert_times m out = [] ∧ cooldowns e' !! m = cooldowns e !! m) ∨
  (alert_times m out = [now] ∧ cooldowns e' !! m = Some now ∧
   ∀ last, cooldowns e !! m = Some last → spaced C last now).
Proof.
  intros H Hst Hnow Hr Hc. destruct (eval_rule_events m C _ _ _ _ _ _ _ H Hnow Hr Hc) as (evs & -> & Hevs).
  by rewrite alert_times_deliver.
Qed.

(** The alert times of a piece of a run, between the last alert before it and the last one
    after it. *)
Definition times_ok (C : Z) (before after : option Z) (ts : list Z) : Prop :=
  StronglySorted (spaced C) ts ∧
  (∀ t, t ∈ ts → ∀ b, before = Some b → spaced C b t) ∧
  match last ts with Some t => after = Some t | None => after = before end.
Lemma times_ok_nil C b : times_ok C b b [].
Proof. split_and!; [constructor|intros t Ht; by apply not_elem_of_nil in Ht|done]. Qed.
Lemma times_ok_app C a b c l1 l2 :
  0 <= C → times_ok C a b l1 → times_ok C b c l2 → times_ok C a c (l1 ++ l2).
Proof.
  intros HC (S1 & B1 & L1) (S2 & B2 & L2). unfold times_ok. rewrite last_app.
  assert (∀ x y, x ∈ l1 → y ∈ l2 → spaced C x y) as Hxy.
  { intros x y Hx Hy. destruct (last l1) as [t|] eqn:Hl.
    - specialize (B2 y Hy t L1). apply last_Some in Hl as [l1' ->].
      apply elem_of_app in Hx as [Hx|Hx].
      + apply StronglySorted_app in S1 as (S1 & _). specialize (S1 x t Hx ltac:(by left)).
        unfold spaced in *. lia.
      + by apply list_elem_of_singleton in Hx as ->.
    - apply last_None in Hl as ->. by apply not_elem_of_nil in Hx. }
  split_and!.
  - by apply StronglySorted_app_2.
  - intros t [Ht|Ht]%elem_of_app b0 Hb; [by eapply B1|].
    destruct (last l1) as [t1|] eqn:Hl.
    + apply last_Some in Hl as [l1' ->]. specialize (Hxy t1 t).
      specialize (B1 t1). unfold spaced in *.
      specialize (Hxy ltac:(apply elem_of_app; right; by left) Ht).
      specialize (B1 ltac:(apply elem_of_app; right; by left) b0 Hb). lia.
    + rewrite L1 in B2. by eapply B2.
  - destruct (last l2); [done|]. rewrite L2. by destruct (last l1).
Qed.
(** Two engines that deliver alike. *)
Lemma deliver_ext e1 e2 : notifiers e1 = notifiers e2 → store e1 = store e2 → deliver e1 = deliver e2.
Proof. unfold deliver. by intros -> ->. Qed.
Lemma eval_rules_events m C snaps now cfg rs e :
  0 <= C → in_time now → cooled m now e →
  Forall (λ r, MetricName r = m → C <= CooldownPeriod r) rs →
  let '(out, e') := eval_rules rs snaps now cfg e in
  (∃ evs, out = flat_map (deliver e) evs ∧ times_ok C (cooldowns e !! m) (cooldowns e' !! m) (event_times m evs)) ∧
  cooled m now e' ∧ deliver e' = deliver e ∧ store e' = store e ∧ rules e' = rules e.
Proof.
  intros HC Hnow Hc Hrs. revert e Hc. induction Hrs as [|r rs Hr Hrs IH]; intros e Hc.
  { split_and!; try done. exists []. split; [done|]. apply times_ok_nil. }
  cbn [eval_rules]. destruct (eval_rule snaps now (cfg (length rs)) r e) as [o1 e1] eqn:E1.
  pose proof (eval_rule_spec _ _ _ _ _ _ _ E1) as (HR & HN & HS & _).
  destruct (eval_rule_events m C _ _ _ _ _ _ _ E1 Hnow Hr Hc) as (ev1 & -> & Ht).
  assert (cooled m now e1) as Hc1.
  { destruct Ht as [[_ Hcd]|(_ & Hcd & _)]; intros t Hl; rewrite Hcd in Hl; [by apply Hc|].
    injection Hl as <-. split; [lia|done]. }
  specialize (IH e1 Hc1). destruct (eval_rules rs snaps now cfg e1) as [o2 e2].
  destruct IH as ((ev2 & -> & T2) & C2 & D2 & S2 & R2). rewrite (deliver_ext e1 e) in * by done.
  split_and!; try done; [|congruence|congruence]. exists (ev1 ++ ev2). rewrite flat_map_app, event_times_app.
  split; [done|]. eapply times_ok_app; [done| |exact T2].
  destruct Ht as [[-> ->]|(-> & -> & Hsp)]; [apply times_ok_nil|].
  split_and!; [by repeat constructor| |done].
  intros t Ht%list_elem_of_singleton b Hb. subst t. by apply Hsp.
Qed.
Lemma eval_rules_times m C snaps now cfg rs e :
  0 <= C → store e = true → in_time now → cooled m now e →
  Forall (λ r, MetricName r = m → C <= CooldownPeriod r) rs →
  let '(out, e') := eval_rules rs snaps now cfg e in
  times_ok C (cooldowns e !! m) (cooldowns e' !! m) (alert_times m out) ∧
  cooled m now e' ∧ store e' = true ∧ rules e' = rules e.
Proof.
  intros HC Hst Hnow Hc Hrs. pose proof (eval_rules_events m C snaps now cfg rs e HC Hnow Hc Hrs) as H.
  destruct (eval_rules rs snaps now cfg e) as [o e']. destruct H as ((evs & -> & Ht) & Hc' & _ & Hs & Hr).
  rewrite alert_times_deliver by done. split_and!; congruence || done.
Qed.

Lemma erun_events (m : string) (C : Z) (rds : list round) (e : Engine) (t0 : Z) :
  0 <= C → cooled m t0 e →
  Forall (λ r, MetricName r = m → C <= CooldownPeriod r) (rules e) →
  Forall (λ rd, in_time (rd_now rd)) rds → StronglySorted Z.le (t0 :: map rd_now rds) →
  ∃ evs, (erun rds e).1 = flat_map (deliver e) evs ∧
    times_ok C (cooldowns e !! m) (cooldowns (erun rds e).2 !! m) (event_times m evs).
Proof.
  intros HC Hc Hrs Htimes Hsort. revert e t0 Hc Hrs Hsort. induction Htimes as [|rd rds Hrd Hrds IH];
    intros e t0 Hc Hrs Hsort; [exists []; split; [done|apply times_ok_nil]|].
  cbn [map] in Hsort. apply StronglySorted_inv in Hsort as [Hsort Hle].
  apply Forall_cons in Hle as [Hle _]. cbn [erun].
  assert (cooled m (rd_now rd) e) as Hc'.
  { intros t Hl. destruct (Hc t Hl). split; [lia|done]. }
  pose proof (eval_rules_events m C (rd_snaps rd) (rd_now rd) (rd_cfg rd) (rules e) e HC Hrd Hc' Hrs) as Hev.
  unfold Evaluate. destruct (eval_rules (rules e) _ _ _ e) as [o1 e1].
  destruct Hev as ((ev1 & -> & T1) & C1 & D1 & _ & R1).
  rewrite <- R1 in Hrs. destruct (IH e1 (rd_now rd) C1 Hrs Hsort) as (ev2 & E2 & T2).
  destruct (erun rds e1) as [o2 e2]. cbn [fst snd] in *. exists (ev1 ++ ev2).
  rewrite flat_map_app, event_times_app, E2, D1. split; [done|]. by eapply times_ok_app.
Qed.
Lemma erun_times (m : string) (C : Z) (rds : list round) (e : Engine) (t0 : Z) :
  0 <= C → store e = true → cooled m t0 e →
  Forall (λ r, MetricName r = m → C <= CooldownPeriod r) (rules e) →
  Forall (λ rd, in_time (rd_now rd)) rds → StronglySorted Z.le (t0 :: map rd_now rds) →
  times_ok C (cooldowns e !! m) (cooldowns (erun rds e).2 !! m) (alert_times m (erun rds e).1).
Proof.
  intros HC Hst Hc Hrs Htimes Hsort. destruct (erun_events m C rds e t0) as (evs & -> & Ht); try done.
  by rewrite alert_times_deliver.
Qed.

(** C10: Cooldown. In any run of evaluations of an engine at non-decreasing times, with or without
    a store, everything that goes out is alerts, each handed once to each notifier in order and
    then once to the store if there is one; and two alerts of the same metric are at least [C]
    apart, whenever every rule for that metric has a cooldown of at least [C]. The provider's
    answers and the other rules do not matter. *)
Theorem cooldown_respected (m : string) (C : Z) (rds : list round) (e : Engine) (t0 : Z) :
  0 <= C → cooled m t0 e →
  Forall (λ r, MetricName r = m → C <= CooldownPeriod r) (rules e) →
  Forall (λ rd, in_time (rd_now rd)) rds → StronglySorted Z.le (t0 :: map rd_now rds) →
  ∃ evs,
    (erun rds e).1 = flat_map (λ ev, map (λ n, Send n ev) (notifiers e) ++ (if store e then [Save ev] else [])) evs ∧
    StronglySorted (spaced C) (event_times m evs).
Proof. intros ? ? ? ? ?. destruct (erun_events m C rds e t0) as (evs & ? & Ht & _); try done. by exists evs. Qed.

(** ** Consecutive rules *)
Definition counts_reset (e : Engine) : Prop := ∀ n c, consecutive e !! n = Some c → c <= 0 ∧ in_i64 c.
Lemma set_consecutive_reset n e : counts_reset e → counts_reset (set_consecutive n 0 e).
Proof.
  intros H k c Hk. cbn in Hk. apply lookup_insert_Some in Hk as [[_ <-]|[_ Hk]]; [done|by eapply H].
Qed.
Lemma set_consecutive_twice n a b e :
  set_consecutive n b (set_consecutive n a e) = set_consecutive n b e.
Proof. unfold set_consecutive. cbn. by rewrite insert_insert_eq. Qed.
Definition slow (r : Rule) : Prop := rule_Type r = RuleTypeConsecutive → 2 <= ConsecutiveN r.

(** A consecutive rule with N >= 2 neither fires nor leaves a count behind. *)
Lemma eval_consecutive_silent snaps now cfg r e out e' :
  eval_rule snaps now cfg r e = (out, e') → counts_reset e → slow r →
  counts_reset e' ∧ (rule_Type r = RuleTypeConsecutive → out = []).
Proof.
  intros H Hcr Hslow. unfold eval_rule in H. destruct (snaps !! MetricName r) as [snap|].
  2: { by injection H as <- <-. }
  assert (∀ e2, consecutive (savePrevValues (MetricName r) snap e2) = consecutive e2) as Hsp.
  { intros e2. unfold savePrevValues. by destruct (s_Value snap). }
  destruct (decide (rule_Type r = RuleTypeConsecutive)) as [Ht|Ht].
  - assert (∃ e1, checkRule r snap e = (None, e1) ∧
      counts_reset (set_consecutive (MetricName r) 0 e1)) as (e1 & Hc & Hr1).
    { unfold checkRule. rewrite Ht. cbn. unfold checkConsecutive.
      destruct (match checkThreshold r snap with Some v => Some v | None => checkImmediate snap end)
        as [[val thr]|].
      - assert (consecutive_count (MetricName r) e <= 0 ∧ in_i64 (consecutive_count (MetricName r) e)) as [Hcnt Hin].
        { unfold consecutive_count. destruct (consecutive e !! MetricName r) eqn:E; [by eapply Hcr|done]. }
        rewrite i64_id by (unfold in_i64 in *; lia). specialize (Hslow Ht).
        destruct (Z.leb_spec (ConsecutiveN r) (consecutive_count (MetricName r) e + 1)); [lia|].
        eexists. split; [done|]. rewrite set_consecutive_twice. by apply set_consecutive_reset.
      - eexists. split; [done|]. rewrite set_consecutive_twice. by apply set_consecutive_reset. }
    rewrite Hc, Ht in H. cbn in H. injection H as <- <-. split; [|done].
    unfold counts_reset. by rewrite Hsp.
  - split; [|done].
    assert (∃ v, checkRule r snap e = (v, e)) as [v Hc].
    { unfold checkRule. destruct (Z.eqb_spec (rule_Type r) RuleTypeConsecutive); [done|].
      repeat case_match; eauto. }
    rewrite Hc in H. destruct v as [[val thr]|].
    + destruct (handleTriggered r val thr now snap cfg e) as [o e2] eqn:Hh. injection H as <- <-.
      unfold counts_reset. rewrite Hsp. unfold handleTriggered in Hh.
      repeat case_match; simplify_eq; done.
    + destruct (Z.eqb_spec (rule_Type r) RuleTypeConsecutive); [done|]. injection H as <- <-.
      unfold counts_reset. by rewrite Hsp.
Qed.
Lemma eval_rules_silent m snaps now cfg rs e :
  counts_reset e → Forall slow rs →
  Forall (λ r, MetricName r = m → rule_Type r = RuleTypeConsecutive) rs →
  let '(out, e') := eval_rules rs snaps now cfg e in
  counts_reset e' ∧ rules e' = rules e ∧ Forall (λ em, ev_MetricName (emitted em) ≠ m) out.
Proof.
  intros Hcr Hslow Hm. revert e Hcr. induction rs as [|r rs IH]; intros e Hcr; [done|].
  apply Forall_cons in Hslow as [Hs Hslow]. apply Forall_cons in Hm as [Hmr Hm].
  cbn [eval_rules]. destruct (eval_rule snaps now (cfg (length rs)) r e) as [o1 e1] eqn:E1.
  destruct (eval_consecutive_silent _ _ _ _ _ _ _ E1 Hcr Hs) as [Hcr1 Hsil].
  apply eval_rule_spec in E1 as (HR & _ & _ & Hout). specialize (IH Hslow Hm e1 Hcr1).
  destruct (eval_rules rs snaps now cfg e1) as [o2 e2]. destruct IH as (C2 & R2 & F2).
  split_and!; [done|congruence|]. apply Forall_app. split; [|done].
  destruct Hout as [[-> _]|(ev & Hev & _ & Ho & _)]; [done|].
  destruct (decide (MetricName r = m)) as [E|E]; [rewrite (Hsil (Hmr E)); done|].
  rewrite Ho. unfold deliver. apply Forall_app. split.
  - apply Forall_forall. intros em Hem. apply list_elem_of_In, in_map_iff in Hem as (n & <- & _).
    cbn. congruence.
  - destruct (store e); [|done]. constructor; [cbn; congruence|done].
Qed.

(** A consecutive rule that asks for at least two periods never fires. Every evaluation in
    which the period's condition holds but the count is not reached yet counts as "not
    triggered" and resets the count, so if a metric has only such rules no alert for it is ever
    emitted, however many consecutive periods satisfy the condition. *)
Lemma consecutive_never_fires (m : string) (rds : list round) (e : Engine) :
  counts_reset e → Forall slow (rules e) →
  Forall (λ r, MetricName r = m → rule_Type r = RuleTypeConsecutive) (rules e) →
  Forall (λ em, ev_MetricName (emitted em) ≠ m) (erun rds e).1.
Proof.
  revert e. induction rds as [|rd rds IH]; intros e Hcr Hslow Hm; cbn [erun]; [done|].
  pose proof (eval_rules_silent m (rd_snaps rd) (rd_now rd) (rd_cfg rd) (rules e) e Hcr Hslow Hm) as H.
  unfold Evaluate. destruct (eval_rules (rules e) _ _ _ e) as [o1 e1].
  destruct H as (C1 & R1 & F1). rewrite <- R1 in Hslow, Hm. specialize (IH e1 C1 Hslow Hm).
  destruct (erun rds e1) as [o2 e2]. apply Forall_app. by split.
Qed.

(** ** Surge rules *)
Lemma fabs_zero a : is_zero a = true → is_zero (fabs a) = true.
Proof. by destruct a. Qed.
Lemma zero_change x y :
  is_zero x = true → is_finite y = true → is_zero y = false →
  is_zero (fmul (fdiv x y) f100) = true.
Proof. destruct x as [s| | |], y as [| | |sy my ey]; try done. Qed.
Lemma fgt_zero x t : is_zero x = true → flt t f0 = false → fgt x t = false.
Proof. by destruct x. Qed.
Lemma feq_zero a : is_finite a = true → feq a f0 = is_zero a.
Proof. by destruct a as [[]| | |[]]. Qed.

(** A surge rule placed after another rule of the same gauge never fires. The previous value
    it compares with has just been overwritten by the current one, so the change it sees is
    zero, whatever the gauge really did. *)
Lemma surge_after_rule_never_fires (r1 r2 : Rule) (snaps : gmap string Snapshot)
    (snap : Snapshot) (v : float64) (now : Z) (c1 c2 : goerr + option NotifierConfig) (e : Engine) :
  MetricName r1 = MetricName r2 → snaps !! MetricName r2 = Some snap →
  s_Name snap = MetricName r2 → s_Value snap = SnapGauge v → is_finite v = true →
  rule_Type r2 = RuleTypeSurge → flt (Threshold r2) f0 = false →
  (eval_rule snaps now c2 r2 (eval_rule snaps now c1 r1 e).2).1 = [].
Proof.
  intros Hm Hs Hn Hv Hfin Ht Hthr. unfold eval_rule at 2. rewrite Hm, Hs.
  destruct (checkRule r1 snap e) as [vd e1].
  destruct (match vd with Some (value, threshold) => _ | None => _ end) as [o1 e2].
  cbn [snd]. unfold eval_rule. rewrite Hs.
  assert (checkRule r2 snap (savePrevValues (MetricName r2) snap e2)
          = (None, savePrevValues (MetricName r2) snap e2)) as Hc.
  { unfold checkRule. rewrite Ht. cbn. f_equal. unfold checkSurge, savePrevValues. rewrite Hv, Hn.
    cbn [prevGauges]. rewrite lookup_insert_eq, feq_zero by done.
    unfold surge_percent. rewrite feq_zero by done. destruct (is_zero v) eqn:Hz; [done|]. cbn [andb].
    assert (is_zero (fmul (fdiv (fabs (fsub v v)) (fabs v)) f100) = true) as Hz0
      by (apply zero_change; [apply fabs_zero; by apply fsub_diag|by destruct v|by destruct v]).
    rewrite fgt_zero; [|done|done]. done. }
  rewrite Hc, Ht. done.
Qed.

(** A surge rule alerts on the very first snapshot of a metric. With no previous value the
    change counts as 100 %, so any non-zero first value triggers a rule whose threshold is below
    100, although the code's comment says the first period does not alert. *)
Lemma surge_first_value_triggers (r : Rule) (snap : Snapshot) (v : float64) (e : Engine) :
  rule_Type r = RuleTypeSurge → s_Value snap = SnapGauge v → is_finite v = true → is_zero v = false →
  prevGauges e !! s_Name snap = None → prevCounters e !! s_Name snap = None →
  fgt f100 (Threshold r) = true →
  ∃ vd, checkRule r snap e = (Some vd, e).
Proof.
  intros Ht Hv Hfin Hz Hg Hc Hthr. unfold checkRule. rewrite Ht. cbn.
  unfold checkSurge. rewrite Hv, Hg, Hc, (feq_zero v), Hz by done.
  assert (surge_percent f0 v = f100) as -> by done. rewrite Hthr.
  change (feq f0 f0) with true. by eexists.
Qed.

(** ** The configuration provider *)
(** Degradation. [GetNotifierConfig] fails only when there is no fresh cache, no fallback,
    and the read or the decoding failed; whatever it answers is the fresh cache, the fallback or
    the stored value; and the value it answers from the store is answered again, without a read,
    until the cache's lifetime is over. *)
Lemma notifier_config_degrades (Get : string → goerr + string)
    (decode : string → goerr + NotifierConfig) (p : KVConfigProvider) (now1 now2 : Z) :
  let stored := match Get (kv_key p) with inl e => inl e | inr v => decode v end in
  let fresh := match kv_cache p with
               | Some c => if time_Sub now1 (kv_cacheAt p) <? kv_cacheTTL p then Some c else None
               | None => None
               end in
  let '(res, p') := GetNotifierConfig Get decode now1 now2 p in
  match fresh, stored, kv_fallback p with
  | Some c, _, _ => res = inr c ∧ p' = p
  | None, inr c, _ =>
      res = inr c ∧ kv_fallback p' = kv_fallback p ∧
      (∀ (Get' : string → goerr + string) n1 n2, time_Sub n1 now2 < kv_cacheTTL p →
         GetNotifierConfig Get' decode n1 n2 p' = (inr c, p'))
  | None, inl e, Some f => res = inr f ∧ p' = p
  | None, inl e, None => res = inl e ∧ p' = p
  end.
Proof.
  unfold GetNotifierConfig.
  destruct (match kv_cache p with Some c => _ | None => None end) as [c|] eqn:Hf.
  { destruct (kv_cache p) as [c'|]; [|done]. destruct (_ <? _); [|done]. by injection Hf as ->. }
  assert (∀ A (x : NotifierConfig → A) (y : A),
    match kv_cache p with
    | Some c => if time_Sub now1 (kv_cacheAt p) <? kv_cacheTTL p then x c else y
    | None => y end = y) as ->.
  { intros A x y. destruct (kv_cache p); [|done]. by destruct (_ <? _). }
  destruct (Get (kv_key p)) as [e|val]; [by destruct (kv_fallback p)|].
  destruct (decode val) as [e|c]; [by destruct (kv_fallback p)|].
  split_and!; try done. intros Get' n1 n2 Hn. cbn. apply Z.ltb_lt in Hn. by rewrite Hn.
Qed.

(** Every rule loaded from the store names a metric, has one of the five types and, for
    cooldowns that fit a [Duration], a positive cooldown: the one it asks for, or five minutes. *)
Lemma loaded_rules_valid (Get : string → goerr + string)
    (decode_rules : string → goerr + list RuleJSON) (key : string) (rs : list Rule) :
  GetRules Get decode_rules key = inr rs →
  Forall (λ r, MetricName r ≠ "" ∧ RuleTypeThreshold <= rule_Type r <= RuleTypeImmediate ∧
               RuleType_Text (rule_Type r) ≠ "unknown" ∧ 0 < CooldownPeriod r) rs.
Proof.
  unfold GetRules. intros H. destruct (Get key) as [|val]; [done|].
  case_bool_decide; [injection H as <-; constructor|].
  destruct (decode_rules val) as [|js]; [done|]. injection H as <-.
  apply Forall_forall. intros r (j & Hj & Hr)%list_elem_of_omap. unfold rule_of_json in Hr.
  case_bool_decide; [done|]. injection Hr as <-. cbn.
  split; [done|]. split; [|split].
  3: { destruct (Z.leb_spec (i64 (j_CooldownSeconds j * Second)) 0); [done|lia]. }
  all: unfold ParseRuleType; repeat case_bool_decide; vm_compute; done.
Qed.

(** ** Witnesses *)
Definition down_rule : Rule :=
  mkRule "errors" RuleTypeConsecutive 0 "errors" f0 2 0 (5 * Minute).
Definition surge_rule : Rule := mkRule "qps" RuleTypeSurge 1 "qps" f0 0 0 (5 * Minute).
Definition above_rule : Rule := mkRule "qps" RuleTypeThreshold 1 "qps" f0 0 0 (5 * Minute).
Definition count_snap (z : Z) : Snapshot := mkSnapshot "errors" (SnapCounter z) ∅ "svc" 0.
Definition qps_snap : Snapshot := mkSnapshot "qps" (SnapGauge f100) ∅ "svc" 0.
Definition no_cfg : nat → goerr + option NotifierConfig := λ _, inr None.
Definition rounds : list round :=
  [mkRound {["qps" := qps_snap; "errors" := count_snap 3]} 0 no_cfg;
   mkRound {["qps" := qps_snap; "errors" := count_snap 4]} (10 * Minute) no_cfg].
Definition demo_engine : Engine :=
  NewEngine "svc" [above_rule; down_rule; surge_rule] [WithStore].

(** The same with two notifiers and no store. *)
Definition notified_engine : Engine := mkEngine (rules demo_engine) [4%nat; 7%nat] ∅ ∅ ∅ ∅ false
  (configProvider demo_engine) "svc".
Lemma cooldown_respected_witness :
  (∃ evs, (erun rounds notified_engine).1 = flat_map (λ ev, [Send 4 ev; Send 7 ev]) evs ∧
     StronglySorted (spaced (5 * Minute)) (event_times "qps" evs)) ∧
  map (λ em, (match em with Send n _ => n | Save _ => 0%nat end, ev_Timestamp (emitted em))) (erun rounds notified_engine).1
    = [(4%nat, 0); (7%nat, 0); (4%nat, 10 * Minute); (7%nat, 10 * Minute)].
Proof.
  split; [|vm_compute; reflexivity].
  apply (cooldown_respected "qps" (5 * Minute) rounds notified_engine 0).
  - by vm_compute.
  - intros last Hl. by vm_compute in Hl.
  - repeat constructor; intros _; vm_compute; congruence.
  - repeat constructor; vm_compute; congruence.
  - repeat constructor; vm_compute; congruence.
Defined.
Lemma consecutive_never_fires_witness :
  Forall (λ em, ev_MetricName (emitted em) ≠ "errors") (erun rounds demo_engine).1.
Proof.
  apply consecutive_never_fires.
  - intros n c Hl. by vm_compute in Hl.
  - repeat constructor; intros; vm_compute; congruence.
  - repeat constructor; intros Hm; vm_compute; try done; by vm_compute in Hm.
Defined.
Lemma surge_after_rule_never_fires_witness :
  (eval_rule {["qps" := qps_snap]} 0 (inr None) surge_rule
     (eval_rule {["qps" := qps_snap]} 0 (inr None) above_rule demo_engine).2).1 = [].
Proof. apply (surge_after_rule_never_fires _ _ _ qps_snap f100); try reflexivity. Defined.
Lemma surge_first_value_triggers_witness :
  ∃ vd, checkRule surge_rule qps_snap demo_engine = (Some vd, demo_engine).
Proof. apply (surge_first_value_triggers _ _ f100); try reflexivity. Defined.
Lemma loaded_rules_valid_witness :
  let js := [mkRuleJSON "" "rate" 0 "skipped" f0 0 60; mkRuleJSON "qps" "surge" 1 "qps" f0 0 0] in
  Forall (λ r, MetricName r ≠ "" ∧ RuleTypeThreshold <= rule_Type r <= RuleTypeImmediate ∧
               RuleType_Text (rule_Type r) ≠ "unknown" ∧ 0 < CooldownPeriod r)
    [mkRule "qps" RuleTypeSurge 1 "qps" f0 0 0 (5 * Minute)].
Proof.
  intros js. apply (loaded_rules_valid (λ _, inr "[...]") (λ _, inr js) "alert:rules").
  vm_compute. reflexivity.
Defined.
