(* ===== verification/Watch.v ===== *)
(** From a counter to an alert: the metrics registry (pkg/metrics) with the alert engine
    (pkg/alert) as its snapshot callback, [metrics.Init] with [OnSnapshot: alert.EvaluateFunc()]. *)
From stdpp Require Import prelude gmap strings list sorting.
From Stdlib Require Import SpecFloat.
From S2P Require Import Prelude GoStrings GoFloat Metrics Alert AlertProofs.

(** ** The pipeline *)
(** An operation on the metrics, the time of the engine's clock if it is called, and what the
    configuration provider would answer. *)
Record event := mkEvent { v_op : mop; v_time : Z; v_cfg : nat → goerr + option NotifierConfig }.
(** A delivery reaches the engine if the registry has the callback among its consumers. *)
Definition hand (ev : event) (d : delivery) (e : option Engine) : list emission * option Engine :=
  match d with
  | Some (cs, m) =>
      if existsb (λ c, match c with ToCallback => true | _ => false end) cs
      then EvaluateFunc m (v_time ev) (v_cfg ev) e else ([], e)
  | None => ([], e)
  end.
Fixpoint hand_all (ev : event) (ds : list delivery) (e : option Engine) : list emission * option Engine :=
  match ds with
  | [] => ([], e)
  | d :: ds =>
      let '(o1, e) := hand ev d e in let '(o2, e) := hand_all ev ds e in (o1 ++ o2, e)
  end.
Definition watch_step (ev : event) (s : Registry * option Engine) : list emission * (Registry * option Engine) :=
  let '(ds, r) := mstep (v_op ev) s.1 in
  let '(out, e) := hand_all ev ds s.2 in (out, (r, e)).
Fixpoint watch_run (evs : list event) (s : Registry * option Engine) : list emission * (Registry * option Engine) :=
  match evs with
  | [] => ([], s)
  | ev :: evs =>
      let '(o1, s) := watch_step ev s in let '(o2, s) := watch_run evs s in (o1 ++ o2, s)
  end.
Lemma watch_run_app evs1 evs2 s :
  watch_run (evs1 ++ evs2) s
  = ((watch_run evs1 s).1 ++ (watch_run evs2 (watch_run evs1 s).2).1, (watch_run evs2 (watch_run evs1 s).2).2).
Proof.
  revert s. induction evs1 as [|ev evs1 IH]; intros s; cbn [app watch_run fst snd].
  { by destruct (watch_run evs2 s). }
  destruct (watch_step ev s) as [o1 s1]. rewrite IH. destruct (watch_run evs1 s1) as [o2 s2]. cbn [fst snd].
  by rewrite app_assoc.
Qed.

(** ** The engine's side *)
Section engine.
Context (n : string) (C : Z) (rule : Rule).
Hypothesis watched : MetricName rule = n.
Hypothesis immediate : rule_Type rule = RuleTypeImmediate.
Hypothesis cooldown : CooldownPeriod rule = C.
Hypothesis positive : 0 < C.

(** The provider does not disable alerting. *)
Definition never_off (cfg : nat → goerr + option NotifierConfig) : Prop := ∀ k c, cfg k = inr (Some c) → Enabled c = true.
(** The engine has the rule, delivers by [D], has a provider if [b], and its last alert of the
    metric, if any, is among [alerts]. *)
Context (D : AlertEvent → list emission) (b : bool).
Record watching (now : Z) (alerts : list AlertEvent) (e : Engine) : Prop := {
  wt_rule : rule ∈ rules e;
  wt_deliver : deliver e = D;
  wt_provider : configProvider e = b;
  wt_cooled : cooled n now e;
  wt_periods : Forall (λ r, MetricName r = n → 0 <= CooldownPeriod r) (rules e);
  wt_last t : cooldowns e !! n = Some t → t ∈ event_times n alerts }.

Lemma eval_rule_provider snaps now cfg r e :
  configProvider (eval_rule snaps now cfg r e).2 = configProvider e.
Proof.
  unfold eval_rule. destruct (snaps !! MetricName r) as [snap|]; [|done].
  pose proof (checkRule_provider r snap e) as He. destruct (checkRule r snap e) as [v e1]. cbn [snd] in He.
  destruct v as [[val thr]|].
  - pose proof (handleTriggered_provider r val thr now snap cfg e1) as Hh.
    destruct (handleTriggered _ _ _ _ _ _ _) as [o e2]. cbn [snd] in *. by rewrite savePrevValues_provider, Hh.
  - cbn [snd]. rewrite savePrevValues_provider. by destruct (rule_Type r =? RuleTypeConsecutive).
Qed.
Lemma eval_rules_provider rs snaps now cfg e :
  configProvider (eval_rules rs snaps now cfg e).2 = configProvider e.
Proof.
  revert e. induction rs as [|r rs IH]; intros e; [done|]. cbn [eval_rules].
  pose proof (eval_rule_provider snaps now (cfg (length rs)) r e) as H1.
  destruct (eval_rule _ _ _ r e) as [o1 e1]. specialize (IH e1).
  destruct (eval_rules rs _ _ _ e1) as [o2 e2]. cbn [snd] in *. congruence.
Qed.

Definition recent (now : Z) (e : Engine) : Prop :=
  ∃ t, cooldowns e !! n = Some t ∧ now - C < t <= now.
(** The rule itself: it alerts, or an alert is recent. *)
Lemma immediate_fires snaps now cfg snap v e :
  snaps !! n = Some snap → s_Value snap = SnapCounter v → 0 < v → in_time now →
  cooled n now e → (configProvider e = true → ∀ c, cfg = inr (Some c) → Enabled c = true) →
  recent now (eval_rule snaps now cfg rule e).2.
Proof.
  intros Hs Hv Hpos Hnow Hc Hfree. unfold eval_rule. rewrite watched, Hs.
  unfold checkRule. rewrite immediate. cbn [Z.eqb RuleTypeImmediate Pos.eqb].
  unfold checkImmediate. rewrite Hv. replace (0 <? v) with true by lia.
  assert (∀ e2, cooldowns (savePrevValues n snap e2) = cooldowns e2) as Hsp.
  { intros e2. unfold savePrevValues. by rewrite Hv. }
  assert (configProvider e && match cfg with inr (Some c) => negb (Enabled c) | _ => false end = false) as Hon.
  { destruct (configProvider e); [|done]. cbn [andb]. destruct cfg as [|[c|]]; try done. by rewrite (Hfree eq_refl c). }
  unfold handleTriggered. rewrite watched, cooldown, Hon.
  destruct (cooldowns e !! n) as [last|] eqn:Hl.
  - destruct (Hc last Hl) as [Hle Hin]. unfold in_time in *.
    rewrite time_Sub_id by (unfold in_i64; lia).
    destruct (Z.ltb_spec (now - last) C); cbn [snd]; unfold recent; rewrite Hsp.
    + exists last. split; [done|lia].
    + exists now. cbn [cooldowns set_cooldown]. rewrite lookup_insert_eq. split; [done|lia].
  - cbn [snd]. exists now. rewrite Hsp. cbn [cooldowns set_cooldown]. rewrite lookup_insert_eq.
    split; [done|lia].
Qed.
Lemma recent_kept rs snaps now cfg e :
  recent now e → recent now (eval_rules rs snaps now cfg e).2.
Proof.
  revert e. induction rs as [|r rs IH]; intros e Hr; [done|]. cbn [eval_rules].
  destruct (eval_rule snaps now (cfg (length rs)) r e) as [o1 e1] eqn:E1.
  apply eval_rule_spec in E1 as (_ & _ & _ & Hcd).
  assert (recent now e1) as Hr1.
  { destruct Hr as (t & Ht & Hw). unfold recent.
    destruct Hcd as [[_ Hcd]|(ev & _ & _ & _ & Hcd & _)]; rewrite Hcd; [by exists t|].
    destruct (decide (MetricName r = n)) as [->|Hne].
    - exists now. rewrite lookup_insert_eq. split; [done|lia].
    - exists t. by rewrite lookup_insert_ne. }
  specialize (IH e1 Hr1). by destruct (eval_rules rs _ _ _ e1).
Qed.

(** The rule among the others, wherever it stands. *)
Lemma rules_fire l1 l2 snaps now cfg snap v e :
  snaps !! n = Some snap → s_Value snap = SnapCounter v → 0 < v → in_time now → cooled n now e →
  (configProvider e = true → never_off cfg) →
  Forall (λ r, MetricName r = n → 0 <= CooldownPeriod r) (l1 ++ rule :: l2) →
  recent now (eval_rules (l1 ++ rule :: l2) snaps now cfg e).2.
Proof.
  intros Hs Hv Hpos Hnow Hc Hoff Wp. revert e Hc Hoff. induction l1 as [|r l1 IH]; intros e Hc Hoff; cbn [app eval_rules].
  - pose proof (immediate_fires snaps now (cfg (length l2)) snap v e Hs Hv Hpos Hnow Hc (λ Hp c, Hoff Hp (length l2) c)) as Hf.
    destruct (eval_rule _ _ _ rule e) as [o1 e1]. pose proof (recent_kept l2 snaps now cfg e1 Hf) as Hk.
    by destruct (eval_rules l2 _ _ _ e1).
  - apply Forall_cons in Wp as [Wp1 Wp].
    destruct (eval_rule snaps now (cfg (length (l1 ++ rule :: l2))) r e) as [o1 e1] eqn:E1.
    pose proof (eval_rule_provider snaps now (cfg (length (l1 ++ rule :: l2))) r e) as Hf1. rewrite E1 in Hf1. cbn [snd] in Hf1.
    destruct (eval_rule_events n 0 _ _ _ _ _ _ _ E1 Hnow Wp1 Hc) as (ev1 & _ & Ht).
    assert (cooled n now e1) as Hc1.
    { intros t Htt. destruct Ht as [[_ Hcd]|(_ & Hcd & _)]; rewrite Hcd in Htt; [by apply Hc|].
      injection Htt as <-. split; [lia|done]. }
    specialize (IH Wp e1 Hc1). rewrite Hf1 in IH. specialize (IH Hoff). by destruct (eval_rules (l1 ++ rule :: l2) _ _ _ e1).
Qed.
(** An evaluation keeps watching; with a positive count it leaves a recent alert. *)
Lemma evaluate_watching snaps now t0 cfg alerts e :
  watching t0 alerts e → t0 <= now → in_time now → (b = true → never_off cfg) →
  let '(o, e') := Evaluate snaps now cfg e in
  ∃ more, o = flat_map D more ∧ watching now (alerts ++ more) e' ∧
  ∀ snap v, snaps !! n = Some snap → s_Value snap = SnapCounter v → 0 < v → recent now e'.
Proof.
  intros [Wr Wd Wf Wc Wp Wl] Hle Hnow Hoff. unfold Evaluate.
  assert (cooled n now e) as Hc by (intros t Ht; destruct (Wc t Ht); split; [lia|done]).
  pose proof (eval_rules_events n 0 snaps now cfg (rules e) e ltac:(lia) Hnow Hc Wp) as Ht.
  pose proof (eval_rules_provider (rules e) snaps now cfg e) as Hfree.
  assert (∀ snap v, snaps !! n = Some snap → s_Value snap = SnapCounter v → 0 < v →
    recent now (eval_rules (rules e) snaps now cfg e).2) as Hrec.
  { intros snap v Hs Hv Hpos. apply list_elem_of_split in Wr as (l1 & l2 & Hl). rewrite Hl in Wp |- *.
    eapply rules_fire; try done. by rewrite Wf. }
  destruct (eval_rules (rules e) snaps now cfg e) as [o e']. cbn [snd] in *.
  destruct Ht as ((more & -> & _ & _ & Hlast) & Hc' & Hd' & _ & Hr'). exists more. rewrite Wd in *.
  split; [done|]. split; [|exact Hrec].
  split; try congruence; [done|]. intros t Htt. rewrite event_times_app. apply elem_of_app.
  destruct (last (event_times n more)) as [t1|] eqn:El.
  - right. rewrite Hlast in Htt. injection Htt as <-. apply last_Some in El as [l ->].
    apply elem_of_app. right. by left.
  - left. apply Wl. congruence.
Qed.
End engine.

(** ** The registry's side *)
Definition not_collect (o : mop) : Prop := match o with MCollect _ => False | _ => True end.
Section registry.
Context (n : string).
(** The registry delivers to the engine, [n] is only a counter, and no sum overflows. *)
Record counting (rest : list mop) (r : Registry) : Prop := {
  ct_callback : ∃ cs, onSnapshot r = Some cs ∧ ToCallback ∈ cs;
  ct_only : counter_only n r;
  ct_value : 0 <= counter_value n r;
  ct_kinds : Forall (op_kind_ok n) rest;
  ct_added : Forall (λ o, 0 <= delta_of n o) rest;
  ct_bound : counter_value n r + zsum (delta_of n <$> rest) < 2 ^ 63 }.

Lemma deltas_nonneg os : Forall (λ o, 0 <= delta_of n o) os → 0 <= zsum (delta_of n <$> os).
Proof. intros Hos. apply zsum_nonneg. by apply Forall_fmap. Qed.
Lemma counting_step o rest r :
  counting (o :: rest) r →
  counting rest (mstep o r).2 ∧
  (not_collect o → (mstep o r).1 = [] ∧ counter_value n (mstep o r).2 = counter_value n r + delta_of n o).
Proof.
  intros [(cs & Hcb & Hin) Hon Hv Hk Ha Hb]. apply Forall_cons in Hk as [Ho Hk]. apply Forall_cons in Ha as [Hd Ha].
  rewrite fmap_cons in Hb. cbn [zsum] in Hb. pose proof (deltas_nonneg rest Ha) as Hnn.
  assert (in_i64 (counter_value n r)) as Hi by (unfold in_i64; lia).
  assert (not_collect o → (mstep o r).1 = [] ∧ counter_value n (mstep o r).2 = counter_value n r + delta_of n o) as Hnc.
  { intros Hc. pose proof (mstep_counter n o r ltac:(congruence) Hon Ho Hi) as Hs.
    assert ((mstep o r).1 = []) as E.
    { destruct o; cbn [mstep]; try done; by repeat case_match. }
    destruct (mstep o r) as [ds r']. cbn [fst snd] in *. subst ds. destruct Hs as (Hs & _ & _ & Hi').
    split; [done|]. cbn [fmap list_fmap zsum] in Hs. rewrite Z.add_0_l, (i64_id _ Hi') in Hs.
    rewrite Hs. apply i64_id. unfold in_i64. lia. }
  split; [|exact Hnc].
  pose proof (mstep_counter n o r ltac:(congruence) Hon Ho Hi) as Hs.
  assert (0 <= counter_value n (mstep o r).2 <= counter_value n r + delta_of n o) as Hval.
  { destruct o as [| | | |now]; try (destruct (Hnc I) as [_ ->]; lia).
    cbn [mstep delta_of]. pose proof (collect_counter n now r ltac:(congruence) Hon Hi) as Hc.
    destruct (collectAndNotify now r) as [d r']. cbn [snd]. destruct Hc as (_ & -> & _). lia. }
  destruct (mstep o r) as [ds r']. cbn [snd] in *. destruct Hs as (_ & Hon' & Hcb' & _).
  split; [exists cs; by rewrite Hcb'|done|lia|done|done|lia].
Qed.
(** A collection of a positive count hands the engine a snapshot of it. *)
Lemma collect_delivers now rest r :
  counting (MCollect now :: rest) r → 0 < counter_value n r →
  ∃ cs m snap v, (mstep (MCollect now) r).1 = [Some (cs, m)] ∧ ToCallback ∈ cs ∧
    m !! n = Some snap ∧ s_Value snap = SnapCounter v ∧ 0 < v.
Proof.
  intros [(cs & Hcb & Hin) Hon Hv Hk Ha Hb] Hpos. cbn [mstep].
  rewrite fmap_cons in Hb. cbn [zsum] in Hb.
  apply Forall_cons in Ha as [Hd Ha]. pose proof (deltas_nonneg rest Ha). cbn [delta_of] in Hb.
  assert (in_i64 (counter_value n r)) as Hi by (unfold in_i64; lia).
  pose proof (collect_counter n now r ltac:(congruence) Hon Hi) as Hc.
  assert (∀ d r', collectAndNotify now r = (d, r') → ∀ cs' m, d = Some (cs', m) → cs' = cs) as Hcs.
  { intros d r' E cs' m ->. unfold collectAndNotify in E. rewrite Hcb in E. by case_bool_decide; simplify_eq. }
  destruct (collectAndNotify now r) as [d r'] eqn:E. destruct Hc as (Hc & _). specialize (Hcs d r' eq_refl).
  cbn [fst]. unfold delivered in Hc. destruct d as [[cs' m]|]; [|lia].
  specialize (Hcs cs' m eq_refl) as ->.
  destruct (m !! n) as [snap|] eqn:Em; [|lia]. exists cs, m, snap, (counter_value n r).
  split_and!; try done. destruct (s_Value snap); try lia. by subst.
Qed.
End registry.

(** ** Both together *)
Section watch.
Context (n : string) (C : Z) (rule : Rule).
Hypothesis watched : MetricName rule = n.
Hypothesis immediate : rule_Type rule = RuleTypeImmediate.
Hypothesis cooldown : CooldownPeriod rule = C.
Hypothesis positive : 0 < C.

Definition ops (evs : list event) : list mop := map v_op evs.
Context (D : AlertEvent → list emission) (b : bool).
Definition ready (t : Z) (alerts : list AlertEvent) (rest : list event) (s : Registry * option Engine) : Prop :=
  counting n (ops rest) s.1 ∧ ∃ e, s.2 = Some e ∧ watching n rule D b t alerts e.
(** The event is at a time the clock has, and the provider does not silence the engine then. *)
Definition event_ok (ev : event) : Prop := in_time (v_time ev) ∧ (b = true → never_off (v_cfg ev)).

Lemma mstep_short o r : (length (mstep o r).1 <= 1)%nat.
Proof. destruct o; cbn [mstep]; repeat case_match; cbn; lia. Qed.
Lemma watch_step_ready ev rest t0 alerts s :
  ready t0 alerts (ev :: rest) s → t0 <= v_time ev → event_ok ev →
  let '(o, s') := watch_step ev s in
  ∃ more, o = flat_map D more ∧ ready (v_time ev) (alerts ++ more) rest s' ∧
  (not_collect (v_op ev) → counter_value n s'.1 = counter_value n s.1 + delta_of n (v_op ev)) ∧
  (∀ t, v_op ev = MCollect t → 0 < counter_value n s.1 → ∃ e', s'.2 = Some e' ∧ recent n C (v_time ev) e').
Proof.
  destruct s as [r oe]. intros [Hct (e & He & Hw)] Hle [Hnow Hoff]. cbn [fst snd] in *. subst oe.
  unfold watch_step. cbn [fst snd]. destruct (counting_step n _ _ _ Hct) as [Hct' Hnc].
  pose proof (mstep_short (v_op ev) r) as Hlen.
  assert (∀ t, v_op ev = MCollect t → 0 < counter_value n r → ∃ cs m snap v, (mstep (v_op ev) r).1 = [Some (cs, m)] ∧
    ToCallback ∈ cs ∧ m !! n = Some snap ∧ s_Value snap = SnapCounter v ∧ 0 < v) as Hcol.
  { intros t Et Hpos. unfold ops in Hct. cbn [map] in Hct. rewrite Et in Hct |- *.
    by eapply collect_delivers. }
  destruct (mstep (v_op ev) r) as [ds r']. cbn [fst snd] in *.
  assert (watching n rule D b (v_time ev) alerts e) as Hw0.
  { destruct Hw. split; try done. intros t Ht. destruct (wt_cooled0 t Ht). split; [lia|done]. }
  (* nothing reaches the engine *)
  assert ((∀ t, v_op ev = MCollect t → 0 < counter_value n r → False) →
    ∃ more, [] = flat_map D more ∧ ready (v_time ev) (alerts ++ more) rest (r', Some e) ∧
    (not_collect (v_op ev) → counter_value n r' = counter_value n r + delta_of n (v_op ev)) ∧
    (∀ t, v_op ev = MCollect t → 0 < counter_value n r → ∃ e', Some e = Some e' ∧ recent n C (v_time ev) e')) as Hidle.
  { intros Hno. exists []. rewrite app_nil_r. split_and!; [done|split; [exact Hct'|by exists e]|by intros Hn; destruct (Hnc Hn)|].
    intros t Et Hpos. by destruct (Hno t Et Hpos). }
  destruct ds as [|d [|d2 ds]]; cbn [length] in Hlen; [| |lia]; cbn [hand_all].
  { apply Hidle. intros t Et Hpos. by destruct (Hcol t Et Hpos) as (? & ? & ? & ? & ? & _). }
  unfold hand. destruct d as [[cs m]|].
  2: { apply Hidle. intros t Et Hpos. by destruct (Hcol t Et Hpos) as (? & ? & ? & ? & ? & _). }
  destruct (existsb _ cs) eqn:Ecb.
  2: { apply Hidle. intros t Et Hpos. destruct (Hcol t Et Hpos) as (cs' & m' & _ & _ & Ed & Hin & _). injection Ed as <- <-.
       assert (existsb (λ c, match c with ToCallback => true | _ => false end) cs = true); [|congruence].
       apply existsb_exists. exists ToCallback. split; [by apply list_elem_of_In|done]. }
  cbn [EvaluateFunc].
  pose proof (evaluate_watching n C rule watched immediate cooldown positive D b m (v_time ev) (v_time ev)
                (v_cfg ev) alerts e Hw0 ltac:(lia) Hnow Hoff) as Hev.
  destruct (Evaluate m (v_time ev) (v_cfg ev) e) as [o e']. destruct Hev as (more & -> & Hw' & Hrec).
  rewrite app_nil_r. exists more. split_and!; [done|split; [exact Hct'|by exists e']|by intros Hn; destruct (Hnc Hn)|].
  intros t Et Hpos. destruct (Hcol t Et Hpos) as (cs' & m' & snap & v & Ed & _ & Hm & Hsv & Hv).
  injection Ed as <- <-. exists e'. split; [done|]. by eapply Hrec.
Qed.

Lemma watch_run_ready evs rest t0 alerts s :
  ready t0 alerts (evs ++ rest) s → Forall event_ok evs →
  StronglySorted Z.le (t0 :: map v_time evs) →
  ∃ t more, (watch_run evs s).1 = flat_map D more ∧ ready t (alerts ++ more) rest (watch_run evs s).2 ∧
    t ∈ t0 :: map v_time evs ∧
    (Forall (λ ev, not_collect (v_op ev)) evs →
     counter_value n (watch_run evs s).2.1 = counter_value n s.1 + zsum (delta_of n <$> ops evs)).
Proof.
  revert t0 alerts s. induction evs as [|ev evs IH]; intros t0 alerts s Hr Ht Hs; cbn [watch_run app map fst snd] in *.
  { exists t0, []. rewrite app_nil_r. split_and!; [done|done|by left|intros _; cbn; lia]. }
  apply Forall_cons in Ht as [Ht1 Ht]. apply StronglySorted_inv in Hs as [Hs Hall].
  apply Forall_cons in Hall as [Hle Hall].
  pose proof (watch_step_ready ev (evs ++ rest) t0 alerts s Hr Hle Ht1) as Hp.
  destruct (watch_step ev s) as [o1 s1]. destruct Hp as (m1 & -> & Hr1 & Hnc & _).
  destruct (IH (v_time ev) (alerts ++ m1) s1 Hr1 Ht Hs) as (t & m2 & Eo & Hr2 & Hin & Hval).
  destruct (watch_run evs s1) as [o2 s2]. cbn [fst snd] in *. exists t, (m1 ++ m2). rewrite app_assoc, flat_map_app, Eo.
  split_and!; [done|done|by right|].
  intros Hf. apply Forall_cons in Hf as [Hf1 Hf].
  unfold ops. cbn [map]. rewrite fmap_cons. cbn [zsum]. rewrite (Hval Hf), (Hnc Hf1). unfold ops. lia.
Qed.

Lemma StronglySorted_from (t : Z) (l1 l2 : list Z) (u : Z) :
  StronglySorted Z.le (t :: l1 ++ l2) → u ∈ t :: l1 → StronglySorted Z.le (u :: l2).
Proof.
  intros Hs Hu. rewrite app_comm_cons in Hs. apply StronglySorted_app in Hs as (Hx & _ & H2).
  constructor; [done|]. apply Forall_forall. intros y Hy. by apply Hx.
Qed.
End watch.

(** C25: A watched counter is alerted. Take a registry that delivers to an engine with an
    immediate rule, of positive cooldown, for a counter whose name no metric of another kind
    bears, to which nothing negative is added and which does not overflow; and let the engine have
    no configuration provider, or one that never answers that alerting is disabled. Whatever else
    happens to the metrics and whatever the other rules are (those of the counter have no negative
    cooldown), when something was added to the counter since the last collection, then after the
    next one there is an alert for it, handed to every notifier and the store, that is no older than
    the rule's cooldown. *)
Theorem increments_alerted (n : string) (rule : Rule) (pre mid : list event) (a c : event) (d t t0 : Z)
    (r : Registry) (e : Engine) :
  let evs := pre ++ a :: mid ++ [c] in
  let D := λ ev, map (λ k, Send k ev) (notifiers e) ++ (if store e then [Save ev] else []) in
  MetricName rule = n → rule_Type rule = RuleTypeImmediate → 0 < CooldownPeriod rule →
  counting n (ops evs) r → watching n rule D (configProvider e) t0 [] e →
  Forall (event_ok (configProvider e)) evs → StronglySorted Z.le (t0 :: map v_time evs) →
  v_op a = MAdd n d → 0 < d → Forall (λ ev, not_collect (v_op ev)) mid → v_op c = MCollect t →
  ∃ alerts, (watch_run evs (r, Some e)).1 = flat_map D alerts ∧
  ∃ u, u ∈ event_times n alerts ∧ v_time c - CooldownPeriod rule < u <= v_time c.
Proof.
  intros evs D Hrn Hri Hrc Hct Hw Hin Hs Ha Hd Hmid Hc. unfold evs in *. clear evs. set (b := configProvider e) in *.
  assert (ready n rule D b t0 [] (pre ++ a :: mid ++ [c]) (r, Some e)) as Hr0 by (split; [done|by exists e]).
  apply Forall_app in Hin as [Hin1 Hin]. rewrite app_comm_cons in Hin.
  apply Forall_app in Hin as [Hin2 Hin3]. apply Forall_cons in Hin3 as [Hin3 _].
  rewrite map_app in Hs. pose proof Hs as Hs1. rewrite app_comm_cons in Hs1.
  apply StronglySorted_app in Hs1 as (_ & Hs1 & _).
  destruct (watch_run_ready n _ rule Hrn Hri eq_refl Hrc D b pre (a :: mid ++ [c]) t0 [] (r, Some e) Hr0 Hin1 Hs1)
    as (t1 & m1 & E1 & Hr1 & Ht1 & _).
  pose proof (StronglySorted_from _ _ _ _ Hs Ht1) as Hs2.
  rewrite app_comm_cons, map_app in Hs2. pose proof Hs2 as Hs3. rewrite app_comm_cons in Hs3.
  apply StronglySorted_app in Hs3 as (_ & Hs3 & _).
  rewrite (watch_run_app pre). destruct (watch_run pre (r, Some e)) as [o1 s1]. cbn [fst snd] in *.
  destruct (watch_run_ready n _ rule Hrn Hri eq_refl Hrc D b (a :: mid) [c] t1 _ s1 Hr1 Hin2 Hs3)
    as (t2 & m2 & E2 & Hr2 & Ht2 & Hval).
  pose proof (StronglySorted_from _ _ _ _ Hs2 Ht2) as Hs4. cbn [map] in Hs4.
  apply StronglySorted_inv in Hs4 as [_ Hle]. apply Forall_cons in Hle as [Hle _].
  assert (0 < counter_value n (watch_run (a :: mid) s1).2.1) as Hpos.
  { rewrite Hval by (constructor; [by rewrite Ha|done]). destruct Hr1 as [[_ _ Hv _ Hadd _] _].
    unfold ops in *. cbn [map] in *. rewrite fmap_cons, Ha. cbn [zsum delta_of].
    rewrite bool_decide_eq_true_2 by done. rewrite map_app in Hadd.
    apply Forall_cons in Hadd as [_ Hadd]. apply Forall_app in Hadd as [Hadd _].
    pose proof (deltas_nonneg n _ Hadd). lia. }
  rewrite app_comm_cons, (watch_run_app (a :: mid)).
  destruct (watch_run (a :: mid) s1) as [o2 s2]. cbn [fst snd] in *.
  pose proof (watch_step_ready n _ rule Hrn Hri eq_refl Hrc D b c [] t2 _ s2 Hr2 Hle Hin3) as Hp. cbn [watch_run].
  destruct (watch_step c s2) as [o3 s3]. destruct Hp as (m3 & -> & [_ (e' & He' & Hw')] & _ & Hrec).
  destruct (Hrec t Hc Hpos) as (e2 & He2 & u & Hu & Hwin). exists (m1 ++ m2 ++ m3).
  rewrite He' in He2. injection He2 as <-. pose proof (wt_last _ _ _ _ _ _ _ Hw' u Hu) as Hlast.
  cbn [fst]. split; [by rewrite !flat_map_app, E1, E2, app_nil_r|]. exists u. split; [|done]. by rewrite <-app_assoc in Hlast.
Qed.

(** ** Errors of a service, watched *)
Definition watch_rule : Rule := mkRule "errors" RuleTypeImmediate 1 "errors" f0 0 0 (5 * Minute).
Definition watch_registry : Registry := newRegistry "svc" (10 * Second) (Some [ToPrometheus; ToCallback]).
(** An engine that has a provider, which answers that alerting is on or fails, and a notifier. *)
Definition hooked_engine : Engine :=
  AddNotifier 3 (NewEngine "svc" [mkRule "latency" RuleTypeThreshold 2 "slow" (f_of_Z 100) 0 0 Minute; watch_rule] [WithConfigProvider]).
Definition answered (t : Z) (o : mop) : event :=
  mkEvent o t (λ k, if (k =? 0)%nat then inr (Some (mkNotifierConfig "https://hook" "" true)) else inl (ErrExt "timeout")).
Lemma increments_alerted_witness :
  let pre := [answered 1 (MAdd "errors" 2); answered 2 (MCollect 2); answered 3 (MGaugeSet "latency" (f_of_Z 250))] in
  let mid := [answered 5 (MObserve "size" f1)] in
  let evs := pre ++ answered 4 (MAdd "errors" 1) :: mid ++ [answered (6 * Minute) (MCollect 9)] in
  (∃ alerts, (watch_run evs (watch_registry, Some hooked_engine)).1 = flat_map (λ ev, [Send 3 ev]) alerts ∧
   ∃ u, u ∈ event_times "errors" alerts ∧ 6 * Minute - 5 * Minute < u <= 6 * Minute) ∧
  map (λ em, (ev_MetricName (emitted em), ev_Timestamp (emitted em))) (watch_run evs (watch_registry, Some hooked_engine)).1
    = [("errors", 2); ("latency", 6 * Minute); ("errors", 6 * Minute)].
Proof.
  intros pre mid evs. split; [|vm_compute; reflexivity].
  apply (increments_alerted "errors" watch_rule pre mid
           (answered 4 (MAdd "errors" 1)) (answered (6 * Minute) (MCollect 9)) 1 9 0 watch_registry hooked_engine).
  - reflexivity.
  - reflexivity.
  - reflexivity.
  - split; [by eexists; split; [reflexivity|right; left]|by split_and!|done|by repeat constructor|
            by repeat constructor|vm_compute; reflexivity].
  - split; [right; by left|done|done|done|repeat constructor; vm_compute; discriminate|done].
  - assert (∀ t o, in_time t → event_ok true (answered t o)) as Hok.
    { intros t o Ht. split; [exact Ht|]. intros _ k c. cbn. by destruct (k =? 0)%nat; [intros [= <-]|]. }
    repeat (apply Forall_cons_2; [apply Hok; vm_compute; by split|]). apply Forall_nil_2.
  - repeat constructor; vm_compute; congruence.
  - reflexivity.
  - reflexivity.
  - by repeat constructor.
  - reflexivity.
Defined.
