(* ===== verification/GoTime.v ===== *)
(** The calendar of Go's package time: days and civil dates, a location as its offset from UTC,
    [time.Date], [Format] and [Truncate].  An instant is nanoseconds from the Unix epoch. *)
From Stdlib Require Import Ascii.
From stdpp Require Import prelude strings list.
From S2P Require Import Prelude GoStrings.

(** ** Days and dates *)
(** The civil date of a day counted from 1970-01-01, in eras of 400 years that begin in March. *)
Definition era_of (z : Z) : Z := (z + 719468) / 146097.
Definition doe_of (z : Z) : Z := (z + 719468) mod 146097.
Definition yoe_of (doe : Z) : Z := (doe - doe / 1460 + doe / 36524 - doe / 146096) / 365.
Definition doy_of (doe : Z) : Z := doe - (365 * yoe_of doe + yoe_of doe / 4 - yoe_of doe / 100).
Definition mp_of (doy : Z) : Z := (5 * doy + 2) / 153.
Definition civil_of_days (z : Z) : Z * Z * Z :=
  let doe := doe_of z in
  let mp := mp_of (doy_of doe) in
  let m := if mp <? 10 then mp + 3 else mp - 9 in
  (yoe_of doe + era_of z * 400 + (if m <=? 2 then 1 else 0), m, doy_of doe - (153 * mp + 2) / 5 + 1).
Definition days_of_civil (y m d : Z) : Z :=
  let y := if m <=? 2 then y - 1 else y in
  let yoe := y mod 400 in
  let mp := if 2 <? m then m - 3 else m + 9 in
  (y / 400) * 146097 + (yoe * 365 + yoe / 4 - yoe / 100 + ((153 * mp + 2) / 5 + d - 1)) - 719468.

Lemma doe_bounds z : 0 <= doe_of z < 146097.
Proof. unfold doe_of. apply Z.mod_pos_bound. lia. Qed.
Lemma yoe_bounds doe : 0 <= doe < 146097 → 0 <= yoe_of doe < 400.
Proof. unfold yoe_of. intros. dlia. Qed.
Lemma doy_bounds doe : 0 <= doe < 146097 → 0 <= doy_of doe < 366.
Proof. unfold doy_of, yoe_of. intros. dlia. Qed.
Lemma mp_bounds doy : 0 <= doy < 366 → 0 <= mp_of doy < 12 ∧ 0 <= doy - (153 * mp_of doy + 2) / 5 < 31.
Proof. unfold mp_of. intros. split; dlia. Qed.
Lemma civil_of_days_spec z :
  let '(y, m, d) := civil_of_days z in
  1 <= m <= 12 ∧ 1 <= d <= 31 ∧ ∀ d', days_of_civil y m d' = z - d + d'.
Proof.
  unfold civil_of_days. pose proof (doe_bounds z) as Hdoe. pose proof (yoe_bounds _ Hdoe) as Hyoe.
  pose proof (doy_bounds _ Hdoe) as Hdoy. destruct (mp_bounds _ Hdoy) as [Hmp Hd].
  set (mp := mp_of (doy_of (doe_of z))) in *.
  assert (1 <= (if mp <? 10 then mp + 3 else mp - 9) <= 12) as Hm by (destruct (Z.ltb_spec mp 10); lia).
  split_and!; [lia|lia|lia|lia|]. intros d'. unfold days_of_civil.
  set (m := if mp <? 10 then mp + 3 else mp - 9) in *.
  assert ((if 2 <? m then m - 3 else m + 9) = mp) as ->.
  { unfold m. destruct (Z.ltb_spec mp 10); [destruct (Z.ltb_spec 2 (mp + 3))|destruct (Z.ltb_spec 2 (mp - 9))]; lia. }
  assert ((if m <=? 2 then yoe_of (doe_of z) + era_of z * 400 + (if m <=? 2 then 1 else 0) - 1
           else yoe_of (doe_of z) + era_of z * 400 + (if m <=? 2 then 1 else 0))
          = yoe_of (doe_of z) + era_of z * 400) as -> by (destruct (m <=? 2); lia).
  rewrite Z.div_add, Z.mod_add, Z.div_small, Z.mod_small by lia.
  assert (era_of z * 146097 + doe_of z = z + 719468) as He.
  { unfold era_of, doe_of. rewrite Z.mul_comm, <-Z.div_mod; lia. }
  unfold doy_of. lia.
Qed.
(** A date names its day. *)
Lemma days_civil_roundtrip z : let '(y, m, d) := civil_of_days z in days_of_civil y m d = z.
Proof. pose proof (civil_of_days_spec z) as Hz. destruct (civil_of_days z) as [[y m] d]. destruct Hz as (_ & _ & ->). lia. Qed.
Example civil_examples :
  map civil_of_days [0; 19782; -719162; 11016; 20089] = [(1970, 1, 1); (2024, 2, 29); (1, 1, 1); (2000, 2, 29); (2025, 1, 1)].
Proof. vm_compute. reflexivity. Qed.

(** Leap years and the days of a month. *)
Definition is_leap (y : Z) : bool :=
  (y mod 4 =? 0) && (negb (y mod 100 =? 0) || (y mod 400 =? 0)).
Definition days_in (m y : Z) : Z :=
  if m =? 2 then (if is_leap y then 29 else 28)
  else if (m =? 4) || (m =? 6) || (m =? 9) || (m =? 11) then 30 else 31.

(** ** Digits *)
(** [time.getnum]: two digits, or one when not [fixed]. *)
Definition getnum (fixed : bool) (s : string) : option (Z * string) :=
  match s with
  | String c s =>
      if is_digit c then
        match s with
        | String c' s' =>
            if is_digit c' then Some (digit_val c * 10 + digit_val c', s')
            else if fixed then None else Some (digit_val c, s)
        | EmptyString => if fixed then None else Some (digit_val c, s)
        end
      else None
  | EmptyString => None
  end.
Lemma itoa_aux_width k fuel n acc :
  0 <= n < 10 ^ Z.of_nat k → (0 < k)%nat → (String.length (itoa_aux fuel n acc) ≤ k + String.length acc)%nat.
Proof.
  revert k n acc. induction fuel as [|f IH]; intros k n acc Hn Hk; cbn [itoa_aux]; [lia|].
  destruct (Z.eqb_spec (n / 10) 0) as [|Hz]; [cbn; lia|].
  destruct k as [|k]; [lia|].
  replace (Z.of_nat (S k)) with (Z.of_nat k + 1) in Hn by lia. rewrite Z.pow_add_r in Hn by lia.
  assert (k ≠ 0%nat) by (intros ->; simpl in Hn; apply Hz, Z.div_small; lia).
  etrans; [apply (IH k)|cbn; lia]; [|lia].
  split; [apply Z.div_pos; lia|apply Z.div_lt_upper_bound; lia].
Qed.
Lemma length_fmt_0d w n :
  0 <= n < 10 ^ Z.of_nat w → (0 < w)%nat → String.length (fmt_0d w n) = w.
Proof.
  intros Hn Hw. unfold fmt_0d. destruct (Z.ltb_spec n 0); [lia|].
  rewrite length_app_str, length_str_rep.
  pose proof (itoa_aux_width w (S (Z.to_nat (Z.log2 n))) n "" Hn Hw) as H1.
  fold (utoa n) in H1. simpl in H1. lia.
Qed.
Lemma fmt_2d n : 0 <= n < 100 →
  fmt_0d 2 n = String (digit (n / 10)) (String (digit (n mod 10)) EmptyString).
Proof.
  intros Hn.
  assert (Forall (λ k, fmt_0d 2 (Z.of_nat k) =
    String (digit (Z.of_nat k / 10)) (String (digit (Z.of_nat k mod 10)) EmptyString)) (seq 0 100)) as H
    by (repeat constructor).
  rewrite Forall_forall in H. specialize (H (Z.to_nat n)). rewrite Z2Nat.id in H by lia.
  apply H, elem_of_seq. lia.
Qed.
Lemma getnum_2d fixed n s : 0 <= n < 100 → getnum fixed (fmt_0d 2 n +++ s) = Some (n, s).
Proof.
  intros Hn. rewrite fmt_2d by done.
  assert (0 <= n / 10 < 10) by (split; [apply Z.div_pos|apply Z.div_lt_upper_bound]; lia).
  pose proof (Z.mod_pos_bound n 10) as Hm. pose proof (Z.div_mod n 10) as Hdm.
  cbn. rewrite !is_digit_digit, !digit_val_digit by lia. do 2 f_equal. lia.
Qed.
Lemma days_in_le m y : days_in m y <= 31.
Proof. unfold days_in. repeat case_match; lia. Qed.
Lemma parse_uint_fmt_0d w n : 0 <= n < 2 ^ 63 → parse_uint (fmt_0d w n) = Some n.
Proof.
  intros Hn. pose proof (fmt_0d_digits w n ltac:(lia)) as Hdig.
  pose proof (ParseInt_fmt_0d w n Hn) as Hp. unfold ParseInt in Hp.
  destruct (fmt_0d w n) as [|a s]; [done|]. apply andb_true_iff in Hdig as [Ha _].
  destruct (Ascii.eqb_spec a "+"%char) as [->|]; [done|].
  destruct (Ascii.eqb_spec a "-"%char) as [->|]; [done|].
  destruct (parse_uint (String a s)) as [z|]; [|done]. by destruct (bool_decide _).
Qed.

(** ** Local times *)
Record datetime := mkDatetime {
  Year : Z; Month : Z; Day : Z; Clock_h : Z; Clock_m : Z; Clock_s : Z; Nanosecond : Z }.
Definition secs_per_day : Z := 86400.
(** A location: seconds east of UTC at a Unix second. *)
Definition location := Z → Z.
(** [t.In(loc)] read as a date and a clock. *)
Definition local_datetime (loc : location) (t : Z) : datetime :=
  let sec := t / Second in
  let w := sec + loc sec in
  let '(y, m, d) := civil_of_days (w / secs_per_day) in
  let s := w mod secs_per_day in
  mkDatetime y m d (s / 3600) (s mod 3600 / 60) (s mod 60) (t mod Second).
(** [time.Date]: the offset in force at the wall clock's instant is tried first. *)
Definition Date (loc : location) (y m d h mi s ns : Z) : Z :=
  let unix := days_of_civil y m d * secs_per_day + h * 3600 + mi * 60 + s in
  (unix - loc (unix - loc unix)) * Second + ns.
Definition Unix_ (t : Z) : Z := t / Second.
(** [t.Truncate(24 * time.Hour)]: the zero time, year 1, is a multiple of days from the epoch. *)
Definition Truncate_day (t : Z) : Z := t / (24 * Hour) * (24 * Hour).

(** Where the offset does not change around it, a local date's midnight is the day's start. *)
Lemma Date_unix (loc : location) (t off h mi s dd : Z) (y m d : Z) :
  civil_of_days ((t + off) / secs_per_day) = (y, m, d) →
  (∀ u, Z.abs (u - t) <= 33 * secs_per_day + 2 * Z.abs off → loc u = off) →
  -31 <= dd - d <= 0 → 0 <= h * 3600 + mi * 60 + s < secs_per_day →
  Unix_ (Date loc y m dd h mi s 0) =
    ((t + off) / secs_per_day + (dd - d)) * secs_per_day + h * 3600 + mi * 60 + s - off.
Proof.
  intros Hc Hloc Hdd Hh. pose proof (civil_of_days_spec ((t + off) / secs_per_day)) as Hs. rewrite Hc in Hs.
  destruct Hs as (_ & _ & Hs). unfold Date. rewrite Hs.
  set (q := (t + off) / secs_per_day) in *.
  assert (q * secs_per_day <= t + off < q * secs_per_day + secs_per_day) as Hq.
  { unfold q, secs_per_day. dlia. }
  set (x := (q - d + dd) * secs_per_day + h * 3600 + mi * 60 + s) in *.
  assert (x = q * secs_per_day + (dd - d) * secs_per_day + (h * 3600 + mi * 60 + s)) as Hx by (unfold x; lia).
  unfold secs_per_day in *.
  assert (Z.abs (x - t) <= 33 * 86400 + Z.abs off) as Hclose by lia.
  rewrite (Hloc x) by lia. rewrite (Hloc (x - off)) by lia.
  unfold Unix_. rewrite Z.add_0_r, Z.div_mul by (unfold Second, Millisecond; lia). lia.
Qed.

(** ** Format *)
(** The elements of the layouts in use. *)
Inductive layout_item := Y4 | M2 | D2 | H2 | Mi2 | S2 | Ms3 | Lit (s : string).
Definition pad (w : nat) (z : Z) : string := if z <? 0 then "-" +++ fmt_0d w (- z) else fmt_0d w z.
Definition format_item (dt : datetime) (i : layout_item) : string :=
  match i with
  | Y4 => pad 4 (Year dt) | M2 => pad 2 (Month dt) | D2 => pad 2 (Day dt)
  | H2 => pad 2 (Clock_h dt) | Mi2 => pad 2 (Clock_m dt) | S2 => pad 2 (Clock_s dt)
  | Ms3 => "." +++ fmt_0d 3 (Nanosecond dt / Millisecond) | Lit s => s
  end.
Definition Format (loc : location) (layout : list layout_item) (t : Z) : string :=
  let dt := local_datetime loc t in foldr (λ i s, format_item dt i +++ s) "" layout.
(** 2006-01-02, and with 15:04:05 after it. *)
Definition layout_date : list layout_item := [Y4; Lit "-"; M2; Lit "-"; D2].
Definition layout_hour : list layout_item := layout_date ++ [Lit " "; H2].
Definition layout_minute : list layout_item := layout_hour ++ [Lit ":"; Mi2].
Definition layout_second : list layout_item := layout_minute ++ [Lit ":"; S2].
Definition layout_milli : list layout_item := layout_second ++ [Ms3].
Definition layout_compact : list layout_item := [Y4; M2; D2; H2; Mi2; S2].
