(* ===== verification/Traffic.v ===== *)
(** Per-device traffic accounting (pkg/traffic): counters in memory, a periodic flush into Redis
    hashes named by the hour, and the hourly dump of finished hours into a table.  Redis and the
    table are interfaces; the calls that can fail take their outcome as an argument. *)
From Stdlib Require Import Ascii.
From stdpp Require Import prelude gmap strings list.
From S2P Require Import Prelude GoStrings GoTime.

(** ** The services the package calls *)
(** Redis hashes, as far as the package uses them. *)
Class RedisHash (R : Type) := {
  HGetAll : string → R → gmap string string;
  HIncrBy : string → string → Z → R → R;
  Del : string → R → R;
  Expire : string → Z → R → R }.
(** The number a hash field holds, for HINCRBY: a missing field counts as 0. *)
Definition field_num (o : option string) : option Z :=
  match o with None => Some 0 | Some s => ParseInt s end.
Class RedisHashLaws (R : Type) `{RedisHash R} := {
  HIncrBy_field k f n r v : field_num (HGetAll k r !! f) = Some v → in_i64 (v + n) →
    HGetAll k (HIncrBy k f n r) !! f = Some (FormatInt (v + n));
  HIncrBy_fields k f g n r : f ≠ g → HGetAll k (HIncrBy k f n r) !! g = HGetAll k r !! g;
  HIncrBy_keys k k' f n r : k ≠ k' → HGetAll k' (HIncrBy k f n r) = HGetAll k' r;
  Del_key k r : HGetAll k (Del k r) = ∅;
  Del_keys k k' r : k ≠ k' → HGetAll k' (Del k r) = HGetAll k' r;
  Expire_keys k k' t r : 0 < t → HGetAll k' (Expire k t r) = HGetAll k' r }.

(** *** dao.go: the table and its unique key (stat_time, device_no, service) *)
Record TrafficHourly := mkTrafficHourly {
  StatTime : Z; th_DeviceNo : string; Service : string; UpKB : Z; DownKB : Z }.
Definition row_key (t : TrafficHourly) : Z * string * string :=
  (StatTime t, th_DeviceNo t, Service t).
Class TrafficTable (D : Type) := {
  rows : D → gmap (Z * string * string) (Z * Z);
  Upsert : list TrafficHourly → D → D }.
Class TrafficTableLaws (D : Type) `{TrafficTable D} := {
  Upsert_row recs d t : NoDup (map row_key recs) → t ∈ recs →
    rows (Upsert recs d) !! row_key t = Some (UpKB t, DownKB t);
  Upsert_rows recs d k : k ∉ map row_key recs → rows (Upsert recs d) !! k = rows d !! k }.

(** ** traffic.go: configuration *)
Record Config := mkConfig {
  ServiceName : string; HasRedis : bool; HasDB : bool; DeviceWhitelist : list string;
  KeyPrefix : string; FlushInterval : Z; HourKeyTTL : Z; TableName : string }.
Definition with_defaults (cfg : Config) : Config :=
  mkConfig (ServiceName cfg) (HasRedis cfg) (HasDB cfg) (DeviceWhitelist cfg)
    (if bool_decide (KeyPrefix cfg = "") then "traffic:hourly:" else KeyPrefix cfg)
    (if FlushInterval cfg <=? 0 then Second else FlushInterval cfg)
    (if HourKeyTTL cfg <=? 0 then 25 * Hour else HourKeyTTL cfg)
    (if bool_decide (TableName cfg = "") then "device_traffic_hourly" else TableName cfg).

(** ** store.go: keys and fields *)
(** A local date and hour, and [time.Format] with the layout 2006010215. *)
Record civil := mkCivil { c_year : Z; c_month : Z; c_day : Z; c_hour : Z }.
#[global] Instance civil_eq_dec : EqDecision civil.
Proof. solve_decision. Defined.
Definition format_hour (c : civil) : string :=
  fmt_0d 4 (c_year c) +++ fmt_0d 2 (c_month c) +++ fmt_0d 2 (c_day c) +++ fmt_0d 2 (c_hour c).
(** [time.Parse] with the layout 2006010215. *)
Definition parse_hour (s : string) : option civil :=
  if (String.length s <? 4)%nat then None else
  y ← parse_uint (str_take 4 s);
  '(m, s) ← getnum true (str_drop 4 s);
  '(d, s) ← getnum true s;
  '(h, s) ← getnum false s;
  if bool_decide (s = "") && (1 <=? m) && (m <=? 12) && (h <? 24) && (1 <=? d) && (d <=? days_in m y)
  then Some (mkCivil y m d h) else None.

Inductive direction := dirUp | dirDown.
#[global] Instance direction_eq_dec : EqDecision direction.
Proof. solve_decision. Defined.
Definition dir_text (d : direction) : string :=
  match d with dirUp => "up" | dirDown => "down" end.
Definition buildField (deviceNo service : string) (dir : direction) : string :=
  deviceNo +++ "|" +++ service +++ "|" +++ dir_text dir.
(** The text before the first bar and the text after it. *)
Fixpoint cut_bar (s : string) : option (string * string) :=
  match s with
  | EmptyString => None
  | String c s' =>
      if bool_decide (c = "|"%char) then Some ("", s')
      else '(a, b) ← cut_bar s'; Some (String c a, b)
  end.
(** [SplitN(field, "|", 3)] has three parts when the field has two bars. *)
Definition parseField (field : string) : option (string * string * string) :=
  '(deviceNo, rest) ← cut_bar field;
  '(service, dir) ← cut_bar rest;
  Some (deviceNo, service, dir).

(** ** tracker.go *)
Record counterPair := mkPair { up : Z; down : Z }.
Record tracker := mkTracker {
  cfg : Config; whitelist : gset string; counters : gmap string counterPair }.
Definition newTracker (cfg : Config) (whitelist : gset string) : tracker :=
  mkTracker cfg whitelist (set_to_map (λ no, (no, mkPair 0 0)) whitelist).
Definition isTracked (deviceNo : string) (t : tracker) : bool := bool_decide (deviceNo ∈ whitelist t).
Definition pair_add (d : direction) (n : Z) (p : counterPair) : counterPair :=
  match d with
  | dirUp => mkPair (i64 (up p + n)) (down p)
  | dirDown => mkPair (up p) (i64 (down p + n))
  end.
(** [addUp] and [addDown]. *)
Definition add (d : direction) (deviceNo : string) (n : Z) (t : tracker) : tracker :=
  mkTracker (cfg t) (whitelist t) (alter (pair_add d n) deviceNo (counters t)).
(** [AddUp] and [AddDown] on an initialised package. *)
Definition Add (d : direction) (deviceNo : string) (n : Z) (t : tracker) : tracker :=
  if n <=? 0 then t else add d deviceNo n t.

Record pendingItem := mkPending { p_deviceNo : string; p_up : Z; p_down : Z }.
Inductive rcmd :=
  | CHIncrBy (key field : string) (n : Z)
  | CExpire (key : string) (ttl : Z).
(** What [pipe.Exec] did: on an error the commands that were executed before it. *)
Record outcome := mkOutcome { applied : nat; exec_err : option goerr }.

(** Where the single flushing goroutine is: waiting, swapping the counters of the devices still
    to visit, about to execute the pipeline, adding the items of a failed one back, stopped. *)
Inductive fphase :=
  | FIdle
  | FSwap (todo : list string) (pending : list pendingItem)
  | FSend (pending : list pendingItem)
  | FBack (todo : list pendingItem)
  | FStopped.

Section flush.
Context {R : Type} `{RedisHash R}.

Definition run_cmd (r : R) (c : rcmd) : R :=
  match c with CHIncrBy k f n => HIncrBy k f n r | CExpire k ttl => Expire k ttl r end.
Definition item_cmds (c : Config) (key : string) (i : pendingItem) : list rcmd :=
  (if 0 <? p_up i then [CHIncrBy key (buildField (p_deviceNo i) (ServiceName c) dirUp) (p_up i)] else []) ++
  (if 0 <? p_down i then [CHIncrBy key (buildField (p_deviceNo i) (ServiceName c) dirDown) (p_down i)] else []).
Definition pipeline (c : Config) (key : string) (pending : list pendingItem) : list rcmd :=
  flat_map (item_cmds c key) pending ++ [CExpire key (HourKeyTTL c)].
Definition hour_key (c : Config) (now : civil) : string := KeyPrefix c +++ format_hour now.
Definition exec (cmds : list rcmd) (o : outcome) (r : R) : R :=
  foldl run_cmd r (match exec_err o with None => cmds | Some _ => take (applied o) cmds end).

Record tstate := mkTState {
  tr : tracker; redis : R; phase : fphase; stopping : bool; final : bool }.
Definition set_tr (t : tracker) (s : tstate) : tstate :=
  mkTState t (redis s) (phase s) (stopping s) (final s).
Definition set_phase (p : fphase) (s : tstate) : tstate :=
  mkTState (tr s) (redis s) p (stopping s) (final s).
(** [flushOnce] returns to the loop, which is over after the last flush. *)
Definition flush_return (s : tstate) : tstate :=
  set_phase (if final s then FStopped else FIdle) s.

(** Callers add at any time; the flusher starts a flush on a tick or after [stop], with the order
    in which this iteration visits the counters; then it takes its own steps.  Another service
    may increment its fields of the shared hashes. *)
Inductive tevent :=
  | TAdd (d : direction) (deviceNo : string) (n : Z)
  | TTick (order : list string)
  | TStopSeen (order : list string)
  | TSwap
  | TExec (now : civil) (o : outcome)
  | TBack
  | TOther (key field : string) (n : Z).

Definition visits_all (order : list string) (t : tracker) : bool :=
  bool_decide (order ≡ₚ (map_to_list (counters t)).*1).
(** One iteration of the first loop: [SwapInt64] of both counters of a device.  An addition
    between the two swaps is the same as one after them, or before. *)
Definition swap_device (deviceNo : string) (t : tracker) : list pendingItem * tracker :=
  match counters t !! deviceNo with
  | None => ([], t)
  | Some p =>
      (if (0 <? up p) || (0 <? down p) then [mkPending deviceNo (up p) (down p)] else [],
       mkTracker (cfg t) (whitelist t) (<[deviceNo := mkPair 0 0]> (counters t)))
  end.
Definition add_back (i : pendingItem) (t : tracker) : tracker :=
  add dirDown (p_deviceNo i) (p_down i) (add dirUp (p_deviceNo i) (p_up i) t).

Definition flush_step (e : tevent) (s : tstate) : tstate :=
  match e, phase s with
  | TSwap, FSwap (d :: todo) pending =>
      let '(i, t) := swap_device d (tr s) in
      set_phase (FSwap todo (pending ++ i)) (set_tr t s)
  | TSwap, FSwap [] [] => flush_return s
  | TSwap, FSwap [] pending => set_phase (FSend pending) s
  | TExec now o, FSend pending =>
      let r := exec (pipeline (cfg (tr s)) (hour_key (cfg (tr s)) now) pending) o (redis s) in
      let s := mkTState (tr s) r (phase s) (stopping s) (final s) in
      match exec_err o with None => flush_return s | Some _ => set_phase (FBack pending) s end
  | TBack, FBack (i :: todo) => set_phase (FBack todo) (set_tr (add_back i (tr s)) s)
  | TBack, FBack [] => flush_return s
  | _, _ => s
  end.
Definition tstep (e : tevent) (s : tstate) : tstate :=
  match e with
  | TAdd d no n => set_tr (Add d no n (tr s)) s
  | TOther k f n => mkTState (tr s) (HIncrBy k f n (redis s)) (phase s) (stopping s) (final s)
  | TTick order =>
      match phase s with
      | FIdle => if visits_all order (tr s) then set_phase (FSwap order []) s else s
      | _ => s
      end
  | TStopSeen order =>
      match phase s with
      | FIdle =>
          if stopping s && visits_all order (tr s)
          then mkTState (tr s) (redis s) (FSwap order []) (stopping s) true else s
      | _ => s
      end
  | _ => flush_step e s
  end.
Definition trun (es : list tevent) (s : tstate) : tstate := foldl (flip tstep) s es.
(** [stop] closes [stopChan]; a second call panics. *)
Definition tstop (s : tstate) : gores tstate :=
  if stopping s then Panic "close of closed channel"
  else Ret (mkTState (tr s) (redis s) (phase s) true (final s)).
(** [flushOnce] from its first step to its return, with no addition in between. *)
Definition flushOnce (order : list string) (now : civil) (o : outcome) (s : tstate) : tstate :=
  trun (TTick order :: replicate (S (length order)) TSwap ++ [TExec now o] ++
        replicate (S (length order)) TBack) s.
End flush.
Arguments tstate R : clear implicits.

(** ** traffic.go: the package singleton *)
Section singleton.
Context {R : Type}.
(** [doInit]; [Init] runs it once and keeps its result. *)
Definition doInit (c : Config) (r : R) : goerr + tstate R :=
  if bool_decide (ServiceName c = "") then inl (ErrNew "traffic: ServiceName required")
  else if negb (HasRedis c) then inl (ErrNew "traffic: Redis required")
  else
    let wl : gset string := list_to_set (filter (λ no, no ≠ "") (DeviceWhitelist c)) in
    inr (mkTState (newTracker (with_defaults c) wl) r FIdle false false).
Record pkg := mkPkg { globalTracker : option (tstate R); initDone : option (option goerr) }.
Definition TInit (c : Config) (r : R) (p : pkg) : option goerr * pkg :=
  match initDone p with
  | Some e => (e, p)
  | None =>
      match doInit c r with
      | inl e => (Some e, mkPkg (globalTracker p) (Some (Some e)))
      | inr t => (None, mkPkg (Some t) (Some None))
      end
  end.
Definition IsTracked (deviceNo : string) (p : pkg) : bool :=
  match globalTracker p with Some s => isTracked deviceNo (tr s) | None => false end.
Definition AddDir (d : direction) (deviceNo : string) (n : Z) (p : pkg) : pkg :=
  match globalTracker p with
  | Some s => mkPkg (Some (set_tr (Add d deviceNo n (tr s)) s)) (initDone p)
  | None => p
  end.
(** [Stop] up to its wait for the flusher. *)
Definition TStop (p : pkg) : gores pkg :=
  match globalTracker p with
  | None => Ret p
  | Some s => match tstop s with
              | Ret s => Ret (mkPkg (Some s) (initDone p))
              | Panic m => Panic m
              end
  end.

(** *** conn_wrap.go: a read or write of [n] bytes on a wrapped connection *)
Definition SetDeviceNo (no : string) (deviceNo : string) : string :=
  if bool_decide (no = "") then deviceNo else no.
Definition conn_io (d : direction) (deviceNo : string) (n : Z) (p : pkg) : pkg :=
  if (0 <? n) && negb (bool_decide (deviceNo = "")) then AddDir d deviceNo n p else p.
End singleton.
Arguments pkg R : clear implicits.

(** ** dao.go: the hourly dump *)
Definition bytesToKB (bytes : Z) : Z := if bytes <=? 0 then 0 else Z.quot (i64 (bytes + 512)) 1024.
(** [aggregateHashToRecords]: the fields in the order the iteration visits them. *)
Definition agg_step (agg : gmap (string * string) (Z * Z)) (fv : string * string)
    : gmap (string * string) (Z * Z) :=
  match parseField fv.1, ParseInt fv.2 with
  | Some (dev, svc, dir), Some bytes =>
      if bytes <=? 0 then agg
      else
        let '(u, d) := default (0, 0) (agg !! (dev, svc)) in
        <[(dev, svc) := if bool_decide (dir = "up") then (i64 (u + bytes), d)
                        else if bool_decide (dir = "down") then (u, i64 (d + bytes)) else (u, d)]> agg
  | _, _ => agg
  end.
Definition aggregate (fields : list (string * string)) : gmap (string * string) (Z * Z) :=
  foldl agg_step ∅ fields.
Definition record_of (statTime : Z) (kv : (string * string) * (Z * Z)) : TrafficHourly :=
  mkTrafficHourly statTime kv.1.1 kv.1.2 (bytesToKB kv.2.1) (bytesToKB kv.2.2).
Definition aggregateHashToRecords (data : gmap string string) (statTime : Z) : list TrafficHourly :=
  map (record_of statTime) (map_to_list (aggregate (map_to_list data))).

(** [scanHourlyKeys] against the server's replies, in order; [None]: the next reply is awaited. *)
Fixpoint scan_from (keys : list string) (replies : list (goerr + list string * Z))
    : option (goerr + list string) :=
  match replies with
  | [] => None
  | inl e :: _ => Some (inl e)
  | inr (batch, next) :: replies =>
      if next =? 0 then Some (inr (keys ++ batch)) else scan_from (keys ++ batch) replies
  end.
Definition scanHourlyKeys := scan_from [].

Section dump.
Context {R D : Type} `{RedisHash R} `{TrafficTable D}.
(** The local zone's instant of a date and hour. *)
Context (local : civil → Z).

Definition extractHourFromKey (c : Config) (key : string) : option Z :=
  local <$> parse_hour (trim_prefix key (KeyPrefix c)).

(** What the server and the database answered for one key: a failed write may have happened. *)
Record answers := mkAnswers {
  hget_err : option goerr; upsert_err : option (goerr * bool); del_err : option (goerr * bool) }.
Inductive dstat := DProcessed | DSkipped | DFailed | DDropped.
Definition del_answer (a : answers) (key : string) (r : R) : R :=
  match del_err a with None | Some (_, true) => Del key r | Some (_, false) => r end.
Definition upsertBatch (a : answers) (recs : list TrafficHourly) (d : D) : option goerr * D :=
  match recs with
  | [] => (None, d)
  | _ => match upsert_err a with
         | None => (None, Upsert recs d)
         | Some (e, done) => (Some e, if done then Upsert recs d else d)
         end
  end.
(** One key of [dumpPending]'s loop. *)
Definition dump_key (c : Config) (currentKey : string) (a : answers) (key : string) (rd : R * D)
    : dstat * (R * D) :=
  let '(r, d) := rd in
  if bool_decide (key = currentKey) then (DSkipped, rd)
  else match extractHourFromKey c key with
  | None => (DSkipped, rd)
  | Some statTime =>
      match hget_err a with
      | Some _ => (DFailed, rd)
      | None =>
          let data := HGetAll key r in
          if bool_decide (data = ∅) then (DDropped, (del_answer a key r, d))
          else
            let records := aggregateHashToRecords data statTime in
            match records with
            | [] => (DDropped, (del_answer a key r, d))
            | _ =>
                let '(err, d) := upsertBatch a records d in
                match err with
                | Some _ => (DFailed, (r, d))
                | None => (DProcessed, (del_answer a key r, d))
                end
            end
      end
  end.
Fixpoint dump_keys (c : Config) (currentKey : string) (keys : list string) (ans : nat → answers)
    (rd : R * D) : list dstat * (R * D) :=
  match keys with
  | [] => ([], rd)
  | k :: keys =>
      let '(x, rd) := dump_key c currentKey (ans (length keys)) k rd in
      let '(xs, rd) := dump_keys c currentKey keys ans rd in (x :: xs, rd)
  end.
Definition is_failed (x : dstat) : bool := match x with DFailed => true | _ => false end.
(** [dumpPending] after the scan's answer. *)
Definition dumpPending (c : Config) (now : civil) (scan : goerr + list string)
    (ans : nat → answers) (rd : R * D) : option goerr * (R * D) :=
  match scan with
  | inl e => (Some (ErrWrap "scan hourly keys" e), rd)
  | inr keys =>
      let '(xs, rd) := dump_keys c (hour_key c now) keys ans rd in
      (if existsb is_failed xs then Some (ErrNew ("dump failed for " +++ FormatInt (zlen (filter (λ x, is_failed x = true) xs)) +++ " hourly keys")) else None, rd)
  end.
Definition DumpPending (now : civil) (scan : goerr + list string) (ans : nat → answers)
    (p : pkg R) (d : D) : option goerr * (pkg R * D) :=
  match globalTracker p with
  | None => (Some (ErrNew "traffic: not initialized"), (p, d))
  | Some s =>
      let c := cfg (tr s) in
      if negb (HasDB c) then (Some (ErrNew "traffic: DB not configured, this instance is not responsible for dumping"), (p, d))
      else
        let '(e, (r, d)) := dumpPending c now scan ans (redis s, d) in
        (e, (mkPkg (Some (mkTState (tr s) r (phase s) (stopping s) (final s))) (initDone p), d))
  end.
End dump.
