(* ===== verification/TrafficProofs.v ===== *)
(** Properties of the traffic accounting: keys and fields read back, bytes are conserved from the
    counters through Redis into the table, and the cases where they are not. *)
From Stdlib Require Import Ascii.
From stdpp Require Import prelude gmap strings list.
From S2P Require Import Prelude GoStrings GoTime Traffic.

(** ** Fields *)
Definition no_bar (s : string) : bool := str_all (λ c, negb (bool_decide (c = "|"%char))) s.

Lemma cut_bar_app a b : no_bar a = true → cut_bar (a +++ "|" +++ b) = Some (a, b).
Proof.
  intros H. induction a as [|c a IH]; [done|]. apply andb_true_iff in H as [Hc Ha].
  change (String c a +++ "|" +++ b) with (String c (a +++ "|" +++ b)).
  cbn [cut_bar]. case_bool_decide; [done|]. by rewrite (IH Ha).
Qed.
Lemma cut_bar_Some s a b : cut_bar s = Some (a, b) → s = a +++ "|" +++ b ∧ no_bar a = true.
Proof.
  revert a. induction s as [|c s IH]; intros a H; [done|]. cbn [cut_bar] in H.
  case_bool_decide as Hc.
  - injection H as <- <-. by rewrite Hc.
  - destruct (cut_bar s) as [[a' b']|]; [|done]. injection H as <- <-.
    destruct (IH a' eq_refl) as [-> Ha]. split; [done|].
    apply andb_true_iff. split; [|done]. by rewrite bool_decide_eq_false_2.
Qed.
Lemma parseField_Some f dev svc dir :
  parseField f = Some (dev, svc, dir) ↔
  f = dev +++ "|" +++ svc +++ "|" +++ dir ∧ no_bar dev = true ∧ no_bar svc = true.
Proof.
  unfold parseField. split.
  - intros H. destruct (cut_bar f) as [[d rest]|] eqn:E1; [|done].
    destruct (cut_bar rest) as [[s d']|] eqn:E2; cbn in H; rewrite E2 in H; [|done].
    injection H as -> -> ->. apply cut_bar_Some in E1 as [-> ?]. by apply cut_bar_Some in E2 as [-> ?].
  - intros (-> & Hd & Hs). rewrite cut_bar_app by done.
    cbn [mbind option_bind]. by rewrite cut_bar_app.
Qed.

(** A hash field reads back as the device, service and direction it was built from, unless
    the device or the service contains a bar; and a field that reads as such a triple is the one
    [buildField] builds. *)
Lemma field_roundtrip (dev svc : string) (d : direction) :
  (parseField (buildField dev svc d) = Some (dev, svc, dir_text d) ↔ no_bar dev = true ∧ no_bar svc = true) ∧
  ∀ f, parseField f = Some (dev, svc, dir_text d) → f = buildField dev svc d.
Proof.
  split; [|intros f Hf; by destruct (proj1 (parseField_Some _ _ _ _) Hf) as [-> _]].
  rewrite parseField_Some. naive_solver.
Qed.

Lemma buildField_inj svc dev1 dev2 d1 d2 :
  buildField dev1 svc d1 = buildField dev2 svc d2 → dev1 = dev2 ∧ d1 = d2.
Proof.
  assert (∀ x y, x +++ "up" ≠ y +++ "down") as Hud.
  { intros x y H. change (y +++ "down") with (y +++ ("do" +++ "wn")) in H.
    rewrite <- app_str_assoc in H. by apply app_str_inj_suffix in H as [_ E]. }
  unfold buildField. intros H. destruct d1, d2; cbn [dir_text] in H.
  1, 4: split; [by apply app_str_inj_r in H|done].
  all: rewrite <- !app_str_assoc in H; exfalso; first [by eapply Hud|symmetry in H; by eapply Hud].
Qed.

(** ** Hour keys *)
Definition valid_civil (c : civil) : Prop :=
  0 <= c_year c < 10000 ∧ 1 <= c_month c <= 12 ∧ 1 <= c_day c <= days_in (c_month c) (c_year c) ∧
  0 <= c_hour c < 24.
Lemma parse_format_hour c : valid_civil c → parse_hour (format_hour c) = Some c.
Proof.
  intros (Hy & Hm & Hd & Hh). unfold parse_hour, format_hour.
  pose proof (length_fmt_0d 4 (c_year c) ltac:(cbn; lia) ltac:(lia)) as Hlen.
  rewrite length_app_str, Hlen. cbn [Nat.ltb Nat.leb plus].
  assert (∀ s t, String.length s = 4%nat → str_take 4 (s +++ t) = s ∧ str_drop 4 (s +++ t) = t) as H4
    by (intros s t <-; by rewrite str_take_app, str_drop_app).
  destruct (H4 _ (fmt_0d 2 (c_month c) +++ fmt_0d 2 (c_day c) +++ fmt_0d 2 (c_hour c)) Hlen) as [-> ->].
  rewrite parse_uint_fmt_0d by lia.
  pose proof (days_in_le (c_month c) (c_year c)).
  cbn [mbind option_bind]. rewrite getnum_2d by lia. cbn [mbind option_bind].
  rewrite getnum_2d by lia. cbn [mbind option_bind].
  rewrite <- (app_str_nil_r (fmt_0d 2 (c_hour c))), getnum_2d by lia. cbn [mbind option_bind].
  repeat match goal with |- context [?a <=? ?b] => replace (a <=? b) with true by lia
                       | |- context [?a <? ?b] => replace (a <? b) with true by lia end.
  by destruct c.
Qed.

(** The key under which a flush writes reads back as the hour of its time. *)
Lemma hour_key_roundtrip (local : civil → Z) (c : Config) (now : civil) :
  valid_civil now → extractHourFromKey local c (hour_key c now) = Some (local now).
Proof.
  intros Hn. unfold extractHourFromKey, hour_key. rewrite trim_prefix_app, parse_format_hour by done.
  done.
Qed.

(** ** Conservation *)
Lemma field_num_FormatInt z : in_i64 z → field_num (Some (FormatInt z)) = Some z.
Proof. apply ParseInt_FormatInt. Qed.

Section conservation.
Context {R : Type} `{RedisHashLaws R}.
(** One device, one direction, and the hour keys that may be written. *)
Context (c : Config) (dev : string) (dir : direction) (keys : list string).
Context (Hkeys : NoDup keys) (Httl : 0 < HourKeyTTL c).
Implicit Types (s : tstate R) (r : R) (t : tracker).

Definition side (p : counterPair) : Z := match dir with dirUp => up p | dirDown => down p end.
Definition iside (i : pendingItem) : Z := match dir with dirUp => p_up i | dirDown => p_down i end.
Definition the_field : string := buildField dev (ServiceName c) dir.
Definition in_memory t : Z := match counters t !! dev with Some p => side p | None => 0 end.
Definition item_val (i : pendingItem) : Z := if bool_decide (p_deviceNo i = dev) then iside i else 0.
Definition pending_of (p : fphase) : list pendingItem :=
  match p with FSwap _ l | FSend l | FBack l => l | _ => [] end.
Definition in_flight s : Z := zsum (map item_val (pending_of (phase s))).
Definition hval (k : string) r : Z := default 0 (field_num (HGetAll k r !! the_field)).
Definition in_redis r : Z := zsum (map (λ k, hval k r) keys).
Definition account s : Z := in_memory (tr s) + in_flight s + in_redis (redis s).

Definition hok r (k : string) : Prop := ∃ v, field_num (HGetAll k r !! the_field) = Some v ∧ 0 <= v.
Definition sane s : Prop :=
  cfg (tr s) = c ∧ is_Some (counters (tr s) !! dev) ∧ 0 <= in_memory (tr s) ∧
  Forall (λ i, 0 <= item_val i) (pending_of (phase s)) ∧ Forall (hok (redis s)) keys.
(** Flushes go to the hours in question, and no one else writes the field. *)
Definition ev_ok (e : tevent) : Prop :=
  match e with
  | TExec now o => hour_key c now ∈ keys
  | TOther _ f _ => f ≠ the_field
  | _ => True
  end.
Definition added (e : tevent) : Z :=
  match e with
  | TAdd d no n => if bool_decide (d = dir ∧ no = dev ∧ 0 < n) then n else 0
  | _ => 0
  end.

(** *** Commands *)
(** What a command adds to the device's field of the hash [k]. *)
Definition cmd_delta (k : string) (x : rcmd) : Z :=
  match x with
  | CHIncrBy k' f n => if bool_decide (k' = k ∧ f = the_field) then n else 0
  | CExpire _ _ => 0
  end.
(** The bytes of the device that a failed pipeline had written all the same: they are in Redis and
    are rolled back into memory as well. *)
Definition doubled (e : tevent) s : Z :=
  match e, phase s with
  | TExec now o, FSend pending =>
      match exec_err o with
      | Some _ => zsum (map (cmd_delta (hour_key c now)) (take (applied o) (pipeline c (hour_key c now) pending)))
      | None => 0
      end
  | _, _ => 0
  end.
Fixpoint doubles (es : list tevent) s : Z :=
  match es with [] => 0 | e :: es => doubled e s + doubles es (tstep e s) end.
Definition cmd_ok (x : rcmd) : Prop := match x with CExpire _ ttl => 0 < ttl | _ => True end.
Lemma run_cmds_field k cmds r v :
  field_num (HGetAll k r !! the_field) = Some v → 0 <= v →
  Forall (λ x, 0 <= cmd_delta k x) cmds → Forall cmd_ok cmds →
  v + zsum (map (cmd_delta k) cmds) < 2 ^ 63 →
  field_num (HGetAll k (foldl run_cmd r cmds) !! the_field) = Some (v + zsum (map (cmd_delta k) cmds)).
Proof.
  revert r v. induction cmds as [|x cmds IH]; intros r v Hv Hp Hnn Hok Hlt; cbn [map zsum foldl] in *.
  { by rewrite Z.add_0_r. }
  apply Forall_cons in Hnn as [Hn Hnn]. apply Forall_cons in Hok as [Ho Hok].
  assert (0 <= zsum (map (cmd_delta k) cmds)) by (by apply zsum_nonneg, Forall_map).
  rewrite Z.add_assoc in *. apply IH; try done; [|lia].
  destruct x as [k' f n|k' ttl]; cbn [run_cmd cmd_delta] in *.
  - case_bool_decide as E.
    + destruct E as [-> ->]. rewrite (HIncrBy_field _ _ _ _ v) by (done || unfold in_i64; lia).
      apply field_num_FormatInt. unfold in_i64. lia.
    + rewrite Z.add_0_r. destruct (decide (k' = k)) as [->|Hk]; [|by rewrite HIncrBy_keys].
      rewrite HIncrBy_fields; [done|naive_solver].
  - by rewrite Expire_keys, Z.add_0_r.
Qed.

Lemma incr_delta k key i d n :
  cmd_delta k (CHIncrBy key (buildField (p_deviceNo i) (ServiceName c) d) n)
  = if bool_decide (key = k) && bool_decide (p_deviceNo i = dev) && bool_decide (d = dir) then n else 0.
Proof.
  cbn [cmd_delta]. destruct (decide (buildField (p_deviceNo i) (ServiceName c) d = the_field)) as [E|E].
  - rewrite E. apply buildField_inj in E as [-> ->].
    repeat case_bool_decide; naive_solver.
  - rewrite bool_decide_eq_false_2 by naive_solver.
    repeat case_bool_decide; try done. exfalso. apply E. unfold the_field. congruence.
Qed.
Lemma pipeline_delta k key pending :
  Forall (λ i, 0 <= item_val i) pending →
  Forall (λ x, 0 <= cmd_delta k x) (pipeline c key pending) ∧ Forall cmd_ok (pipeline c key pending) ∧
  zsum (map (cmd_delta k) (pipeline c key pending))
  = if bool_decide (key = k) then zsum (map item_val pending) else 0.
Proof.
  unfold pipeline. induction pending as [|i l IH]; intros Hp.
  { cbn. split_and!; [by repeat constructor|by repeat constructor|by case_bool_decide]. }
  apply Forall_cons in Hp as [Hi Hl]. specialize (IH Hl) as (F1 & F2 & F3).
  cbn [flat_map]. rewrite <- app_assoc, map_app, zsum_app, F3.
  assert (Forall (λ x, 0 <= cmd_delta k x) (item_cmds c key i) ∧ Forall cmd_ok (item_cmds c key i) ∧
          zsum (map (cmd_delta k) (item_cmds c key i)) = if bool_decide (key = k) then item_val i else 0)
    as (G1 & G2 & G3).
  { unfold item_cmds, item_val, iside in *.
    destruct (Z.ltb_spec 0 (p_up i)), (Z.ltb_spec 0 (p_down i)); cbn [app map zsum];
      rewrite ?incr_delta; destruct dir; cbn [bool_decide decide_rel];
      (split; [|split]); rewrite ?Forall_cons, ?Forall_nil, ?incr_delta;
      repeat case_bool_decide; cbn [andb cmd_ok]; (congruence || lia || auto). }
  split_and!; [by apply Forall_app|by apply Forall_app|]. rewrite G3. cbn [map zsum].
  by case_bool_decide.
Qed.

Lemma zsum_update (f g : string → Z) (key : string) (x : Z) (l : list string) :
  NoDup l → key ∈ l → (∀ k, k ∈ l → g k = f k + if bool_decide (key = k) then x else 0) →
  zsum (map g l) = zsum (map f l) + x.
Proof.
  intros Hnd Hin Hg.
  assert (∀ l', key ∉ l' → (∀ k, k ∈ l' → g k = f k + if bool_decide (key = k) then x else 0) →
            zsum (map g l') = zsum (map f l')) as Hout.
  { induction l' as [|a l' IH]; intros Ha Hg'; [done|]. cbn. apply not_elem_of_cons in Ha as [Ha1 Ha2].
    rewrite IH by (done || intros; apply Hg'; by right). rewrite (Hg' a) by left.
    rewrite bool_decide_eq_false_2 by done. lia. }
  induction l as [|a l IH]; [by apply not_elem_of_nil in Hin|].
  apply NoDup_cons in Hnd as [Ha Hnd]. cbn. rewrite (Hg a) by left.
  apply elem_of_cons in Hin as [->|Hin].
  - rewrite bool_decide_eq_true_2, Hout by (done || intros; apply Hg; by right). lia.
  - rewrite bool_decide_eq_false_2 by (intros ->; done).
    rewrite IH by (done || intros; apply Hg; by right). lia.
Qed.
Lemma hok_val r k : hok r k → field_num (HGetAll k r !! the_field) = Some (hval k r) ∧ 0 <= hval k r.
Proof. intros (v & Hv & ?). unfold hval. by rewrite Hv. Qed.
Lemma in_redis_nonneg r : Forall (hok r) keys → 0 <= in_redis r.
Proof.
  intros Hk. apply zsum_nonneg, Forall_map. eapply Forall_impl; [exact Hk|].
  intros k Hok. by apply hok_val in Hok as [_ ?].
Qed.

(** *** What is executed of a pipeline moves the pending bytes into Redis *)
Lemma zsum_take_le {A} (f : A → Z) (n : nat) (l : list A) :
  Forall (λ x, 0 <= f x) l → 0 <= zsum (map f (take n l)) <= zsum (map f l).
Proof.
  intros Hl. rewrite <-(take_drop n l) in Hl at 1. apply Forall_app in Hl as [H1 H2].
  assert (zsum (map f l) = zsum (map f (take n l)) + zsum (map f (drop n l))) as ->
    by (by rewrite <-zsum_app, <-map_app, take_drop).
  assert (∀ l', Forall (λ x, 0 <= f x) l' → 0 <= zsum (map f l')) as Hz by (intros l' Hl'; by apply zsum_nonneg, Forall_map).
  pose proof (Hz _ H1). pose proof (Hz _ H2). lia.
Qed.
Lemma exec_redis key pending n r :
  let cmds := take n (pipeline c key pending) in
  key ∈ keys → Forall (λ i, 0 <= item_val i) pending → Forall (hok r) keys →
  zsum (map (cmd_delta key) cmds) + in_redis r < 2 ^ 63 →
  let r' := foldl run_cmd r cmds in
  Forall (hok r') keys ∧ in_redis r' = in_redis r + zsum (map (cmd_delta key) cmds).
Proof.
  intros cmds Hkey Hp Hk Hlt r'.
  assert (∀ k, 0 <= zsum (map (cmd_delta k) cmds) ∧ (key ≠ k → zsum (map (cmd_delta k) cmds) = 0)) as Hd.
  { intros k. destruct (pipeline_delta k key pending Hp) as (D1 & _ & D3).
    pose proof (zsum_take_le _ n _ D1) as Ht. fold cmds in Ht. split; [lia|]. intros Hne.
    rewrite D3, bool_decide_eq_false_2 in Ht by done. lia. }
  assert (∀ k, k ∈ keys → field_num (HGetAll k r' !! the_field)
            = Some (hval k r + if bool_decide (key = k) then zsum (map (cmd_delta key) cmds) else 0)) as Hr'.
  { intros k Hin. pose proof (pipeline_delta k key pending Hp) as (D1 & D2 & _).
    rewrite Forall_forall in Hk. destruct (hok_val _ _ (Hk _ Hin)) as [Hv Hv0].
    assert (hval k r <= in_redis r).
    { apply zsum_elem_le; [|apply list_elem_of_fmap; by exists k].
      apply Forall_map, Forall_forall. intros k' Hk'. by apply (hok_val _ _ (Hk _ Hk')). }
    pose proof (Hd key) as [Hd0 _].
    replace (if bool_decide (key = k) then _ else _) with (zsum (map (cmd_delta k) cmds))
      by (case_bool_decide as E; [by rewrite E|by apply Hd]).
    apply run_cmds_field; [done|done|unfold cmds; apply Forall_take; exact D1|unfold cmds; apply Forall_take; exact D2|].
    destruct (decide (key = k)) as [<-|Hne]; [lia|]. destruct (Hd k) as [_ ->]; [lia|done]. }
  pose proof (Hd key) as [Hd0 _]. split.
  - apply Forall_forall. intros k Hin. eexists. split; [by apply Hr'|].
    rewrite Forall_forall in Hk. destruct (hok_val _ _ (Hk _ Hin)). case_bool_decide; lia.
  - apply (zsum_update _ _ key); [done|done|]. intros k Hin. unfold hval at 1. by rewrite (Hr' _ Hin).
Qed.
Lemma pipeline_whole key pending :
  Forall (λ i, 0 <= item_val i) pending →
  zsum (map (cmd_delta key) (pipeline c key pending)) = zsum (map item_val pending).
Proof. intros Hp. destruct (pipeline_delta key key pending Hp) as (_ & _ & ->). by rewrite bool_decide_eq_true_2. Qed.
(** Only positive amounts are written. *)
Lemma doubled_nonneg e s : 0 <= doubled e s.
Proof.
  unfold doubled. destruct e; try lia. destruct (phase s) as [| |l| |]; try lia. destruct (exec_err o); [|lia].
  match goal with |- context [cmd_delta ?k] => set (key := k) end.
  assert (∀ d i, 0 < (match d with dirUp => p_up i | dirDown => p_down i end) →
    0 <= cmd_delta key (CHIncrBy key (buildField (p_deviceNo i) (ServiceName c) d) (match d with dirUp => p_up i | dirDown => p_down i end))) as Hi
    by (intros d i Hd; cbn [cmd_delta]; case_bool_decide; lia).
  apply (zsum_take_le (cmd_delta key)). unfold pipeline. apply Forall_app. split; [|by repeat constructor].
  induction l as [|i l IH]; [done|]. cbn [flat_map]. apply Forall_app. split; [|done].
  unfold item_cmds. apply Forall_app. pose proof (Hi dirUp i). pose proof (Hi dirDown i).
  split; [destruct (Z.ltb_spec 0 (p_up i))|destruct (Z.ltb_spec 0 (p_down i))];
    repeat (apply Forall_cons_2 || apply Forall_nil_2); auto.
Qed.
Lemma doubles_nonneg es s : 0 <= doubles es s.
Proof.
  revert s. induction es as [|e es IH]; intros s; cbn [doubles]; [lia|].
  pose proof (doubled_nonneg e s). specialize (IH (tstep e s)). lia.
Qed.

(** *** Memory *)
Lemma add_memory d no n t :
  is_Some (counters t !! dev) →
  is_Some (counters (add d no n t) !! dev) ∧ cfg (add d no n t) = cfg t ∧
  in_memory (add d no n t)
  = if bool_decide (d = dir ∧ no = dev) then i64 (in_memory t + n) else in_memory t.
Proof.
  intros [p Hp]. unfold in_memory, add. cbn [counters cfg]. destruct (decide (no = dev)) as [->|Hno].
  - rewrite lookup_alter_eq, Hp. cbn [fmap option_fmap option_map].
    split_and!; [done|done|]. unfold side. destruct d, dir; case_bool_decide; naive_solver.
  - rewrite lookup_alter_ne, Hp by done. rewrite bool_decide_eq_false_2 by naive_solver. done.
Qed.
Lemma Add_memory d no n t :
  is_Some (counters t !! dev) → 0 <= in_memory t → in_memory t + added (TAdd d no n) < 2 ^ 63 →
  is_Some (counters (Add d no n t) !! dev) ∧ cfg (Add d no n t) = cfg t ∧
  in_memory (Add d no n t) = in_memory t + added (TAdd d no n).
Proof.
  intros Hs Hz Hlt. unfold Add, added in *. destruct (Z.leb_spec n 0) as [Hn|Hn].
  { rewrite bool_decide_eq_false_2 by lia. split_and!; [done|done|lia]. }
  destruct (add_memory d no n t Hs) as (H1 & H2 & H3). split_and!; [done|done|]. rewrite H3.
  repeat case_bool_decide; try (exfalso; naive_solver); [|lia]. apply i64_id. unfold in_i64. lia.
Qed.
Lemma add_back_memory i t :
  is_Some (counters t !! dev) → 0 <= in_memory t → 0 <= item_val i → in_memory t + item_val i < 2 ^ 63 →
  is_Some (counters (add_back i t) !! dev) ∧ cfg (add_back i t) = cfg t ∧
  in_memory (add_back i t) = in_memory t + item_val i.
Proof.
  intros Hs Hz Hi Hlt. unfold add_back.
  destruct (add_memory dirUp (p_deviceNo i) (p_up i) t Hs) as (A1 & A2 & A3).
  destruct (add_memory dirDown (p_deviceNo i) (p_down i) _ A1) as (B1 & B2 & B3).
  split_and!; [done|congruence|]. rewrite B3, A3. unfold item_val, iside in *.
  repeat case_bool_decide; destruct dir; try (exfalso; naive_solver); try lia;
    apply i64_id; unfold in_i64; lia.
Qed.
Lemma swap_memory d t :
  is_Some (counters t !! dev) → 0 <= in_memory t →
  is_Some (counters (swap_device d t).2 !! dev) ∧ cfg (swap_device d t).2 = cfg t ∧
  0 <= in_memory (swap_device d t).2 ∧ Forall (λ i, 0 <= item_val i) (swap_device d t).1 ∧
  in_memory (swap_device d t).2 + zsum (map item_val (swap_device d t).1) = in_memory t.
Proof.
  intros [p Hp] Hz. unfold swap_device. destruct (decide (d = dev)) as [->|Hd].
  - rewrite Hp. unfold in_memory in *. rewrite Hp in *. cbn [counters cfg snd fst]. rewrite lookup_insert_eq.
    assert (∀ i, p_deviceNo i = dev → item_val i = iside i) as Hiv
      by (intros i Hi; unfold item_val; by rewrite bool_decide_eq_true_2).
    unfold side in *.
    destruct (Z.ltb_spec 0 (up p)), (Z.ltb_spec 0 (down p)); cbn [orb map zsum];
      rewrite ?Forall_cons, ?Forall_nil, ?Hiv by done; unfold iside; destruct dir; cbn;
      split_and!; (done || lia).
  - destruct (counters t !! d) as [q|]; cbn [fst snd]; [|cbn; split_and!; [done|done|done|by constructor|lia]].
    unfold in_memory in *. cbn [counters cfg]. rewrite lookup_insert_ne, Hp in * by done.
    assert (∀ l : list pendingItem, Forall (λ i, p_deviceNo i = d) l →
      Forall (λ i, 0 <= item_val i) l ∧ zsum (map item_val l) = 0) as Hl.
    { intros l Hl. induction Hl as [|i l Hi _ [IH1 IH2]]; [by split|].
      assert (item_val i = 0) as E by (unfold item_val; rewrite bool_decide_eq_false_2; congruence).
      cbn. rewrite E, IH2. split; [by constructor; [rewrite E|]|done]. }
    destruct (Hl (if (0 <? up q) || (0 <? down q) then [mkPending d (up q) (down q)] else [])) as [F1 F2].
    { case_match; repeat constructor. }
    split_and!; [done|done|done|done|]. rewrite F2. lia.
Qed.

Lemma account_step e s :
  sane s → ev_ok e → account s + added e + doubled e s < 2 ^ 63 →
  sane (tstep e s) ∧ account (tstep e s) = account s + added e + doubled e s.
Proof.
  intros (Hc & Hs & Hm & Hp & Hk) He Hlt.
  pose proof (in_redis_nonneg _ Hk) as Hr0. pose proof (doubled_nonneg e s) as Hd0.
  assert (0 <= in_flight s) as Hf0 by (by apply zsum_nonneg, Forall_map).
  unfold account, sane, in_flight in *.
  destruct e as [d no n|order|order| |now o| |k f n]; cbn [tstep flush_step added doubled] in *.
  - rewrite Z.add_0_r in *. destruct (Add_memory d no n (tr s) Hs Hm) as (A1 & A2 & A3); [cbn [added] in *; lia|].
    cbn [added] in *. unfold set_tr. cbn [tr redis phase]. rewrite A2, A3.
    assert (0 <= if bool_decide (d = dir ∧ no = dev ∧ 0 < n) then n else 0) by (case_bool_decide; lia).
    split_and!; try done; lia.
  - rewrite !Z.add_0_r. destruct (phase s) eqn:Ep; try (rewrite Ep; by split_and!).
    case_match; cbn [tr redis phase set_phase]; rewrite ?Ep; by split_and!.
  - rewrite !Z.add_0_r. destruct (phase s) eqn:Ep; try (rewrite Ep; by split_and!).
    case_match; cbn [tr redis phase set_phase]; rewrite ?Ep; by split_and!.
  - rewrite !Z.add_0_r. destruct (phase s) as [|[|d todo] l|l|l|] eqn:Ep; try (rewrite Ep; by split_and!).
    + destruct l as [|i l]; [|by cbn [tr redis phase set_phase pending_of]; split_and!].
      unfold flush_return. destruct (final s); cbn [tr redis phase set_phase pending_of]; by split_and!.
    + destruct (swap_memory d (tr s) Hs Hm) as (A1 & A2 & A3 & A4 & A5).
      destruct (swap_device d (tr s)) as [i t]. cbn [tr redis phase set_phase set_tr pending_of fst snd] in *.
      rewrite map_app, zsum_app, Forall_app. rewrite A2. split_and!; try done. lia.
  - rewrite !Z.add_0_r in *. destruct (phase s) as [|? l|l|l|] eqn:Ep; try (rewrite Ep, ?Z.add_0_r; by split_and!).
    cbn [pending_of] in *. rewrite Hc. unfold exec. destruct (exec_err o) eqn:Eo.
    + destruct (exec_redis (hour_key c now) l (applied o) (redis s) He Hp Hk) as [Hk' Hr']; [lia|].
      cbn [tr redis phase set_phase pending_of]. rewrite Hr'. split_and!; try done; lia.
    + destruct (exec_redis (hour_key c now) l (length (pipeline c (hour_key c now) l)) (redis s) He Hp Hk) as [Hk' Hr'];
        rewrite take_ge in * by done; rewrite pipeline_whole in * by done; [lia|].
      unfold flush_return. cbn [final]. destruct (final s);
        cbn [tr redis phase set_phase pending_of map zsum]; rewrite Hr'; split_and!; try done; lia.
  - rewrite !Z.add_0_r. destruct (phase s) as [|? l|l|[|i l]|] eqn:Ep; try (rewrite Ep; by split_and!).
    + unfold flush_return. destruct (final s); cbn [tr redis phase set_phase pending_of]; by split_and!.
    + cbn [pending_of map zsum] in *. apply Forall_cons in Hp as [Hi Hp].
      assert (0 <= zsum (map item_val l)) by (by apply zsum_nonneg, Forall_map).
      destruct (add_back_memory i (tr s) Hs Hm Hi) as (A1 & A2 & A3); [lia|].
      cbn [tr redis phase set_phase set_tr pending_of]. rewrite A2, A3. split_and!; try done; lia.
  - rewrite !Z.add_0_r. cbn [tr redis phase].
    assert (∀ k', HGetAll k' (HIncrBy k f n (redis s)) !! the_field = HGetAll k' (redis s) !! the_field) as E.
    { intros k'. destruct (decide (k = k')) as [->|Hne]; [by apply HIncrBy_fields|by rewrite HIncrBy_keys]. }
    assert (in_redis (HIncrBy k f n (redis s)) = in_redis (redis s)) as ->.
    { unfold in_redis. f_equal. apply map_ext. intros k'. unfold hval. by rewrite E. }
    split_and!; try done. eapply Forall_impl; [exact Hk|]. intros k' (v & Hv & ?). exists v. by rewrite E.
Qed.

(** A whole run, by its steps. *)
Lemma added_nonneg es : 0 <= zsum (map added es).
Proof.
  apply zsum_nonneg, Forall_map, Forall_true. intros []; cbn; try lia. case_bool_decide; lia.
Qed.
Lemma account_run (es : list tevent) s :
  sane s → Forall ev_ok es → account s + zsum (map added es) + doubles es s < 2 ^ 63 →
  sane (trun es s) ∧ account (trun es s) = account s + zsum (map added es) + doubles es s.
Proof.
  revert s. induction es as [|e es IH]; intros s Hs Hok Hlt; cbn [map zsum trun foldl doubles] in *.
  { split; [done|lia]. }
  apply Forall_cons in Hok as [He Hok]. pose proof (added_nonneg es). pose proof (doubles_nonneg es (tstep e s)).
  destruct (account_step e s Hs He) as [Hs' Ha]; [lia|].
  destruct (IH _ Hs' Hok) as [IH1 IH2]; [lia|].
  change (flip tstep s e) with (tstep e s). unfold trun in *. split; [done|lia].
Qed.
(** A failed pipeline that executed nothing counts nothing twice. *)
Lemma doubles_none es s :
  Forall (λ e, match e with TExec _ o => exec_err o = None ∨ applied o = 0%nat | _ => True end) es → doubles es s = 0.
Proof.
  intros Hes. revert s. induction Hes as [|e es He _ IH]; intros s; cbn [doubles]; [done|]. rewrite IH, Z.add_0_r.
  unfold doubled. destruct e; try done. destruct (phase s); try done. destruct He as [->| ->]; [done|]. by case_match.
Qed.

(** C6: Conservation. However additions, ticks, the swaps of a flush, pipelines that succeed or
    fail, roll-backs and other services' writes interleave, the bytes of a tracked device in
    memory, in a flush under way and in Redis add up to those there at the start, plus those added
    since, plus those that failed pipelines had written before they failed, which are rolled back
    into memory as well; so when no failed pipeline wrote anything, none is lost and none counted
    twice. The flushes go to the hours counted, no one else writes the device's fields of this
    service, and the sum fits 64 bits. *)
Theorem traffic_conservation (es : list tevent) s :
  sane s → Forall ev_ok es → account s + zsum (map added es) + doubles es s < 2 ^ 63 →
  account (trun es s) = account s + zsum (map added es) + doubles es s ∧ 0 <= doubles es s ∧
  (Forall (λ e, match e with TExec _ o => exec_err o = None ∨ applied o = 0%nat | _ => True end) es →
   account (trun es s) = account s + zsum (map added es)).
Proof.
  intros Hs Hok Hlt. destruct (account_run es s Hs Hok Hlt) as [_ Ha]. split; [done|]. split; [apply doubles_nonneg|].
  intros Hes. rewrite Ha, (doubles_none es s Hes). lia.
Qed.

(** A reply lost after execution double counts. If the pipeline was executed but [Exec]
    reports an error, the roll-back adds every pending byte again: the account grows by all the
    bytes in flight. *)
Lemma lost_reply_double_counts (pending : list pendingItem) (now : civil) (e : goerr) (k : nat) s :
  sane s → phase s = FSend pending → hour_key c now ∈ keys → account s + in_flight s < 2 ^ 63 →
  (length (pipeline c (hour_key c now) pending) ≤ k)%nat →
  account (tstep (TExec now (mkOutcome k (Some e))) s) = account s + in_flight s.
Proof.
  intros Hs Hph Hkey Hlt Hall.
  assert (doubled (TExec now (mkOutcome k (Some e))) s = in_flight s) as Hd.
  { pose proof Hs as (_ & _ & _ & Hp & _). unfold doubled, in_flight. rewrite Hph in *. cbn [exec_err applied pending_of] in *.
    by rewrite take_ge, pipeline_whole by done. }
  destruct (account_step (TExec now (mkOutcome k (Some e))) s Hs Hkey) as [_ ->]; rewrite Hd; cbn [added]; lia.
Qed.
End conservation.

(** ** The dump *)
(** What a field contributes to the bytes of a device, service and direction. *)
Definition contrib (dev svc : string) (d : direction) (fv : string * string) : Z :=
  match parseField fv.1, ParseInt fv.2 with
  | Some (dev', svc', dir), Some b =>
      if bool_decide (dev' = dev ∧ svc' = svc ∧ dir = dir_text d) && (0 <? b) then b else 0
  | _, _ => 0
  end.
Lemma aggregate_sums dev svc fields :
  default (0, 0) (aggregate fields !! (dev, svc))
  = (i64 (zsum (map (contrib dev svc dirUp) fields)), i64 (zsum (map (contrib dev svc dirDown) fields))).
Proof.
  unfold aggregate. induction fields as [|fv l IH] using rev_ind; [done|].
  rewrite foldl_app, !map_app, !zsum_app. cbn [foldl map zsum]. rewrite !Z.add_0_r.
  unfold agg_step at 1, contrib at 2 4.
  destruct (parseField fv.1) as [[[dev' svc'] dir]|]; [|by rewrite IH, !Z.add_0_r].
  destruct (ParseInt fv.2) as [b|]; [|by rewrite IH, !Z.add_0_r].
  destruct (Z.leb_spec b 0) as [Hb|Hb].
  { replace (0 <? b) with false by lia. by rewrite !andb_false_r, IH, !Z.add_0_r. }
  replace (0 <? b) with true by lia. rewrite !andb_true_r.
  destruct (decide (dev' = dev ∧ svc' = svc)) as [[-> ->]|Hne].
  - rewrite IH. rewrite lookup_insert_eq. cbn [default from_option id].
    rewrite <- (i64_add_l _ (if bool_decide (_ ∧ _ ∧ dir = dir_text dirUp) then b else 0)).
    rewrite <- (i64_add_l (zsum (map (contrib dev svc dirDown) l))).
    cbn [dir_text]. repeat case_bool_decide; try (exfalso; naive_solver congruence);
      rewrite ?Z.add_0_r; rewrite ?(i64_id (i64 _)) by apply i64_range; done.
  - destruct (default (0, 0) (foldl agg_step ∅ l !! (dev', svc'))) as [u d].
    rewrite lookup_insert_ne by naive_solver. rewrite IH, !bool_decide_eq_false_2 by naive_solver.
    by rewrite !Z.add_0_r.
Qed.
Lemma zsum_perm l1 l2 : l1 ≡ₚ l2 → zsum l1 = zsum l2.
Proof. induction 1; cbn; lia. Qed.

(** The bytes a hash holds for a device, service and direction. *)
Definition field_bytes (data : gmap string string) (dev svc : string) (d : direction) : Z :=
  match data !! buildField dev svc d with
  | Some v => match ParseInt v with Some b => Z.max 0 b | None => 0 end
  | None => 0
  end.
Lemma contrib_other dev svc d f v : f ≠ buildField dev svc d → contrib dev svc d (f, v) = 0.
Proof.
  intros Hf. unfold contrib. cbn [fst snd]. destruct (parseField f) as [[[dev' svc'] dir]|] eqn:E; [|done].
  destruct (ParseInt v); [|done]. case_bool_decide as Hd; [|done].
  destruct Hd as (-> & -> & ->). apply parseField_Some in E as (-> & _). by destruct Hf.
Qed.
Lemma contrib_hash data dev svc d :
  no_bar dev = true → no_bar svc = true →
  zsum (map (contrib dev svc d) (map_to_list data)) = field_bytes data dev svc d.
Proof.
  intros Hd Hs. set (f := buildField dev svc d).
  assert (∀ m : gmap string string, m !! f = None → zsum (map (contrib dev svc d) (map_to_list m)) = 0) as Hz.
  { intros m Hm. assert (Forall (λ fv, contrib dev svc d fv = 0) (map_to_list m)) as HF.
    { apply Forall_forall. intros [g v] Hg%elem_of_map_to_list. apply contrib_other. intros E.
      unfold f in Hm. rewrite E, Hm in Hg. done. }
    induction HF as [|x l Hx _ IH]; [done|]. cbn. by rewrite Hx, IH. }
  unfold field_bytes. fold f. destruct (data !! f) as [v|] eqn:Ev; [|by apply Hz].
  rewrite <- (insert_delete_id data f v) by done.
  rewrite (zsum_perm _ (map (contrib dev svc d) ((f, v) :: map_to_list (delete f data))))
    by (apply Permutation_map, map_to_list_insert, lookup_delete_eq).
  cbn [map zsum]. rewrite Hz by apply lookup_delete_eq. unfold contrib. cbn [fst snd].
  assert (parseField f = Some (dev, svc, dir_text d)) as -> by (by apply parseField_Some).
  destruct (ParseInt v) as [b|]; [|done]. rewrite bool_decide_eq_true_2 by done. cbn [andb].
  destruct (Z.ltb_spec 0 b); lia.
Qed.
Lemma field_bytes_range data dev svc d : 0 <= field_bytes data dev svc d < 2 ^ 63.
Proof.
  unfold field_bytes. destruct (data !! _) as [v|]; [|lia]. destruct (ParseInt v) as [b|] eqn:E; [|lia].
  assert (in_i64 b); [|unfold in_i64 in *; lia]. unfold ParseInt in E.
  destruct (match v with String _ _ => _ | EmptyString => _ end) as [z|]; [|done].
  case_bool_decide; [|done]. by injection E as <-.
Qed.
Lemma aggregate_bar data dev svc x :
  aggregate data !! (dev, svc) = Some x → no_bar dev = true ∧ no_bar svc = true.
Proof.
  revert x. unfold aggregate. induction data as [|fv l IH] using rev_ind; intros x; [done|].
  rewrite foldl_app. cbn [foldl]. unfold agg_step at 1.
  destruct (parseField fv.1) as [[[dev' svc'] dir]|] eqn:E; [|by apply IH].
  destruct (ParseInt fv.2); [|by apply IH]. case_match; [by apply IH|].
  destruct (default _ _) as [u d]. intros [[Hk _]|[_ ?]]%lookup_insert_Some; [|by eapply IH].
  injection Hk as <- <-. by apply parseField_Some in E as (_ & ? & ?).
Qed.

(** Kilobytes are rounded to the nearest. *)
Lemma bytesToKB_near b : 0 <= b < 2 ^ 63 - 512 → b - 512 <= 1024 * bytesToKB b <= b + 512.
Proof.
  intros Hb. unfold bytesToKB. destruct (Z.leb_spec b 0); [lia|].
  rewrite i64_id by (unfold in_i64; lia). rewrite Z.quot_div_nonneg by lia.
  pose proof (Z.div_mod (b + 512) 1024). pose proof (Z.mod_pos_bound (b + 512) 1024). lia.
Qed.

(** The records of an hour. Each is for a device and service without a bar, no two share
    the table's unique key, each holds the hash's bytes of that device and service in both
    directions, in kilobytes rounded to the nearest, and every device and service with bytes
    has one. *)
Lemma records_report_hash (data : gmap string string) (h : Z) :
  let recs := aggregateHashToRecords data h in
  let kb dev svc d := bytesToKB (field_bytes data dev svc d) in
  NoDup (map row_key recs) ∧
  (∀ t, t ∈ recs → no_bar (th_DeviceNo t) = true ∧ no_bar (Service t) = true ∧
     t = mkTrafficHourly h (th_DeviceNo t) (Service t) (kb (th_DeviceNo t) (Service t) dirUp)
           (kb (th_DeviceNo t) (Service t) dirDown)) ∧
  (∀ dev svc, no_bar dev = true → no_bar svc = true →
     0 < field_bytes data dev svc dirUp ∨ 0 < field_bytes data dev svc dirDown →
     mkTrafficHourly h dev svc (kb dev svc dirUp) (kb dev svc dirDown) ∈ recs) ∧
  (∀ dev svc d, let b := field_bytes data dev svc d in
     b < 2 ^ 63 - 512 → b - 512 <= 1024 * kb dev svc d <= b + 512).
Proof.
  intros recs kb. set (m := aggregate (map_to_list data)).
  assert (∀ dev svc, no_bar dev = true → no_bar svc = true → default (0, 0) (m !! (dev, svc))
            = (field_bytes data dev svc dirUp, field_bytes data dev svc dirDown)) as Hm.
  { intros dev svc Hd Hs. unfold m. rewrite aggregate_sums, !contrib_hash by done.
    pose proof (field_bytes_range data dev svc dirUp). pose proof (field_bytes_range data dev svc dirDown).
    by rewrite !i64_id by (unfold in_i64; lia). }
  split_and!.
  - unfold recs, aggregateHashToRecords. rewrite map_map. fold m.
    assert (map (λ kv, row_key (record_of h kv)) (map_to_list m)
            = (λ k : string * string, (h, k.1, k.2)) <$> (map_to_list m).*1) as ->.
    { rewrite <- list_fmap_compose. done. }
    apply NoDup_fmap_2; [|apply NoDup_fst_map_to_list]. intros [? ?] [? ?] E. by injection E as -> ->.
  - intros t Ht. apply list_elem_of_In, in_map_iff in Ht as ([[dev svc] [u d]] & <- & Ht).
    apply list_elem_of_In, elem_of_map_to_list in Ht. fold m in Ht.
    destruct (aggregate_bar _ _ _ _ Ht) as [Hd Hs]. cbn. split_and!; [done|done|].
    specialize (Hm dev svc Hd Hs). rewrite Ht in Hm. cbn in Hm. injection Hm as -> ->. done.
  - intros dev svc Hd Hs Hpos. specialize (Hm dev svc Hd Hs).
    destruct (m !! (dev, svc)) as [[u d]|] eqn:E; cbn in Hm; injection Hm as Hu Hn; [|lia].
    unfold kb. rewrite <- Hu, <- Hn. apply list_elem_of_In, in_map_iff. eexists. split; [|by apply list_elem_of_In, elem_of_map_to_list].
    done.
  - intros dev svc d b Hb. pose proof (field_bytes_range data dev svc d) as Hr. subst kb. cbn beta.
    fold b in Hr |- *. apply bytesToKB_near. lia.
Qed.
