(* ===== verification/TrafficDump.v ===== *)
(** Properties of the hourly dump (pkg/traffic/dao.go), and concrete services on which the
    traffic theorems are exercised. *)
From Stdlib Require Import Ascii.
From stdpp Require Import prelude gmap strings list.
From S2P Require Import Prelude GoStrings Traffic TrafficProofs.

Section dump.
Context {R D : Type} `{RedisHashLaws R} `{TrafficTableLaws D} (local : civil → Z) (c : Config).
Implicit Types (rd : R * D) (data : gmap string string).

(** The rows of the table are those of the hour's hash. *)
Definition stored (h : Z) data (d : D) : Prop :=
  ∀ t, t ∈ aggregateHashToRecords data h → rows d !! row_key t = Some (UpKB t, DownKB t).
(** The hash is still there, or its bytes are in the table. *)
Definition settled (key : string) (h : Z) data rd : Prop :=
  HGetAll key rd.1 = data ∨ (HGetAll key rd.1 = ∅ ∧ stored h data rd.2).

Lemma records_key data h t : t ∈ aggregateHashToRecords data h → StatTime t = h.
Proof. intros (x & <- & _)%list_elem_of_In%in_map_iff. done. Qed.
Lemma upsert_stored h data d : stored h data (Upsert (aggregateHashToRecords data h) d).
Proof. intros t Ht. apply Upsert_row; [|done]. apply (records_report_hash data h). Qed.
Lemma upsert_other h h' data data' d :
  h ≠ h' → stored h data d → stored h data (Upsert (aggregateHashToRecords data' h') d).
Proof.
  intros Hne Hs t Ht. rewrite Upsert_rows; [by apply Hs|].
  intros (t' & E & Ht')%list_elem_of_In%in_map_iff. apply list_elem_of_In in Ht'.
  apply records_key in Ht, Ht'. unfold row_key in E. injection E as E _ _. congruence.
Qed.
Lemma upsertBatch_stored a h h' data data' d :
  h ≠ h' → stored h data d → stored h data (upsertBatch a (aggregateHashToRecords data' h') d).2.
Proof.
  intros Hne Hs. unfold upsertBatch. destruct (aggregateHashToRecords data' h') eqn:E; [done|].
  rewrite <- E. destruct (upsert_err a) as [[e []]|]; cbn; by try apply upsert_other.
Qed.
Lemma del_answer_other a key key' r :
  key ≠ key' → HGetAll key (del_answer a key' r) = HGetAll key r.
Proof. intros Hk. unfold del_answer. destruct (del_err a) as [[? []]|]; by rewrite ?Del_keys. Qed.
Lemma del_answer_same a key r :
  HGetAll key (del_answer a key r) = HGetAll key r ∨ HGetAll key (del_answer a key r) = ∅.
Proof. unfold del_answer. destruct (del_err a) as [[? []]|]; rewrite ?Del_key; auto. Qed.

(** One key of the loop: nothing unsettles, what is stored stays, and the key itself is stored
    unless it failed. *)
Lemma dump_key_step key h data current a key' rd :
  extractHourFromKey local c key = Some h → key ≠ current →
  (extractHourFromKey local c key' = Some h → key' = key) →
  settled key h data rd →
  let '(x, rd') := dump_key local c current a key' rd in
  settled key h data rd' ∧ (stored h data rd.2 → stored h data rd'.2) ∧
  (key' = key → is_failed x = false → stored h data rd'.2).
Proof.
  intros Hh Hcur Hinj Hset. destruct rd as [r d]. unfold dump_key.
  destruct (decide (key' = key)) as [->|Hk].
  - rewrite bool_decide_eq_false_2, Hh by done.
    destruct (hget_err a); [by split_and!|].
    assert (∀ r', (HGetAll key r' = HGetAll key r ∨ HGetAll key r' = ∅) →
              stored h data d → settled key h data (r', d)) as Hany.
    { intros r' [E|E] Hst; unfold settled; cbn; rewrite E; [|by right].
      destruct Hset as [Hset|[Hset _]]; cbn in Hset; rewrite Hset; [by left|by right]. }
    assert (aggregateHashToRecords (HGetAll key r) h = [] → stored h data d) as Hnil.
    { intros E. destruct Hset as [Hset|[_ Hset]]; [|done]. cbn in Hset. rewrite Hset in E.
      intros t Ht. rewrite E in Ht. by apply not_elem_of_nil in Ht. }
    case_bool_decide as Hemp.
    { assert (stored h data d) by (apply Hnil; by rewrite Hemp).
      split_and!; auto. apply Hany; [apply del_answer_same|done]. }
    destruct (aggregateHashToRecords (HGetAll key r) h) as [|t ts] eqn:E.
    { split_and!; auto. apply Hany; [apply del_answer_same|auto]. }
    destruct Hset as [Hset|[Hset _]]; cbn in Hset; [|done]. rewrite Hset in E. rewrite <- E.
    unfold upsertBatch. rewrite E, <- E. pose proof (upsert_stored h data d) as Hst.
    assert (∀ r', (HGetAll key r' = HGetAll key r ∨ HGetAll key r' = ∅) →
              settled key h data (r', Upsert (aggregateHashToRecords data h) d)) as Hany'.
    { intros r' [E'|E']; unfold settled; cbn; rewrite E', ?Hset; auto. }
    destruct (upsert_err a) as [[e []]|]; cbn [snd is_failed].
    + split_and!; auto.
    + split_and!; try done. left. done.
    + split_and!; auto using del_answer_same.
  - case_bool_decide; [by split_and!|].
    destruct (extractHourFromKey local c key') as [h'|] eqn:Eh; [|by split_and!].
    assert (h ≠ h') as Hne by naive_solver. clear Hinj.
    destruct (hget_err a); [by split_and!|].
    assert (∀ r' d', HGetAll key r' = HGetAll key r → (stored h data d → stored h data d') →
              settled key h data (r', d')) as Hany.
    { intros r' d' E Hst. unfold settled in *. cbn in *. rewrite E. naive_solver. }
    case_bool_decide; [split_and!; [apply Hany; [apply del_answer_other; congruence|done]|done|done]|].
    destruct (aggregateHashToRecords (HGetAll key' r) h') as [|t ts] eqn:E;
      [split_and!; [apply Hany; [apply del_answer_other; congruence|done]|done|done]|].
    rewrite <- E. pose proof (upsertBatch_stored a h h' data (HGetAll key' r) d Hne) as Hup.
    destruct (upsertBatch a _ d) as [[e|] d']; cbn [snd] in *.
    + split_and!; [by apply Hany|done|done].
    + split_and!; [apply Hany; [apply del_answer_other; congruence|done]|done|done].
Qed.

(** The loop. *)
Lemma dump_keys_settled key h data (now : civil) (ans : nat → answers) keys rd :
  extractHourFromKey local c key = Some h → key ≠ hour_key c now →
  (∀ key', key' ∈ keys → extractHourFromKey local c key' = Some h → key' = key) →
  settled key h data rd →
  let '(xs, rd') := dump_keys local c (hour_key c now) keys ans rd in
  settled key h data rd' ∧ (stored h data rd.2 → stored h data rd'.2) ∧
  (existsb is_failed xs = false → key ∈ keys → stored h data rd'.2).
Proof.
  intros Hh Hcur. revert rd. induction keys as [|k ks IH]; intros rd Hinj Hset.
  { split_and!; try done. intros _ Hin. by apply not_elem_of_nil in Hin. }
  cbn [dump_keys].
  pose proof (dump_key_step key h data (hour_key c now) (ans (length ks)) k rd Hh Hcur
                (Hinj k ltac:(by left)) Hset) as Hstep.
  destruct (dump_key local c (hour_key c now) (ans (length ks)) k rd) as [x rd1].
  destruct Hstep as (S1 & M1 & F1). specialize (IH rd1 ltac:(intros; apply Hinj; [by right|done]) S1).
  destruct (dump_keys local c (hour_key c now) ks ans rd1) as [xs rd2].
  destruct IH as (S2 & M2 & F2). split_and!; [done|auto|].
  cbn [existsb]. intros [Hx Hxs]%orb_false_iff [->|Hin]%elem_of_cons; auto.
Qed.

(** C7: The dump loses nothing. Whatever the server and the database answer, an hour's hash is
    afterwards still there or its records are in the table; and if the dump reports no error,
    the records of every finished hour it scanned are in the table. *)
Theorem dump_never_loses (now : civil) (keys : list string) (ans : nat → answers) rd
    (key : string) (h : Z) :
  extractHourFromKey local c key = Some h → key ≠ hour_key c now →
  (∀ key', key' ∈ keys → extractHourFromKey local c key' = Some h → key' = key) →
  let '(err, rd') := dumpPending local c now (inr keys) ans rd in
  settled key h (HGetAll key rd.1) rd' ∧
  (err = None → key ∈ keys → stored h (HGetAll key rd.1) rd'.2).
Proof.
  intros Hh Hcur Hinj. unfold dumpPending.
  pose proof (dump_keys_settled key h (HGetAll key rd.1) now ans keys rd Hh Hcur Hinj ltac:(by left)) as Hall.
  destruct (dump_keys local c (hour_key c now) keys ans rd) as [xs rd'].
  destruct Hall as (S1 & _ & F1). split; [done|].
  destruct (existsb is_failed xs); [done|]. auto.
Qed.
End dump.

(** ** Concrete services *)
Abbreviation mem_redis := (gmap string (gmap string string)).
Definition mem_hash (k : string) (r : mem_redis) : gmap string string := default ∅ (r !! k).
#[global] Instance mem_RedisHash : RedisHash mem_redis := {
  HGetAll := mem_hash;
  HIncrBy k f n r :=
    match field_num (mem_hash k r !! f) with
    | Some v => <[k := <[f := FormatInt (v + n)]> (mem_hash k r)]> r
    | None => r
    end;
  Del := delete;
  Expire k t r := r }.
#[global] Instance mem_RedisHashLaws : RedisHashLaws mem_redis.
Proof.
  split; cbn; unfold mem_hash.
  - intros k f n r v -> _. rewrite lookup_insert_eq. cbn. by rewrite lookup_insert_eq.
  - intros k f g n r Hne. destruct (field_num _); [|done].
    rewrite lookup_insert_eq. cbn. by rewrite lookup_insert_ne.
  - intros k k' f n r Hne. destruct (field_num _); [|done]. by rewrite lookup_insert_ne.
  - intros k r. by rewrite lookup_delete_eq.
  - intros k k' r Hne. by rewrite lookup_delete_ne.
  - done.
Qed.
Abbreviation mem_table := (gmap (Z * string * string) (Z * Z)).
#[global] Instance mem_TrafficTable : TrafficTable mem_table := {
  rows d := d;
  Upsert recs d := foldl (λ d t, <[row_key t := (UpKB t, DownKB t)]> d) d recs }.
#[global] Instance mem_TrafficTableLaws : TrafficTableLaws mem_table.
Proof.
  assert (∀ (recs : list TrafficHourly) (d : mem_table) k, k ∉ map row_key recs →
    foldl (λ d t, <[row_key t := (UpKB t, DownKB t)]> d) d recs !! k = d !! k) as Hout.
  { induction recs as [|t ts IH]; intros d k Hk; [done|]. cbn in *.
    apply not_elem_of_cons in Hk as [Hk1 Hk2]. rewrite IH by done. by rewrite lookup_insert_ne. }
  split; cbn; [|done]. intros recs. induction recs as [|t ts IH]; intros d t' Hnd Ht; [by apply not_elem_of_nil in Ht|].
  cbn in *. apply NoDup_cons in Hnd as [Hn Hnd]. apply elem_of_cons in Ht as [->|Ht]; [|by apply IH].
  rewrite Hout by done. by rewrite lookup_insert_eq.
Qed.

(** ** Witnesses *)
Definition tcfg : Config := with_defaults (mkConfig "iot" true true ["D1"; "D2"] "" 0 0 "").
Definition hour9 : civil := mkCivil 2026 5 20 9.
Definition hour10 : civil := mkCivil 2026 5 20 10.
Definition key9 : string := hour_key tcfg hour9.
Definition instant (c : civil) : Z := (c_month c * 31 + c_day c) * 24 + c_hour c.
Definition start : tstate mem_redis :=
  mkTState (newTracker tcfg {["D1"; "D2"]}) ∅ FIdle false false.
Definition lost : outcome := mkOutcome 0 (Some (ErrExt "redis: connection reset")).
Definition traffic_events : list tevent :=
  [TAdd dirUp "D1" 700; TAdd dirUp "D1" (-5); TTick ["D1"; "D2"]; TSwap; TAdd dirUp "D1" 300; TSwap;
   TSwap; TExec hour9 lost; TBack; TBack; TTick ["D1"; "D2"]; TSwap; TSwap; TSwap;
   TExec hour9 (mkOutcome 0 None)].

Lemma start_sane : sane tcfg "D1" dirUp [key9] start.
Proof.
  split_and!; [done|by eexists|done|constructor|]. constructor; [|constructor]. by exists 0.
Qed.
(** The same with a first pipeline that fails after its first command: 700 bytes are there twice. *)
Definition leaky_events : list tevent :=
  [TAdd dirUp "D1" 700; TTick ["D1"; "D2"]; TSwap; TAdd dirUp "D1" 300; TSwap; TSwap;
   TExec hour9 (mkOutcome 1 (Some (ErrExt "i/o timeout"))); TBack; TBack;
   TTick ["D1"; "D2"]; TSwap; TSwap; TSwap; TExec hour9 (mkOutcome 0 None)].
Lemma traffic_conservation_witness :
  account tcfg "D1" dirUp [key9] (trun traffic_events start) = 1000 ∧
  account tcfg "D1" dirUp [key9] (trun leaky_events start) = 1700 ∧
  hval tcfg "D1" dirUp key9 (redis (trun leaky_events start)) = 1700.
Proof.
  assert (∀ es, Forall (ev_ok tcfg "D1" dirUp [key9]) es →
    account tcfg "D1" dirUp [key9] start + zsum (map (added "D1" dirUp) es) + doubles tcfg "D1" dirUp es start < 2 ^ 63 →
    account tcfg "D1" dirUp [key9] (trun es start)
      = account tcfg "D1" dirUp [key9] start + zsum (map (added "D1" dirUp) es) + doubles tcfg "D1" dirUp es start) as Hrun.
  { intros es Hes Hlt. apply (traffic_conservation tcfg "D1" dirUp [key9]); [apply NoDup_singleton|reflexivity|apply start_sane|exact Hes|exact Hlt]. }
  split; [|split; [|vm_compute; reflexivity]].
  - rewrite Hrun; [vm_compute; reflexivity|repeat constructor; done|vm_compute; reflexivity].
  - rewrite Hrun; [vm_compute; reflexivity|repeat constructor; done|vm_compute; reflexivity].
Defined.
Definition sending : tstate mem_redis :=
  mkTState (newTracker tcfg {["D1"; "D2"]}) ∅ (FSend [mkPending "D1" 700 0]) false false.
Lemma lost_reply_double_counts_witness :
  account tcfg "D1" dirUp [key9]
    (tstep (TExec hour9 (mkOutcome 5 (Some (ErrExt "i/o timeout")))) sending) = 1400.
Proof.
  rewrite (lost_reply_double_counts tcfg "D1" dirUp [key9] ltac:(apply NoDup_singleton) ltac:(reflexivity)
             [mkPending "D1" 700 0] hour9 (ErrExt "i/o timeout") 5 sending);
    [vm_compute; reflexivity|..].
  - split_and!; [done|by eexists|done|by repeat constructor|]. constructor; [|constructor]. by exists 0.
  - reflexivity.
  - by left.
  - vm_compute. reflexivity.
  - vm_compute. lia.
Defined.
Lemma hour_key_roundtrip_witness :
  extractHourFromKey instant tcfg "traffic:hourly:2026052009" = Some 4209.
Proof. apply (hour_key_roundtrip instant tcfg hour9). unfold valid_civil. cbn. lia. Defined.
Definition full : mem_redis := redis (trun traffic_events start).
Definition fine (n : nat) : answers := mkAnswers None None None.
Definition before : mem_redis * mem_table := (full, ∅).
Lemma dump_never_loses_witness :
  (dumpPending instant tcfg hour10 (inr [key9]) fine before).1 = None ∧
  let '(err, rd') := dumpPending instant tcfg hour10 (inr [key9]) fine before in
  settled key9 4209 (HGetAll key9 before.1) rd' ∧
  (err = None → key9 ∈ [key9] → stored 4209 (HGetAll key9 before.1) rd'.2).
Proof.
  split; [vm_compute; reflexivity|].
  assert (extractHourFromKey instant tcfg key9 = Some 4209) as H1 by (vm_compute; reflexivity).
  assert (key9 ≠ hour_key tcfg hour10) as H2 by (apply String.eqb_neq; vm_compute; reflexivity).
  assert (∀ key', key' ∈ [key9] → extractHourFromKey instant tcfg key' = Some 4209 → key' = key9) as H3
    by (intros key' Hk _; by apply list_elem_of_singleton in Hk).
  pose proof (dump_never_loses instant tcfg hour10 [key9] fine before key9 4209 H1 H2 H3) as P.
  exact P.
Defined.
