(* ===== verification/TrafficFlow.v ===== *)
(** The whole way of a byte (pkg/traffic): from [AddUp] and [AddDown] through the counters, the
    flushes and the Redis hashes of several hours into the rows that the dump writes. *)
From stdpp Require Import prelude gmap strings list.
From S2P Require Import Prelude GoStrings GoTime Traffic TrafficProofs TrafficDump.

(** ** Rows nobody reports stay as they were *)
Section frame.
Context {R D : Type} `{RedisHashLaws R} `{TrafficTableLaws D} (local : civil → Z) (c : Config).
Implicit Types (g : string → gmap string string).

(** The hashes are those of [g], or were deleted since. *)
Definition left_of g (r : R) : Prop := ∀ k, HGetAll k r = g k ∨ HGetAll k r = ∅.
Lemma left_of_del g a key r : left_of g r → left_of g (del_answer a key r).
Proof.
  intros Hl k. destruct (decide (k = key)) as [->|Hk].
  - destruct (del_answer_same a key r) as [->| ->]; auto.
  - rewrite del_answer_other by done. apply Hl.
Qed.
Lemma upsertBatch_frame a recs (d : D) k :
  k ∉ map row_key recs → rows (upsertBatch a recs d).2 !! k = rows d !! k.
Proof.
  intros Hk. unfold upsertBatch. destruct recs as [|t ts]; [done|].
  destruct (upsert_err a) as [[e []]|]; cbn [snd]; by rewrite ?Upsert_rows.
Qed.
(** No key that the scan returned reports [rk]. *)
Definition unreported g (rk : Z * string * string) (key : string) : Prop :=
  ∀ h, extractHourFromKey local c key = Some h → rk ∉ map row_key (aggregateHashToRecords (g key) h).
Lemma dump_key_frame g current a key (rd : R * D) rk :
  left_of g rd.1 → unreported g rk key →
  let '(_, rd') := dump_key local c current a key rd in
  left_of g rd'.1 ∧ rows rd'.2 !! rk = rows rd.2 !! rk.
Proof.
  destruct rd as [r d]. cbn [fst snd]. intros Hl Hk. unfold dump_key.
  case_bool_decide; [by split|]. specialize (Hk : unreported g rk key). unfold unreported in Hk.
  destruct (extractHourFromKey local c key) as [h|]; [|by split].
  destruct (hget_err a); [by split|].
  case_bool_decide as He; [by split; [apply left_of_del|]|].
  assert (HGetAll key r = g key) as Hg by (by destruct (Hl key)).
  specialize (Hk h eq_refl). rewrite <- Hg in Hk.
  pose proof (upsertBatch_frame a (aggregateHashToRecords (HGetAll key r) h) d rk Hk) as Hf.
  destruct (aggregateHashToRecords (HGetAll key r) h) as [|t ts]; [by split; [apply left_of_del|]|].
  destruct (upsertBatch a (t :: ts) d) as [[e|] d']; cbn [fst snd] in *; split; auto using left_of_del.
Qed.
Lemma dump_keys_frame g current ans keys (rd : R * D) rk :
  left_of g rd.1 → Forall (unreported g rk) keys →
  rows (dump_keys local c current keys ans rd).2.2 !! rk = rows rd.2 !! rk.
Proof.
  intros Hl Hk. revert rd Hl. induction Hk as [|key keys Hk Hks IH]; intros rd Hl; [done|].
  cbn [dump_keys]. pose proof (dump_key_frame g current (ans (length keys)) key rd rk Hl Hk) as Hf.
  destruct (dump_key local c current (ans (length keys)) key rd) as [x rd1].
  destruct Hf as [Hl1 Hf]. specialize (IH rd1 Hl1).
  destruct (dump_keys local c current keys ans rd1) as [xs rd2]. cbn [snd] in *. by rewrite IH.
Qed.
End frame.

(** ** From the callers to the table *)
Section flow.
Context {R D : Type} `{RedisHashLaws R} `{TrafficTableLaws D} (local : civil → Z) (c : Config).
(** One device, and the hours during which its bytes were flushed. *)
Context (dev : string) (hours : list civil).
Implicit Types (s : tstate R) (d : D).
Definition hkeys : list string := hour_key c <$> hours.

(** What the table reports of the device in an hour, in kilobytes. *)
Definition table_kb d (h : Z) (dir : direction) : Z :=
  match rows d !! (h, dev, ServiceName c) with
  | Some (u, w) => match dir with dirUp => u | dirDown => w end
  | None => 0
  end.
Definition held (dir : direction) s : Z := in_memory dev dir (tr s) + in_flight dev dir s.

Lemma hval_bytes dir k r :
  hok c dev dir r k →
  field_bytes (HGetAll k r) dev (ServiceName c) dir = hval c dev dir k r.
Proof.
  intros (v & Hv & Hp). unfold field_bytes, hval, the_field in *.
  destruct (HGetAll k r !! buildField dev (ServiceName c) dir) as [x|]; cbn [field_num] in *.
  - rewrite Hv. cbn. lia.
  - by injection Hv as <-.
Qed.

Lemma NoDup_fmap_elem {A B} (f : A → B) l x y :
  NoDup (f <$> l) → x ∈ l → y ∈ l → f x = f y → x = y.
Proof.
  intros Hnd [i Hi]%list_elem_of_lookup [j Hj]%list_elem_of_lookup E.
  assert (i = j) as ->; [|congruence].
  apply (NoDup_lookup _ i j (f x) Hnd); rewrite list_lookup_fmap; [by rewrite Hi|].
  rewrite Hj, E. done.
Qed.

(** An hour's row after a dump without error. *)
Lemma dumped_row i (r : R) d (now : civil) keys ans r' d' dir :
  i ∈ hours → Forall valid_civil hours → NoDup (local <$> hours) →
  no_bar dev = true → no_bar (ServiceName c) = true →
  (∀ dir, hok c dev dir r (hour_key c i)) →
  rows d !! (local i, dev, ServiceName c) = None →
  hour_key c now ≠ hour_key c i → hour_key c i ∈ keys →
  (∀ k h, k ∈ keys → extractHourFromKey local c k = Some h → h ∈ local <$> hours → k ∈ hkeys) →
  dumpPending local c now (inr keys) ans (r, d) = (None, (r', d')) →
  table_kb d' (local i) dir = bytesToKB (hval c dev dir (hour_key c i) r).
Proof.
  intros Hi Hval Hnd Hdev Hsvc Hok Hrow Hcur Hin Huniq Hrun.
  set (key := hour_key c i) in *. set (data := HGetAll key r).
  assert (extractHourFromKey local c key = Some (local i)) as Hh.
  { apply hour_key_roundtrip. by apply (proj1 (Forall_forall _ _) Hval). }
  assert (∀ k, k ∈ keys → extractHourFromKey local c k = Some (local i) → k = key) as Hinj.
  { intros k Hk Hkh. pose proof (Huniq k (local i) Hk Hkh ltac:(by apply list_elem_of_fmap_2)) as Hkk.
    apply list_elem_of_fmap in Hkk as (j & -> & Hj).
    rewrite hour_key_roundtrip in Hkh by (by apply (proj1 (Forall_forall _ _) Hval)).
    injection Hkh as Hkh. by rewrite (NoDup_fmap_elem local hours j i). }
  unfold dumpPending in Hrun.
  pose proof (dump_keys_settled local c key (local i) data now ans keys (r, d) Hh
                ltac:(done) Hinj ltac:(by left)) as Hset.
  pose proof (dump_keys_frame local c (λ k, HGetAll k r) (hour_key c now) ans keys (r, d)
                (local i, dev, ServiceName c)) as Hframe.
  destruct (dump_keys local c (hour_key c now) keys ans (r, d)) as [xs rd'] eqn:Hk.
  destruct Hset as (_ & _ & Hst). destruct (existsb is_failed xs) eqn:Hf; [done|].
  injection Hrun as ->. specialize (Hst eq_refl Hin). cbn [fst snd] in *.
  destruct (records_report_hash data (local i)) as (_ & Hrec & Hall & _).
  rewrite <- (hval_bytes dir key r (Hok dir)). fold data. unfold table_kb.
  destruct (decide ((local i, dev, ServiceName c) ∈ map row_key (aggregateHashToRecords data (local i))))
    as [Hyes|Hno].
  - apply list_elem_of_In, in_map_iff in Hyes as (t & Ht & Htin).
    apply list_elem_of_In in Htin. pose proof (Hst t Htin) as Hrw. rewrite Ht in Hrw.
    destruct (Hrec t Htin) as (_ & _ & E). unfold row_key in Ht. injection Ht as _ E1 E2.
    rewrite E1, E2 in E. rewrite Hrw, E. by destruct dir.
  - rewrite Hframe, Hrow.
    + assert (field_bytes data dev (ServiceName c) dir = 0) as ->; [|done].
      pose proof (field_bytes_range data dev (ServiceName c) dir).
      destruct (decide (field_bytes data dev (ServiceName c) dir = 0)); [done|]. exfalso. apply Hno.
      assert (0 < field_bytes data dev (ServiceName c) dirUp ∨
              0 < field_bytes data dev (ServiceName c) dirDown) as Hpos by (destruct dir; [left|right]; lia).
      apply list_elem_of_In, in_map_iff. eexists. split; [|by apply list_elem_of_In, (Hall dev (ServiceName c) Hdev Hsvc Hpos)].
      done.
    + intros k. by left.
    + apply Forall_forall. intros k Hkin h Hkh Hr. cbn beta in Hr.
      pose proof Hr as (t & Ht & Htin)%list_elem_of_In%in_map_iff.
      apply list_elem_of_In in Htin. apply records_key in Htin. unfold row_key in Ht.
      injection Ht as E _ _. rewrite Htin in E. subst h.
      rewrite (Hinj k Hkin Hkh) in Hr. done.
Qed.

(** C13: Every byte reaches the table. Let additions, flushes that succeed or fail and other
    services' writes to their own fields interleave over any number of hours, and let a later dump
    scan these hours' keys and report no error. If the names have no separator and the table had no
    rows for these hours, then the kilobytes that its rows give for the device are the bytes added,
    plus those that failed pipelines had written before they failed (they are counted twice), less
    those still in memory or in a flush under way, to within half a kilobyte for each hour, in each
    direction. *)
Theorem bytes_reach_table (es : list tevent) s (now : civil) scan ans d r' d' (dir : direction) :
  NoDup hkeys → Forall valid_civil hours → NoDup (local <$> hours) → 0 < HourKeyTTL c →
  no_bar dev = true → no_bar (ServiceName c) = true →
  (∀ x, sane c dev x hkeys s ∧ account c dev x hkeys s = 0 ∧ Forall (ev_ok c dev x hkeys) es ∧
        zsum (map (added dev x) es) + doubles c dev x es s < 2 ^ 63 - 512) →
  (∀ i, i ∈ hours → rows d !! (local i, dev, ServiceName c) = None) →
  hour_key c now ∉ hkeys → (∀ k, k ∈ hkeys → k ∈ scan) →
  (∀ k h, k ∈ scan → extractHourFromKey local c k = Some h → h ∈ local <$> hours → k ∈ hkeys) →
  dumpPending local c now (inr scan) ans (redis (trun es s), d) = (None, (r', d')) →
  Z.abs (1024 * zsum (map (λ i, table_kb d' (local i) dir) hours)
         - (zsum (map (added dev dir) es) + doubles c dev dir es s - held dir (trun es s)))
    <= 512 * zlen hours.
Proof.
  intros Hnd Hval Hloc Httl Hdev Hsvc Hs Hrows Hcur Hsub Huniq Hrun.
  set (s' := trun es s) in *.
  assert (∀ x, sane c dev x hkeys s' ∧ account c dev x hkeys s' = zsum (map (added dev x) es) + doubles c dev x es s) as Hrunok.
  { intros x. destruct (Hs x) as (S1 & A1 & E1 & L1).
    destruct (account_run c dev x hkeys Hnd Httl es s S1 E1) as [S2 A2]; [lia|].
    split; [done|]. unfold s'. lia. }
  assert (∀ x, Forall (hok c dev x (redis s')) hkeys) as Hok by (intros x; apply Hrunok).
  assert (∀ i, i ∈ hours → table_kb d' (local i) dir = bytesToKB (hval c dev dir (hour_key c i) (redis s')))
    as Hrow.
  { intros i Hi. assert (hour_key c i ∈ hkeys) as Hk by (by apply list_elem_of_fmap_2).
    eapply (dumped_row i (redis s') d now scan ans r' d' dir); eauto.
    - intros x. by apply (proj1 (Forall_forall _ _) (Hok x)).
    - intros E. by rewrite E in Hcur. }
  destruct (Hrunok dir) as [(Hc & _ & Hm & Hp & _) Hacc]. destruct (Hs dir) as (_ & _ & _ & Hlt).
  assert (0 <= in_flight dev dir s') as Hfl by (by apply zsum_nonneg, Forall_map).
  unfold account in Hacc. unfold held.
  replace (_ - _) with (1024 * zsum (map (λ i, table_kb d' (local i) dir) hours)
    - in_redis c dev dir hkeys (redis s')) by lia.
  assert (in_redis c dev dir hkeys (redis s') < 2 ^ 63 - 512) as Hir by lia.
  specialize (Hok dir). unfold in_redis, hkeys in Hir, Hok |- *. clear -Hrow Hok Hir H0. revert Hir Hok Hrow.
  generalize hours as l. induction l as [|i l IH]; intros Hir Hok Hrow; [unfold zlen; cbn; lia|].
  change (hour_key c <$> i :: l) with (hour_key c i :: (hour_key c <$> l)) in *. cbn [map zsum] in *. apply Forall_cons in Hok as [Hki Hok].
  rewrite zlen_cons. rewrite (Hrow i) by left.
  pose proof (hok_val c dev dir (redis s') (hour_key c i) Hki) as [_ Hv0].
  pose proof (in_redis_nonneg c dev dir (hour_key c <$> l) (redis s') Hok) as Hnn. unfold in_redis in Hnn.
  specialize (IH ltac:(lia) Hok ltac:(intros; apply Hrow; by right)).
  assert (hval c dev dir (hour_key c i) (redis s') - 512
    <= 1024 * bytesToKB (hval c dev dir (hour_key c i) (redis s'))
    <= hval c dev dir (hour_key c i) (redis s') + 512) as Hkb by (apply bytesToKB_near; lia).
  lia.
Qed.
End flow.

(** ** Two hours of two devices, dumped in the third *)
(** The second hour's pipeline fails after its first command, and is retried. *)
Definition flow_events : list tevent :=
  traffic_events ++
  [TAdd dirUp "D1" 2000; TAdd dirDown "D1" 5000; TTick ["D1"; "D2"]; TSwap; TSwap; TSwap;
   TExec hour10 (mkOutcome 1 (Some (ErrExt "i/o timeout"))); TBack; TBack;
   TTick ["D1"; "D2"]; TSwap; TSwap; TSwap; TExec hour10 (mkOutcome 0 None)].
Definition hour11 : civil := mkCivil 2026 5 20 11.
Definition flow_scan : list string := ["traffic:hourly:other"; hour_key tcfg hour10; key9].
Lemma bytes_reach_table_witness :
  let res := dumpPending instant tcfg hour11 (inr flow_scan) fine
               (redis (trun flow_events start), (∅ : mem_table)) in
  res.1 = None ∧
  Z.abs (1024 * zsum (map (λ i, table_kb tcfg "D1" res.2.2 (instant i) dirUp) [hour9; hour10])
         - (zsum (map (added "D1" dirUp) flow_events) + doubles tcfg "D1" dirUp flow_events start
            - held "D1" dirUp (trun flow_events start)))
    <= 512 * zlen [hour9; hour10] ∧
  map (λ i, table_kb tcfg "D1" res.2.2 (instant i) dirUp) [hour9; hour10] = [1; 4] ∧
  map (λ i, table_kb tcfg "D1" res.2.2 (instant i) dirDown) [hour9; hour10] = [0; 5].
Proof.
  set (res := dumpPending _ _ _ _ _ _). cbv zeta.
  assert (res.1 = None) as Hres by (vm_compute; reflexivity).
  split; [exact Hres|]. split; [|split; vm_compute; reflexivity].
  apply (bytes_reach_table instant tcfg "D1" [hour9; hour10] flow_events start hour11 flow_scan
           fine ∅ res.2.1 res.2.2 dirUp).
  - apply (bool_decide_unpack _). vm_compute. exact I.
  - repeat constructor; cbn; lia.
  - apply (bool_decide_unpack _). vm_compute. exact I.
  - reflexivity.
  - reflexivity.
  - reflexivity.
  - intros x. split; [|split; [|split]].
    + split_and!; [done|by eexists|by destruct x|constructor|].
      apply Forall_forall. intros k _. exists 0. split; [reflexivity|lia].
    + destruct x; vm_compute; reflexivity.
    + repeat (apply Forall_cons; split; [first [exact I | left | right; left]|]). constructor.
    + destruct x; vm_compute; reflexivity.
  - done.
  - apply (bool_decide_unpack _). vm_compute. exact I.
  - apply Forall_forall. apply (bool_decide_unpack _). vm_compute. exact I.
  - intros k h Hk Hh _.
    assert (Forall (λ k, extractHourFromKey instant tcfg k = None ∨ k ∈ hkeys tcfg [hour9; hour10])
              flow_scan) as Hall by (apply (bool_decide_unpack _); vm_compute; exact I).
    destruct (proj1 (Forall_forall _ _) Hall k Hk) as [E|E]; [congruence|exact E].
  - rewrite <- Hres. change (res = (res.1, (res.2.1, res.2.2))). by destruct res as [? [? ?]].
Defined.
