(* ===== verification/Gopool.v ===== *)
(** The goroutine pool (pkg/gopool): [CtxGo] and [worker.run] as small steps of concurrent
    callers and workers over the shared pool.  A step is one atomic operation or one section
    under [taskLock]. *)
From stdpp Require Import prelude list gmap strings.
From S2P Require Import Prelude.

(** ** config.go, pool.go: the pool *)
Definition defaultScalaThreshold : Z := 1.
Record Config := mkConfig { ScaleThreshold : Z }.
Definition NewConfig : Config := mkConfig defaultScalaThreshold.

(** A task is known by a number; its function runs to an end, or panics. *)
Definition task := nat.
(** Where a caller of [CtxGo] is, after it has appended its task: about to add to [taskCount],
    to load it, to load [workerCount] for the first test, [cap] after it, [workerCount] for the
    second test, or to start a worker. *)
Inductive caller := CAdd | CTasks | CWorkers | CCap (workers : Z) | CZero | CSpawn.
(** A worker is about to lock, or runs a task's function. *)
Inductive worker := WLoop | WRun (t : task).
Record pool := mkPool {
  cap : Z; config : Config;
  tasks : list task; taskCount : Z; workerCount : Z;
  hasPanicHandler : bool;
  callers : list caller; workers : list worker;
  crashed : bool }.
Definition NewPool (cap : Z) (config : Config) : pool :=
  mkPool cap config [] 0 0 false [] [] false.

Definition SetCap (c : Z) (p : pool) : pool :=
  mkPool c (config p) (tasks p) (taskCount p) (workerCount p) (hasPanicHandler p) (callers p)
    (workers p) (crashed p).
Definition SetPanicHandler (p : pool) : pool :=
  mkPool (cap p) (config p) (tasks p) (taskCount p) (workerCount p) true (callers p)
    (workers p) (crashed p).
Definition set_callers (cs : list caller) (p : pool) : pool :=
  mkPool (cap p) (config p) (tasks p) (taskCount p) (workerCount p) (hasPanicHandler p) cs
    (workers p) (crashed p).
Definition set_workers (ws : list worker) (p : pool) : pool :=
  mkPool (cap p) (config p) (tasks p) (taskCount p) (workerCount p) (hasPanicHandler p) (callers p)
    ws (crashed p).
Definition add_taskCount (d : Z) (p : pool) : pool :=
  mkPool (cap p) (config p) (tasks p) (i32 (taskCount p + d)) (workerCount p) (hasPanicHandler p)
    (callers p) (workers p) (crashed p).
(** [incWorkerCount] and [decWorkerCount]. *)
Definition add_workerCount (d : Z) (p : pool) : pool :=
  mkPool (cap p) (config p) (tasks p) (taskCount p) (i32 (workerCount p + d)) (hasPanicHandler p)
    (callers p) (workers p) (crashed p).
Definition set_tasks (ts : list task) (p : pool) : pool :=
  mkPool (cap p) (config p) ts (taskCount p) (workerCount p) (hasPanicHandler p) (callers p)
    (workers p) (crashed p).
Definition crash (p : pool) : pool :=
  mkPool (cap p) (config p) (tasks p) (taskCount p) (workerCount p) (hasPanicHandler p) (callers p)
    (workers p) true.

(** ** [CtxGo] *)
(** The section under the lock: the task is appended. *)
Definition CtxGo_append (t : task) (p : pool) : pool :=
  set_callers (callers p ++ [CAdd]) (set_tasks (tasks p ++ [t]) p).
(** The next step of the [i]-th caller in progress. *)
Definition CtxGo_step (i : nat) (p : pool) : pool :=
  let goto c p := set_callers (<[i := c]> (callers p)) p in
  match callers p !! i with
  | None => p
  | Some CAdd => goto CTasks (add_taskCount 1 p)
  | Some CTasks => goto (if ScaleThreshold (config p) <=? taskCount p then CWorkers else CZero) p
  | Some CWorkers => goto (CCap (workerCount p)) p
  | Some (CCap w) => goto (if w <? cap p then CSpawn else CZero) p
  | Some CZero => if workerCount p =? 0 then goto CSpawn p else set_callers (delete i (callers p)) p
  | Some CSpawn =>
      let p := add_workerCount 1 p in
      set_workers (workers p ++ [WLoop]) (set_callers (delete i (callers p)) p)
  end.

(** ** [worker.run] *)
(** What a task's function did, and a panic handler called with its panic. *)
Inductive ending := Returned | Panicked (handler_panics : bool).
(** The section under the lock: take the first task, or exit. *)
Definition run_lock (i : nat) (p : pool) : pool :=
  match tasks p with
  | t :: ts => set_workers (<[i := WRun t]> (workers p)) (add_taskCount (-1) (set_tasks ts p))
  | [] => set_workers (delete i (workers p)) (add_workerCount (-1) p)
  end.
(** The function ends; its panic is recovered, but not one of the handler. *)
Definition run_end (i : nat) (e : ending) (p : pool) : pool :=
  match e with
  | Panicked true => if hasPanicHandler p then crash p else set_workers (<[i := WLoop]> (workers p)) p
  | _ => set_workers (<[i := WLoop]> (workers p)) p
  end.

(** ** Schedules *)
Inductive event :=
  | PSetCap (c : Z) | PSetPanicHandler
  | PGo (t : task) | PCaller (i : nat)
  | PLock (i : nat) | PEnd (i : nat) (e : ending).
Definition pstep (e : event) (p : pool) : pool :=
  if crashed p then p else
  match e with
  | PSetCap c => SetCap c p
  | PSetPanicHandler => SetPanicHandler p
  | PGo t => CtxGo_append t p
  | PCaller i => CtxGo_step i p
  | PLock i => match workers p !! i with Some WLoop => run_lock i p | _ => p end
  | PEnd i en => match workers p !! i with Some (WRun _) => run_end i en p | _ => p end
  end.
(** A run, with the tasks submitted, started and ended so far. *)
Record history := mkHistory { submitted : list task; started : list task; ended : list task }.
Definition record (e : event) (p : pool) (h : history) : history :=
  if crashed p then h else
  match e with
  | PGo t => mkHistory (submitted h ++ [t]) (started h) (ended h)
  | PLock i => match workers p !! i, tasks p with
               | Some WLoop, t :: _ => mkHistory (submitted h) (started h ++ [t]) (ended h)
               | _, _ => h
               end
  | PEnd i _ => match workers p !! i with
                | Some (WRun t) => if crashed (pstep e p) then h
                                   else mkHistory (submitted h) (started h) (ended h ++ [t])
                | _ => h
                end
  | _ => h
  end.
Fixpoint prun (es : list event) (p : pool) (h : history) : pool * history :=
  match es with [] => (p, h) | e :: es => prun es (pstep e p) (record e p h) end.
Definition no_history : history := mkHistory [] [] [].

(** ** gopool.go: the registry of pools by name *)
Definition RegisterPool {P} (name : string) (p : P) (m : gmap string P) : option goerr * gmap string P :=
  match m !! name with
  | Some _ => (Some (ErrNew ("name: " ++ name ++ " already registered")), m)
  | None => (None, <[name := p]> m)
  end.
Definition GetPool {P} (name : string) (m : gmap string P) : option P := m !! name.

(** ** [Go], and the package's functions on its default pool *)
(** [Go] is [CtxGo] with an empty context; a call starts with its append. *)
Definition Go (t : task) : pool → pool := CtxGo_append t.
Definition WorkerCount (p : pool) : Z := workerCount p.
Definition MaxInt32 : Z := 2 ^ 31 - 1.
Record gopool_vars := mkGopool { defaultPool : pool; poolMap : gmap string pool }.
Definition gopool_init : gopool_vars := mkGopool (NewPool MaxInt32 NewConfig) ∅.
Definition on_default (f : pool → pool) (g : gopool_vars) : gopool_vars := mkGopool (f (defaultPool g)) (poolMap g).
Definition gopool_CtxGo (t : task) : gopool_vars → gopool_vars := on_default (CtxGo_append t).
Definition gopool_Go (t : task) : gopool_vars → gopool_vars := gopool_CtxGo t.
Definition gopool_SetCap (c : Z) : gopool_vars → gopool_vars := on_default (SetCap c).
Definition gopool_SetPanicHandler : gopool_vars → gopool_vars := on_default SetPanicHandler.
Definition gopool_WorkerCount (g : gopool_vars) : Z := WorkerCount (defaultPool g).

(** ** No task is lost *)
#[global] Instance caller_eq_dec : EqDecision caller.
Proof. solve_decision. Defined.
Definition adding (cs : list caller) : Z := zlen (filter (λ c, c = CAdd) cs).
Definition running_of (ws : list worker) : list task :=
  omap (λ w, match w with WRun t => Some t | WLoop => None end) ws.
Definition running (p : pool) : list task := running_of (workers p).

Lemma running_insert ws i w w' :
  ws !! i = Some w → running_of [w] ++ running_of (<[i := w']> ws) ≡ₚ running_of [w'] ++ running_of ws.
Proof. apply omap_insert. Qed.
Lemma running_delete ws i : ws !! i = Some WLoop → running_of (delete i ws) = running_of ws.
Proof.
  intros Hi. rewrite <- (take_drop_middle ws i WLoop) at 2 by done.
  unfold running_of. by rewrite delete_take_drop, !omap_app.
Qed.
Lemma adding_insert cs i c c' :
  cs !! i = Some c → adding (<[i := c']> cs) = adding cs - adding [c] + adding [c'].
Proof.
  intros Hi. rewrite <- (take_drop_middle cs i c) at 2 by done.
  rewrite insert_take_drop by (by eapply lookup_lt_Some).
  unfold adding. rewrite !filter_app. change (c :: drop (S i) cs) with ([c] ++ drop (S i) cs).
  change (c' :: drop (S i) cs) with ([c'] ++ drop (S i) cs). rewrite !filter_app, !zlen_app. lia.
Qed.
Lemma adding_delete cs i c : cs !! i = Some c → adding (delete i cs) = adding cs - adding [c].
Proof.
  intros Hi. rewrite <- (take_drop_middle cs i c) at 2 by done.
  rewrite delete_take_drop. unfold adding. rewrite !filter_app.
  change (c :: drop (S i) cs) with ([c] ++ drop (S i) cs). rewrite !filter_app, !zlen_app. lia.
Qed.
Lemma adding_bounds cs : 0 <= adding cs <= zlen cs.
Proof. unfold adding, zlen. pose proof (length_filter (λ c, c = CAdd) cs). lia. Qed.

(** What holds of every reachable pool after [n] steps. *)
Definition pool_ok (n : Z) (p : pool) (h : history) : Prop :=
  submitted h = started h ++ tasks p ∧ started h ≡ₚ ended h ++ running p ∧
  workerCount p = zlen (workers p) ∧ taskCount p = zlen (tasks p) - adding (callers p) ∧
  (tasks p ≠ [] → workers p = [] → callers p ≠ []) ∧
  zlen (workers p) <= n ∧ zlen (tasks p) <= n ∧ zlen (callers p) <= n.

Lemma pool_ok_caller n i p h :
  pool_ok n p h → n < 2 ^ 31 - 1 → pool_ok (n + 1) (CtxGo_step i p) h.
Proof.
  intros (Hs & Hr & Hw & Ht & Hne & B1 & B2 & B3) Hn. unfold CtxGo_step.
  destruct (callers p !! i) as [c|] eqn:Hi; [|by repeat split; try done; lia].
  pose proof (adding_bounds (callers p)) as Ha. pose proof (zlen_nonneg (tasks p)).
  pose proof (zlen_nonneg (workers p)).
  assert (∀ c', callers p ≠ [] ∧ <[i:=c']> (callers p) ≠ [] ∧ zlen (<[i:=c']> (callers p)) = zlen (callers p)) as Hins.
  { intros c'. unfold zlen. rewrite length_insert. split_and!; [by intros E; rewrite E in Hi| |done].
    intros E. apply (f_equal length) in E. rewrite length_insert in E. apply lookup_lt_Some in Hi.
    simpl in E. lia. }
  pose proof (adding_delete _ _ _ Hi) as Hdel. pose proof (zlen_delete _ _ _ Hi) as Hld.
  assert (∀ c', adding [c] = 0 → adding [c'] = 0 → pool_ok (n + 1) (set_callers (<[i:=c']> (callers p)) p) h) as Hgo.
  { intros c' E E'. destruct (Hins c') as (_ & ? & ?).
    split_and!; cbn; try done; [|lia|lia|lia]. rewrite (adding_insert _ _ c) by done. lia. }
  destruct c as [| | |w| |]; try (apply Hgo; done).
  - destruct (Hins CTasks) as (_ & ? & ?). change (adding [CAdd]) with 1 in *.
    split_and!; cbn; try done; [|lia|lia|lia]. rewrite (adding_insert _ _ CAdd) by done.
    change (adding [CAdd]) with 1. change (adding [CTasks]) with 0.
    rewrite i32_id by (unfold in_i32; lia). lia.
  - apply Hgo; [done|by case_match].
  - apply Hgo; [done|by case_match].
  - destruct (Z.eqb_spec (workerCount p) 0) as [Hz|Hz]; [by apply Hgo|].
    split_and!; cbn; try done; [|intros _ E|lia|lia|lia].
    + rewrite Hdel. change (adding [CZero]) with 0. lia.
    + exfalso. rewrite E in Hw. by apply Hz.
  - split_and!; cbn; rewrite ?zlen_app; change (zlen [WLoop]) with 1; try done;
      [| | |intros _ E|lia|lia|lia].
    + by rewrite Hr; unfold running, running_of; cbn; rewrite omap_app, app_nil_r.
    + rewrite i32_id by (unfold in_i32; lia). cbn. lia.
    + rewrite Hdel. change (adding [CSpawn]) with 0. lia.
    + by apply app_nil in E as [_ E].
Qed.

Lemma pool_ok_step n e p h :
  pool_ok n p h → 0 <= n < 2 ^ 31 - 1 → pool_ok (n + 1) (pstep e p) (record e p h).
Proof.
  intros Hok Hn. unfold record, pstep. pose proof Hok as (Hs & Hr & Hw & Ht & Hne & B1 & B2 & B3).
  assert (pool_ok (n + 1) p h) as Hmono by (repeat split; try done; lia).
  destruct (crashed p) eqn:Hcr; [done|].
  pose proof (zlen_nonneg (workers p)). pose proof (zlen_nonneg (tasks p)).
  pose proof (adding_bounds (callers p)).
  destruct e as [c| |t|i|i|i en].
  - exact Hmono.
  - exact Hmono.
  - split_and!; cbn [submitted started ended tasks workers callers workerCount taskCount running
      CtxGo_append set_callers set_tasks]; rewrite ?zlen_app;
      change (zlen [t]) with 1; change (zlen [CAdd]) with 1; try done;
      [by rewrite Hs, app_assoc| | |lia|lia|lia].
    + unfold adding in *. rewrite filter_app, zlen_app.
      change (zlen (filter (λ c, c = CAdd) [CAdd])) with 1. lia.
    + intros _ _ E. by apply app_nil in E as [_ E].
  - apply pool_ok_caller; [done|lia].
  - destruct (workers p !! i) as [[|t]|] eqn:Hi; [|done|done]. unfold run_lock.
    destruct (tasks p) as [|t ts] eqn:Htk.
    + split_and!; cbn; rewrite ?Htk; try done; rewrite ?(zlen_delete _ _ _ Hi); try lia.
      * unfold running. cbn. by rewrite running_delete.
      * rewrite i32_id by (unfold in_i32; lia). lia.
    + pose proof (running_insert _ _ _ (WRun t) Hi) as Hri. cbn in Hri.
      rewrite zlen_cons in *.
      split_and!; cbn; rewrite ?zlen_cons; try lia.
      * by rewrite Hs, <- app_assoc.
      * unfold running. cbn. rewrite Hri, Hr. unfold running. solve_Permutation.
      * rewrite Hw. unfold zlen. by rewrite length_insert.
      * rewrite i32_id by (unfold in_i32; lia). lia.
      * intros _ E. apply (f_equal length) in E. rewrite length_insert in E.
        apply lookup_lt_Some in Hi. simpl in E. lia.
      * unfold zlen in *. rewrite length_insert. lia.
  - destruct (workers p !! i) as [[|t]|] eqn:Hi; [done| |done].
    assert (pool_ok (n + 1) (set_workers (<[i:=WLoop]> (workers p)) p)
              (mkHistory (submitted h) (started h) (ended h ++ [t]))) as Hend.
    { pose proof (running_insert _ _ _ WLoop Hi) as Hri. cbn in Hri.
      split_and!; cbn; try done; unfold zlen in *; rewrite ?length_insert; try lia.
      - rewrite Hr. unfold running in *. cbn. rewrite <- Hri. solve_Permutation.
      - intros Hts E. apply (f_equal length) in E. rewrite length_insert in E.
        apply lookup_lt_Some in Hi. simpl in E. lia. }
    unfold run_end. destruct en as [|[]]; cbn [crashed set_workers]; rewrite ?Hcr; [done| |done].
    destruct (hasPanicHandler p); cbn; rewrite ?Hcr; [|done]. exact Hmono.
Qed.

Definition reachable (c : Z) (cf : Config) (es : list event) : pool * history :=
  prun es (NewPool c cf) no_history.
Lemma reachable_ok c cf es :
  zlen es < 2 ^ 31 - 1 → pool_ok (zlen es) (reachable c cf es).1 (reachable c cf es).2.
Proof.
  intros Hlen. unfold reachable.
  assert (∀ es n p h, pool_ok n p h → 0 <= n → n + zlen es < 2 ^ 31 - 1 →
            pool_ok (n + zlen es) (prun es p h).1 (prun es p h).2) as Hall.
  { clear. induction es as [|e es IH]; intros n p h Hok Hn Hlt; cbn [prun].
    - by rewrite Z.add_0_r.
    - rewrite zlen_cons in *. pose proof (zlen_nonneg es). rewrite Z.add_assoc. apply IH; try lia.
      apply pool_ok_step; [done|lia]. }
  apply (Hall es 0); [by split_and!|done|by rewrite Z.add_0_l].
Qed.

(** C5: No task is lost or run twice, over any schedule of callers and workers, capacity changes
    and panics: the tasks submitted are those started, in that order, followed by the queue;
    those started are the ended and the running ones; the two counters agree with the queue and
    the workers; and while a task waits there is a worker or a caller that has yet to look. *)
Theorem no_task_lost (c : Z) (cf : Config) (es : list event) :
  zlen es < 2 ^ 31 - 1 →
  let '(p, h) := reachable c cf es in
  submitted h = started h ++ tasks p ∧ started h ≡ₚ ended h ++ running p ∧
  workerCount p = zlen (workers p) ∧ taskCount p = zlen (tasks p) - adding (callers p) ∧
  (tasks p ≠ [] → workers p = [] → callers p ≠ []).
Proof.
  intros Hlen. pose proof (reachable_ok c cf es Hlen) as H. destruct (reachable c cf es) as [p h].
  destruct H as (? & ? & ? & ? & ? & _). by split_and!.
Qed.

(** ** The pool drains *)
Definition caller_work (c : caller) : Z :=
  match c with CAdd => 7 | CTasks => 6 | CWorkers => 5 | CCap _ => 4 | CZero => 3 | CSpawn => 2 end.
Definition worker_work (w : worker) : Z := match w with WLoop => 1 | WRun _ => 2 end.
Definition work (p : pool) : Z :=
  2 * zlen (tasks p) + zsum (map caller_work (callers p)) + zsum (map worker_work (workers p)).
(** The steps that are not new requests, where they can be taken. *)
Definition enabled (e : event) (p : pool) : Prop :=
  match e with
  | PCaller i => is_Some (callers p !! i)
  | PLock i => workers p !! i = Some WLoop
  | PEnd i _ => ∃ t, workers p !! i = Some (WRun t)
  | _ => False
  end.
Lemma enabled_work e p :
  enabled e p → crashed (pstep e p) = false → 0 <= work (pstep e p) < work p.
Proof.
  intros He Hcr.
  assert (∀ q, 0 <= work q) as Hnn.
  { intros q. unfold work. pose proof (zlen_nonneg (tasks q)).
    assert (0 <= zsum (map caller_work (callers q)))
      by (apply zsum_nonneg, Forall_map, Forall_true; by intros []).
    assert (0 <= zsum (map worker_work (workers q)))
      by (apply zsum_nonneg, Forall_map, Forall_true; by intros []). lia. }
  split; [apply Hnn|]. unfold pstep in *. destruct (crashed p) eqn:Hp; [congruence|].
  destruct e as [| | |i|i|i en]; cbn [enabled] in He; try done.
  - destruct He as [c Hi]. unfold CtxGo_step. rewrite Hi. unfold work.
    pose proof (zsum_delete caller_work _ _ _ Hi) as Hd.
    pose proof (λ y, zsum_insert caller_work _ _ _ y Hi) as Hin.
    destruct c; repeat case_match; cbn [tasks callers workers set_callers set_workers add_taskCount
      add_workerCount]; rewrite ?Hin, ?Hd, ?map_app, ?zsum_app; cbn; lia.
  - rewrite He. unfold run_lock, work. destruct (tasks p) as [|t ts] eqn:E; cbn [tasks callers workers
      set_workers set_tasks add_workerCount add_taskCount]; rewrite ?E.
    + rewrite (zsum_delete worker_work _ _ _ He). cbn. lia.
    + rewrite (zsum_insert worker_work _ _ _ _ He), zlen_cons. cbn [worker_work]. lia.
  - destruct He as [t Hi]. rewrite Hi in *.
    assert (work (set_workers (<[i:=WLoop]> (workers p)) p) < work p) as Hlt.
    { unfold work. cbn [tasks callers workers set_workers].
      rewrite (zsum_insert worker_work _ _ _ _ Hi). cbn [worker_work]. lia. }
    unfold run_end in *. destruct en as [|[]]; try done. destruct (hasPanicHandler p); done.
Qed.

(** C39: The pool drains. From any reachable state, whatever the scheduler does without new
    submissions, every step decreases a measure, and when no step is left and the process is
    alive every submitted task has run to its end and no worker remains. *)
Theorem pool_drains (c : Z) (cf : Config) (es : list event) :
  zlen es < 2 ^ 31 - 1 →
  let '(p, h) := reachable c cf es in
  (∀ e, enabled e p → crashed (pstep e p) = false → 0 <= work (pstep e p) < work p) ∧
  ((∀ e, ¬ enabled e p) → tasks p = [] ∧ workers p = [] ∧ workerCount p = 0 ∧ ended h ≡ₚ submitted h).
Proof.
  intros Hlen. pose proof (reachable_ok c cf es Hlen) as H. destruct (reachable c cf es) as [p h].
  destruct H as (Hs & Hr & Hw & _ & Hne & _). cbn [fst snd] in *.
  split; [intros e; apply enabled_work|]. intros Hno.
  assert (callers p = []) as Hc.
  { destruct (callers p) as [|x l] eqn:E; [done|]. exfalso. apply (Hno (PCaller 0)). cbn. by rewrite E. }
  assert (workers p = []) as Hwk.
  { destruct (workers p) as [|[|t] l] eqn:E; [done|exfalso..].
    - apply (Hno (PLock 0)). cbn. by rewrite E.
    - apply (Hno (PEnd 0 Returned)). cbn. exists t. by rewrite E. }
  assert (tasks p = []) as Htk.
  { destruct (tasks p); [done|]. exfalso. by apply Hne. }
  split_and!; [done|done|by rewrite Hw, Hwk|].
  rewrite Hs, Htk, app_nil_r, Hr. unfold running. rewrite Hwk. by rewrite app_nil_r.
Qed.

(** ** Witnesses *)
Definition schedule : list event :=
  [PSetPanicHandler; PGo 1%nat; PGo 2%nat; PCaller 0; PCaller 0; PCaller 0; PCaller 1; PCaller 0; PCaller 0;
   PLock 0; PEnd 0 (Panicked false); PCaller 0; PCaller 0; PCaller 0; PLock 0; PEnd 0 Returned; PLock 0].
Lemma no_task_lost_witness :
  let '(p, h) := reachable 1 NewConfig schedule in
  submitted h = started h ++ tasks p ∧ started h ≡ₚ ended h ++ running p ∧
  workerCount p = zlen (workers p) ∧ taskCount p = zlen (tasks p) - adding (callers p) ∧
  (tasks p ≠ [] → workers p = [] → callers p ≠ []).
Proof. apply (no_task_lost 1 NewConfig schedule). vm_compute. reflexivity. Defined.
Lemma pool_drains_witness :
  ended (reachable 1 NewConfig schedule).2 = [1; 2]%nat ∧
  let '(p, h) := reachable 1 NewConfig schedule in
  (∀ e, enabled e p → crashed (pstep e p) = false → 0 <= work (pstep e p) < work p) ∧
  ((∀ e, ¬ enabled e p) → tasks p = [] ∧ workers p = [] ∧ workerCount p = 0 ∧ ended h ≡ₚ submitted h).
Proof.
  split; [vm_compute; reflexivity|]. apply (pool_drains 1 NewConfig schedule). vm_compute. reflexivity.
Defined.
