(* ===== verification/GopoolList.v ===== *)
(** The queue of the goroutine pool as the code keeps it (pkg/gopool/pool.go, worker.go): linked
    task objects that all pools take from one [sync.Pool] and give back.  It behaves as the list
    of tasks that Gopool uses. *)
From stdpp Require Import prelude gmap list.
From S2P Require Import Prelude.

(** ** Task objects *)
Abbreviation loc := positive.
(** A [task]: what it is to run, its context and function, by one number once they are set, and
    the next task. *)
Record node := mkNode { f : option nat; next : option loc }.
Definition newTask : node := mkNode None None.
Definition zero (n : node) : node := mkNode None None.
(** Where an object is: in [taskPool], in a variable of [CtxGo] before it is appended, in the
    queue of a pool, or with a worker. *)
Inductive place := InTaskPool | Mine | Queued (pool : nat) | Running.
#[global] Instance place_eq_dec : EqDecision place.
Proof. solve_decision. Defined.
Record ends := mkEnds { taskHead : option loc; taskTail : option loc }.
Record qstate := mkQ { heap : gmap loc node; places : gmap loc place; pools : gmap nat ends }.
Definition no_ends : ends := mkEnds None None.
Definition pool_ends (i : nat) (s : qstate) : ends := default no_ends (pools s !! i).
Definition qinit : qstate := mkQ ∅ ∅ ∅.

(** ** The pieces of [CtxGo] and [run] *)
(** [taskPool.Get] answers with [x], one of its objects or a new one, and the function is set.
    [None]: the pool cannot answer so. *)
Definition take_task (x : loc) (t : nat) (s : qstate) : option qstate :=
  match places s !! x, heap s !! x with
  | Some InTaskPool, Some n => Some (mkQ (<[x := mkNode (Some t) (next n)]> (heap s)) (<[x := Mine]> (places s)) (pools s))
  | None, None => Some (mkQ (<[x := mkNode (Some t) (next newTask)]> (heap s)) (<[x := Mine]> (places s)) (pools s))
  | _, _ => None
  end.
(** The section of [CtxGo] under the lock; a nil [taskTail] would panic. *)
Definition append_task (i : nat) (x : loc) (s : qstate) : option qstate :=
  let p := pool_ends i s in
  match places s !! x with
  | Some Mine =>
      match taskHead p with
      | None => Some (mkQ (heap s) (<[x := Queued i]> (places s)) (<[i := mkEnds (Some x) (Some x)]> (pools s)))
      | Some _ =>
          tl ← taskTail p; n ← heap s !! tl;
          Some (mkQ (<[tl := mkNode (f n) (Some x)]> (heap s)) (<[x := Queued i]> (places s))
                  (<[i := mkEnds (taskHead p) (Some x)]> (pools s)))
      end
  | _ => None
  end.
(** The section of [run] under the lock, with the task it takes. *)
Definition run_task (i : nat) (s : qstate) : option (option loc * qstate) :=
  let p := pool_ends i s in
  match taskHead p with
  | None => Some (None, s)
  | Some x => n ← heap s !! x;
      Some (Some x, mkQ (heap s) (<[x := Running]> (places s)) (<[i := mkEnds (next n) (taskTail p)]> (pools s)))
  end.
Definition Recycle (x : loc) (s : qstate) : option qstate :=
  match places s !! x with
  | Some Running => n ← heap s !! x; Some (mkQ (<[x := zero n]> (heap s)) (<[x := InTaskPool]> (places s)) (pools s))
  | _ => None
  end.
(** The garbage collector may empty a [sync.Pool]. *)
Definition drop_task (x : loc) (s : qstate) : option qstate :=
  match places s !! x with
  | Some InTaskPool => Some (mkQ (delete x (heap s)) (delete x (places s)) (pools s))
  | _ => None
  end.

(** ** Runs *)
Inductive qevent := QGet (x : loc) (t : nat) | QAppend (i : nat) (x : loc) | QRun (i : nat) | QRecycle (x : loc) | QDrop (x : loc).
(** The tasks given to [CtxGo] for each pool in the order of the lock, and those taken. *)
Record qhistory := mkQh { given : gmap loc nat; appended : gmap nat (list nat); taken : gmap nat (list nat) }.
Definition history_of (i : nat) (m : gmap nat (list nat)) : list nat := default [] (m !! i).
Definition note (i : nat) (t : nat) (m : gmap nat (list nat)) : gmap nat (list nat) := <[i := history_of i m ++ [t]]> m.
(** One event; an event that cannot happen leaves things as they are, and [None] is a panic. *)
Definition qstep (e : qevent) (sh : qstate * qhistory) : option (qstate * qhistory) :=
  let '(s, h) := sh in
  match e with
  | QGet x t =>
      match take_task x t s with
      | Some s' => Some (s', mkQh (<[x := t]> (given h)) (appended h) (taken h))
      | None => Some (s, h)
      end
  | QAppend i x =>
      if bool_decide (places s !! x = Some Mine) then
        s' ← append_task i x s; t ← given h !! x;
        Some (s', mkQh (given h) (note i t (appended h)) (taken h))
      else Some (s, h)
  | QRun i =>
      '(r, s') ← run_task i s;
      match r with
      | None => Some (s', h)
      | Some x => n ← heap s !! x; t ← f n; Some (s', mkQh (given h) (appended h) (note i t (taken h)))
      end
  | QRecycle x => if bool_decide (places s !! x = Some Running) then s' ← Recycle x s; Some (s', h) else Some (s, h)
  | QDrop x => match drop_task x s with Some s' => Some (s', h) | None => Some (s, h) end
  end.
Fixpoint qrun (es : list qevent) (sh : qstate * qhistory) : option (qstate * qhistory) :=
  match es with [] => Some sh | e :: es => sh ← qstep e sh; qrun es sh end.
(** The tasks that following the pointers from a pool's head finds, in at most [n] steps. *)
Fixpoint follow (n : nat) (m : gmap loc node) (x : option loc) : option (list nat) :=
  match x with
  | None => Some []
  | Some x => match n with
              | O => None
              | S n => nd ← m !! x; t ← f nd; ts ← follow n m (next nd); Some (t :: ts)
              end
  end.
Definition queue (i : nat) (s : qstate) : option (list nat) := follow (size (heap s)) (heap s) (taskHead (pool_ends i s)).

(** ** The queue is a list *)
(** [L i] are the objects queued in pool [i]. *)
Record linked (s : qstate) (h : qhistory) (L : nat → list loc) := mkLinked {
  l_nodup i : NoDup (L i);
  l_place i x : x ∈ L i ↔ places s !! x = Some (Queued i);
  l_head i : taskHead (pool_ends i s) = L i !! 0%nat;
  l_tail i : L i ≠ [] → taskTail (pool_ends i s) = last (L i);
  l_node i k x : L i !! k = Some x → ∃ t, heap s !! x = Some (mkNode (Some t) (L i !! S k)) ∧ given h !! x = Some t;
  l_mine x : places s !! x = Some Mine → ∃ t, heap s !! x = Some (mkNode (Some t) None) ∧ given h !! x = Some t;
  l_free x : places s !! x = Some InTaskPool → ∃ o, heap s !! x = Some (mkNode o None);
  l_dom x : is_Some (heap s !! x) ↔ is_Some (places s !! x);
  l_fifo i : ∃ ts, Forall2 (λ x t, given h !! x = Some t) (L i) ts ∧ history_of i (taken h) ++ ts = history_of i (appended h) }.
Lemma Forall2_impl_in {A B} (P Q : A → B → Prop) l k :
  Forall2 P l k → (∀ x y, x ∈ l → P x y → Q x y) → Forall2 Q l k.
Proof. induction 1 as [|x y l k Hx _ IH]; intros HQ; constructor; [apply HQ; [by left|done]|]. apply IH. intros. apply HQ; [by right|done]. Qed.
(** An object that is in no queue may change. *)
Lemma linked_other s h L x nd pl g :
  linked s h L → (∀ i, places s !! x ≠ Some (Queued i)) → (∀ i, pl ≠ Queued i) →
  (pl = Mine → ∃ t, nd = mkNode (Some t) None ∧ g = Some t) → (pl = InTaskPool → ∃ o, nd = mkNode o None) →
  linked (mkQ (<[x := nd]> (heap s)) (<[x := pl]> (places s)) (pools s))
    (mkQh (match g with Some t => <[x := t]> (given h) | None => given h end) (appended h) (taken h)) L.
Proof.
  intros HL Hx Hpl Hm Hf.
  assert (∀ i y, y ∈ L i → y ≠ x) as Hne.
  { intros i y Hy ->. apply (l_place s h L HL) in Hy. by apply (Hx i). }
  assert (∀ y, y ≠ x → (match g with Some t => <[x := t]> (given h) | None => given h end) !! y = given h !! y) as Hg.
  { intros y Hy. destruct g; [by rewrite lookup_insert_ne|done]. }
  split; cbn [heap places pools given appended taken]; try apply HL.
  - intros i y. destruct (decide (y = x)) as [->|Hy].
    + rewrite lookup_insert_eq. split; [intros Hin; by destruct (Hne i x)|intros [= E]; by destruct (Hpl i)].
    + rewrite lookup_insert_ne by done. apply HL.
  - intros i k y Hk. pose proof (list_elem_of_lookup_2 _ _ _ Hk) as Hin. rewrite lookup_insert_ne by (symmetry; by eapply Hne).
    rewrite Hg by by eapply Hne. by eapply HL.
  - intros y. destruct (decide (y = x)) as [->|Hy].
    + rewrite lookup_insert_eq. intros [= ->]. destruct Hm as (t & -> & ->); [done|]. exists t. by rewrite !lookup_insert_eq.
    + rewrite !lookup_insert_ne by done. rewrite Hg by done. apply HL.
  - intros y. destruct (decide (y = x)) as [->|Hy].
    + rewrite !lookup_insert_eq. intros [= ->]. destruct Hf as (o & ->); [done|]. by exists o.
    + rewrite !lookup_insert_ne by done. apply HL.
  - intros y. destruct (decide (y = x)) as [->|Hy]; [by rewrite !lookup_insert_eq|rewrite !lookup_insert_ne by done; apply HL].
  - intros i. destruct (l_fifo s h L HL i) as (ts & Hts & Hh). exists ts. split; [|done].
    eapply Forall2_impl_in; [exact Hts|]. intros y t Hy Ht. by rewrite Hg by by eapply Hne.
Qed.
Lemma linked_drop s h L x :
  linked s h L → (∀ i, places s !! x ≠ Some (Queued i)) →
  linked (mkQ (delete x (heap s)) (delete x (places s)) (pools s)) h L.
Proof.
  intros HL Hx.
  assert (∀ i y, y ∈ L i → y ≠ x) as Hne.
  { intros i y Hy ->. apply (l_place s h L HL) in Hy. by apply (Hx i). }
  split; cbn [heap places pools]; try apply HL.
  - intros i y. destruct (decide (y = x)) as [->|Hy].
    + rewrite lookup_delete_eq. split; [intros Hin; by destruct (Hne i x)|done].
    + rewrite lookup_delete_ne by done. apply HL.
  - intros i k y Hk. rewrite lookup_delete_ne; [by eapply HL|]. symmetry. eapply Hne. by eapply list_elem_of_lookup_2.
  - intros y. intros [Hy Hp]%lookup_delete_Some. rewrite lookup_delete_ne by done. by apply HL.
  - intros y. intros [Hy Hp]%lookup_delete_Some. rewrite lookup_delete_ne by done. by apply HL.
  - intros y. destruct (decide (y = x)) as [->|Hy]; [by rewrite !lookup_delete_eq|rewrite !lookup_delete_ne by done; apply HL].
Qed.
Lemma history_note i j t m : history_of j (note i t m) = if decide (j = i) then history_of i m ++ [t] else history_of j m.
Proof.
  unfold note, history_of. case_decide as E; [subst; by rewrite lookup_insert_eq|by rewrite lookup_insert_ne].
Qed.
Lemma pool_ends_insert i j e hp pl ps : pool_ends j (mkQ hp pl (<[i := e]> ps)) = if decide (j = i) then e else default no_ends (ps !! j).
Proof. unfold pool_ends. cbn [pools]. case_decide as E; [subst; by rewrite lookup_insert_eq|by rewrite lookup_insert_ne]. Qed.
Lemma place_other s h L i j x : linked s h L → x ∈ L i → x ∈ L j → i = j.
Proof. intros HL Hi Hj. apply (l_place s h L HL) in Hi, Hj. congruence. Qed.
(** The nodes of a pool whose list gets [x] at its end. *)
Lemma append_nodes (hp : gmap loc node) (Q : loc → nat → Prop) (l : list loc) (x tl : loc) (t : nat) nd k y :
  NoDup (l ++ [tl]) → x ∉ l ++ [tl] → hp !! tl = Some nd → hp !! x = Some (mkNode (Some t) None) → Q x t →
  (∀ k y, (l ++ [tl]) !! k = Some y → ∃ u, hp !! y = Some (mkNode (Some u) ((l ++ [tl]) !! S k)) ∧ Q y u) →
  (l ++ [tl; x]) !! k = Some y →
  ∃ u, <[tl := mkNode (f nd) (Some x)]> hp !! y = Some (mkNode (Some u) ((l ++ [tl; x]) !! S k)) ∧ Q y u.
Proof.
  intros Hnd Hx Hn Hxn HQ Hl Hk.
  assert ((l ++ [tl]) !! length l = Some tl) as Htl by (rewrite lookup_app_r by lia; by rewrite Nat.sub_diag).
  destruct (decide (k < length l)%nat) as [Hlt|Hge].
  - rewrite lookup_app_l in Hk by done. destruct (Hl k y) as (u & Hu & Hq); [by rewrite lookup_app_l|]. exists u. split; [|done].
    rewrite lookup_insert_ne.
    + rewrite Hu. f_equal. f_equal. destruct (decide (S k < length l)%nat) as [Hs|Hs]; [by rewrite !lookup_app_l|].
      rewrite !lookup_app_r by lia. by replace (S k - length l)%nat with 0%nat by lia.
    + intros <-. assert ((l ++ [tl]) !! k = Some tl) as Hk' by by rewrite lookup_app_l.
      pose proof (NoDup_lookup _ _ _ _ Hnd Hk' Htl). lia.
  - rewrite lookup_app_r in Hk by lia. rewrite lookup_app_r by lia.
    destruct (k - length l)%nat as [|[|]] eqn:Ek; [| |done]; injection Hk as <-.
    + destruct (Hl (length l) tl Htl) as (u & Hu & Hq). exists u. rewrite lookup_insert_eq. rewrite Hn in Hu. injection Hu as ->.
      by replace (S k - length l)%nat with 1%nat by lia.
    + exists t. replace (S k - length l)%nat with 2%nat by lia. rewrite lookup_insert_ne; [done|].
      intros <-. apply Hx. apply elem_of_app. right. by left.
Qed.
(** A task of a caller is in no pool's queue. *)
Lemma mine_nowhere s h L x : linked s h L → places s !! x = Some Mine → ∀ j, x ∉ L j.
Proof. intros HL Hx j Hin. apply (l_place s h L HL) in Hin. congruence. Qed.
(** The queues with [x] at the end of pool [i]'s. *)
Definition extend (L : nat → list loc) (i : nat) (x : loc) : nat → list loc := λ j, if decide (j = i) then L i ++ [x] else L j.
(** A heap that has them, and is the old one outside of them, is linked. *)
Lemma linked_extend s h L i x t nx (hp : gmap loc node) e :
  linked s h L → places s !! x = Some Mine → heap s !! x = Some (mkNode (Some t) nx) → given h !! x = Some t →
  taskHead e = (L i ++ [x]) !! 0%nat → taskTail e = Some x →
  (∀ y, is_Some (hp !! y) ↔ is_Some (heap s !! y)) → (∀ y, (∀ j, y ∉ L j) → hp !! y = heap s !! y) →
  (∀ j k y, extend L i x j !! k = Some y → ∃ u, hp !! y = Some (mkNode (Some u) (extend L i x j !! S k)) ∧ given h !! y = Some u) →
  linked (mkQ hp (<[x := Queued i]> (places s)) (<[i := e]> (pools s))) (mkQh (given h) (note i t (appended h)) (taken h)) (extend L i x).
Proof.
  intros HL Hx Hxn Hgx Hhd Htl Hdom Hsame Hnodes. pose proof (mine_nowhere s h L x HL Hx) as Hnot. unfold extend in *. split; cbn [heap places pools given appended taken].
  - intros j. case_decide; [|apply HL]. apply NoDup_app. split_and!; [apply HL| |apply NoDup_singleton].
    intros y Hy ->%list_elem_of_singleton. by destruct (Hnot i).
  - intros j y. destruct (decide (y = x)) as [->|Hy].
    + rewrite lookup_insert_eq. case_decide as E; [subst|].
      * split; [done|intros _; apply elem_of_app; right; by left].
      * split; [by intros ?%Hnot|congruence].
    + rewrite lookup_insert_ne by done. case_decide as E; [subst|by apply HL]. rewrite elem_of_app, list_elem_of_singleton.
      rewrite (l_place s h L HL). tauto.
  - intros j. rewrite pool_ends_insert. case_decide; [done|]. apply (l_head s h L HL).
  - intros j. rewrite pool_ends_insert. case_decide; [by rewrite last_snoc|]. apply (l_tail s h L HL).
  - exact Hnodes.
  - intros y. destruct (decide (y = x)) as [->|Hy]; [by rewrite lookup_insert_eq|rewrite lookup_insert_ne by done]. intros Hm.
    rewrite Hsame by (intros j Hin; apply (l_place s h L HL) in Hin; congruence). by apply HL.
  - intros y. destruct (decide (y = x)) as [->|Hy]; [by rewrite lookup_insert_eq|rewrite lookup_insert_ne by done]. intros Hm.
    rewrite Hsame by (intros j Hin; apply (l_place s h L HL) in Hin; congruence). by apply HL.
  - intros y. rewrite Hdom. destruct (decide (y = x)) as [->|Hy]; [rewrite lookup_insert_eq, Hxn; done|rewrite lookup_insert_ne by done; apply HL].
  - intros j. rewrite history_note. case_decide as E; [subst j|apply HL].
    destruct (l_fifo s h L HL i) as (ts & Hts & Hh). exists (ts ++ [t]). split; [apply Forall2_app; [done|by repeat constructor]|].
    by rewrite app_assoc, Hh.
Qed.
Lemma linked_append s h L i x :
  linked s h L → places s !! x = Some Mine →
  ∃ s' t L', append_task i x s = Some s' ∧ given h !! x = Some t ∧
    linked s' (mkQh (given h) (note i t (appended h)) (taken h)) L'.
Proof.
  intros HL Hx. destruct (l_mine s h L HL x Hx) as (t & Hxn & Hg).
  pose proof (mine_nowhere s h L x HL Hx) as Hnot.
  unfold append_task. rewrite Hx. pose proof (l_head s h L HL i) as Hhd. pose proof (l_tail s h L HL i) as Htl.
  assert (L i = [] ∨ ∃ l tl, L i = l ++ [tl]) as [E|(l & tl & E)].
  { destruct (L i) as [|a l0 _] using rev_ind; [by left|right; eauto]. }
  - rewrite E in Hhd. cbn [lookup list_lookup] in Hhd. rewrite Hhd. eexists _, t, _. split_and!; [done|done|].
    apply (linked_extend s h L i x t None); [done|done|done|done|by rewrite E|done|done|done|]. unfold extend. intros j k y. case_decide as Ej; [subst j|apply HL].
    rewrite E. cbn [app]. intros [-> ->]%list_lookup_singleton_Some. exists t. by rewrite Hxn.
  - assert ((l ++ [tl]) !! length l = Some tl) as Hk by (rewrite lookup_app_r by lia; by rewrite Nat.sub_diag).
    assert (∃ z, (l ++ [tl]) !! 0%nat = Some z) as [z Hz] by (destruct l; by eexists).
    destruct (l_node s h L HL i (length l) tl) as (u & Hu & _); [by rewrite E|].
    assert (tl ∈ L i) as Htlin by (rewrite E; apply elem_of_app; right; by left).
    rewrite E in Hhd, Htl. rewrite last_snoc in Htl. rewrite Hhd, Hz, Htl by (by destruct l).
    cbn [mbind option_bind]. rewrite Hu. cbn [mbind option_bind f].
    eexists _, t, _. split_and!; [done|done|]. rewrite <-Hz, <-Hhd.
    apply (linked_extend s h L i x t None); [done|done|done|done|cbn [taskHead]|done| | |].
    + rewrite Hhd, E. by destruct l.
    + intros y. destruct (decide (y = tl)) as [->|Hy]; [by rewrite lookup_insert_eq, Hu|by rewrite lookup_insert_ne].
    + intros y Hy. rewrite lookup_insert_ne; [done|]. intros <-. by apply (Hy i).
    + unfold extend. intros j k y. case_decide as Ej.
      * rewrite E, <-app_assoc. cbn [app]. apply (append_nodes (heap s) (λ y u, given h !! y = Some u) l x tl t (mkNode (Some u) ((l ++ [tl]) !! S (length l)))); try done.
        -- rewrite <-E. apply HL.
        -- rewrite <-E. apply Hnot.
        -- by rewrite <-E.
        -- rewrite <-E. apply (l_node s h L HL i).
      * intros Hk'. destruct (l_node s h L HL j k y Hk') as (v & Hv & Hgv). exists v. split; [|done].
        rewrite lookup_insert_ne; [done|]. intros <-. apply Ej. eapply place_other; [exact HL| |exact Htlin].
        by eapply list_elem_of_lookup_2.
Qed.
(** Taking the first. *)
Lemma linked_run s h L i :
  linked s h L →
  ∃ r s', run_task i s = Some (r, s') ∧
    match r with
    | None => s' = s
    | Some x => ∃ n t L', heap s !! x = Some n ∧ f n = Some t ∧
        linked s' (mkQh (given h) (appended h) (note i t (taken h))) L'
    end.
Proof.
  intros HL. unfold run_task. pose proof (l_head s h L HL i) as Hhd. pose proof (l_tail s h L HL i) as Htl.
  destruct (L i) as [|x l] eqn:E; cbn [lookup list_lookup] in Hhd; rewrite Hhd; [by eexists _, _|].
  destruct (l_node s h L HL i 0 x) as (t & Hx & Hg); [by rewrite E|]. rewrite Hx. cbn [mbind option_bind next].
  eexists _, _. split; [done|]. cbn beta iota. exists (mkNode (Some t) (L i !! 1%nat)), t.
  set (L' := λ j, if decide (j = i) then l else L j). exists L'. split_and!; [done|done|].
  pose proof (l_nodup s h L HL i) as Hnd. rewrite E in Hnd. apply NoDup_cons in Hnd as [Hxl Hnd].
  assert (∀ j, x ∉ L' j) as Hnot.
  { intros j Hin. subst L'. cbn beta in Hin. case_decide; [done|].
    pose proof (place_other s h L j i x HL Hin ltac:(rewrite E; by left)). done. }
  split; cbn [heap places pools given appended taken].
  - intros j. subst L'. cbn beta. case_decide; [done|apply HL].
  - intros j y. destruct (decide (y = x)) as [->|Hy].
    + rewrite lookup_insert_eq. split; [by intros ?%Hnot|done].
    + rewrite lookup_insert_ne by done. rewrite <-(l_place s h L HL). subst L'. cbn beta. case_decide as Ej; [subst j|done].
      rewrite E, elem_of_cons. tauto.
  - intros j. rewrite pool_ends_insert. subst L'. cbn beta. case_decide as Ej; [cbn [taskHead]; by rewrite E|apply (l_head s h L HL)].
  - intros j. rewrite pool_ends_insert. subst L'. cbn beta. case_decide as Ej; [cbn [taskTail]|apply (l_tail s h L HL)].
    intros Hl. rewrite Htl by done. by destruct l.
  - intros j k y. subst L'. cbn beta. case_decide as Ej; [subst j|apply HL]. intros Hk.
    destruct (l_node s h L HL i (S k) y) as (u & Hu & Hgu); [by rewrite E|]. exists u. by rewrite Hu, E.
  - intros y. destruct (decide (y = x)) as [->|Hy]; [by rewrite lookup_insert_eq|rewrite lookup_insert_ne by done]. apply HL.
  - intros y. destruct (decide (y = x)) as [->|Hy]; [by rewrite lookup_insert_eq|rewrite lookup_insert_ne by done]. apply HL.
  - intros y. destruct (decide (y = x)) as [->|Hy]; [by rewrite lookup_insert_eq, Hx|rewrite lookup_insert_ne by done; apply HL].
  - intros j. rewrite history_note. subst L'. cbn beta. case_decide as Ej; [subst j|apply HL].
    destruct (l_fifo s h L HL i) as (ts & Hts & Hh). rewrite E in Hts. inversion Hts as [|? t' ? ts' Ht' Hts']; subst.
    exists ts'. split; [done|]. rewrite Hg in Ht'. injection Ht' as ->. by rewrite <-app_assoc.
Qed.
Lemma linked_step e s h L : linked s h L → ∃ s' h' L', qstep e (s, h) = Some (s', h') ∧ linked s' h' L'.
Proof.
  intros HL. destruct e as [x t|i x|i|x|x]; cbn [qstep].
  - unfold take_task. destruct (places s !! x) as [[]|] eqn:Hp; try by eexists _, _, L.
    + destruct (l_free s h L HL x Hp) as [o Ho]. rewrite Ho. eexists _, _, L. split; [done|].
      apply (linked_other s h L x _ Mine (Some t)); [done|by intros i; rewrite Hp|done|by exists t|done].
    + assert (heap s !! x = None) as Hn.
      { destruct (heap s !! x) eqn:E; [|done]. pose proof (proj1 (l_dom s h L HL x) (mk_is_Some _ _ E)) as [? ?]. congruence. }
      rewrite Hn. eexists _, _, L. split; [done|].
      apply (linked_other s h L x _ Mine (Some t)); [done|by intros i; rewrite Hp|done|by exists t|done].
  - case_bool_decide as Hp; [|by eexists _, _, L].
    destruct (linked_append s h L i x HL Hp) as (s' & t & L' & -> & Hg & HL'). cbn [mbind option_bind]. rewrite Hg. by eexists _, _, L'.
  - destruct (linked_run s h L i HL) as (r & s' & -> & Hr). cbn [mbind option_bind]. destruct r as [x|]; [|subst; by eexists _, _, L].
    destruct Hr as (n & t & L' & Hn & Hf & HL'). rewrite Hn. cbn [mbind option_bind]. rewrite Hf. by eexists _, _, L'.
  - case_bool_decide as Hp; [|by eexists _, _, L]. unfold Recycle. rewrite Hp.
    destruct (proj2 (l_dom s h L HL x) (mk_is_Some _ _ Hp)) as [n Hn]. rewrite Hn. cbn [mbind option_bind].
    eexists _, _, L. split; [done|]. destruct h as [g a tk].
    apply (linked_other s (mkQh g a tk) L x _ InTaskPool None); [done|by intros i; rewrite Hp|done|done|by exists None].
  - unfold drop_task. destruct (places s !! x) as [[]|] eqn:Hp; try by eexists _, _, L.
    eexists _, _, L. split; [done|]. apply linked_drop; [done|by intros i; rewrite Hp].
Qed.
Lemma linked_init : linked qinit (mkQh ∅ ∅ ∅) (λ _, []).
Proof.
  split; cbn; try done.
  - intros _. constructor.
  - intros i x. rewrite lookup_empty. split; [by intros ?%not_elem_of_nil|done].
  - intros x. rewrite !lookup_empty. split; by intros [? ?].
  - intros i. by exists [].
Qed.
Lemma linked_qrun es s h L : linked s h L → ∃ s' h' L', qrun es (s, h) = Some (s', h') ∧ linked s' h' L'.
Proof.
  revert s h L. induction es as [|e es IH]; intros s h L HL; [by eexists _, _, L|]. cbn [qrun].
  destruct (linked_step e s h L HL) as (s' & h' & L' & -> & HL'). cbn [mbind option_bind]. by eapply IH.
Qed.
(** Following the pointers finds the tasks of the list. *)
Lemma follow_list s h L i ts n k :
  linked s h L → Forall2 (λ x t, given h !! x = Some t) (L i) ts → (length (L i) ≤ n + k)%nat →
  follow n (heap s) (L i !! k) = Some (drop k ts).
Proof.
  intros HL Hts. revert k. induction n as [|n IH]; intros k Hn.
  - rewrite lookup_ge_None_2 by lia. cbn. rewrite drop_ge; [done|]. rewrite <-(Forall2_length _ _ _ Hts). lia.
  - destruct (L i !! k) as [x|] eqn:Hk.
    + cbn [follow]. destruct (l_node s h L HL i k x Hk) as (t & -> & Hg). cbn [mbind option_bind f next].
      rewrite (IH (S k)) by lia. cbn [mbind option_bind]. destruct (Forall2_lookup_l _ _ _ _ _ Hts Hk) as (t' & Ht' & Hg').
      rewrite Hg in Hg'. injection Hg' as <-. by rewrite (drop_S ts t k).
    + cbn. rewrite drop_ge; [done|]. rewrite <-(Forall2_length _ _ _ Hts). by apply lookup_ge_None_1.
Qed.
Lemma linked_size s h L i : linked s h L → (length (L i) ≤ size (heap s))%nat.
Proof.
  intros HL. rewrite <-(size_list_to_set (C := gset loc)), <-(size_dom (D := gset loc)) by apply HL. apply subseteq_size. intros x Hx%elem_of_list_to_set.
  apply elem_of_dom, (l_dom s h L HL). apply (l_place s h L HL) in Hx. by rewrite Hx.
Qed.

(** C22: The linked queue. In any interleaving of callers that take task objects from the shared
    [sync.Pool] and append them to the queues of any pools, of workers that take and recycle
    them, and of the garbage collector, no nil pointer is followed, and each pool's queue is the
    list that Gopool uses: the tasks taken from it, followed by those that its pointers lead to,
    are the tasks appended to it, in their order. *)
Theorem linked_queue_fifo (es : list qevent) :
  ∃ s h, qrun es (qinit, mkQh ∅ ∅ ∅) = Some (s, h) ∧
    ∀ i, ∃ ts, queue i s = Some ts ∧ history_of i (taken h) ++ ts = history_of i (appended h).
Proof.
  destruct (linked_qrun es qinit (mkQh ∅ ∅ ∅) (λ _, []) linked_init) as (s & h & L & Hrun & HL).
  exists s, h. split; [done|]. intros i. destruct (l_fifo s h L HL i) as (ts & Hts & Hh). exists ts. split; [|done].
  unfold queue. rewrite (l_head s h L HL). rewrite (follow_list s h L i ts _ 0); [done|done|done|].
  pose proof (linked_size s h L i HL). lia.
Qed.
(** One object serves two pools in turn. *)
Example recycled_object :
  let es := [QGet 1 10; QGet 2 20; QAppend 0 1; QAppend 0 2; QRun 0; QRecycle 1; QGet 1 30; QAppend 7 1; QRun 0; QRun 0] in
  (λ '(s, h), (queue 0 s, queue 7 s, taken h !! 0%nat, taken h !! 7%nat)) <$> qrun es (qinit, mkQh ∅ ∅ ∅)
  = Some (Some [], Some [30%nat], Some [10; 20]%nat, None).
Proof. vm_compute. reflexivity. Qed.
