(* ===== verification/Base64.v ===== *)
(** [encoding/base64]'s StdEncoding, over byte strings. *)
From Stdlib Require Import Ascii.
From stdpp Require Import prelude list strings.
From S2P Require Import Prelude GoStrings Digest.

Definition b64_char (n : Z) : ascii :=
  if n <? 26 then byte_char (65 + n) else if n <? 52 then byte_char (71 + n)
  else if n <? 62 then byte_char (n - 4) else if n =? 62 then "+"%char else "/"%char.
Definition b64_val (c : ascii) : option Z :=
  let n := byte_of c in
  if (65 <=? n) && (n <=? 90) then Some (n - 65)
  else if (97 <=? n) && (n <=? 122) then Some (n - 71)
  else if (48 <=? n) && (n <=? 57) then Some (n + 4)
  else if n =? 43 then Some 62 else if n =? 47 then Some 63 else None.
Definition is_pad (c : ascii) : bool := bool_decide (c = "="%char).

(** The 24-bit group of three bytes, and its four digits. *)
Definition group (a b c : Z) : Z := a * 65536 + b * 256 + c.
Definition sextet (k : Z) (v : Z) : ascii := b64_char (v / 64 ^ k mod 64).
Fixpoint EncodeToString (s : string) : string :=
  match s with
  | EmptyString => EmptyString
  | String a EmptyString =>
      let v := group (byte_of a) 0 0 in
      String (sextet 3 v) (String (sextet 2 v) "==")
  | String a (String b EmptyString) =>
      let v := group (byte_of a) (byte_of b) 0 in
      String (sextet 3 v) (String (sextet 2 v) (String (sextet 1 v) "="))
  | String a (String b (String c s)) =>
      let v := group (byte_of a) (byte_of b) (byte_of c) in
      String (sextet 3 v) (String (sextet 2 v) (String (sextet 1 v) (String (sextet 0 v)
        (EncodeToString s))))
  end.

Definition is_newline (c : ascii) : bool := (byte_of c =? 10) || (byte_of c =? 13).
Fixpoint strip_newlines (s : string) : string :=
  match s with
  | EmptyString => EmptyString
  | String c s => if is_newline c then strip_newlines s else String c (strip_newlines s)
  end.
Definition is_empty (s : string) : bool := match s with EmptyString => true | _ => false end.
(** The bytes decoded up to the first error, and whether there was none. *)
Fixpoint decode (s : string) : string * bool :=
  match s with
  | EmptyString => (EmptyString, true)
  | String a (String b (String c (String d s))) =>
      match b64_val a, b64_val b with
      | Some x, Some y =>
          let o k v := byte_char (v / 256 ^ k mod 256) in
          let v z w := x * 262144 + y * 4096 + z * 64 + w in
          match b64_val c, b64_val d with
          | Some z, Some w =>
              let '(t, ok) := decode s in
              (String (o 2 (v z w)) (String (o 1 (v z w)) (String (o 0 (v z w)) t)), ok)
          | Some z, None =>
              if is_pad d then (String (o 2 (v z 0)) (String (o 1 (v z 0)) EmptyString), is_empty s)
              else (EmptyString, false)
          | None, _ =>
              if is_pad c && is_pad d then (String (o 2 (v 0 0)) EmptyString, is_empty s)
              else (EmptyString, false)
          end
      | _, _ => (EmptyString, false)
      end
  | _ => (EmptyString, false)
  end.
Definition DecodeString (s : string) : string * bool := decode (strip_newlines s).

(** ** Round trip *)
Definition sextet_ok (n : Z) : bool :=
  bool_decide (b64_val (b64_char n) = Some n) && negb (is_newline (b64_char n)).
Lemma sextets_ok : forallb (λ k, sextet_ok (Z.of_nat k)) (seq 0 64) = true.
Proof. vm_compute. reflexivity. Qed.
Lemma b64_char_ok n :
  0 <= n < 64 → b64_val (b64_char n) = Some n ∧ is_newline (b64_char n) = false.
Proof.
  intros Hn. pose proof (proj1 (forallb_forall _ _) sextets_ok (Z.to_nat n)) as H.
  specialize (H ltac:(apply in_seq; lia)). cbn beta in H. rewrite Z2Nat.id in H by lia.
  apply andb_true_iff in H as [H1 H2]. apply bool_decide_eq_true in H1. apply negb_true_iff in H2. done.
Qed.
Lemma sextet_val k v : b64_val (sextet k v) = Some (v / 64 ^ k mod 64).
Proof. apply b64_char_ok, Z.mod_pos_bound. lia. Qed.
Lemma sextet_newline k v : is_newline (sextet k v) = false.
Proof. apply b64_char_ok, Z.mod_pos_bound. lia. Qed.

Lemma group_digits v : 0 <= v < 16777216 →
  v / 64 ^ 3 mod 64 * 262144 + v / 64 ^ 2 mod 64 * 4096 + v / 64 ^ 1 mod 64 * 64 + v / 64 ^ 0 mod 64 = v.
Proof.
  intros Hv. change (64 ^ 3) with 262144. change (64 ^ 2) with 4096. change (64 ^ 1) with 64.
  change (64 ^ 0) with 1. rewrite Z.div_1_r. dlia.
Qed.
Lemma group_byte a b c :
  0 <= a < 256 → 0 <= b < 256 → 0 <= c < 256 →
  0 <= group a b c < 16777216 ∧ group a b c / 256 ^ 2 mod 256 = a ∧
  group a b c / 256 ^ 1 mod 256 = b ∧ group a b c / 256 ^ 0 mod 256 = c.
Proof.
  intros Ha Hb Hc. unfold group. change (256 ^ 2) with 65536. change (256 ^ 1) with 256.
  change (256 ^ 0) with 1. rewrite Z.div_1_r. split_and!; dlia.
Qed.
Lemma group_low0 a b : group a b 0 / 64 ^ 0 mod 64 = 0.
Proof. unfold group. change (64 ^ 0) with 1. rewrite Z.div_1_r. dlia. Qed.
Lemma group_low1 a c : c = 0 → group a 0 c / 64 ^ 1 mod 64 = 0.
Proof. intros ->. unfold group. change (64 ^ 1) with 64. dlia. Qed.
Lemma string_ind3 (P : string → Prop) :
  P "" → (∀ a, P (String a "")) → (∀ a b, P (String a (String b ""))) →
  (∀ a b c s, P s → P (String a (String b (String c s)))) → ∀ s, P s.
Proof.
  intros H0 H1 H2 H3 s. assert (∀ n t, (String.length t ≤ n)%nat → P t) as Hn; [|by eapply Hn].
  induction n as [|n IH]; intros [|a [|b [|c t]]] Hl; simpl in Hl; try done; try lia.
  apply H3, IH. lia.
Qed.
Lemma strip_encode s : strip_newlines (EncodeToString s) = EncodeToString s.
Proof.
  induction s as [|a|a b|a b c s IH] using string_ind3; cbn [EncodeToString strip_newlines];
    rewrite ?sextet_newline; try done. by rewrite IH.
Qed.
Lemma decode_encode s : DecodeString (EncodeToString s) = (s, true).
Proof.
  unfold DecodeString. rewrite strip_encode.
  induction s as [|a|a b|a b c s IH] using string_ind3; [done|..].
  - pose proof (byte_of_range a) as Ha. destruct (group_byte (byte_of a) 0 0) as (Hg & H2 & _ & _); try done.
    pose proof (group_digits _ Hg) as Hd. rewrite (group_low1 _ 0) in Hd by done.
    rewrite group_low0 in Hd by done. cbn [EncodeToString decode]. rewrite !sextet_val. cbn beta iota zeta.
    change (b64_val "="%char) with (@None Z). change (is_pad "="%char) with true. cbn [andb is_empty].
    by rewrite Hd, H2, byte_char_of.
  - pose proof (byte_of_range a) as Ha. pose proof (byte_of_range b) as Hb.
    destruct (group_byte (byte_of a) (byte_of b) 0) as (Hg & H2 & H1 & _); try done.
    pose proof (group_digits _ Hg) as Hd. rewrite group_low0 in Hd by done.
    cbn [EncodeToString decode]. rewrite !sextet_val. cbn beta iota zeta.
    change (b64_val "="%char) with (@None Z). change (is_pad "="%char) with true. cbn [andb is_empty].
    by rewrite Hd, H2, H1, !byte_char_of.
  - pose proof (byte_of_range a) as Ha. pose proof (byte_of_range b) as Hb. pose proof (byte_of_range c) as Hc.
    destruct (group_byte (byte_of a) (byte_of b) (byte_of c)) as (Hg & H2 & H1 & H0); try done.
    pose proof (group_digits _ Hg) as Hd.
    cbn [EncodeToString decode]. rewrite !sextet_val. cbn beta iota zeta.
    by rewrite IH, Hd, H2, H1, H0, !byte_char_of.
Qed.
