(* ===== verification/Encrypt.v ===== *)
(** Configuration secrets (pkg/encrypt): AES in CBC and ECB with its paddings, AES-GCM values in
    ENC(...), and their decryption in a tree of settings.  The AES permutation and the GCM sealing
    of the standard library are interfaces; modes, paddings and encodings are definitions. *)
From Stdlib Require Import Ascii.
From stdpp Require Import prelude list strings.
From S2P Require Import Prelude GoStrings Digest Base64.

(** ** The ciphers of the standard library *)
(** [aes.NewCipher] accepts keys of 16, 24 and 32 bytes. *)
Definition aes_key_ok (key : string) : bool :=
  (slen key =? 16) || (slen key =? 24) || (slen key =? 32).
Class AesBlock := {
  block_encrypt : string → string → string;
  block_decrypt : string → string → string;
  block_length k b : slen b = 16 → slen (block_encrypt k b) = 16;
  block_inverse k b : slen b = 16 → block_decrypt k (block_encrypt k b) = b }.
(** [cipher.NewGCM]: sealing with a 12-byte nonce and opening. *)
Class Gcm := {
  Seal : string → string → string → string;
  Open : string → string → string → option string;
  Open_Seal k nonce p : aes_key_ok k = true → slen nonce = 12 → Open k nonce (Seal k nonce p) = Some p }.
Definition NewCipher (key : string) : option goerr :=
  if aes_key_ok key then None else Some (ErrNew "crypto/aes: invalid key size").

(** ** aes.go: paddings *)
Definition BlockSize : nat := 16.
Inductive AesType := AesTypeCBCZeroPadding | AesTypeCBCPKCS7Padding | AesTypeOther (t : Z).
Definition pad_len (data : string) : nat := BlockSize - String.length data mod BlockSize.
Definition pKCS7Padding (data : string) : string :=
  data +++ str_rep (pad_len data) (ascii_of_nat (pad_len data)).
Definition zeroPadding (data : string) : string := data +++ str_rep (pad_len data) zero.
Fixpoint last_byte (s : string) : option ascii :=
  match s with
  | EmptyString => None
  | String c EmptyString => Some c
  | String _ s => last_byte s
  end.
Definition pKCS7UnPadding (data : string) : gores string :=
  match last_byte data with
  | None => Panic "index out of range [-1]"
  | Some c =>
      let n := slen data - byte_of c in
      if n <? 0 then Panic "slice bounds out of range" else Ret (str_take (Z.to_nat n) data)
  end.
(** The loop runs off the front of a slice of zeros. *)
Fixpoint strip_zeros (s : string) : string :=
  match s with
  | EmptyString => EmptyString
  | String c s => match strip_zeros s with
                  | EmptyString => if bool_decide (c = zero) then EmptyString else String c EmptyString
                  | t => String c t
                  end
  end.
Definition zeroUnPadding (origData : string) : gores string :=
  match strip_zeros origData with
  | EmptyString => Panic "index out of range [-1]"
  | t => Ret t
  end.
Definition paddingFuncMap (t : AesType) : option (string → string) :=
  match t with
  | AesTypeCBCZeroPadding => Some zeroPadding
  | AesTypeCBCPKCS7Padding => Some pKCS7Padding
  | AesTypeOther _ => None
  end.
Definition unPaddingFuncMap (t : AesType) : option (string → gores string) :=
  match t with
  | AesTypeCBCZeroPadding => Some zeroUnPadding
  | AesTypeCBCPKCS7Padding => Some pKCS7UnPadding
  | AesTypeOther _ => None
  end.

(** ** aes.go: modes *)
Inductive mode := CBC | ECB.
Fixpoint xor_str (a b : string) : string :=
  match a, b with
  | String x a, String y b => String (byte_char (Z.lxor (byte_of x) (byte_of y))) (xor_str a b)
  | _, _ => EmptyString
  end.
Section aes.
Context `{AesBlock}.

(** [CryptBlocks] over the [n] blocks of the input. *)
Fixpoint ecb_encrypt (n : nat) (key src : string) : string :=
  match n with
  | O => EmptyString
  | S n => block_encrypt key (str_take BlockSize src) +++ ecb_encrypt n key (str_drop BlockSize src)
  end.
Fixpoint ecb_decrypt (n : nat) (key src : string) : string :=
  match n with
  | O => EmptyString
  | S n => block_decrypt key (str_take BlockSize src) +++ ecb_decrypt n key (str_drop BlockSize src)
  end.
Fixpoint cbc_encrypt (n : nat) (key iv src : string) : string :=
  match n with
  | O => EmptyString
  | S n => let c := block_encrypt key (xor_str (str_take BlockSize src) iv) in
           c +++ cbc_encrypt n key c (str_drop BlockSize src)
  end.
Fixpoint cbc_decrypt (n : nat) (key iv src : string) : string :=
  match n with
  | O => EmptyString
  | S n => let c := str_take BlockSize src in
           xor_str (block_decrypt key c) iv +++ cbc_decrypt n key c (str_drop BlockSize src)
  end.
Definition blocks (src : string) : nat := String.length src / BlockSize.
Definition CryptBlocks (f : nat → string → string) (src : string) : gores string :=
  if (String.length src mod BlockSize =? 0)%nat then Ret (f (blocks src) src)
  else Panic "crypto/cipher: input not full blocks".
Definition iv_ok (m : mode) (iv : string) : bool :=
  match m with CBC => slen iv =? 16 | ECB => true end.

Definition encrypt (paddingFn : string → string) (key iv : string) (m : mode) (srcData : string)
    : gores (goerr + string) :=
  match NewCipher key with
  | Some e => Ret (inl e)
  | None =>
      if negb (iv_ok m iv) then Panic "cipher.NewCBCEncrypter: IV length must equal block size" else
      match CryptBlocks (λ n s, match m with CBC => cbc_encrypt n key iv s | ECB => ecb_encrypt n key s end)
              (paddingFn srcData) with
      | Ret out => Ret (inr (EncodeToString out))
      | Panic e => Panic e
      end
  end.
(** The error of the base64 decoding is dropped. *)
Definition decrypt (unPaddingFn : string → gores string) (key iv : string) (m : mode)
    (ciphertext : string) : gores (goerr + string) :=
  match NewCipher key with
  | Some e => Ret (inl e)
  | None =>
      if negb (iv_ok m iv) then Panic "cipher.NewCBCDecrypter: IV length must equal block size" else
      match CryptBlocks (λ n s, match m with CBC => cbc_decrypt n key iv s | ECB => ecb_decrypt n key s end)
              (DecodeString ciphertext).1 with
      | Ret i => match unPaddingFn i with Ret d => Ret (inr d) | Panic e => Panic e end
      | Panic e => Panic e
      end
  end.
Record AesCbc := mkAesCbc { cbc_AesType : AesType; cbc_Key : string; cbc_Iv : string }.
Record AesEcb := mkAesEcb { ecb_AesType : AesType; ecb_Key : string }.
Definition AesCbcEncrypt (a : AesCbc) (srcData : string) : gores (goerr + string) :=
  match paddingFuncMap (cbc_AesType a) with
  | None => Ret (inl (ErrNew "unsupported aes type"))
  | Some f => encrypt f (cbc_Key a) (cbc_Iv a) CBC srcData
  end.
Definition AesCbcDecrypt (a : AesCbc) (ciphertext : string) : gores (goerr + string) :=
  match unPaddingFuncMap (cbc_AesType a) with
  | None => Ret (inl (ErrNew "unsupported Aes type"))
  | Some f => decrypt f (cbc_Key a) (cbc_Iv a) CBC ciphertext
  end.
Definition AesEcbEncrypt (a : AesEcb) (srcData : string) : gores (goerr + string) :=
  match paddingFuncMap (ecb_AesType a) with
  | None => Ret (inl (ErrNew "unsupported aes type"))
  | Some f => encrypt f (ecb_Key a) "" ECB srcData
  end.
Definition AesEcbDecrypt (a : AesEcb) (ciphertext : string) : gores (goerr + string) :=
  match unPaddingFuncMap (ecb_AesType a) with
  | None => Ret (inl (ErrNew "unsupported Aes type"))
  | Some f => decrypt f (ecb_Key a) "" ECB ciphertext
  end.
End aes.

(** ** aes.go: GCM *)
Section gcm.
Context `{Gcm}.
(** [nonce] is what [rand.Reader] delivered, or its error. *)
Definition Encrypt (key : string) (nonce : goerr + string) (origData : string) : goerr + string :=
  if bool_decide (origData = "") then inl (ErrNew "加密数据不能为空") else
  match NewCipher key with
  | Some e => inl e
  | None => match nonce with
            | inl e => inl e
            | inr n => inr (EncodeToString (n +++ Seal key n origData))
            end
  end.
Definition Decrypt (key crypted : string) : goerr + string :=
  if negb (slen key =? 16) then inl (ErrNew "key must be 16 bytes for AES-128") else
  match NewCipher key with
  | Some e => inl e
  | None =>
      if (String.length crypted <? 12)%nat then inl (ErrNew "ciphertext too short")
      else match Open key (str_take 12 crypted) (str_drop 12 crypted) with
           | None => inl (ErrNew "cipher: message authentication failed")
           | Some p => inr p
           end
  end.

(** ** config.go *)
Definition EncryptPrefix : string := "ENC(".
Definition EncryptSuffix : string := ")".
Definition IsEncrypted (value : string) : bool :=
  has_prefix value EncryptPrefix && has_suffix value EncryptSuffix.
Definition EncryptConfigValue (key : string) (nonce : goerr + string) (plaintext : string)
    : goerr + string :=
  if bool_decide (plaintext = "") then inr "" else
  match Encrypt key nonce plaintext with
  | inl e => inl (ErrWrap "加密配置值失败" e)
  | inr c => inr (EncryptPrefix +++ c +++ EncryptSuffix)
  end.
Definition DecryptConfigValue (key ciphertext : string) : goerr + string :=
  if negb (IsEncrypted ciphertext) then inr ciphertext else
  let encrypted := str_take (String.length ciphertext - 5) (str_drop 4 ciphertext) in
  let '(crypted, ok) := DecodeString encrypted in
  if negb ok then inl (ErrWrap "Base64解码失败" (ErrNew "illegal base64 data"))
  else match Decrypt key crypted with
       | inl e => inl (ErrWrap "解密配置值失败" e)
       | inr p => inr p
       end.
Definition ParseEncryptKey (keyStr : string) : goerr + string :=
  if bool_decide (keyStr = "") then inl (ErrNew "加密密钥不能为空") else
  let '(key, ok) := DecodeString keyStr in
  if negb ok then inl (ErrWrap "密钥Base64解码失败" (ErrNew "illegal base64 data"))
  else if negb (slen key =? 16) then
    inl (ErrNew ("密钥长度必须为16字节(AES-128)，当前: " +++ FormatInt (slen key)))
  else inr key.
End gcm.

(** *** Settings: what [viper.AllSettings] holds, a map in the order an iteration visits it *)
Inductive any :=
  | AStr (s : string)
  | AMap (m : list (string * any))
  | AList (l : list any)
  | AOther (text : string).
Section any_ind.
Context (P : any → Prop) (Pm : list (string * any) → Prop) (Pl : list any → Prop).
Context (Hstr : ∀ s, P (AStr s)) (Hmap : ∀ m, Pm m → P (AMap m)) (Hlist : ∀ l, Pl l → P (AList l)).
Context (Hother : ∀ t, P (AOther t)).
Context (Hm0 : Pm []) (Hm1 : ∀ k v m, P v → Pm m → Pm ((k, v) :: m)).
Context (Hl0 : Pl []) (Hl1 : ∀ v l, P v → Pl l → Pl (v :: l)).
Fixpoint any_ind' (v : any) : P v :=
  match v with
  | AStr s => Hstr s
  | AMap m => Hmap m ((fix go m : Pm m := match m with
                                   | [] => Hm0
                                   | (k, x) :: m => Hm1 k x m (any_ind' x) (go m)
                                   end) m)
  | AList l => Hlist l ((fix go l : Pl l := match l with
                                     | [] => Hl0
                                     | x :: l => Hl1 x l (any_ind' x) (go l)
                                     end) l)
  | AOther t => Hother t
  end.
End any_ind.

Section settings.
Context `{Gcm} (key : string).
(** [decryptMap] and [decryptSlice]: in place, up to the first value that fails. *)
Fixpoint decrypt_any (v : any) : option goerr * any :=
  match v with
  | AStr s =>
      if IsEncrypted s then
        match DecryptConfigValue key s with inl e => (Some e, v) | inr d => (None, AStr d) end
      else (None, v)
  | AMap m =>
      let '(e, m') :=
        (fix go m :=
           match m with
           | [] => (None, [])
           | (k, x) :: m =>
               match decrypt_any x with
               | (Some e, x') =>
                   (Some match x with
                         | AStr _ => ErrWrap ("解密配置项 " +++ k +++ " 失败") e
                         | _ => e
                         end, (k, x') :: m)
               | (None, x') => let '(e, m') := go m in (e, (k, x') :: m')
               end
           end) m in (e, AMap m')
  | AList l =>
      let '(e, l') :=
        (fix go i l :=
           match l with
           | [] => (None, [])
           | x :: l =>
               match decrypt_any x with
               | (Some e, x') =>
                   (Some match x with
                         | AStr _ => ErrWrap ("解密数组元素 [" +++ FormatInt i +++ "] 失败") e
                         | _ => e
                         end, x' :: l)
               | (None, x') => let '(e, l') := go (i + 1) l in (e, x' :: l')
               end
           end) 0 l in (e, AList l')
  | AOther _ => (None, v)
  end.
Definition DecryptMap (m : list (string * any)) : option goerr * list (string * any) :=
  match decrypt_any (AMap m) with (e, AMap m') => (e, m') | (e, _) => (e, m) end.
End settings.

(** ** hash.go *)
Definition Sha256_encrypt (key message : string) : string :=
  of_bytes (hmac_sha256 (to_bytes key) (to_bytes message)).
Definition Sha256_ToHex (key message : string) : string :=
  hex_encode (hmac_sha256 (to_bytes key) (to_bytes message)).
Definition Sha256_ToStdBase64 (key message : string) : string :=
  EncodeToString (Sha256_encrypt key message).
