(* ===== verification/EncryptProofs.v ===== *)
(** Properties of the configuration secrets: what decrypts back, and what a tree of settings
    becomes. *)
From Stdlib Require Import Ascii.
From stdpp Require Import prelude list strings.
From S2P Require Import Prelude GoStrings Digest Base64 Encrypt.

(** ** Byte strings *)
Lemma str_take_len a b n : String.length a = n → str_take n (a +++ b) = a.
Proof. intros <-. apply str_take_app. Qed.
Lemma str_drop_len a b n : String.length a = n → str_drop n (a +++ b) = b.
Proof. intros <-. apply str_drop_app. Qed.
Lemma slen_nat s n : slen s = Z.of_nat n ↔ String.length s = n.
Proof. unfold slen. lia. Qed.

Lemma lxor_byte a b : is_byte a → is_byte b → is_byte (Z.lxor a b).
Proof.
  unfold is_byte. intros Ha Hb. assert (0 <= Z.lxor a b) by (apply Z.lxor_nonneg; lia). split; [done|].
  destruct (Z.eq_dec (Z.lxor a b) 0) as [->|Hne]; [done|].
  change 256 with (2 ^ 8). apply Z.log2_lt_pow2; [lia|].
  eapply Z.le_lt_trans; [apply Z.log2_lxor; lia|].
  assert (∀ x, 0 <= x < 256 → Z.log2 x < 8) as Hx; [|by apply Z.max_lub_lt; apply Hx].
  intros x Hx. destruct (Z.eq_dec x 0) as [->|]; [done|]. apply Z.log2_lt_pow2; lia.
Qed.
Lemma length_xor_str a b : String.length a = String.length b → String.length (xor_str a b) = String.length a.
Proof. revert b. induction a as [|x a IH]; intros [|y b] Hl; try done. cbn in *. f_equal. apply IH. lia. Qed.
Lemma xor_str_twice a b : String.length a = String.length b → xor_str (xor_str a b) b = a.
Proof.
  revert b. induction a as [|x a IH]; intros [|y b] Hl; try done. cbn in *. rewrite IH by lia. f_equal.
  rewrite byte_of_char by (apply lxor_byte; apply byte_of_range).
  by rewrite Z.lxor_assoc, Z.lxor_nilpotent, Z.lxor_0_r, byte_char_of.
Qed.

(** ** Paddings *)
Lemma pad_len_spec d :
  (1 ≤ pad_len d ≤ 16)%nat ∧ ((String.length d + pad_len d) mod BlockSize = 0)%nat.
Proof.
  unfold pad_len, BlockSize. pose proof (Nat.mod_upper_bound (String.length d) 16). split; [lia|].
  pose proof (Nat.div_mod_eq (String.length d) 16) as E.
  replace (String.length d + (16 - String.length d mod 16))%nat with ((String.length d / 16 + 1) * 16)%nat by lia.
  apply Nat.Div0.mod_mul.
Qed.
Lemma last_byte_rep n c d : last_byte (d +++ str_rep (S n) c) = Some c.
Proof.
  assert (∀ n, last_byte (str_rep (S n) c) = Some c) as Hr.
  { clear n. induction n as [|n IH]; [done|]. cbn in *. exact IH. }
  induction d as [|x d IH]; [apply Hr|]. change (String x d +++ str_rep (S n) c) with (String x (d +++ str_rep (S n) c)).
  cbn [last_byte]. destruct (d +++ str_rep (S n) c) as [|y t] eqn:E; [|exact IH].
  by destruct d.
Qed.
Lemma pkcs7_roundtrip d : pKCS7UnPadding (pKCS7Padding d) = Ret d.
Proof.
  destruct (pad_len_spec d) as [Hp _]. unfold pKCS7UnPadding, pKCS7Padding.
  destruct (pad_len d) as [|n]; [lia|]. rewrite last_byte_rep.
  unfold slen. rewrite length_app_str, length_str_rep.
  assert (byte_of (ascii_of_nat (S n)) = Z.of_nat (S n)) as ->.
  { unfold byte_of. rewrite nat_ascii_embedding; lia. }
  destruct (Z.ltb_spec (Z.of_nat (String.length d + S n) - Z.of_nat (S n)) 0); [lia|].
  f_equal. apply str_take_len. lia.
Qed.
Lemma strip_zeros_rep d n : strip_zeros (d +++ str_rep n zero) = strip_zeros d.
Proof.
  induction d as [|c d IH].
  - induction n as [|n IH]; [done|]. cbn in *. by rewrite IH.
  - change (String c d +++ str_rep n zero) with (String c (d +++ str_rep n zero)). cbn. by rewrite IH.
Qed.

(** ** Modes *)
Section aes.
Context `{AesBlock} (key : string).
Lemma block_len b : String.length b = BlockSize → String.length (block_encrypt key b) = BlockSize.
Proof. intros Hb. apply (slen_nat _ 16), block_length, (slen_nat _ 16). exact Hb. Qed.
Lemma block_inv b : String.length b = BlockSize → block_decrypt key (block_encrypt key b) = b.
Proof. intros Hb. apply block_inverse, (slen_nat _ 16). exact Hb. Qed.

Lemma ecb_roundtrip n src :
  String.length src = (n * BlockSize)%nat →
  String.length (ecb_encrypt n key src) = (n * BlockSize)%nat ∧
  ecb_decrypt n key (ecb_encrypt n key src) = src.
Proof.
  revert src. induction n as [|n IH]; intros src Hl; [by destruct src|]. cbn [ecb_encrypt ecb_decrypt].
  assert (String.length (str_take BlockSize src) = BlockSize) as Ht by (apply length_str_take; lia).
  pose proof (block_len _ Ht) as Hb. destruct (IH (str_drop BlockSize src)) as [IHl IHd].
  { rewrite length_str_drop. lia. }
  split; [rewrite length_app_str; lia|].
  rewrite str_take_len, str_drop_len, IHd, block_inv by done. apply str_take_drop.
Qed.
Lemma cbc_roundtrip n iv src :
  String.length src = (n * BlockSize)%nat → String.length iv = BlockSize →
  String.length (cbc_encrypt n key iv src) = (n * BlockSize)%nat ∧
  cbc_decrypt n key iv (cbc_encrypt n key iv src) = src.
Proof.
  revert iv src. induction n as [|n IH]; intros iv src Hl Hiv; [by destruct src|].
  cbn [cbc_encrypt cbc_decrypt].
  assert (String.length (str_take BlockSize src) = BlockSize) as Ht by (apply length_str_take; lia).
  assert (String.length (xor_str (str_take BlockSize src) iv) = BlockSize) as Hx
    by (rewrite length_xor_str; congruence).
  pose proof (block_len _ Hx) as Hb.
  destruct (IH (block_encrypt key (xor_str (str_take BlockSize src) iv)) (str_drop BlockSize src)) as [IHl IHd];
    [rewrite length_str_drop; lia|done|].
  split; [rewrite length_app_str; lia|].
  rewrite str_take_len, str_drop_len, IHd, block_inv by done. rewrite xor_str_twice by congruence.
  apply str_take_drop.
Qed.

(** Encrypting padded data succeeds, and decrypting gives the padded data to the unpadding. *)
Lemma encrypt_decrypt m iv pad unpad d :
  aes_key_ok key = true → iv_ok m iv = true → (String.length (pad d) mod BlockSize = 0)%nat →
  ∃ s, encrypt pad key iv m d = Ret (inr s) ∧
       decrypt unpad key iv m s = match unpad (pad d) with Ret r => Ret (inr r) | Panic e => Panic e end.
Proof.
  intros Hk Hiv Hp. unfold encrypt, decrypt, NewCipher. rewrite Hk, Hiv. cbn [negb]. unfold CryptBlocks.
  rewrite Hp. cbn [Nat.eqb]. set (n := blocks (pad d)).
  assert (String.length (pad d) = (n * BlockSize)%nat) as Hl.
  { unfold n, blocks. pose proof (Nat.div_mod_eq (String.length (pad d)) BlockSize). lia. }
  assert (∃ out, match m with CBC => cbc_encrypt n key iv (pad d) | ECB => ecb_encrypt n key (pad d) end = out ∧
    String.length out = (n * BlockSize)%nat ∧
    match m with CBC => cbc_decrypt n key iv out | ECB => ecb_decrypt n key out end = pad d) as (out & -> & Ho & Hd).
  { destruct m; eexists; (split; [reflexivity|]).
    - apply cbc_roundtrip; [done|]. apply (slen_nat _ 16). by apply Z.eqb_eq.
    - by apply ecb_roundtrip. }
  eexists. split; [reflexivity|]. rewrite decode_encode. cbn [fst].
  assert (blocks out = n) as -> by (unfold blocks; rewrite Ho; by apply Nat.div_mul).
  rewrite Ho, Nat.Div0.mod_mul. cbn [Nat.eqb]. by rewrite Hd.
Qed.

(** PKCS7 round trip. With a key of an AES size (and for CBC a 16-byte vector) any data
    encrypts without a panic, and its base64 text decrypts to the same data, in both modes. *)
Lemma aes_roundtrip (iv d : string) :
  aes_key_ok key = true → slen iv = 16 →
  (∃ s, AesCbcEncrypt (mkAesCbc AesTypeCBCPKCS7Padding key iv) d = Ret (inr s) ∧
        AesCbcDecrypt (mkAesCbc AesTypeCBCPKCS7Padding key iv) s = Ret (inr d)) ∧
  (∃ s, AesEcbEncrypt (mkAesEcb AesTypeCBCPKCS7Padding key) d = Ret (inr s) ∧
        AesEcbDecrypt (mkAesEcb AesTypeCBCPKCS7Padding key) s = Ret (inr d)).
Proof.
  intros Hk Hiv.
  assert (String.length (pKCS7Padding d) mod BlockSize = 0)%nat as Hp.
  { unfold pKCS7Padding. rewrite length_app_str, length_str_rep. apply pad_len_spec. }
  split.
  - destruct (encrypt_decrypt CBC iv pKCS7Padding pKCS7UnPadding d Hk) as (s & He & Hd); [by apply Z.eqb_eq|done|].
    exists s. split; [exact He|]. cbn. rewrite Hd. by rewrite pkcs7_roundtrip.
  - destruct (encrypt_decrypt ECB "" pKCS7Padding pKCS7UnPadding d Hk) as (s & He & Hd); [done|done|].
    exists s. split; [exact He|]. cbn. rewrite Hd. by rewrite pkcs7_roundtrip.
Qed.

(** Zero padding does not round trip: decryption removes every trailing zero byte, the
    data's own included, and panics when nothing else is left, as for empty data. *)
Lemma zero_padding_strips (iv d : string) :
  aes_key_ok key = true → slen iv = 16 →
  ∃ s, AesCbcEncrypt (mkAesCbc AesTypeCBCZeroPadding key iv) d = Ret (inr s) ∧
       AesCbcDecrypt (mkAesCbc AesTypeCBCZeroPadding key iv) s =
         match strip_zeros d with
         | EmptyString => Panic "index out of range [-1]"
         | t => Ret (inr t)
         end.
Proof.
  intros Hk Hiv.
  assert (String.length (zeroPadding d) mod BlockSize = 0)%nat as Hp.
  { unfold zeroPadding. rewrite length_app_str, length_str_rep. apply pad_len_spec. }
  destruct (encrypt_decrypt CBC iv zeroPadding zeroUnPadding d Hk) as (s & He & Hd); [by apply Z.eqb_eq|done|].
  exists s. split; [exact He|]. cbn. rewrite Hd. unfold zeroUnPadding, zeroPadding.
  rewrite strip_zeros_rep. by destruct (strip_zeros d).
Qed.
End aes.

(** ** Configuration values *)
Section values.
Context `{Gcm} (key : string).

Lemma IsEncrypted_wrap c : IsEncrypted (EncryptPrefix +++ c +++ EncryptSuffix) = true.
Proof. unfold IsEncrypted. by rewrite has_prefix_app, <- app_str_assoc, has_suffix_app. Qed.
Lemma unwrap_value c :
  str_take (String.length (EncryptPrefix +++ c +++ EncryptSuffix) - 5)
    (str_drop 4 (EncryptPrefix +++ c +++ EncryptSuffix)) = c.
Proof.
  rewrite !length_app_str. rewrite str_drop_len by done. apply str_take_len. cbn. lia.
Qed.

(** A configuration value round trips under a 16-byte key. A 24- or 32-byte key, which AES
    accepts, encrypts as well, but no value it made can ever be decrypted. *)
Lemma config_value_roundtrip (nonce p : string) :
  p ≠ "" → aes_key_ok key = true → slen nonce = 12 →
  ∃ c, EncryptConfigValue key (inr nonce) p = inr c ∧ IsEncrypted c = true ∧
       DecryptConfigValue key c =
         if slen key =? 16 then inr p
         else inl (ErrWrap "解密配置值失败" (ErrNew "key must be 16 bytes for AES-128")).
Proof.
  intros Hp Hk Hn. unfold EncryptConfigValue, Encrypt, NewCipher. rewrite bool_decide_eq_false_2, Hk by done.
  eexists. split; [reflexivity|]. split; [apply IsEncrypted_wrap|].
  unfold DecryptConfigValue. rewrite IsEncrypted_wrap, unwrap_value, decode_encode. cbn [negb].
  unfold Decrypt, NewCipher. destruct (slen key =? 16); cbn [negb]; [|done]. rewrite Hk.
  apply (slen_nat _ 12) in Hn. rewrite length_app_str, Hn.
  destruct (Nat.ltb_spec (12 + String.length (Seal key nonce p)) 12); [lia|].
  rewrite str_take_len, str_drop_len by done. rewrite Open_Seal by (done || by apply (slen_nat _ 12)). done.
Qed.

(** *** Trees of settings *)
(** What a string becomes, and whether it can be decrypted; values not in ENC(...) stay. *)
Definition dec_str (s : string) : string :=
  match DecryptConfigValue key s with inr d => d | inl _ => s end.
Definition dec_ok (s : string) : bool :=
  match DecryptConfigValue key s with inr _ => true | inl _ => false end.
Lemma dec_plain s : IsEncrypted s = false → dec_str s = s ∧ dec_ok s = true.
Proof. intros E. unfold dec_str, dec_ok, DecryptConfigValue. by rewrite E. Qed.
End values.

Fixpoint any_map (f : string → string) (v : any) : any :=
  match v with
  | AStr s => AStr (f s)
  | AMap m => AMap (map (λ kv, (kv.1, any_map f kv.2)) m)
  | AList l => AList (map (any_map f) l)
  | AOther t => AOther t
  end.
Fixpoint any_all (p : string → bool) (v : any) : bool :=
  match v with
  | AStr s => p s
  | AMap m => forallb (λ kv, any_all p kv.2) m
  | AList l => forallb (any_all p) l
  | AOther _ => true
  end.

(** Decryption in place succeeds just when every string decrypts, and then each encrypted string
    is replaced by its plaintext, at any depth, and nothing else changes. *)
Lemma decrypt_any_spec `{Gcm} key v :
  match decrypt_any key v with
  | (None, v') => any_all (dec_ok key) v = true ∧ v' = any_map (dec_str key) v
  | (Some _, _) => any_all (dec_ok key) v = false
  end.
Proof.
  induction v as [s|m Hm|l Hl|t| |k v m IHv Hm| |v l IHv Hl] using any_ind' with
    (Pm := λ m, match decrypt_any key (AMap m) with
                | (None, v') => any_all (dec_ok key) (AMap m) = true ∧ v' = any_map (dec_str key) (AMap m)
                | (Some _, _) => any_all (dec_ok key) (AMap m) = false
                end)
    (Pl := λ l, ∀ i, match (fix go i l :=
           match l with
           | [] => (None, [])
           | x :: l =>
               match decrypt_any key x with
               | (Some e, x') =>
                   (Some match x with
                         | AStr _ => ErrWrap ("解密数组元素 [" +++ FormatInt i +++ "] 失败") e
                         | _ => e
                         end, x' :: l)
               | (None, x') => let '(e, l') := go (i + 1) l in (e, x' :: l')
               end
           end) i l with
           | (None, l') => forallb (any_all (dec_ok key)) l = true ∧ l' = map (any_map (dec_str key)) l
           | (Some _, _) => forallb (any_all (dec_ok key)) l = false
           end).
  - cbn. destruct (IsEncrypted s) eqn:E.
    + unfold dec_ok, dec_str. destruct (DecryptConfigValue key s); by split_and?.
    + destruct (dec_plain key s E) as [Es Ek]. by rewrite Es, Ek.
  - exact Hm.
  - cbn. specialize (Hl 0). destruct (_ 0 l) as [[e|] l']; [done|]. by destruct Hl as [-> ->].
  - done.
  - done.
  - cbn in *. destruct (decrypt_any key v) as [[e|] x']; [by rewrite IHv|].
    destruct IHv as [-> ->]. cbn. destruct (_ m) as [[e|] m']; [done|]. destruct Hm as [-> Hm].
    by injection Hm as ->.
  - done.
  - intros i. cbn in *. destruct (decrypt_any key v) as [[e|] x']; [by rewrite IHv|].
    destruct IHv as [-> ->]. cbn. specialize (Hl (i + 1)).
    destruct (_ (i + 1) l) as [[e|] l']; [done|]. by destruct Hl as [-> ->].
Qed.

(** ** Concrete ciphers, and witnesses *)
Definition pad_key (k : string) : string := str_take 16 (k +++ str_rep 16 zero).
Lemma length_pad_key k : String.length (pad_key k) = 16%nat.
Proof. apply length_str_take. rewrite length_app_str, length_str_rep. lia. Qed.
#[global] Instance xor_block : AesBlock.
Proof.
  refine {| block_encrypt k b := xor_str b (pad_key k); block_decrypt k b := xor_str b (pad_key k) |}.
  - intros k b Hb. apply (slen_nat _ 16). apply (slen_nat _ 16) in Hb.
    rewrite length_xor_str; [done|]. by rewrite Hb, length_pad_key.
  - intros k b Hb. apply (slen_nat _ 16) in Hb. apply xor_str_twice. by rewrite Hb, length_pad_key.
Defined.
#[global] Instance tag_gcm : Gcm.
Proof.
  refine {| Seal k n p := n +++ p;
            Open k n c := if has_prefix c n then Some (trim_prefix c n) else None |}.
  intros k n p _ _. by rewrite has_prefix_app, trim_prefix_app.
Defined.
Definition key16 : string := "0123456789abcdef".
Definition key24 : string := "0123456789abcdef01234567".
Lemma aes_roundtrip_witness :
  ∃ s, AesCbcEncrypt (mkAesCbc AesTypeCBCPKCS7Padding key16 key16) "hello" = Ret (inr s) ∧
       AesCbcDecrypt (mkAesCbc AesTypeCBCPKCS7Padding key16 key16) s = Ret (inr "hello").
Proof. apply (aes_roundtrip key16 key16 "hello"); reflexivity. Defined.
Lemma zero_padding_strips_witness :
  ∃ s, AesCbcEncrypt (mkAesCbc AesTypeCBCZeroPadding key16 key16) "" = Ret (inr s) ∧
       AesCbcDecrypt (mkAesCbc AesTypeCBCZeroPadding key16 key16) s = Panic "index out of range [-1]".
Proof. apply (zero_padding_strips key16 key16 ""); reflexivity. Defined.
Lemma config_value_roundtrip_witness :
  ∃ c, EncryptConfigValue key24 (inr "nonce-nonce-") "db-password" = inr c ∧ IsEncrypted c = true ∧
       DecryptConfigValue key24 c
       = inl (ErrWrap "解密配置值失败" (ErrNew "key must be 16 bytes for AES-128")).
Proof. apply (config_value_roundtrip key24 "nonce-nonce-" "db-password"); [done|reflexivity|reflexivity]. Defined.
