(* ===== verification/ConfigLoader.v ===== *)
(** The configuration loader (pkg/config/loader.go): local file, remote overrides, environment
    expansion, decryption, validation, change listeners and feature flags.  Viper, the YAML
    parser and the schema validator are interfaces. *)
From Stdlib Require Import Ascii.
From stdpp Require Import prelude gmap list strings.
From S2P Require Import Prelude GoStrings Digest GoFloat Base64 Encrypt.

Definition settings : Type := list (string * any).

(** ** Environment expansion *)
(** [os.Expand] and its [getShellName]: the name at the front, and how many bytes it takes. *)
Definition isShellSpecialVar (c : ascii) : bool :=
  is_digit c || existsb (Ascii.eqb c) ["*"; "#"; "$"; "@"; "!"; "?"; "-"]%char.
Definition isAlphaNum (c : ascii) : bool :=
  let n := byte_of c in
  Ascii.eqb c "_"%char || is_digit c || ((97 <=? n) && (n <=? 122)) || ((65 <=? n) && (n <=? 90)).
Fixpoint index_byte (c : ascii) (s : string) : option nat :=
  match s with
  | EmptyString => None
  | String d s => if Ascii.eqb d c then Some O else S <$> index_byte c s
  end.
Fixpoint alnum_prefix (s : string) : nat :=
  match s with String c s => if isAlphaNum c then S (alnum_prefix s) else O | EmptyString => O end.
Definition getShellName (s : string) : string * nat :=
  match s with
  | EmptyString => ("", O)
  | String c t =>
      if Ascii.eqb c "{"%char then
        match t with
        | String v (String b _) =>
            if isShellSpecialVar v && Ascii.eqb b "}"%char then (String v "", 3%nat)
            else match index_byte "}"%char t with
                 | Some O => ("", 2%nat)
                 | Some i => (str_take i t, S (S i))
                 | None => ("", 1%nat)
                 end
        | _ => match index_byte "}"%char t with
               | Some O => ("", 2%nat)
               | Some i => (str_take i t, S (S i))
               | None => ("", 1%nat)
               end
        end
      else if isShellSpecialVar c then (String c "", 1%nat)
      else (str_take (alnum_prefix s) s, alnum_prefix s)
  end.
Fixpoint Expand_aux (fuel : nat) (mapping : string → string) (s : string) : string :=
  match fuel, s with
  | S fuel, String c t =>
      if Ascii.eqb c "$"%char then
        match t with
        | EmptyString => s
        | _ =>
            let '(name, w) := getShellName t in
            (if bool_decide (name = "") then (if (w =? 0)%nat then "$" else "") else mapping name)
            +++ Expand_aux fuel mapping (str_drop w t)
        end
      else String c (Expand_aux fuel mapping t)
  | _, _ => s
  end.
Definition Expand (s : string) (mapping : string → string) : string :=
  Expand_aux (String.length s) mapping s.

Definition expandStr (env : string → string) (whitelist : gset string) (s : string) : string :=
  if negb (Contains s "${") then s
  else Expand s (λ name, if bool_decide (name ∈ whitelist) then env name else "${" +++ name +++ "}").
(** [expandEnvInPlace]: the strings of lists inside lists are left alone. *)
Fixpoint expand_any (f : string → string) (v : any) : any :=
  match v with
  | AStr s => AStr (f s)
  | AMap m => AMap (map (λ kv, (kv.1, expand_any f kv.2)) m)
  | AList l => AList (map (λ e, match e with AList _ => e | _ => expand_any f e end) l)
  | AOther _ => v
  end.
Definition expandEnvInPlace (env : string → string) (wl : gset string) (m : settings) : settings :=
  map (λ kv, (kv.1, expand_any (expandStr env wl) kv.2)) m.
Definition defaultEnvWhitelist : list string := ["POD_IP"; "HOSTNAME"; "VERSION"; "NODE_NAME"; "NAMESPACE"].
Definition toSet (values fallback : list string) : gset string :=
  list_to_set (filter (λ v, v ≠ "") (match values with [] => fallback | _ => values end)).
Definition toSetOrNil (values : list string) : option (gset string) :=
  match values with [] => None | _ => Some (list_to_set values) end.

Fixpoint has_encrypted (v : any) : bool :=
  match v with
  | AStr s => IsEncrypted s
  | AMap m => existsb (λ kv, has_encrypted kv.2) m
  | AList l => existsb (λ e, match e with AList _ => false | _ => has_encrypted e end) l
  | AOther _ => false
  end.
Definition hasEncrypted (m : settings) : bool := has_encrypted (AMap m).

(** ** Differences *)
(** [fmt.Sprintf("%v")]; a map prints its keys in order. *)
Fixpoint insert_sorted (kv : string * string) (l : list (string * string)) : list (string * string) :=
  match l with
  | [] => [kv]
  | x :: l' => if String.leb kv.1 x.1 then kv :: l else x :: insert_sorted kv l'
  end.
Fixpoint show (v : any) : string :=
  match v with
  | AStr s => s
  | AOther t => t
  | AList l => "[" +++ Join (map show l) " " +++ "]"
  | AMap m => "map[" +++ Join (map (λ kv, kv.1 +++ ":" +++ kv.2)
                (foldr insert_sorted [] (map (λ kv, (kv.1, show kv.2)) m))) " " +++ "]"
  end.
Definition equalScalar (a b : any) : bool := bool_decide (show a = show b).
(** The leaves of a tree under their dot-keys, in the order of iteration. *)
Definition dot_key (prefix k : string) : string :=
  if bool_decide (prefix = "") then k else prefix +++ "." +++ k.
Fixpoint leaves (key : string) (v : any) : settings :=
  match v with
  | AMap m => flat_map (λ kv, leaves (dot_key key kv.1) kv.2) m
  | _ => [(key, v)]
  end.
(** [flatten]: a later leaf of the same key replaces an earlier one. *)
Definition flatten (m : settings) : gmap string any :=
  list_to_map (reverse (flat_map (λ kv, leaves kv.1 kv.2) m)).
Definition keyMatchesPrefix (key prefix : string) : bool :=
  bool_decide (prefix = "") || bool_decide (key = prefix) || has_prefix key (prefix +++ ".").
Definition any_nil : any := AOther "<nil>".
Definition changed_keys (oldFlat newFlat : gmap string any) : gmap string (any * any) :=
  merge (λ o n, match o, n with
                | Some a, Some b => if equalScalar a b then None else Some (a, b)
                | Some a, None => Some (a, any_nil)
                | None, Some b => Some (any_nil, b)
                | None, None => None
                end) oldFlat newFlat.
Definition isHotReloadable (hot : option (gset string)) (key : string) : bool :=
  match hot with
  | None => true
  | Some h => existsb (keyMatchesPrefix key) (elements h)
  end.
(** One listener prefix: the changed keys in the order of this iteration; the first that matches
    and may be reloaded fires the prefix's functions. *)
Fixpoint fire_prefix (hot : option (gset string)) (prefix : string) (fns : list nat)
    (changed : list (string * (any * any))) : list (nat * (any * any)) :=
  match changed with
  | [] => []
  | (k, ov) :: changed =>
      if negb (keyMatchesPrefix k prefix) then fire_prefix hot prefix fns changed
      else if negb (isHotReloadable hot k) then fire_prefix hot prefix fns changed
      else map (λ fn, (fn, ov)) fns
  end.
(** [fireDiff]; [order] is the iteration over the changes for each prefix. *)
Definition fireDiff (hot : option (gset string)) (listeners : list (string * list nat))
    (order : string → list (string * (any * any))) : list (nat * (any * any)) :=
  flat_map (λ pf, fire_prefix hot pf.1 pf.2 (order pf.1)) listeners.

(** ** The loader *)
(** Viper and the YAML parser.  [shared_after f v] is [v] once the strings of the slices that
    [AllSettings] shares with it have been rewritten by [f]. *)
Class Viper (V : Type) := {
  AllSettings : V → settings;
  SetAll : settings → V;
  MergeConfigMap : settings → V → option goerr * V;
  ViperGet : string → V → option any;
  ViperSet : string → any → V → V;
  shared_after : (string → string) → V → V;
  parse_yaml : string → goerr + settings }.

Record BootstrapOptions := mkOptions {
  LocalPath : string; LocalConfigType : string; HasRemote : bool; EncryptKeyPath : string;
  EnvWhitelist : list string; HotReloadable : list string; FetchTimeout : Z }.
Definition with_defaults (o : BootstrapOptions) : BootstrapOptions :=
  mkOptions (LocalPath o)
    (if bool_decide (LocalConfigType o = "") then "yaml" else LocalConfigType o) (HasRemote o)
    (if bool_decide (EncryptKeyPath o = "") then "config.encryptKey" else EncryptKeyPath o)
    (EnvWhitelist o) (HotReloadable o) (if FetchTimeout o <=? 0 then 5 * Second else FetchTimeout o).

Section loader.
Context {V : Type} `{Viper V} `{Gcm}.
(** The environment, and the compiled schema's verdict ([None]: valid, or no schema). *)
Context (env : string → string) (validate : settings → option goerr).

Record Loader := mkLoader {
  opts : BootstrapOptions; vp : V; subscribed : bool;
  listeners : gmap string (list nat); envWhitelist : gset string;
  hotReload : option (gset string); remoteRaw : gmap string string }.

Definition mergeYamlInto (raw : string) (v : V) : option goerr * V :=
  if bool_decide (TrimSpace raw = "") then (None, v) else
  match parse_yaml raw with
  | inl e => (Some e, v)
  | inr m => MergeConfigMap m v
  end.
(** A merge that fails is logged, and the next one goes on. *)
Definition merge_all (raws : list (string * string)) (v : V) : V :=
  foldl (λ v kr, (mergeYamlInto kr.2 v).2) v raws.

Definition trimmed (l : list string) : list string := filter (λ s, s ≠ "") (map TrimSpace l).
Fixpoint parse_keys (path : string) (raws : list string) : goerr + list string :=
  match raws with
  | [] => inr []
  | r :: raws =>
      match ParseEncryptKey r with
      | inl e => inl (ErrWrap ("config: parse encrypt key at " +++ path) e)
      | inr k => match parse_keys path raws with inl e => inl e | inr ks => inr (k :: ks) end
      end
  end.
Definition parseEncryptKeysFromConfig (path : string) (v : V) : goerr + list string :=
  match ViperGet path v with
  | None => inr []
  | Some (AStr s) => parse_keys path (trimmed (Split ","%char s))
  | Some (AList l) => parse_keys path (trimmed (omap (λ x, match x with AStr s => Some s | _ => None end) l))
  | Some _ => inl (ErrNew ("config: " +++ path +++ " must be string or []string"))
  end.
(** The keys in turn, each on a copy; the last error if none decrypts everything. *)
Fixpoint try_keys (keys : list string) (m : settings) (lastErr : goerr) : goerr + settings :=
  match keys with
  | [] => inl (ErrWrap "config: decrypt failed with all keys" lastErr)
  | k :: keys =>
      match DecryptMap k m with
      | (None, m') => inr m'
      | (Some e, _) => try_keys keys m e
      end
  end.
Definition normalize (path : string) (wl : gset string) (src : V) : goerr + V :=
  let m := expandEnvInPlace env wl (AllSettings src) in
  if hasEncrypted m then
    match parseEncryptKeysFromConfig path (shared_after (expandStr env wl) src) with
    | inl e => inl e
    | inr [] => inl (ErrNew ("config: encrypted value found but " +++ path +++ " is empty in config"))
    | inr keys => match try_keys keys m (ErrNew "") with inl e => inl e | inr m' => inr (SetAll m') end
    end
  else inr (SetAll m).

(** [Bootstrap] after the schema compiled.  [local] is the local file as read, [fetched] what the
    remote answered (in the order of the iteration), [listen_ok] whether subscribing worked. *)
Definition Bootstrap (o : BootstrapOptions) (local : goerr + V)
    (fetched : goerr + list (string * string)) (listen_ok : bool) : goerr + Loader :=
  if bool_decide (LocalPath o = "") then inl (ErrNew "config: LocalPath is required") else
  let o := with_defaults o in
  let wl := toSet (EnvWhitelist o) defaultEnvWhitelist in
  match local with
  | inl e => inl (ErrWrap ("config: read local " +++ LocalPath o) e)
  | inr v =>
      let raws := if HasRemote o then match fetched with inl _ => [] | inr raws => raws end else [] in
      match normalize (EncryptKeyPath o) wl (merge_all raws v) with
      | inl e => inl e
      | inr final =>
          match validate (AllSettings final) with
          | Some e => inl (ErrWrap "config: schema validation failed" e)
          | None => inr (mkLoader o final (HasRemote o && listen_ok) ∅ wl (toSetOrNil (HotReloadable o))
                           (list_to_map raws))
          end
      end
  end.

(** [onRemoteChange]: the local file as read now, the iteration over the raw contents, over the
    listeners, and over the changes for each prefix.  The result is what the listeners got. *)
Definition onRemoteChange (dataId raw : string) (local : goerr + V)
    (raws : gmap string string → list (string * string))
    (ls : list (string * list nat)) (order : gmap string (any * any) → string → list (string * (any * any)))
    (l : Loader) : list (nat * (any * any)) * Loader :=
  let rr := <[dataId := raw]> (remoteRaw l) in
  let keep := mkLoader (opts l) (vp l) (subscribed l) (listeners l) (envWhitelist l) (hotReload l) rr in
  match local with
  | inl _ => ([], keep)
  | inr v =>
      match normalize (EncryptKeyPath (opts l)) (envWhitelist l) (merge_all (raws rr) v) with
      | inl _ => ([], keep)
      | inr final =>
          match validate (AllSettings final) with
          | Some _ => ([], keep)
          | None =>
              let changed := changed_keys (flatten (AllSettings (vp l))) (flatten (AllSettings final)) in
              (fireDiff (hotReload l) ls (order changed),
               mkLoader (opts l) final (subscribed l) (listeners l) (envWhitelist l) (hotReload l) rr)
          end
      end
  end.
Definition OnChange (prefix : string) (fn : nat) (l : Loader) : Loader :=
  mkLoader (opts l) (vp l) (subscribed l)
    (<[prefix := default [] (listeners l !! prefix) ++ [fn]]> (listeners l))
    (envWhitelist l) (hotReload l) (remoteRaw l).

(** [Set] overrides a key of the settings in force, unvalidated. *)
Definition Loader_Set (key : string) (value : any) (l : Loader) : Loader :=
  mkLoader (opts l) (ViperSet key value (vp l)) (subscribed l) (listeners l) (envWhitelist l)
    (hotReload l) (remoteRaw l).
(** [Close] cancels the subscription, if any; [cancel] is what the source answers. *)
Definition Close (cancel : option goerr) (l : Loader) : option goerr :=
  if subscribed l then cancel else None.

(** ** Feature flags *)
Record FeatureContext := mkFeatureContext { DeviceNo : string; AccountId : Z; InstanceId : string }.
Record FeatureFlag := mkFeatureFlag { FEnabled : bool; Rollout : Z }.
Definition featureBucket (c : FeatureContext) : Z :=
  crc32 (to_bytes (DeviceNo c +++ "|" +++ FormatInt (AccountId c) +++ "|" +++ InstanceId c)) mod 100.
(** [bind] is the flag under "flags."+name: not set, not decodable, or its value. *)
Definition Feature (bind : option (goerr + FeatureFlag)) (c : FeatureContext) : bool :=
  match bind with
  | None => false
  | Some (inl _) => false
  | Some (inr f) =>
      if negb (FEnabled f) then false
      else if 100 <=? Rollout f then true
      else if Rollout f <=? 0 then false
      else featureBucket c <? u32 (Rollout f)
  end.
End loader.
Arguments Loader V : clear implicits.

(** ** Reading, and calling listeners *)
(** The readers that forward to the settings in force, whose casts are Viper's. *)
Class ViperReads (V : Type) := {
  r_Get : string → V → any; r_GetString : string → V → string; r_GetInt : string → V → Z; r_GetInt64 : string → V → Z;
  r_GetBool : string → V → bool; r_GetFloat64 : string → V → float64; r_GetStringSlice : string → V → list string;
  r_GetStringMap : string → V → settings; r_GetDuration : string → V → Z; r_IsSet : string → V → bool }.
Section forwards.
Context {V : Type} `{ViperReads V} (l : Loader V).
Definition Loader_Get (key : string) : any := r_Get key (vp l).
Definition Loader_GetString (key : string) : string := r_GetString key (vp l).
Definition Loader_GetInt (key : string) : Z := r_GetInt key (vp l).
Definition Loader_GetInt64 (key : string) : Z := r_GetInt64 key (vp l).
Definition Loader_GetBool (key : string) : bool := r_GetBool key (vp l).
Definition Loader_GetFloat64 (key : string) : float64 := r_GetFloat64 key (vp l).
Definition Loader_GetStringSlice (key : string) : list string := r_GetStringSlice key (vp l).
Definition Loader_GetStringMap (key : string) : settings := r_GetStringMap key (vp l).
Definition Loader_GetDuration (key : string) : Z := r_GetDuration key (vp l).
Definition Loader_IsSet (key : string) : bool := r_IsSet key (vp l).
End forwards.
(** A listener that panics is recovered from. *)
Definition safeFire (fn : any → any → gores unit) (old new : any) : gores unit :=
  match fn old new with Ret u => Ret u | Panic _ => Ret tt end.
(** The calls of [fireDiff], one after the other: which listeners were called. *)
Fixpoint fire_calls (fns : nat → any → any → gores unit) (calls : list (nat * (any * any))) : gores (list nat) :=
  match calls with
  | [] => Ret []
  | (fn, (old, new)) :: calls =>
      match safeFire (fns fn) old new with
      | Panic m => Panic m
      | Ret _ => match fire_calls fns calls with Ret l => Ret (fn :: l) | Panic m => Panic m end
      end
  end.
