(* ===== verification/ConfigProofs.v ===== *)
(** Properties of the configuration loader. *)
From Stdlib Require Import Ascii.
From stdpp Require Import prelude gmap list strings.
From S2P Require Import Prelude GoStrings Digest Base64 Encrypt EncryptProofs ConfigLoader.

(** ** Environment expansion *)
Lemma Expand_ext f g s : (∀ n, f n = g n) → Expand s f = Expand s g.
Proof.
  intros Hfg. unfold Expand. generalize (String.length s) as fuel. intros fuel. revert s.
  induction fuel as [|fuel IH]; intros [|c t]; try done. cbn [Expand_aux].
  destruct (Ascii.eqb c "$"%char); [|by rewrite IH].
  destruct t as [|d t]; [done|]. destruct (getShellName (String d t)) as [name w].
  by rewrite IH, Hfg.
Qed.

(** Expansion reads nothing of the environment but the whitelist: two environments that
    agree on it expand every string alike, and a string without a braced reference is left
    alone. Unbraced references are not: in a string that has a braced one, they are rewritten
    with braces although they are not expanded. *)
Lemma expand_reads_whitelist (env1 env2 : string → string) (wl : gset string) (s : string) :
  ((∀ n, n ∈ wl → env1 n = env2 n) → expandStr env1 wl s = expandStr env2 wl s) ∧
  (Contains s "${" = false → expandStr env1 wl s = s) ∧
  expandStr env1 ∅ "pa$word-${HOST}" = "pa${word}-${HOST}".
Proof.
  unfold expandStr. split_and!.
  - intros Hag. destruct (Contains s "${"); [|done]. apply Expand_ext. intros n.
    case_bool_decide; [by apply Hag|done].
  - by intros ->.
  - vm_compute. reflexivity.
Qed.

(** ** Decryption *)
Fixpoint no_nested_list (v : any) : bool :=
  match v with
  | AMap m => forallb (λ kv, no_nested_list kv.2) m
  | AList l => forallb (λ e, match e with AList _ => false | _ => no_nested_list e end) l
  | _ => true
  end.
Definition no_secret (v : any) : bool := any_all (λ s, negb (IsEncrypted s)) v.
Lemma has_encrypted_complete v :
  no_nested_list v = true → has_encrypted v = negb (no_secret v).
Proof.
  unfold no_secret.
  induction v as [s|m Hm|l Hl|t| |k v m IHv Hm| |v l IHv Hl] using any_ind' with
    (Pm := λ m, no_nested_list (AMap m) = true → has_encrypted (AMap m) = negb (no_secret (AMap m)))
    (Pl := λ l, no_nested_list (AList l) = true → has_encrypted (AList l) = negb (no_secret (AList l)));
    intros Hn; try done.
  - cbn. by rewrite negb_involutive.
  - by apply Hm.
  - by apply Hl.
  - cbn in *. apply andb_true_iff in Hn as [Hv Hn]. unfold no_secret in Hm. cbn in Hm.
    by rewrite IHv, Hm, negb_andb by done.
  - cbn in *. apply andb_true_iff in Hn as [Hv Hn]. unfold no_secret in Hl. cbn in Hl.
    rewrite Hl, negb_andb by done. destruct v; try done; by rewrite IHv.
Qed.

Section loader.
Context {V : Type} `{Viper V} `{Gcm} (env : string → string) (validate : settings → option goerr).

Definition decrypts (m : settings) (k : string) : bool := any_all (dec_ok k) (AMap m).
Definition decrypted (k : string) (m : settings) : settings :=
  map (λ kv, (kv.1, any_map (dec_str k) kv.2)) m.
Lemma DecryptMap_spec k m :
  match DecryptMap k m with
  | (None, m') => decrypts m k = true ∧ m' = decrypted k m
  | (Some _, _) => decrypts m k = false
  end.
Proof.
  unfold DecryptMap. pose proof (decrypt_any_spec k (AMap m)) as Hs.
  destruct (decrypt_any k (AMap m)) as [[e|] v] eqn:E.
  - by destruct v.
  - destruct Hs as [Hok ->]. by split.
Qed.
Lemma try_keys_spec keys m e0 :
  match try_keys keys m e0 with
  | inr m' => ∃ k1 k k2, keys = k1 ++ k :: k2 ∧ Forall (λ k', decrypts m k' = false) k1 ∧
                decrypts m k = true ∧ m' = decrypted k m
  | inl _ => Forall (λ k, decrypts m k = false) keys
  end.
Proof.
  revert e0. induction keys as [|k keys IH]; intros e0; cbn; [done|].
  pose proof (DecryptMap_spec k m) as Hk. destruct (DecryptMap k m) as [[e|] m'].
  - specialize (IH e). destruct (try_keys keys m e) as [e'|m2]; [by constructor|].
    destruct IH as (k1 & k' & k2 & -> & Hf & Hd & ->). exists (k :: k1), k', k2.
    split_and!; [done|by constructor|done|done].
  - destruct Hk as [Hk ->]. exists [], k, keys. by split_and!.
Qed.

(** Normalisation. It yields the expanded settings, unchanged if no value is found to be
    encrypted, and otherwise with every encrypted string replaced by its plaintext under the
    first configured key that decrypts them all; it fails only if the keys are malformed or none
    does. Encrypted values are found wherever they are, except in a list inside a list. *)
Lemma normalize_decrypts (path : string) (wl : gset string) (src : V) :
  let m := expandEnvInPlace env wl (AllSettings src) in
  let keys := parseEncryptKeysFromConfig path (shared_after (expandStr env wl) src) in
  match normalize env path wl src with
  | inr dst =>
      (hasEncrypted m = false ∧ dst = SetAll m) ∨
      (∃ k1 k k2, keys = inr (k1 ++ k :: k2) ∧ Forall (λ k', decrypts m k' = false) k1 ∧
         decrypts m k = true ∧ dst = SetAll (decrypted k m))
  | inl _ => hasEncrypted m = true ∧
             match keys with inl _ => True | inr ks => Forall (λ k, decrypts m k = false) ks end
  end ∧
  (no_nested_list (AMap m) = true → hasEncrypted m = negb (no_secret (AMap m))).
Proof.
  cbn zeta. split; [|apply has_encrypted_complete]. unfold normalize. cbn zeta.
  destruct (hasEncrypted _) eqn:He; [|by left].
  destruct (parseEncryptKeysFromConfig _ _) as [e|[|k ks]]; [done|done|].
  pose proof (try_keys_spec (k :: ks) (expandEnvInPlace env wl (AllSettings src)) (ErrNew "")) as Ht.
  destruct (try_keys _ _ _) as [e|m']; [done|]. right.
  destruct Ht as (k1 & k' & k2 & -> & Hf & Hd & ->). exists k1, k', k2. by split_and!.
Qed.

(** ** Listeners *)
Lemma fire_prefix_spec hot prefix fns ch :
  (Exists (λ kv, keyMatchesPrefix kv.1 prefix = true ∧ isHotReloadable hot kv.1 = true) ch ∧
   ∃ k ov, (k, ov) ∈ ch ∧ keyMatchesPrefix k prefix = true ∧ isHotReloadable hot k = true ∧
           fire_prefix hot prefix fns ch = map (λ fn, (fn, ov)) fns) ∨
  (¬ Exists (λ kv, keyMatchesPrefix kv.1 prefix = true ∧ isHotReloadable hot kv.1 = true) ch ∧
   fire_prefix hot prefix fns ch = []).
Proof.
  induction ch as [|[k ov] ch IH]; [right; split; [by intros ?%Exists_nil|done]|]. cbn [fire_prefix].
  assert (∀ b, b = false → (keyMatchesPrefix k prefix = b ∨ isHotReloadable hot k = b) →
    ((Exists (λ kv, keyMatchesPrefix kv.1 prefix = true ∧ isHotReloadable hot kv.1 = true) ((k, ov) :: ch) ∧
      ∃ k' ov', (k', ov') ∈ (k, ov) :: ch ∧ keyMatchesPrefix k' prefix = true ∧
        isHotReloadable hot k' = true ∧ fire_prefix hot prefix fns ch = map (λ fn, (fn, ov')) fns) ∨
     (¬ Exists (λ kv, keyMatchesPrefix kv.1 prefix = true ∧ isHotReloadable hot kv.1 = true) ((k, ov) :: ch) ∧
      fire_prefix hot prefix fns ch = []))) as Hskip.
  { intros b -> Hb. destruct IH as [(Hex & k' & ov' & Hin & ?)|[Hno ?]].
    - left. split; [by right|]. exists k', ov'. split; [by right|done].
    - right. split; [|done]. intros [[Hk Hh]|Hex]%Exists_cons; [|done]. cbn in Hk, Hh. destruct Hb; congruence. }
  destruct (keyMatchesPrefix k prefix) eqn:Hk; cbn [negb]; [|by apply (Hskip false); auto].
  destruct (isHotReloadable hot k) eqn:Hh; cbn [negb]; [|by apply (Hskip false); auto].
  left. split; [by left|]. exists k, ov. split_and!; [by left|done|done|done].
Qed.

(** C11: Listeners. A prefix's listeners are called exactly when some key that changed lies under
    the prefix and may be reloaded; then each is called once, all with the old and new value of
    one such key. A key counts as changed when its leaf appeared, disappeared, or prints
    differently. *)
Theorem fire_diff_exact (hot : option (gset string)) (ls : list (string * list nat))
    (oldS newS : settings) (order : string → list (string * (any * any))) :
  let changed := changed_keys (flatten oldS) (flatten newS) in
  (∀ p, order p ≡ₚ map_to_list changed) →
  (∀ k, changed !! k = match flatten oldS !! k, flatten newS !! k with
                       | Some a, Some b => if equalScalar a b then None else Some (a, b)
                       | Some a, None => Some (a, any_nil)
                       | None, Some b => Some (any_nil, b)
                       | None, None => None
                       end) ∧
  ∃ outs, fireDiff hot ls order = concat outs ∧
    Forall2 (λ pf out,
      let hit k ov := changed !! k = Some ov ∧ keyMatchesPrefix k pf.1 = true ∧ isHotReloadable hot k = true in
      ((∃ k ov, hit k ov) → ∃ k ov, hit k ov ∧ out = map (λ fn, (fn, ov)) pf.2) ∧
      (¬ (∃ k ov, hit k ov) → out = [])) ls outs.
Proof.
  intros changed Hord. split.
  - intros k. unfold changed, changed_keys. rewrite lookup_merge.
    by destruct (flatten oldS !! k), (flatten newS !! k).
  - exists (map (λ pf, fire_prefix hot pf.1 pf.2 (order pf.1)) ls). split; [apply flat_map_concat_map|].
    apply Forall2_fmap_r, Forall_Forall2_diag, Forall_true. intros [p fns]. cbn.
    assert (∀ k ov, (k, ov) ∈ order p ↔ changed !! k = Some ov) as Hin
      by (intros k ov; by rewrite (Hord p), elem_of_map_to_list).
    destruct (fire_prefix_spec hot p fns (order p)) as [(_ & k & ov & Hk & ? & ? & ->)|[Hno ->]].
    + split; [|intros Hno; exfalso; apply Hno; exists k, ov; by rewrite <- Hin].
      intros _. exists k, ov. by rewrite <- Hin.
    + split; [|done]. intros (k & ov & Hk%Hin & Hm & Hh). exfalso. apply Hno.
      apply Exists_exists. by exists (k, ov).
Qed.

(** Whatever the listeners do, all of them are called. *)
Lemma all_listeners_called fns calls : fire_calls fns calls = Ret (map fst calls).
Proof.
  induction calls as [|[fn [old new]] calls IH]; [done|]. cbn [fire_calls map fst].
  unfold safeFire. by destruct (fns fn old new); rewrite IH.
Qed.

(** ** Reloads *)
Record change := mkChange {
  ch_dataId : string; ch_raw : string; ch_local : goerr + V;
  ch_raws : gmap string string → list (string * string);
  ch_listeners : list (string * list nat);
  ch_order : gmap string (any * any) → string → list (string * (any * any)) }.
Definition reload (c : change) (l : Loader V) : list (nat * (any * any)) * Loader V :=
  onRemoteChange env validate (ch_dataId c) (ch_raw c) (ch_local c) (ch_raws c) (ch_listeners c) (ch_order c) l.
Definition valid (l : Loader V) : Prop := validate (AllSettings (vp l)) = None.

(** What a reload is to adopt, without the code's own functions for merging and normalising: the
    contents in order over the local settings, a blank one and one that does not parse changing
    nothing; *)
Inductive layered : V → list (string * string) → V → Prop :=
  | lay_done v : layered v [] v
  | lay_blank v id raw raws v' : TrimSpace raw = "" → layered v raws v' → layered v ((id, raw) :: raws) v'
  | lay_bad v id raw raws e v' :
      TrimSpace raw ≠ "" → parse_yaml raw = inl e → layered v raws v' → layered v ((id, raw) :: raws) v'
  | lay_over v id raw raws m v' :
      TrimSpace raw ≠ "" → parse_yaml raw = inr m → layered (MergeConfigMap m v).2 raws v' →
      layered v ((id, raw) :: raws) v'.
(** the whitelisted variables expanded, and the encrypted values under the first of the configured
    keys that decrypts them all. *)
Inductive normalized (path : string) (wl : gset string) (src : V) : V → Prop :=
  | norm_plain :
      let m := expandEnvInPlace env wl (AllSettings src) in
      hasEncrypted m = false → normalized path wl src (SetAll m)
  | norm_secret k1 k k2 :
      let m := expandEnvInPlace env wl (AllSettings src) in
      hasEncrypted m = true →
      parseEncryptKeysFromConfig path (shared_after (expandStr env wl) src) = inr (k1 ++ k :: k2) →
      Forall (λ k', decrypts m k' = false) k1 → decrypts m k = true →
      normalized path wl src (SetAll (decrypted k m)).
(** The settings [final] come of a readable local file and the contents, and the schema accepts them. *)
Definition adoptable (path : string) (wl : gset string) (local : goerr + V) (raws : list (string * string))
    (final : V) : Prop :=
  ∃ v src, local = inr v ∧ layered v raws src ∧ normalized path wl src final ∧ validate (AllSettings final) = None.
Lemma layered_merge_all v raws v' : layered v raws v' ↔ v' = merge_all raws v.
Proof.
  unfold merge_all, mergeYamlInto. split.
  - induction 1 as [|v id raw raws v' Hb _ IH|v id raw raws e v' Hb Hp _ IH|v id raw raws m v' Hb Hp _ IH]; [done|..];
      cbn [foldl fst snd]; case_bool_decide; try done; by rewrite ?Hp.
  - intros ->. revert v. induction raws as [|[id raw] raws IH]; intros v; [constructor|]. cbn [foldl fst snd].
    case_bool_decide as Hb; [by apply lay_blank|]. destruct (parse_yaml raw) as [e|m] eqn:Hp.
    + by eapply lay_bad.
    + by eapply lay_over.
Qed.
Lemma try_keys_first k1 k k2 m e0 :
  Forall (λ k', decrypts m k' = false) k1 → decrypts m k = true →
  try_keys (k1 ++ k :: k2) m e0 = inr (decrypted k m).
Proof.
  intros Hf Hk. revert e0. induction Hf as [|k' k1 Hk' _ IH]; intros e0; cbn [app try_keys].
  - pose proof (DecryptMap_spec k m) as Hs. destruct (DecryptMap k m) as [[e|] m']; [congruence|]. by destruct Hs as [_ ->].
  - pose proof (DecryptMap_spec k' m) as Hs. destruct (DecryptMap k' m) as [[e|] m']; [apply IH|]. destruct Hs; congruence.
Qed.
Lemma normalized_iff path wl src dst : normalized path wl src dst ↔ normalize env path wl src = inr dst.
Proof.
  split.
  - intros [m He|k1 k k2 m He Hk Hf Hd]; unfold normalize; fold m; rewrite He; [done|]. rewrite Hk.
    rewrite (try_keys_first k1 k k2 m (ErrNew "") Hf Hd). by destruct k1.
  - intros En. destruct (normalize_decrypts path wl src) as [Hs _]. rewrite En in Hs.
    destruct Hs as [[He ->]|(k1 & k & k2 & Hk & Hf & Hd & ->)]; [by constructor|].
    destruct (hasEncrypted (expandEnvInPlace env wl (AllSettings src))) eqn:He; [by eapply norm_secret|].
    unfold normalize in En. rewrite He in En. injection En as <-. by constructor.
Qed.
(** The code's own path to the settings, and the specification of it. *)
Lemma adoptable_iff path wl local raws final :
  adoptable path wl local raws final ↔
  ∃ v, local = inr v ∧ normalize env path wl (merge_all raws v) = inr final ∧ validate (AllSettings final) = None.
Proof.
  split.
  - intros (v & src & Hl & ->%layered_merge_all & Hn%normalized_iff & Hv). by exists v.
  - intros (v & Hl & Hn%normalized_iff & Hv). exists v, (merge_all raws v). split_and!; [done|by apply layered_merge_all|done|done].
Qed.
Lemma adoptable_fun path wl local raws f1 f2 :
  adoptable path wl local raws f1 → adoptable path wl local raws f2 → f1 = f2.
Proof. rewrite !adoptable_iff. intros (v & -> & E1 & _) (v2 & [= <-] & E2 & _). congruence. Qed.

(** A loader whose settings are [v] and whose remote contents are [raws]. *)
Definition with_state (v : V) (raws : gmap string string) (l : Loader V) : Loader V :=
  mkLoader (opts l) v (subscribed l) (listeners l) (envWhitelist l) (hotReload l) raws.
(** The contents recorded when [c] arrives, and what it would have the loader adopt. *)
Definition contents_with (c : change) (l : Loader V) : gmap string string := <[ch_dataId c := ch_raw c]> (remoteRaw l).
Definition adopts (c : change) (l : Loader V) : V → Prop :=
  adoptable (EncryptKeyPath (opts l)) (envWhitelist l) (ch_local c) (ch_raws c (contents_with c l)).
Lemma reload_cases c l :
  (∃ final, adopts c l final ∧
     reload c l = (fireDiff (hotReload l) (ch_listeners c)
                     (ch_order c (changed_keys (flatten (AllSettings (vp l))) (flatten (AllSettings final)))),
                   with_state final (contents_with c l) l)) ∨
  ((∀ final, ¬ adopts c l final) ∧ reload c l = ([], with_state (vp l) (contents_with c l) l)).
Proof.
  unfold adopts. setoid_rewrite adoptable_iff.
  unfold reload, onRemoteChange, contents_with.
  destruct (ch_local c) as [e|v]; [right; split; [by intros f (? & ? & _)|done]|].
  destruct (normalize _ _ _ _) as [e|final] eqn:En; [right; split; [|done]; intros f (v2 & [= <-] & E & _); congruence|].
  destruct (validate (AllSettings final)) as [e|] eqn:Ev; [right; split; [|done]|left; exists final; split; [by exists v|done]].
  intros f (v2 & [= <-] & E & Hf). congruence.
Qed.

(** C8: The configuration in force is always a validated one. Starting succeeds only with
    settings the schema accepts, and after any sequence of remote changes, whatever they contain
    and however reading, decrypting or validating them fails, the settings in force are accepted
    ones. Each change is recorded among the remote contents; then either the local file and all
    the contents, layered, expanded and decrypted, make settings that the schema accepts, and those
    are in force and the listeners get exactly the difference from the old ones; or there are no
    such settings, and the loader keeps the ones it has and calls no listener. *)
Theorem config_always_valid (o : BootstrapOptions) (local : goerr + V)
    (fetched : goerr + list (string * string)) (listen_ok : bool) (l : Loader V) (cs : list change) :
  Bootstrap env validate o local fetched listen_ok = inr l →
  let l' := foldl (λ l c, (reload c l).2) l cs in
  valid l' ∧
  ∀ c, valid (reload c l').2 ∧
    ((∃ final, adopts c l' final ∧
        reload c l' = (fireDiff (hotReload l') (ch_listeners c)
                         (ch_order c (changed_keys (flatten (AllSettings (vp l'))) (flatten (AllSettings final)))),
                       with_state final (contents_with c l') l')) ∨
     ((∀ final, ¬ adopts c l' final) ∧ reload c l' = ([], with_state (vp l') (contents_with c l') l'))).
Proof.
  intros Hb. cbn zeta.
  assert (valid l) as Hl.
  { unfold Bootstrap in Hb. case_bool_decide; [done|]. destruct local as [|v]; [done|].
    destruct (normalize _ _ _ _) as [|final]; [done|].
    destruct (validate (AllSettings final)) eqn:Ev; [done|]. by injection Hb as <-. }
  assert (∀ c l1, valid l1 → valid (reload c l1).2) as Hstep.
  { intros c l1 Hv. destruct (reload_cases c l1) as [(final & (v & src & _ & _ & _ & Hf) & ->)|[_ ->]]; done. }
  assert (valid (foldl (λ l c, (reload c l).2) l cs)) as Hall.
  { clear Hb. revert l Hl. induction cs as [|c cs IH]; intros l Hl; [done|]. by apply IH, Hstep. }
  split; [exact Hall|]. intros c. split; [by apply Hstep|apply reload_cases].
Qed.
End loader.

(** ** Feature flags *)
(** A feature is on for a context exactly when it is enabled and the context's bucket, which
    is between 0 and 99, is below the rollout; in particular it stays on as the rollout grows, is
    on for all at 100 and for none at 0. *)
Lemma feature_rollout (f : FeatureFlag) (c : FeatureContext) :
  0 <= featureBucket c < 100 ∧
  Feature (Some (inr f)) c = FEnabled f && (featureBucket c <? Rollout f).
Proof.
  assert (0 <= featureBucket c < 100) as Hb by (unfold featureBucket; apply Z.mod_pos_bound; lia).
  split; [done|]. unfold Feature. destruct (FEnabled f); [|done]. cbn [negb andb].
  destruct (Z.leb_spec 100 (Rollout f)); [symmetry; apply Z.ltb_lt; lia|].
  destruct (Z.leb_spec (Rollout f) 0); [symmetry; apply Z.ltb_ge; lia|].
  unfold u32. by rewrite Z.mod_small by lia.
Qed.

(** ** A concrete Viper, and witnesses *)
#[global] Instance list_viper : Viper settings := {
  AllSettings v := v;
  SetAll m := m;
  MergeConfigMap m v := (None, filter (λ kv, kv.1 ∉ m.*1) v ++ m);
  ViperGet path v := snd <$> find (λ kv, bool_decide (kv.1 = path)) (flat_map (λ kv, leaves kv.1 kv.2) v);
  ViperSet k x v := filter (λ kv, kv.1 ≠ k) v ++ [(k, x)];
  shared_after f v := v;
  parse_yaml raw := inr [("remote", AStr raw)] }.
Definition no_env : string → string := λ _, "".
(** The schema: the setting "port" is present. *)
Definition needs_port (m : settings) : option goerr :=
  if existsb (λ kv, bool_decide (kv.1 = "port")) m then None else Some (ErrNew "missing properties: 'port'").
Definition boot_opts : BootstrapOptions := mkOptions "app.yaml" "" true "" [] [] 0.
Definition local1 : settings :=
  [("port", AOther "80"); ("db", AMap [("password", AStr "ENC(bm9uY2Utbm9uY2Utbm9uY2Utbm9uY2Utc2VjcmV0)")]);
   ("config", AMap [("encryptKey", AStr "MDEyMzQ1Njc4OWFiY2RlZg==")])].
Definition booted : goerr + Loader settings :=
  Bootstrap no_env needs_port boot_opts (inr local1) (inr [("app", "x")]) true.
Definition bad_change : change :=
  mkChange "app" "y" (inr [("host", AStr "h")]) map_to_list [] (λ ch _, map_to_list ch).
Definition good_change : change :=
  mkChange "app" "z" (inr local1) map_to_list [("remote", [1%nat])] (λ ch _, map_to_list ch).
Definition config_state : option (Loader settings) :=
  match booted with inr l => Some l | inl _ => None end.
Lemma config_always_valid_witness :
  ∃ l, booted = inr l ∧
    let l' := foldl (λ l c, (reload no_env needs_port c l).2) l [bad_change; good_change] in
    valid needs_port l' ∧
    ∀ c, valid needs_port (reload no_env needs_port c l').2 ∧
      ((∃ final, adopts no_env needs_port c l' final ∧
        reload no_env needs_port c l' =
          (fireDiff (hotReload l') (ch_listeners c)
             (ch_order c (changed_keys (flatten (AllSettings (vp l'))) (flatten (AllSettings final)))),
           with_state final (contents_with c l') l')) ∨
       ((∀ final, ¬ adopts no_env needs_port c l' final) ∧
        reload no_env needs_port c l' = ([], with_state (vp l') (contents_with c l') l'))).
Proof.
  assert (match booted with inr _ => true | inl _ => false end = true) as Hb by (vm_compute; reflexivity).
  destruct booted as [e|l] eqn:E; [done|]. exists l. split; [reflexivity|].
  exact (config_always_valid no_env needs_port boot_opts (inr local1) (inr [("app", "x")]) true l
           [bad_change; good_change] E).
Defined.
(** What the reload of [good_change] reports, and the decrypted password in force. *)
Example reload_fires :
  match booted with
  | inr l => (reload no_env needs_port good_change l).1
  | inl _ => []
  end = [(1%nat, (AStr "x", AStr "z"))].
Proof. vm_compute. reflexivity. Qed.
Example password_in_force :
  match booted with inr l => ViperGet "db.password" (vp l) | inl _ => None end = Some (AStr "secret").
Proof. vm_compute. reflexivity. Qed.

Definition old_settings : settings := [("a", AMap [("b", AOther "1"); ("c", AStr "x")])].
Definition new_settings : settings := [("a", AMap [("b", AOther "2"); ("c", AStr "x")]); ("d", AOther "3")].
Definition change_order (p : string) : list (string * (any * any)) :=
  map_to_list (changed_keys (flatten old_settings) (flatten new_settings)).
Lemma fire_diff_exact_witness :
  fireDiff (Some {["a"]}) [("a", [1%nat; 2%nat]); ("a.c", [3%nat]); ("", [4%nat]); ("d", [5%nat])] change_order
  = [(1%nat, (AOther "1", AOther "2")); (2%nat, (AOther "1", AOther "2")); (4%nat, (AOther "1", AOther "2"))] ∧
  ∃ outs, fireDiff (Some {["a"]}) [("a.c", [3%nat])] change_order = concat outs.
Proof.
  split; [vm_compute; reflexivity|].
  destruct (fire_diff_exact (Some {["a"]}) [("a.c", [3%nat])] old_settings new_settings change_order
              (λ p, reflexivity _)) as (_ & outs & Ho & _). by exists outs.
Defined.
