(* ===== verification/ConfigShare.v ===== *)
(** What readers of a configuration share with the loader (pkg/config/loader.go): the deep copy
    that [AllSettings] returns, over a store of maps and slices that the caller goes on writing
    to, and the readers that panic or bind. *)
From Stdlib Require Import Ascii.
From stdpp Require Import prelude gmap fin_maps list strings relations.
From S2P Require Import Prelude GoStrings.

(** ** Maps and slices by reference *)
Abbreviation loc := positive.
(** [HShared] is a reference of another type than map[string]any and []any, a []string say. *)
Inductive hval := HLeaf (s : string) | HMap (l : loc) | HList (l : loc) | HShared (l : loc).
Inductive obj := OMap (m : gmap string hval) | OList (s : list hval).
Abbreviation heap := (gmap loc obj).
#[global] Instance hval_eq_dec : EqDecision hval.
Proof. solve_decision. Defined.
#[global] Instance obj_eq_dec : EqDecision obj.
Proof. solve_decision. Defined.

(** ** [deepClone] and [cloneValue] *)
(** Each element in turn. *)
Fixpoint clone_all (clone : hval → heap → option (hval * heap)) (vs : list hval) (h : heap) : option (list hval * heap) :=
  match vs with
  | [] => Some ([], h)
  | v :: vs => '(v', h) ← clone v h; '(vs', h) ← clone_all clone vs h; Some (v' :: vs', h)
  end.
(** The new map or slice is made before its elements in the code; nobody sees it until it is
    returned. [n] bounds the depth. *)
Fixpoint cloneValue (n : nat) (v : hval) (h : heap) : option (hval * heap) :=
  match n with
  | O => None
  | S n =>
      match v with
      | HMap l =>
          match h !! l with
          | Some (OMap m) =>
              '(vs, h) ← clone_all (cloneValue n) (map_to_list m).*2 h;
              let out := fresh (dom h) in
              Some (HMap out, <[out := OMap (list_to_map (zip (map_to_list m).*1 vs))]> h)
          | _ => None
          end
      | HList l =>
          match h !! l with
          | Some (OList s) =>
              '(vs, h) ← clone_all (cloneValue n) s h;
              let out := fresh (dom h) in Some (HList out, <[out := OList vs]> h)
          | _ => None
          end
      | HLeaf _ | HShared _ => Some (v, h)
      end
  end.
(** [AllSettings] on the root of Viper's settings. *)
Definition Loader_AllSettings (n : nat) (root : loc) (h : heap) : option (hval * heap) := cloneValue n (HMap root) h.

(** ** Trees in a store *)
(** Leaves, maps and slices of depth below [n]. *)
Fixpoint plain (n : nat) (h : heap) (v : hval) : Prop :=
  match n with
  | O => False
  | S n =>
      match v with
      | HLeaf _ => True
      | HMap l => ∃ m, h !! l = Some (OMap m) ∧ ∀ k v, m !! k = Some v → plain n h v
      | HList l => ∃ s, h !! l = Some (OList s) ∧ Forall (plain n h) s
      | HShared _ => False
      end
  end.
(** Two values that read the same, each in its store. *)
Inductive same (h1 h2 : heap) : hval → hval → Prop :=
  | same_leaf s : same h1 h2 (HLeaf s) (HLeaf s)
  | same_map l1 l2 m1 m2 :
      h1 !! l1 = Some (OMap m1) → h2 !! l2 = Some (OMap m2) → dom m1 = dom m2 →
      (∀ k v1 v2, m1 !! k = Some v1 → m2 !! k = Some v2 → same h1 h2 v1 v2) → same h1 h2 (HMap l1) (HMap l2)
  | same_list l1 l2 s1 s2 :
      h1 !! l1 = Some (OList s1) → h2 !! l2 = Some (OList s2) → length s1 = length s2 →
      (∀ i v1 v2, s1 !! i = Some v1 → s2 !! i = Some v2 → same h1 h2 v1 v2) → same h1 h2 (HList l1) (HList l2).
(** A value and an object that lead to nothing of the store [h0]. *)
Definition apart (h0 : heap) (v : hval) : Prop :=
  match v with HLeaf _ => True | HMap l | HList l | HShared l => h0 !! l = None end.
Definition obj_apart (h0 : heap) (o : obj) : Prop :=
  match o with OMap m => ∀ k v, m !! k = Some v → apart h0 v | OList s => Forall (apart h0) s end.
(** A store that keeps [h0] as it is, and whose other objects lead to nothing of it. *)
Definition keeps (h0 h : heap) : Prop :=
  h0 ⊆ h ∧ ∀ l o, h !! l = Some o → h0 !! l = None → obj_apart h0 o.

(** ** What a caller does with what it holds *)
Inductive caller : heap * list hval → heap * list hval → Prop :=
  | c_leaf s h ks : caller (h, ks) (h, HLeaf s :: ks)
  | c_get l m k v h ks : HMap l ∈ ks → h !! l = Some (OMap m) → m !! k = Some v → caller (h, ks) (h, v :: ks)
  | c_index l s i v h ks : HList l ∈ ks → h !! l = Some (OList s) → s !! i = Some v → caller (h, ks) (h, v :: ks)
  | c_put l m k v h ks : HMap l ∈ ks → v ∈ ks → h !! l = Some (OMap m) →
      caller (h, ks) (<[l := OMap (<[k := v]> m)]> h, ks)
  | c_delete l m k h ks : HMap l ∈ ks → h !! l = Some (OMap m) → caller (h, ks) (<[l := OMap (delete k m)]> h, ks)
  | c_assign l s i v h ks : HList l ∈ ks → v ∈ ks → h !! l = Some (OList s) →
      caller (h, ks) (<[l := OList (<[i := v]> s)]> h, ks)
  | c_make_map l h ks : h !! l = None → caller (h, ks) (<[l := OMap ∅]> h, HMap l :: ks)
  | c_make_list l s h ks : h !! l = None → (∀ v, v ∈ s → v ∈ ks) → caller (h, ks) (<[l := OList s]> h, HList l :: ks).

(** ** The copy *)
Lemma same_mono h1 h2 h2' v1 v2 : h2 ⊆ h2' → same h1 h2 v1 v2 → same h1 h2' v1 v2.
Proof.
  intros Hs. induction 1; econstructor; eauto using lookup_weaken.
Qed.
Lemma keeps_alloc h0 h l o : keeps h0 h → h !! l = None → obj_apart h0 o → keeps h0 (<[l := o]> h).
Proof.
  intros [Hs Ho] Hl Hobj. split; [apply insert_subseteq_r; [by eapply lookup_weaken_None|done]|].
  intros l' o' Hl' H0. destruct (decide (l' = l)) as [->|Hne].
  - rewrite lookup_insert_eq in Hl'. by injection Hl' as <-.
  - rewrite lookup_insert_ne in Hl' by done. by eapply Ho.
Qed.
Lemma fresh_none (h : heap) : h !! fresh (dom h) = None.
Proof. apply not_elem_of_dom, is_fresh. Qed.
(** What a copy of [v] out of [h0] gives. *)
Definition copies (h0 : heap) (clone : hval → heap → option (hval * heap)) (v : hval) : Prop :=
  ∀ h, keeps h0 h → ∃ v' h', clone v h = Some (v', h') ∧ h ⊆ h' ∧ keeps h0 h' ∧ apart h0 v' ∧ same h0 h' v v'.
Lemma clone_all_spec h0 clone vs h :
  Forall (copies h0 clone) vs → keeps h0 h →
  ∃ vs' h', clone_all clone vs h = Some (vs', h') ∧ h ⊆ h' ∧ keeps h0 h' ∧ Forall (apart h0) vs' ∧ Forall2 (same h0 h') vs vs'.
Proof.
  intros Hvs. revert h. induction Hvs as [|v vs Hv _ IH]; intros h Hk; [by exists [], h|].
  destruct (Hv h Hk) as (v' & h1 & Hc & Hs & Hk1 & Ha & Hsame). destruct (IH h1 Hk1) as (vs' & h2 & Hc2 & Hs2 & Hk2 & Ha2 & Hsame2).
  exists (v' :: vs'), h2. cbn [clone_all]. rewrite Hc. cbn [mbind option_bind]. rewrite Hc2. cbn [mbind option_bind].
  split_and!; [done|by etrans|done|by constructor|]. constructor; [by eapply same_mono|done].
Qed.
Lemma alloc_spec h0 h (o : obj) (out := fresh (dom h)) :
  keeps h0 h → obj_apart h0 o → h ⊆ <[out := o]> h ∧ keeps h0 (<[out := o]> h) ∧ h0 !! out = None.
Proof.
  intros Hk Ho. pose proof (fresh_none h) as Hf. split_and!; [by apply insert_subseteq|by apply keeps_alloc|].
  eapply lookup_weaken_None; [exact Hf|apply Hk].
Qed.
(** The copied map has the keys of the map, each with the copy of its value. *)
Lemma zip_lookup (m : gmap string hval) vs (R : hval → hval → Prop) :
  Forall2 R (map_to_list m).*2 vs →
  dom (list_to_map (M := gmap string hval) (zip (map_to_list m).*1 vs)) = dom m ∧
  ∀ k v', list_to_map (M := gmap string hval) (zip (map_to_list m).*1 vs) !! k = Some v' →
    v' ∈ vs ∧ ∃ v, m !! k = Some v ∧ R v v'.
Proof.
  intros Hf. assert (length (map_to_list m).*1 = length vs) as Hlen.
  { apply Forall2_length in Hf. rewrite !length_fmap in *. done. }
  assert (NoDup (zip (map_to_list m).*1 vs).*1) as Hnd.
  { rewrite fst_zip by lia. apply NoDup_fst_map_to_list. }
  split.
  - rewrite dom_list_to_map_L, fst_zip by lia. rewrite <-dom_list_to_map_L. by rewrite list_to_map_to_list.
  - intros k v' Hk. apply elem_of_list_to_map in Hk; [|done]. apply list_elem_of_lookup in Hk as [i Hi].
    apply lookup_zip_Some in Hi as [Hik Hiv]. split; [by eapply list_elem_of_lookup_2|].
    destruct (Forall2_lookup_r _ _ _ _ _ Hf Hiv) as (v & Hv & HR). exists v. split; [|done].
    rewrite list_lookup_fmap in Hik. rewrite list_lookup_fmap in Hv. destruct (map_to_list m !! i) as [[k0 v0]|] eqn:E; [|done].
    injection Hik as ->. injection Hv as ->. apply elem_of_map_to_list. by eapply list_elem_of_lookup_2.
Qed.
Lemma clone_spec n h0 v : plain n h0 v → copies h0 (cloneValue n) v.
Proof.
  revert v. induction n as [|n IH]; intros v Hp h Hk; [done|]. cbn [plain cloneValue] in *.
  destruct v as [s|l|l|l]; [| | |done].
  - exists (HLeaf s), h. split_and!; try done. constructor.
  - destruct Hp as (m & Hl & Hm). rewrite (lookup_weaken h0 h l (OMap m)) by (done || apply Hk).
    destruct (clone_all_spec h0 (cloneValue n) (map_to_list m).*2 h) as (vs & h1 & Hc & Hs & Hk1 & Ha & Hsame); [|done|].
    { apply Forall_forall. intros v ([k v2] & -> & Hv)%list_elem_of_fmap. apply IH. eapply Hm. by apply elem_of_map_to_list. }
    rewrite Hc. cbn [mbind option_bind]. destruct (zip_lookup m vs _ Hsame) as [Hdom Hz].
    set (o := OMap _). destruct (alloc_spec h0 h1 o) as (Hs2 & Hk2 & Hout); [done| |].
    { intros k v Hv. destruct (Hz _ _ Hv) as [Hin _]. rewrite Forall_forall in Ha. by apply Ha. }
    eexists _, _. split_and!; [done|by etrans|done|done|].
    eapply same_map; [done|by apply lookup_insert_eq|done|]. intros k v1 v2 Hv1 Hv2.
    destruct (Hz _ _ Hv2) as (_ & v & Hv & Hsv). rewrite Hv1 in Hv. injection Hv as <-. by eapply same_mono.
  - destruct Hp as (s & Hl & Hm). rewrite (lookup_weaken h0 h l (OList s)) by (done || apply Hk).
    destruct (clone_all_spec h0 (cloneValue n) s h) as (vs & h1 & Hc & Hs & Hk1 & Ha & Hsame); [|done|].
    { eapply Forall_impl; [exact Hm|]. exact IH. }
    rewrite Hc. cbn [mbind option_bind]. destruct (alloc_spec h0 h1 (OList vs)) as (Hs2 & Hk2 & Hout); [done|done|].
    eexists _, _. split_and!; [done|by etrans|done|done|].
    eapply same_list; [done|by apply lookup_insert_eq|by apply Forall2_length in Hsame|]. intros i v1 v2 Hv1 Hv2.
    eapply same_mono; [exact Hs2|]. by eapply Forall2_lookup_lr.
Qed.

(** ** The caller *)
Lemma keeps_write h0 h l o : keeps h0 h → h0 !! l = None → obj_apart h0 o → keeps h0 (<[l := o]> h).
Proof.
  intros [Hs Ho] Hl Hobj. split; [by apply insert_subseteq_r|]. intros l' o' Hl' H0.
  destruct (decide (l' = l)) as [->|Hne].
  - rewrite lookup_insert_eq in Hl'. by injection Hl' as <-.
  - rewrite lookup_insert_ne in Hl' by done. by eapply Ho.
Qed.
Lemma caller_keeps h0 s s' :
  caller s s' → keeps h0 s.1 ∧ Forall (apart h0) s.2 → keeps h0 s'.1 ∧ Forall (apart h0) s'.2.
Proof.
  intros Hstep [Hk Hks]. pose proof Hk as [Hs Ho].
  assert (∀ v, v ∈ s.2 → apart h0 v) as Hin by by apply Forall_forall. clear Hks.
  assert (Forall (apart h0) s.2) as Hks by by apply Forall_forall.
  destruct Hstep as [t h ks|l m k v h ks Hl Hm Hv|l t i v h ks Hl Ht Hv|l m k v h ks Hl Hv Hm|l m k h ks Hl Hm
    |l t i v h ks Hl Hv Ht|l h ks Hl|l t h ks Hl Ht]; cbn [fst snd] in *.
  - split; [done|by constructor].
  - split; [done|constructor; [|done]]. by eapply (Ho l (OMap m) Hm (Hin _ Hl)).
  - split; [done|constructor; [|done]]. eapply Forall_lookup_1; [exact (Ho l (OList t) Ht (Hin _ Hl))|done].
  - split; [|done]. apply keeps_write; [done|exact (Hin _ Hl)|]. intros k' v' Hv'.
    apply lookup_insert_Some in Hv' as [[_ <-]|[_ Hv']]; [by apply Hin|]. by eapply (Ho l (OMap m) Hm (Hin _ Hl)).
  - split; [|done]. apply keeps_write; [done|exact (Hin _ Hl)|]. intros k' v' [_ Hv']%lookup_delete_Some.
    by eapply (Ho l (OMap m) Hm (Hin _ Hl)).
  - split; [|done]. apply keeps_write; [done|exact (Hin _ Hl)|].
    apply Forall_insert; [exact (Ho l (OList t) Ht (Hin _ Hl))|by apply Hin].
  - assert (h0 !! l = None) as H0 by by eapply lookup_weaken_None. split; [|by constructor].
    apply keeps_write; [done|done|]. intros k v Hv. by rewrite lookup_empty in Hv.
  - assert (h0 !! l = None) as H0 by by eapply lookup_weaken_None. split; [|by constructor].
    apply keeps_write; [done|done|]. apply Forall_forall. intros v Hv. by apply Hin, Ht.
Qed.

(** C19: Deep copy. On settings of maps, slices and scalars [AllSettings] returns a value that
    reads as the settings do, and whatever the caller then does with it and with what it can
    reach from it, however long, every object of the loader stays as it was. *)
Theorem settings_isolated (n : nat) (root : loc) (h0 : heap) :
  plain n h0 (HMap root) →
  ∃ v h, Loader_AllSettings n root h0 = Some (v, h) ∧ same h0 h (HMap root) v ∧
    ∀ s, rtc caller (h, [v]) s → h0 ⊆ s.1.
Proof.
  intros Hp. destruct (clone_spec n h0 (HMap root) Hp h0) as (v & h & Hc & _ & Hk & Ha & Hsame).
  { split; [done|]. intros l o Hl Hn. congruence. }
  exists v, h. split_and!; [done|done|]. intros s Hrun.
  assert (keeps h0 s.1 ∧ Forall (apart h0) s.2) as [[? _] _]; [|done].
  assert (keeps h0 (h, [v]).1 ∧ Forall (apart h0) (h, [v]).2) as Hi by (split; [done|by constructor]).
  revert Hi. induction Hrun as [|s1 s2 s3 Hstep _ IH]; [done|]. intros Hi. apply IH. by eapply caller_keeps.
Qed.
Definition some_heap : heap :=
  {[1%positive := OMap {["redis" := HMap 2]}; 2%positive := OMap {["hosts" := HList 3; "port" := HLeaf "6379"]};
    3%positive := OList [HLeaf "a"; HLeaf "b"]]}.
Lemma settings_isolated_witness :
  ∃ v h, Loader_AllSettings 4 1 some_heap = Some (v, h) ∧ same some_heap h (HMap 1) v ∧
    ∀ s, rtc caller (h, [v]) s → some_heap ⊆ s.1.
Proof.
  apply (settings_isolated 4 1 some_heap). eexists. split; [reflexivity|]. intros k v Hv.
  apply lookup_singleton_Some in Hv as [_ <-]. eexists. split; [reflexivity|]. intros k' v' Hv'.
  apply lookup_insert_Some in Hv' as [[_ <-]|[_ [_ <-]%lookup_singleton_Some]]; [|done].
  eexists. split; [reflexivity|]. by repeat constructor.
Defined.
(** A slice of another type is not copied, nor anything that [Get] returns: here the caller
    writes into the settings in force. *)
Definition shared_heap : heap := {[1%positive := OMap {["hosts" := HShared 2]}; 2%positive := OList [HLeaf "a"]]}.
Example typed_slice_shared :
  (λ '(v, h), match v with HMap l => match h !! l with Some (OMap m) => m !! "hosts" | _ => None end | _ => None end)
    <$> Loader_AllSettings 4 1 shared_heap = Some (Some (HShared 2)).
Proof. vm_compute. reflexivity. Qed.

(** ** The other readers *)
Section readers.
Context {V T : Type}.
(** Viper's [GetString], [Unmarshal] and [UnmarshalKey]; the printing of a quoted string. *)
Context (GetString : string → V → string) (Unmarshal : V → T → option goerr * T)
  (UnmarshalKey : string → V → T → option goerr * T) (quoted : string → string).
Definition MustHas (key : string) (vp : V) : gores unit :=
  if bool_decide (GetString key vp = "") then Panic ("config: missing required key " +++ quoted key) else Ret tt.
(** No target is a nil one. *)
Definition Bind (prefix : string) (target : option T) (vp : V) : option goerr * option T :=
  match target with
  | None => (Some (ErrNew "config: Bind target is nil"), None)
  | Some t =>
      let '(e, t) := if bool_decide (prefix = "") then Unmarshal vp t else UnmarshalKey prefix vp t in (e, Some t)
  end.
End readers.
(** The line that [logf] prints without a logger, its arguments as %v shows them; with an odd
    number of them the last is left out. *)
Fixpoint logf_pairs (kv : list string) : string :=
  match kv with k :: v :: kv => " " +++ k +++ "=" +++ v +++ logf_pairs kv | _ => "" end.
Definition logf (level msg : string) (kv : list string) : string :=
  "[compkg/config][" +++ level +++ "] " +++ msg +++ logf_pairs kv.
Example logf_example : logf "warn" "feature bind fail" ["name"; "x"; "err"] = "[compkg/config][warn] feature bind fail name=x".
Proof. reflexivity. Qed.
