(* ===== verification/ConfigConcurrent.v ===== *)
(** Remote changes that overlap: [onRemoteChange] of pkg/config/loader.go as the steps that other
    callbacks can come between.  The content is recorded and copied under the mutex; the rebuild
    works on the copy; the settings in force are loaded, replaced and compared by separate steps. *)
From Stdlib Require Import Ascii.
From stdpp Require Import prelude gmap list strings.
From S2P Require Import Prelude GoStrings Digest Base64 Encrypt ConfigLoader ConfigProofs.

Section concurrent.
Context {V : Type} `{Viper V} `{Gcm}.
Context (env : string → string) (validate : settings → option goerr).
Context (path : string) (wl : gset string) (hot : option (gset string)).

(** Where a callback is: it has its copy; its settings are ready; it has loaded the old ones; it
    has stored the new ones; it is over. *)
Inductive phase := Copied (raws : gmap string string) | Built (final : V) | Loaded (old final : V) | Stored (old final : V) | Over.
(** [sy_snaps] and [sy_stores] are for the statements: what each callback copied, and which of
    them stored, in order. *)
Record system := mkSystem {
  sy_vp : V; sy_raw : gmap string string; sy_calls : list phase;
  sy_fired : list (nat * (any * any)); sy_snaps : list (gmap string string); sy_stores : list nat }.

(** Lines 263 to 289: the local file as read now and the iteration over the copy. *)
Definition rebuild (local : goerr + V) (order : gmap string string → list (string * string)) (raws : gmap string string) : option V :=
  match local with
  | inl _ => None
  | inr v =>
      match normalize env path wl (merge_all (order raws) v) with
      | inl _ => None
      | inr final => match validate (AllSettings final) with Some _ => None | None => Some final end
      end
  end.

Inductive cop :=
  | Push (dataId raw : string)
  | Rebuild (i : nat) (local : goerr + V) (order : gmap string string → list (string * string))
  | LoadOld (i : nat)
  | StoreNew (i : nat)
  | Fire (i : nat) (ls : list (string * list nat)) (order : gmap string (any * any) → string → list (string * (any * any))).
Definition set_call (i : nat) (p : phase) (s : system) : system :=
  mkSystem (sy_vp s) (sy_raw s) (<[i := p]> (sy_calls s)) (sy_fired s) (sy_snaps s) (sy_stores s).
(** A step that is not this callback's next one does nothing. *)
Definition cstep (o : cop) (s : system) : system :=
  match o with
  | Push d raw =>
      let raws := <[d := raw]> (sy_raw s) in
      mkSystem (sy_vp s) raws (sy_calls s ++ [Copied raws]) (sy_fired s) (sy_snaps s ++ [raws]) (sy_stores s)
  | Rebuild i local order =>
      match sy_calls s !! i with
      | Some (Copied raws) =>
          set_call i (match rebuild local order raws with Some final => Built final | None => Over end) s
      | _ => s
      end
  | LoadOld i =>
      match sy_calls s !! i with Some (Built final) => set_call i (Loaded (sy_vp s) final) s | _ => s end
  | StoreNew i =>
      match sy_calls s !! i with
      | Some (Loaded old final) =>
          mkSystem final (sy_raw s) (<[i := Stored old final]> (sy_calls s)) (sy_fired s) (sy_snaps s) (sy_stores s ++ [i])
      | _ => s
      end
  | Fire i ls order =>
      match sy_calls s !! i with
      | Some (Stored old final) =>
          mkSystem (sy_vp s) (sy_raw s) (<[i := Over]> (sy_calls s))
            (sy_fired s ++ fireDiff hot ls (order (changed_keys (flatten (AllSettings old)) (flatten (AllSettings final)))))
            (sy_snaps s) (sy_stores s)
      | _ => s
      end
  end.
Definition crun (os : list cop) (s : system) : system := foldl (λ s o, cstep o s) s os.
Definition cstart (vp : V) (raws : gmap string string) : system := mkSystem vp raws [] [] [] [].

(** ** One at a time *)
(** The steps of one callback, in order. *)
Definition whole (i : nat) (c : change) : list cop :=
  [Push (ch_dataId c) (ch_raw c); Rebuild i (ch_local c) (ch_raws c); LoadOld i; StoreNew i; Fire i (ch_listeners c) (ch_order c)].
Fixpoint serial (i : nat) (cs : list change) : list cop :=
  match cs with [] => [] | c :: cs => whole i c ++ serial (S i) cs end.
(** The system of a loader's settings. *)
Definition abstracts (l : Loader V) (s : system) : Prop :=
  sy_vp s = vp l ∧ sy_raw s = remoteRaw l ∧
  EncryptKeyPath (opts l) = path ∧ envWhitelist l = wl ∧ hotReload l = hot.
Lemma crun_app o1 o2 s : crun (o1 ++ o2) s = crun o2 (crun o1 s).
Proof. apply foldl_app. Qed.
Lemma insert_end {A} (l : list A) (x y : A) : <[length l := y]> (l ++ [x]) = l ++ [y].
Proof. by rewrite insert_app_r_alt, Nat.sub_diag by done. Qed.
Lemma lookup_end {A} (l : list A) (x : A) : (l ++ [x]) !! length l = Some x.
Proof. by rewrite lookup_app_r, Nat.sub_diag by done. Qed.
Lemma whole_run c s :
  let raws := <[ch_dataId c := ch_raw c]> (sy_raw s) in
  let i := length (sy_calls s) in
  crun (whole i c) s =
    match rebuild (ch_local c) (ch_raws c) raws with
    | None => mkSystem (sy_vp s) raws (sy_calls s ++ [Over]) (sy_fired s) (sy_snaps s ++ [raws]) (sy_stores s)
    | Some final =>
        mkSystem final raws (sy_calls s ++ [Over])
          (sy_fired s ++ fireDiff hot (ch_listeners c)
             (ch_order c (changed_keys (flatten (AllSettings (sy_vp s))) (flatten (AllSettings final)))))
          (sy_snaps s ++ [raws]) (sy_stores s ++ [i])
    end.
Proof.
  intros raws i. unfold crun, whole. cbn [foldl].
  assert (∀ p : phase, (sy_calls s ++ [p]) !! i = Some p) as Hl by (intros; apply lookup_end).
  assert (∀ x y : phase, <[i := y]> (sy_calls s ++ [x]) = sy_calls s ++ [y]) as Hi by (intros; apply insert_end).
  set (s1 := cstep (Push _ _) s).
  assert (cstep (Rebuild i (ch_local c) (ch_raws c)) s1 =
    mkSystem (sy_vp s) raws (sy_calls s ++ [match rebuild (ch_local c) (ch_raws c) raws with Some final => Built final | None => Over end])
      (sy_fired s) (sy_snaps s ++ [raws]) (sy_stores s)) as ->.
  { unfold s1. cbn [cstep sy_calls]. by rewrite Hl; unfold set_call; cbn [sy_calls]; rewrite Hi. }
  destruct (rebuild _ _ _) as [final|]; repeat first
    [ rewrite Hl | rewrite Hi | progress unfold set_call | progress cbn [cstep sy_vp sy_raw sy_calls sy_fired sy_snaps sy_stores] ];
    done.
Qed.
Lemma whole_reload c l s :
  abstracts l s →
  let '(out, l') := reload env validate c l in
  let s' := crun (whole (length (sy_calls s)) c) s in
  abstracts l' s' ∧ length (sy_calls s') = S (length (sy_calls s)) ∧ sy_fired s' = sy_fired s ++ out.
Proof.
  intros (Hv & Hr & Hp & Hw & Hh). rewrite whole_run. unfold reload, onRemoteChange, rebuild. rewrite Hr, Hp, Hw.
  assert (∀ p : phase, length (sy_calls s ++ [p]) = S (length (sy_calls s))) as Hlen by (intros p; rewrite length_app; cbn; lia).
  destruct (ch_local c) as [e|v]; [|destruct (normalize _ _ _ _) as [e|final]; [|destruct (validate _)]];
    try (split_and!; [by split_and!|apply Hlen|by rewrite app_nil_r]).
  rewrite Hv, Hh. split_and!; [by split_and!|apply Hlen|done].
Qed.
(** Callbacks that do not overlap: the loader's reloads, one after the other, and all that the
    listeners get. *)
Fixpoint reloads (cs : list change) (l : Loader V) : list (nat * (any * any)) * Loader V :=
  match cs with
  | [] => ([], l)
  | c :: cs => let '(out, l) := reload env validate c l in let '(outs, l) := reloads cs l in (out ++ outs, l)
  end.
Lemma serial_reloads cs l s :
  abstracts l s →
  let s' := crun (serial (length (sy_calls s)) cs) s in
  abstracts (reloads cs l).2 s' ∧ sy_fired s' = sy_fired s ++ (reloads cs l).1.
Proof.
  revert l s. induction cs as [|c cs IH]; intros l s Ha; [by rewrite app_nil_r|]. cbn [serial reloads]. rewrite crun_app.
  pose proof (whole_reload c l s Ha) as Hw. destruct (reload env validate c l) as [out l1]. destruct Hw as (Ha' & Hl & Hf).
  destruct (IH l1 _ Ha') as [H1 H2]. rewrite Hl in H1, H2. destruct (reloads cs l1) as [outs l2].
  split; [exact H1|]. rewrite H2, Hf. by rewrite <-app_assoc.
Qed.

(** ** Overlapping callbacks *)
(** The contents pushed by a history, in order, and what is recorded after the first [n]. *)
Definition pushes (os : list cop) : list (string * string) :=
  omap (λ o, match o with Push d raw => Some (d, raw) | _ => None end) os.
Definition recorded (raw0 : gmap string string) (os : list cop) (n : nat) : gmap string string :=
  foldl (λ m kr, <[kr.1 := kr.2]> m) raw0 (take n (pushes os)).
(** A map's iteration, in whatever order, meets each entry once. *)
Definition iterates (o : cop) : Prop :=
  match o with Rebuild _ _ order => ∀ m, order m ≡ₚ map_to_list m | _ => True end.
(** The settings [v] are those that callback [i] builds of the contents [raws]: its rebuild read a
    local file, the contents are layered over it, each once, in the order of its iteration, and
    the result expanded, decrypted and accepted. *)
Definition built_from (os : list cop) (i : nat) (raws : gmap string string) (v : V) : Prop :=
  ∃ local order, Rebuild i local order ∈ os ∧ order raws ≡ₚ map_to_list raws ∧
    adoptable env validate path wl local (order raws) v.

Section history.
Context (vp0 : V) (raw0 : gmap string string) (all : list cop).
Definition call_ok (i : nat) (raws : gmap string string) (p : phase) : Prop :=
  match p with
  | Copied r => r = raws
  | Built final | Loaded _ final | Stored _ final => built_from all i raws final
  | Over => True
  end.
(** [done] is the part of the history that has run. *)
Record consistent (done : list cop) (s : system) : Prop := {
  co_len : length (sy_calls s) = length (pushes done);
  co_snaps : sy_snaps s = map (λ n, recorded raw0 done (S n)) (seq 0 (length (pushes done)));
  co_raw : sy_raw s = recorded raw0 done (length (pushes done));
  co_calls : ∀ i raws p, sy_snaps s !! i = Some raws → sy_calls s !! i = Some p → call_ok i raws p;
  co_vp : match last (sy_stores s) with
          | None => sy_vp s = vp0
          | Some i => ∃ raws, sy_snaps s !! i = Some raws ∧ built_from all i raws (sy_vp s)
          end }.
Lemma start_consistent : consistent [] (cstart vp0 raw0).
Proof. by split. Qed.
Lemma pushes_app o1 o2 : pushes (o1 ++ o2) = pushes o1 ++ pushes o2.
Proof. apply omap_app. Qed.
(** A step that pushes nothing: only a call's phase, and perhaps the settings, change. *)
Lemma quiet_consistent done o s s' :
  pushes [o] = [] → sy_raw s' = sy_raw s → sy_snaps s' = sy_snaps s →
  length (sy_calls s') = length (sy_calls s) →
  (∀ i raws p, sy_snaps s !! i = Some raws → sy_calls s' !! i = Some p → call_ok i raws p) →
  match last (sy_stores s') with
  | None => sy_vp s' = vp0
  | Some i => ∃ raws, sy_snaps s !! i = Some raws ∧ built_from all i raws (sy_vp s')
  end →
  consistent done s → consistent (done ++ [o]) s'.
Proof.
  intros Hp Hr Hs Hl Hc Hv [C1 C2 C3 _ _].
  assert (pushes (done ++ [o]) = pushes done) as Ep by (by rewrite pushes_app, Hp, app_nil_r).
  assert (∀ n, recorded raw0 (done ++ [o]) n = recorded raw0 done n) as Er by (intros n; unfold recorded; by rewrite Ep).
  split; rewrite ?Ep, ?Er, ?Hs; [congruence| |congruence|exact Hc|exact Hv].
  rewrite C2. apply map_ext. intros n. by rewrite Er.
Qed.
(** A call's next phase. *)
Lemma calls_insert (s : system) i p p' :
  sy_calls s !! i = Some p →
  (∀ j raws q, sy_snaps s !! j = Some raws → sy_calls s !! j = Some q → call_ok j raws q) →
  (∀ raws, sy_snaps s !! i = Some raws → call_ok i raws p → call_ok i raws p') →
  ∀ j raws q, sy_snaps s !! j = Some raws → <[i := p']> (sy_calls s) !! j = Some q → call_ok j raws q.
Proof.
  intros Hi Hc Hp j raws q Hj Hq. destruct (decide (j = i)) as [->|Hne].
  - rewrite list_lookup_insert_eq in Hq by (by eapply lookup_lt_Some). injection Hq as <-. eauto.
  - rewrite list_lookup_insert_ne in Hq by done. eauto.
Qed.
Lemma push_consistent done d raw s : consistent done s → consistent (done ++ [Push d raw]) (cstep (Push d raw) s).
Proof.
  intros [C1 C2 C3 C4 C5]. cbn [cstep].
  assert (pushes (done ++ [Push d raw]) = pushes done ++ [(d, raw)]) as Ep by (apply pushes_app).
  set (raws := <[d := raw]> (sy_raw s)).
  assert (recorded raw0 (done ++ [Push d raw]) (S (length (pushes done))) = raws) as Hlast.
  { unfold recorded, raws. rewrite Ep, take_ge by (rewrite length_app; cbn; lia). rewrite foldl_snoc, C3. unfold recorded.
    by rewrite take_ge. }
  assert (sy_snaps s ++ [raws] = map (λ n, recorded raw0 (done ++ [Push d raw]) (S n)) (seq 0 (length (pushes (done ++ [Push d raw]))))) as Hsn.
  { rewrite Ep, length_app, seq_app, map_app, C2. cbn [length seq map Nat.add]. rewrite Hlast. f_equal.
    apply map_ext_in. intros n Hn%in_seq. unfold recorded. rewrite Ep, take_app_le by lia. done. }
  assert (length (sy_snaps s) = length (sy_calls s)) as Hlen by (rewrite C2, C1, length_map, length_seq; done).
  split; cbn [sy_calls sy_snaps sy_raw sy_vp sy_stores].
  - rewrite Ep, !length_app, C1. done.
  - exact Hsn.
  - rewrite Ep, length_app, Nat.add_comm. symmetry. exact Hlast.
  - intros i r p Hi Hc. destruct (decide (i = length (sy_calls s))) as [->|Hne].
    + rewrite lookup_end in Hc. rewrite <-Hlen, lookup_end in Hi. by simplify_eq.
    + apply lookup_lt_Some in Hc as Hlt. rewrite length_app in Hlt. cbn in Hlt.
      rewrite lookup_app_l in Hc by lia. rewrite lookup_app_l in Hi by lia. eauto.
  - destruct (last (sy_stores s)) as [j|]; [|done]. destruct C5 as (r & Hj & Hb). exists r. split; [|done].
    by apply lookup_app_l_Some.
Qed.
Lemma cstep_consistent done o s :
  o ∈ all → iterates o → consistent done s → consistent (done ++ [o]) (cstep o s).
Proof.
  intros Ho Hit Hco. pose proof Hco as [C1 C2 C3 C4 C5]. destruct o as [d raw|i local order|i|i|i ls order]; [by apply push_consistent|..];
    cbn [cstep]; destruct (sy_calls s !! i) as [p|] eqn:Hi;
    try (destruct p as [raws|final|old final|old final|]); try (by apply (quiet_consistent done _ s));
    (apply (quiet_consistent done _ s); [done|done|done|cbn; apply length_insert|..|done]); cbn [sy_calls sy_stores sy_vp set_call]; try done.
  - eapply calls_insert; [done|done|]. intros r _ ->. destruct (rebuild local order r) as [final|] eqn:Eb; [|done].
    exists local, order. split; [done|]. split; [apply Hit|]. apply adoptable_iff. unfold rebuild in Eb.
    destruct local as [|v]; [done|]. destruct (normalize _ _ _ _) as [|f] eqn:En; [done|].
    destruct (validate _) eqn:Ev; [done|]. injection Eb as <-. by exists v.
  - by eapply calls_insert.
  - by eapply calls_insert.
  - rewrite last_snoc. apply lookup_lt_Some in Hi as Hlt.
    destruct (lookup_lt_is_Some_2 (sy_snaps s) i) as [raws Hr]; [rewrite C2, length_map, length_seq; lia|].
    exists raws. split; [done|]. by apply (C4 i raws _ Hr Hi).
  - by eapply calls_insert.
Qed.
Lemma crun_consistent todo done s :
  (∀ o, o ∈ todo → o ∈ all) → Forall iterates todo → consistent done s → consistent (done ++ todo) (crun todo s).
Proof.
  revert done s. induction todo as [|o todo IH]; intros done s Hin Hit Hs; [by rewrite app_nil_r|].
  apply Forall_cons in Hit as [Ho Hit]. rewrite (cons_middle o done todo), app_assoc. apply IH; [|done|].
  - intros o' Ho'. apply Hin. by right.
  - apply cstep_consistent; [apply Hin; by left|done|done].
Qed.
End history.

(** C12: Overlapping remote changes. Whatever the interleaving of the callbacks, and however the
    local file reads meanwhile, the settings in force are accepted by the schema. They are the ones
    of the start, when no callback has stored yet; otherwise they are those that the last callback
    to store builds, over the local file that it read, of all the contents recorded when it was
    called: so if that callback was also the last to be called, they reflect all the content
    pushed. Callbacks that do not overlap are the loader's reloads, one after the other, with the
    same settings and the same calls of the listeners. *)
Theorem concurrent_settings (l : Loader V) (os : list cop) (cs : list change) :
  EncryptKeyPath (opts l) = path → envWhitelist l = wl → hotReload l = hot → valid validate l →
  Forall iterates os →
  let s := crun os (cstart (vp l) (remoteRaw l)) in
  validate (AllSettings (sy_vp s)) = None ∧
  sy_raw s = recorded (remoteRaw l) os (length (pushes os)) ∧
  match last (sy_stores s) with
  | None => sy_vp s = vp l
  | Some i => (i < length (pushes os))%nat ∧ built_from os i (recorded (remoteRaw l) os (S i)) (sy_vp s)
  end ∧
  (∀ i, last (sy_stores s) = Some i → S i = length (sy_calls s) → built_from os i (sy_raw s) (sy_vp s)) ∧
  let t := crun (serial 0 cs) (cstart (vp l) (remoteRaw l)) in
  sy_vp t = vp (reloads cs l).2 ∧ sy_fired t = (reloads cs l).1.
Proof.
  intros Hp Hw Hh Hval Hit s.
  pose proof (crun_consistent (vp l) (remoteRaw l) os os [] _ (λ o Ho, Ho) Hit (start_consistent _ _ _)) as [C1 C2 C3 _ C5].
  fold s in C1, C2, C3, C5. cbn [app] in *.
  assert (∀ i, last (sy_stores s) = Some i →
    (i < length (pushes os))%nat ∧ built_from os i (recorded (remoteRaw l) os (S i)) (sy_vp s)) as Hlast.
  { intros i Hi. rewrite Hi in C5. destruct C5 as (raws & Hr & Hb). rewrite C2, list_lookup_fmap in Hr.
    apply fmap_Some in Hr as (n & [-> Hn]%lookup_seq & ->). by split. }
  split_and!.
  - destruct (last (sy_stores s)) as [i|]; [|by rewrite C5]. by destruct (Hlast i eq_refl) as (_ & ? & ? & _ & _ & ? & ? & _ & _ & _ & ?).
  - done.
  - destruct (last (sy_stores s)) as [i|]; [by apply Hlast|done].
  - intros i Hi Hl. rewrite C3, <-C1, <-Hl. by apply Hlast.
  - apply serial_reloads. by split_and!.
  - apply (serial_reloads cs l (cstart (vp l) (remoteRaw l))). by split_and!.
Qed.
End concurrent.

(** ** Two contents that arrive together *)
(** A lost update. Two contents that arrive together: the callback of the first is slower and stores last, so
    that the second is recorded but not in force. *)
Definition by_id (raw : string) : goerr + settings := inr [("feature." +++ raw, AStr "on")].
#[local] Instance id_viper : Viper settings := {
  AllSettings v := v;
  SetAll m := m;
  MergeConfigMap m v := (None, filter (λ kv, kv.1 ∉ m.*1) v ++ m);
  ViperGet k v := snd <$> find (λ kv, bool_decide (kv.1 = k)) v;
  ViperSet k x v := filter (λ kv, kv.1 ≠ k) v ++ [(k, x)];
  shared_after f v := v;
  parse_yaml := by_id }.
Definition base : settings := [("port", AOther "80")].
Definition base_loader : Loader settings := mkLoader boot_opts base true ∅ ∅ None ∅.
Definition overlap : list (cop (V:=settings)) :=
  [Push "a" "x"; Push "b" "y"; Rebuild 0 (inr base) map_to_list; Rebuild 1 (inr base) map_to_list;
   LoadOld 1; StoreNew 1; LoadOld 0; StoreNew 0; Fire 0 [] (λ ch _, map_to_list ch); Fire 1 [] (λ ch _, map_to_list ch)].
Definition after_overlap : system (V:=settings) := crun no_env needs_port "" ∅ None overlap (cstart base ∅).
Lemma update_lost :
  sy_raw after_overlap = {["a" := "x"; "b" := "y"]} ∧ Forall (λ p, match p with Over => True | _ => False end) (sy_calls after_overlap) ∧
  map fst (sy_vp after_overlap) = ["port"; "feature.x"].
Proof. split_and!; [vm_compute; reflexivity|vm_compute; repeat constructor|vm_compute; reflexivity]. Qed.
Definition push_of (d raw : string) : change (V:=settings) :=
  mkChange d raw (inr base) map_to_list [] (λ ch _, map_to_list ch).
Lemma concurrent_settings_witness :
  let start := cstart (vp base_loader) (remoteRaw base_loader) in
  let s := crun no_env needs_port "" ∅ None overlap start in
  let cs := [push_of "a" "x"; push_of "b" "y"] in
  last (sy_stores s) = Some 0%nat ∧
  ((0 < length (pushes overlap))%nat ∧
   built_from no_env needs_port "" ∅ overlap 0 (recorded (remoteRaw base_loader) overlap 1) (sy_vp s)) ∧
  sy_vp (crun no_env needs_port "" ∅ None (serial 0 cs) start) = vp (reloads no_env needs_port cs base_loader).2.
Proof.
  intros start s cs.
  assert (last (sy_stores s) = Some 0%nat) as El by (vm_compute; reflexivity).
  destruct (concurrent_settings no_env needs_port "" ∅ None base_loader overlap cs)
    as (_ & _ & H1 & _ & H2 & _); [vm_compute; reflexivity..| |].
  { repeat (apply Forall_cons_2; [first [exact I|intros m; reflexivity]|]). apply Forall_nil_2. }
  fold start s in H1. rewrite El in H1. split; [exact El|]. split; [exact H1|exact H2].
Defined.
