(* ===== verification/RedisLock.v ===== *)
(** The distributed lock (pkg/redis_lock) and the timer's uniquer (pkg/timer/uniquer) over a
    Redis server with expiring keys, and mutual exclusion over any history of clients. *)
From Stdlib Require Import Ascii.
From stdpp Require Import prelude gmap strings list sorting.
From S2P Require Import Prelude GoStrings.

(** ** Redis keys with an expiry *)
(** [GET k] at a time; [SET k v PX ms] and [DEL k] as the server executes them at a time, in
    milliseconds of its clock.  A key is gone once its time is over. *)
Class RedisKeys (R : Type) := {
  GET : string → Z → R → option string;
  SET_PX : string → string → Z → Z → R → R;
  DEL : string → R → R }.
Class RedisKeysLaws (R : Type) `{RedisKeys R} := {
  SET_PX_get k v ms now t r : now <= t →
    GET k t (SET_PX k v ms now r) = if t <? now + ms then Some v else None;
  DEL_get k t r : GET k t (DEL k r) = None }.

(** ** redis_lock.go *)
Definition randomLen : Z := 16.
Definition tolerance : Z := 500.
Definition millisPerSecond : Z := 1000.
Record Options := mkOptions { LockSeconds : Z; WaitTimeout : Z; WaitRetry : Z }.
Record RedisLock := mkRedisLock { key : string; id : string; opts : Options }.
(** [id] is [Randn(randomLen)]. *)
Definition NewRedisLock (k : string) (opt : option Options) (randn : string) : RedisLock :=
  let o := match opt with Some o => o | None => mkOptions 3 0 (100 * Millisecond) end in
  mkRedisLock k randn
    (mkOptions (if LockSeconds o =? 0 then 10 else LockSeconds o) (WaitTimeout o)
       (if WaitRetry o =? 0 then 100 * Millisecond else WaitRetry o)).
Definition lock_ms (rl : RedisLock) : Z := i64 (i64 (LockSeconds (opts rl) * millisPerSecond) + tolerance).

Section lock.
Context {R : Type} `{RedisKeys R}.
(** The script of [Lock]: refresh one's own lock, or set it if there is none ([SET NX]). *)
Definition lockCommand (k v : string) (ms now : Z) (r : R) : bool * R :=
  if bool_decide (GET k now r = Some v) then (true, SET_PX k v ms now r)
  else match GET k now r with
       | None => (true, SET_PX k v ms now r)
       | Some _ => (false, r)
       end.
Definition delCommand (k v : string) (now : Z) (r : R) : bool * R :=
  if bool_decide (GET k now r = Some v) then (true, DEL k r) else (false, r).

(** How a call ends: with its reply, or with an error although the script may have run. *)
Inductive reply := Replied | Lost (executed : bool) (e : goerr).
Definition Lock (rl : RedisLock) (now : Z) (a : reply) (r : R) : (bool * option goerr) * R :=
  match a with
  | Replied => let '(ok, r) := lockCommand (key rl) (id rl) (lock_ms rl) now r in ((ok, None), r)
  | Lost ex e => ((false, Some e), if ex then (lockCommand (key rl) (id rl) (lock_ms rl) now r).2 else r)
  end.
Definition UnLock (rl : RedisLock) (now : Z) (a : reply) (r : R) : (bool * option goerr) * R :=
  match a with
  | Replied => let '(ok, r) := delCommand (key rl) (id rl) now r in ((ok, None), r)
  | Lost ex e => ((false, Some e), if ex then (delCommand (key rl) (id rl) now r).2 else r)
  end.
(** [TryLock]'s loop, given what each [Lock] answered and the clock after it; [stop] is the
    deadline.  [None]: the next answer is awaited. *)
Fixpoint try_loop (o : Options) (stop : Z) (tries : list ((bool * option goerr) * Z)) : option (option goerr) :=
  match tries with
  | [] => None
  | ((ok, err), now) :: tries =>
      if (match err with None => true | Some _ => false end) && ok then Some None
      else if WaitTimeout o =? 0 then Some (Some (ErrNew "get lock failed"))
      else if stop <? now + WaitRetry o then Some (Some (ErrNew "get lock failed"))
      else try_loop o stop tries
  end.
Definition TryLock (o : Options) (start : Z) (tries : list ((bool * option goerr) * Z)) : option (option goerr) :=
  try_loop o (if 0 <? WaitTimeout o then start + WaitTimeout o else 0) tries.

(** ** uniquer/go_redis.go *)
Definition expireSecond : Z := 15 * millisPerSecond.
(** The result of [SetNX] is not looked at, only its error. *)
Definition SetLimit (k v : string) (now : Z) (a : reply) (r : R) : option goerr * R :=
  let r' := match GET k now r with None => SET_PX k v expireSecond now r | Some _ => r end in
  match a with
  | Replied => (None, r')
  | Lost ex e => (Some e, if ex then r' else r)
  end.
(** [WATCH], [GET], [MULTI]: the transaction runs if no one wrote the key in between. *)
Definition own_value (k v : string) (now : Z) (r : R) : bool :=
  bool_decide (default "" (GET k now r) = v).
Definition DeleteLimit (k v : string) (now : Z) (interfered : bool) (r : R) : option goerr * R :=
  if negb (own_value k v now r) then (Some (ErrNew "值不一致"), r)
  else if interfered then (Some (ErrNew "redis: transaction failed"), r)
  else (None, DEL k r).
Definition RefreshLimit (k v : string) (now : Z) (interfered : bool) (r : R) : option goerr * R :=
  if negb (own_value k v now r) then (Some (ErrNew "值不一致"), r)
  else if interfered then (Some (ErrNew "redis: transaction failed"), r)
  else (None, match GET k now r with Some v' => SET_PX k v' expireSecond now r | None => r end).
End lock.

(** A release by the holder frees the lock for anyone. *)
Lemma unlock_frees {R} `{RedisKeysLaws R} k v now r :
  GET k now r = Some v →
  (delCommand k v now r).1 = true ∧
  ∀ w ms t, (lockCommand k w ms t (delCommand k v now r).2).1 = true.
Proof.
  intros Hg. unfold delCommand. rewrite bool_decide_eq_true_2 by done. split; [done|].
  intros w ms t. unfold lockCommand. cbn [snd]. rewrite DEL_get. by case_bool_decide.
Qed.

(** ** Mutual exclusion *)
(** The clients of one key, numbered; each call is executed by the server at a time. *)
Inductive call :=
  | CLock (c : nat) (now : Z) (a : reply)
  | CUnlock (c : nat) (now : Z) (a : reply).
Definition call_time (x : call) : Z := match x with CLock _ t _ | CUnlock _ t _ => t end.
Section clients.
Context {R : Type} `{RedisKeysLaws R} (client : nat → RedisLock).
(** Until when each client may believe that it holds the lock: it gives it up before it calls
    [UnLock], and a call of [Lock] that failed tells it nothing. *)
Definition beliefs := nat → Z.
Definition believe (b : beliefs) (c : nat) (t : Z) : beliefs := λ d, if (d =? c)%nat then t else b d.
Definition step_call (x : call) (rb : R * beliefs) : R * beliefs :=
  let '(r, b) := rb in
  match x with
  | CLock c now a =>
      let '((ok, _), r') := Lock (client c) now a r in
      (r', if ok then believe b c (now + lock_ms (client c)) else b)
  | CUnlock c now a =>
      let '(_, r') := UnLock (client c) now a r in (r', believe b c now)
  end.
Definition run_calls (xs : list call) (rb : R * beliefs) : R * beliefs := foldl (flip step_call) rb xs.

Context (k : string) (Hkey : ∀ c, key (client c) = k) (Hid : ∀ c d, id (client c) = id (client d) → c = d).
Context (Hms : ∀ c, 0 <= lock_ms (client c)).
(** Whoever may believe at a time from [now] on has its id in the server, and no one believes
    further than a lock taken now would last. *)
Definition backed (now : Z) (rb : R * beliefs) : Prop :=
  ∀ c, rb.2 c <= now + lock_ms (client c) ∧
       ∀ t, now <= t → t < rb.2 c → GET k t rb.1 = Some (id (client c)).

Lemma backed_later now now' rb : now <= now' → backed now rb → backed now' rb.
Proof.
  intros Hle Hb c. destruct (Hb c) as [H1 H2]. split; [specialize (Hms c); lia|].
  intros t Ht Hlt. apply H2; lia.
Qed.
(** Setting the key for [c], when no other client holds it. *)
Lemma backed_set now c r b b' :
  backed now (r, b) → GET k now r = Some (id (client c)) ∨ GET k now r = None →
  (∀ d, d ≠ c → b' d = b d) → b' c <= now + lock_ms (client c) →
  backed now (SET_PX k (id (client c)) (lock_ms (client c)) now r, b').
Proof.
  intros Hb Hg Ho Hc d. cbn. destruct (decide (d = c)) as [->|Hd].
  - split; [done|]. intros t Ht Hlt. rewrite SET_PX_get by done.
    by replace (t <? now + lock_ms (client c)) with true by lia.
  - rewrite Ho by done. destruct (Hb d) as [Hbd Hgd]. cbn in *. split; [done|].
    intros t Ht Hlt. exfalso. specialize (Hgd now ltac:(lia) ltac:(lia)).
    destruct Hg as [Hg|Hg]; rewrite Hg in Hgd; [|done]. injection Hgd as E. by apply Hid in E.
Qed.
Lemma backed_lock c now r b :
  backed now (r, b) →
  let '(ok, r') := lockCommand k (id (client c)) (lock_ms (client c)) now r in
  backed now (r', if ok then believe b c (now + lock_ms (client c)) else b) ∧ backed now (r', b).
Proof.
  intros Hb. unfold lockCommand.
  assert (GET k now r = Some (id (client c)) ∨ GET k now r = None →
    backed now (SET_PX k (id (client c)) (lock_ms (client c)) now r, believe b c (now + lock_ms (client c))) ∧
    backed now (SET_PX k (id (client c)) (lock_ms (client c)) now r, b)) as Hset.
  { intros Hg. split; (eapply backed_set; [exact Hb|exact Hg| |]); unfold believe.
    - intros d Hd. by apply Nat.eqb_neq in Hd as ->.
    - rewrite Nat.eqb_refl. lia.
    - done.
    - apply Hb. }
  case_bool_decide as Hg; [auto|]. destruct (GET k now r); [done|auto].
Qed.
Lemma backed_unlock c now r b :
  backed now (r, b) →
  backed now ((delCommand k (id (client c)) now r).2, believe b c now) ∧ backed now (r, believe b c now).
Proof.
  intros Hb.
  assert (∀ d r', (d ≠ c → ∀ t, now <= t → t < b d → GET k t r' = Some (id (client d))) →
    believe b c now d <= now + lock_ms (client d) ∧
    ∀ t, now <= t → t < believe b c now d → GET k t r' = Some (id (client d))) as Hd.
  { intros d r' Hr'. unfold believe. destruct (Nat.eqb_spec d c) as [->|Hne].
    - split; [specialize (Hms c); lia|]. intros; lia.
    - split; [apply Hb|]. by apply Hr'. }
  split; intros d; apply Hd; intros Hne t Ht Hlt; cbn; [|by apply Hb].
  unfold delCommand. case_bool_decide as Hg; cbn; [|by apply Hb].
  exfalso. destruct (Hb d) as [_ Hbd]. specialize (Hbd now ltac:(lia) ltac:(cbn; lia)). cbn in Hbd.
  rewrite Hg in Hbd. injection Hbd as E. by apply Hid in E.
Qed.
Lemma backed_step x rb : backed (call_time x) rb → backed (call_time x) (step_call x rb).
Proof.
  destruct rb as [r b]. intros Hb. destruct x as [c now a|c now a]; cbn [call_time step_call] in *.
  - pose proof (backed_lock c now r b Hb) as Hl. unfold Lock. rewrite Hkey.
    destruct (lockCommand k (id (client c)) (lock_ms (client c)) now r) as [ok r'] eqn:E.
    destruct Hl as [Hl1 Hl2]. destruct a as [|ex e]; [done|]. by destruct ex.
  - destruct (backed_unlock c now r b Hb) as [Hu1 Hu2]. unfold UnLock. rewrite Hkey.
    destruct (delCommand k (id (client c)) now r) as [ok r'] eqn:E. cbn in Hu1.
    destruct a as [|ex e]; [done|]. by destruct ex.
Qed.

Lemma backed_run xs t0 t rb :
  StronglySorted Z.le (t0 :: map call_time xs ++ [t]) → backed t0 rb → backed t (run_calls xs rb).
Proof.
  revert t0 rb. induction xs as [|x xs IH]; intros t0 rb Hs Hb; cbn [map app] in Hs;
    apply StronglySorted_inv in Hs as [Hs Hle]; apply Forall_cons in Hle as [Hle _].
  - by eapply backed_later.
  - apply (IH (call_time x)); [done|]. apply backed_step. by eapply backed_later.
Qed.

(** C17: Mutual exclusion. However clients with distinct ids lock, refresh and unlock, whatever
    replies are lost, two clients never both hold the lock: at any time from the last call on,
    at most one has a lock it was told it got, has not given up and whose time is not over. *)
Theorem lock_mutual_exclusion (xs : list call) (r : R) (b : beliefs) (t0 t : Z) (c d : nat) :
  (∀ c, b c <= t0) → StronglySorted Z.le (t0 :: map call_time xs ++ [t]) →
  let '(r', b') := run_calls xs (r, b) in
  t < b' c → t < b' d → c = d.
Proof.
  intros Hb0 Hs.
  assert (backed t (run_calls xs (r, b))) as Hb.
  { eapply backed_run; [exact Hs|]. intros e. cbn. specialize (Hms e). specialize (Hb0 e).
    split; [lia|]. intros; lia. }
  destruct (run_calls xs (r, b)) as [r' b']. intros Hc Hd.
  destruct (Hb c) as [_ Hbc], (Hb d) as [_ Hbd].
  specialize (Hbc t ltac:(lia) Hc). specialize (Hbd t ltac:(lia) Hd). rewrite Hbc in Hbd.
  injection Hbd as E. by apply Hid in E.
Qed.
End clients.

(** ** A concrete server, and a witness *)
Abbreviation mem_keys := (gmap string (string * Z)).
#[global] Instance mem_RedisKeys : RedisKeys mem_keys := {
  GET k t r := match r !! k with Some (v, e) => if t <? e then Some v else None | None => None end;
  SET_PX k v ms now r := <[k := (v, now + ms)]> r;
  DEL := delete }.
#[global] Instance mem_RedisKeysLaws : RedisKeysLaws mem_keys.
Proof.
  split; cbn.
  - intros k v ms now t r _. by rewrite lookup_insert_eq.
  - intros k t r. by rewrite lookup_delete_eq.
Qed.
Definition two_clients (c : nat) : RedisLock :=
  mkRedisLock "job" (str_rep c "a"%char) (mkOptions 3 0 (100 * Millisecond)).
Definition lock_calls : list call :=
  [CLock 1 0 Replied; CLock 2 1000 Replied; CLock 1 2000 Replied; CLock 2 5000 Replied;
   CLock 2 5600 Replied; CUnlock 1 5700 Replied].
Lemma lock_mutual_exclusion_witness :
  let '(r', b') := run_calls two_clients lock_calls (∅ : mem_keys, λ _, 0) in
  6000 < b' 1%nat → 6000 < b' 2%nat → 1%nat = 2%nat.
Proof.
  apply (lock_mutual_exclusion two_clients "job") with (t0 := 0).
  - reflexivity.
  - intros c d E. cbn in E. apply (f_equal String.length) in E. by rewrite !length_str_rep in E.
  - intros c. by vm_compute.
  - done.
  - repeat constructor; vm_compute; congruence.
Defined.
(** The second client gets the lock when the first one's time is over. *)
Example lock_handover :
  (run_calls two_clients lock_calls (∅ : mem_keys, λ _, 0)).2 2%nat = 9100.
Proof. vm_compute. reflexivity. Qed.
