(* ===== verification/Timer.v ===== *)
(** The timer (pkg/timer/timer.go): a table of periodic tasks, one ticker that visits it when the
    next task may be due, and the slot that keeps a task from running twice at once. *)
From stdpp Require Import prelude gmap strings list.
From S2P Require Import Prelude GoStrings RedisLock.

(** ** State *)
Inductive TimerType := TDefault | TUnique.
Record timerStr := mkTimer {
  BeginTime : Z; NextTime : Z; SpaceTime : Z; UniqueKey : string; t_TimerType : TimerType;
  (** the one slot of [CanRunning] is taken *)
  running : bool }.
Record timers := mkTimers {
  timerMap : gmap Z timerStr; timerCount : Z; nextTime : Z; hasUnique : bool }.

Definition with_next (n : Z) (t : timerStr) : timerStr :=
  mkTimer (BeginTime t) n (SpaceTime t) (UniqueKey t) (t_TimerType t) (running t).
Definition with_running (b : bool) (t : timerStr) : timerStr :=
  mkTimer (BeginTime t) (NextTime t) (SpaceTime t) (UniqueKey t) (t_TimerType t) b.
Definition set_map (m : gmap Z timerStr) (s : timers) : timers :=
  mkTimers m (timerCount s) (nextTime s) (hasUnique s).

(** ** Operations *)
Definition AddTimer (now space : Z) (uniqueKey : string) (s : timers) : (goerr + Z) * timers :=
  if negb (bool_decide (uniqueKey = "")) && negb (hasUnique s) then (inl (ErrNew "唯一限制查询不到"), s)
  else if negb (bool_decide (uniqueKey = ""))
          && existsb (λ kv, bool_decide (UniqueKey kv.2 = uniqueKey)) (map_to_list (timerMap s))
  then (inl (ErrNew "uniqueKey重复"), s)
  else
    let n := i64 (timerCount s + 1) in
    let t := mkTimer now now space uniqueKey
               (if bool_decide (uniqueKey = "") then TDefault else TUnique) false in
    (inr n, mkTimers (<[n := t]> (timerMap s)) n (Z.min now (nextTime s)) (hasUnique s)).
(** [AddToTimer] drops the error, [AddUniqueTimer] gives the key. *)
Definition AddToTimer (now space : Z) (s : timers) : Z * timers :=
  let '(r, s) := AddTimer now space "" s in (match r with inr n => n | inl _ => 0 end, s).
Definition AddUniqueTimer (now space : Z) (uniqueKey : string) (s : timers) : (goerr + Z) * timers :=
  AddTimer now space uniqueKey s.
Definition DelToTimer (index : Z) (s : timers) : timers := set_map (delete index (timerMap s)) s.

(** One task of [iteratorTimer]'s loop: [first] tells that it is the first one visited. *)
Definition advance (now : Z) (t : timerStr) : Z :=
  let n := NextTime t + SpaceTime t in if n <? now then now + SpaceTime t else n.
Definition visit (now : Z) (first : bool) (newNext : Z) (t : timerStr) : bool * (Z * timerStr) :=
  if NextTime t <? now then
    let n := advance now t in
    let newNext := if first then n else newNext in
    (true, (if n <? newNext then n else newNext, with_next n t))
  else (false, (newNext, t)).
(** The loop over the tasks in the order of the iteration: the fired tasks, the time of the next
    visit, and the table. *)
Fixpoint visit_all (now : Z) (first : bool) (newNext : Z) (order : list Z) (m : gmap Z timerStr)
    : list Z * (Z * gmap Z timerStr) :=
  match order with
  | [] => ([], (newNext, m))
  | k :: order =>
      match m !! k with
      | None => visit_all now first newNext order m
      | Some t =>
          let '(fired, (newNext, t)) := visit now first newNext t in
          let '(fs, r) := visit_all now false newNext order (<[k := t]> m) in
          (if fired then k :: fs else fs, r)
      end
  end.
Definition iteratorTimer (now : Z) (order : list Z) (s : timers) : list Z * timers :=
  let '(fired, (newNext, m)) := visit_all now true (now + 5 * Second) order (timerMap s) in
  (fired, mkTimers m (timerCount s)
            (if nextTime s <? newNext then (if newNext <? now then now else newNext) else nextTime s)
            (hasUnique s)).
(** A tick of the millisecond ticker. *)
Definition tick (t : Z) (order : list Z) (s : timers) : list Z * timers :=
  if t <? nextTime s then ([], s) else iteratorTimer t order s.
(** The goroutine of a fired task takes the slot, or leaves; it gives the slot back at its end. *)
Definition start_task (k : Z) (s : timers) : bool * timers :=
  match timerMap s !! k with
  | Some t => if running t then (false, s) else (true, set_map (<[k := with_running true t]> (timerMap s)) s)
  | None => (false, s)
  end.
Definition end_task (k : Z) (s : timers) : timers :=
  set_map (alter (with_running false) k (timerMap s)) s.

(** ** [timerAction] *)
(** What a task with a unique key asks of its environment. *)
Class UniqueLimitFunc (U : Type) := {
  SetLimit : string → string → Z → U → option goerr * U;
  DeleteLimit : string → string → Z → U → option goerr * U;
  RefreshLimit : string → string → Z → U → option goerr * U }.
Section action.
Context {U : Type} `{UniqueLimitFunc U}.
(** The start, at a time that is also the value set: whether the callback runs. *)
Definition action_start (t : timerStr) (now : Z) (u : U) : bool * U :=
  match t_TimerType t with
  | TDefault => (true, u)
  | TUnique => match SetLimit (UniqueKey t) (FormatInt now) now u with
               | (Some _, u) => (false, u)
               | (None, u) => (true, u)
               end
  end.
(** A tick of the second ticker while the callback runs, and its end, whether it returned or
    panicked: the errors are only printed. *)
Definition action_tick (t : timerStr) (start now : Z) (u : U) : U :=
  match t_TimerType t with
  | TDefault => u
  | TUnique => (RefreshLimit (UniqueKey t) (FormatInt start) now u).2
  end.
Definition action_end (t : timerStr) (start now : Z) (u : U) : U :=
  match t_TimerType t with
  | TDefault => u
  | TUnique => (DeleteLimit (UniqueKey t) (FormatInt start) now u).2
  end.
Definition timerAction (t : timerStr) (start : Z) (ticks : list Z) (stop : Z) (u : U) : bool * U :=
  let '(runs, u) := action_start t start u in
  if runs then (true, action_end t start stop (foldl (λ u now, action_tick t start now u) u ticks))
  else (false, u).
End action.
(** The limit kept in Redis (uniquer/go_redis.go), whose clock counts milliseconds; the answers
    of the calls to come are part of the state, and a lost one stands for a transaction that was
    interfered with. *)
Section redis_limit.
Context {R : Type} `{RedisKeys R}.
Definition answer (l : list reply) : reply := default Replied (head l).
Definition interfered (a : reply) : bool := match a with Replied => false | Lost _ _ => true end.
Definition with_redis {A} (op : R → A * R) (u : R * list reply) : A * (R * list reply) :=
  let '(a, r) := op u.1 in (a, (r, tail u.2)).
#[global] Instance redis_UniqueLimitFunc : UniqueLimitFunc (R * list reply) := {
  SetLimit k v now u := with_redis (RedisLock.SetLimit k v (Z.quot now Millisecond) (answer u.2)) u;
  DeleteLimit k v now u := with_redis (RedisLock.DeleteLimit k v (Z.quot now Millisecond) (interfered (answer u.2))) u;
  RefreshLimit k v now u := with_redis (RedisLock.RefreshLimit k v (Z.quot now Millisecond) (interfered (answer u.2))) u }.

(** A unique task is not exclusive: whoever holds its key, an answered call lets the callback
    run, and the key keeps its holder. *)
Lemma unique_not_exclusive (t : timerStr) (now : Z) (holder : string) (r : R) (l : list reply) :
  t_TimerType t = TUnique → GET (UniqueKey t) (Z.quot now Millisecond) r = Some holder →
  action_start t now (r, Replied :: l) = (true, (r, l)).
Proof.
  intros Ht Hg. unfold action_start. rewrite Ht. cbn. unfold with_redis, RedisLock.SetLimit.
  cbn. by rewrite Hg.
Qed.
End redis_limit.

(** ** What an iteration does *)
Definition due (now : Z) (t : timerStr) : bool := NextTime t <? now.
(** What the loop over [order] leaves, from a table, a time of the next visit and whether no task was seen yet. *)
Definition visited (now : Z) (first : bool) (nn : Z) (order : list Z) (m : gmap Z timerStr) (r : list Z * (Z * gmap Z timerStr)) : Prop :=
  let '(fired, (nn', m')) := r in
  (∀ k, k ∈ fired ↔ k ∈ order ∧ ∃ t, m !! k = Some t ∧ due now t = true) ∧ NoDup fired ∧
  (∀ k, m' !! k = (λ t, if bool_decide (k ∈ order) && due now t then with_next (advance now t) t else t) <$> m !! k) ∧
  (∀ k t, k ∈ fired → m' !! k = Some t → nn' <= NextTime t) ∧
  (first = false → nn' <= nn) ∧ (now <= nn → now <= nn').
Lemma in_tail (j k : Z) (order : list Z) : j ≠ k → bool_decide (j ∈ order) = bool_decide (j ∈ k :: order).
Proof. intros Hj. apply bool_decide_ext. rewrite elem_of_cons. naive_solver. Qed.
Lemma visited_nil now first nn (m : gmap Z timerStr) : visited now first nn [] m ([], (nn, m)).
Proof.
  split_and!; [|constructor| | |lia|lia].
  - intros k. split; [by intros ?%not_elem_of_nil|by intros [?%not_elem_of_nil _]].
  - intros k. destruct (m !! k) as [t|]; [|done]. cbn. by rewrite bool_decide_eq_false_2 by apply not_elem_of_nil.
  - by intros k t ?%not_elem_of_nil.
Qed.
(** A task that is gone or not due changes nothing. *)
Lemma visited_skip now (first first' : bool) nn k order m r :
  (∀ t, m !! k = Some t → due now t = false) → (first = false → first' = false) →
  visited now first' nn order m r → visited now first nn (k :: order) m r.
Proof.
  intros Hk Hf. destruct r as [fs [nn' m']]. intros (F & N & M & L & G & B). split_and!; try done; [| |auto].
  - intros j. rewrite F, elem_of_cons. split; [naive_solver|]. intros [[->|Hj] (u & Hu & Hd)]; [|naive_solver].
    specialize (Hk u Hu). congruence.
  - intros j. rewrite M. destruct (m !! j) as [u|] eqn:Eu; [|done]. cbn. f_equal.
    destruct (decide (j = k)) as [->|Hj]; [by rewrite Hk, !andb_false_r|by rewrite (in_tail j k order)].
Qed.
(** A due one fires, moves to its next period, and bounds the time of the next visit. *)
Lemma visited_fire now (first : bool) nn k order m t fs nn' m' :
  k ∉ order → m !! k = Some t → due now t = true → 0 <= SpaceTime t →
  let n := advance now t in let nn0 := if first then n else nn in
  visited now false (if n <? nn0 then n else nn0) order (<[k := with_next n t]> m) (fs, (nn', m')) →
  visited now first nn (k :: order) m (k :: fs, (nn', m')).
Proof.
  intros Hk Ek Hdue Hs n nn0. set (nn1 := if n <? nn0 then n else nn0). intros (F & N & M & L & G & B). specialize (G eq_refl).
  assert (now <= n) as Hn by (unfold n, advance; destruct (Z.ltb_spec (NextTime t + SpaceTime t) now); unfold due in Hdue; lia).
  assert (nn1 <= n ∧ (first = false → nn1 <= nn) ∧ (now <= nn → now <= nn1)) as (Hn1 & Hn2 & Hn3)
    by (unfold nn1, nn0; destruct first; case_match; lia).
  assert (k ∉ fs) as Hkf by (intros [Hin _]%F; done). split_and!.
  - intros j. rewrite elem_of_cons, F, elem_of_cons. destruct (decide (j = k)) as [->|Hj].
    + split; [intros _|naive_solver]. split; [by left|]. by exists t.
    + rewrite lookup_insert_ne by done. naive_solver.
  - by constructor.
  - intros j. rewrite M. destruct (decide (j = k)) as [->|Hj].
    + rewrite lookup_insert_eq, Ek. cbn. rewrite bool_decide_eq_false_2, bool_decide_eq_true_2 by (done || by left). by rewrite Hdue.
    + rewrite lookup_insert_ne by done. by rewrite (in_tail j k order).
  - intros j u Hj Hu. apply elem_of_cons in Hj as [->|Hj]; [|by eapply L].
    rewrite M, lookup_insert_eq in Hu. cbn in Hu. rewrite bool_decide_eq_false_2 in Hu by done.
    injection Hu as <-. cbn. lia.
  - intros Hf. specialize (Hn2 Hf). lia.
  - auto.
Qed.
Lemma visit_all_spec now first nn order m :
  NoDup order → (∀ k t, m !! k = Some t → 0 <= SpaceTime t) → visited now first nn order m (visit_all now first nn order m).
Proof.
  revert first nn m. induction order as [|k order IH]; intros first nn m Hnd Hsp; cbn [visit_all]; [apply visited_nil|].
  apply NoDup_cons in Hnd as [Hk Hnd]. destruct (m !! k) as [t|] eqn:Ek.
  2:{ apply (visited_skip now first first); [congruence|done|by apply IH]. }
  unfold visit. destruct (NextTime t <? now) eqn:Hdue.
  - match goal with |- context [visit_all ?a ?b ?c ?d ?e] => pose proof (IH b c e Hnd) as Hv; destruct (visit_all a b c d e) as [fs [nn' m']] end.
    apply (visited_fire now first nn k order m t); [done..|by eapply Hsp|]. apply Hv.
    intros j u [[_ <-]|[_ Hj]]%lookup_insert_Some; [cbn; by eapply Hsp|by eapply Hsp].
  - rewrite insert_id by done. pose proof (IH false nn m Hnd Hsp) as Hv. destruct (visit_all now false nn order m) as [fs r].
    apply (visited_skip now first false); [|done|exact Hv]. intros u Hu. rewrite Ek in Hu. by injection Hu as <-.
Qed.

(** An iteration fires every task whose time has come exactly once and no other; a fired
    task is set to its next period, or a period from now if it is late, the others stay; and
    the next visit is not in the past and not after the next time of any task just fired. *)
Lemma iterate_fires_due (now : Z) (order : list Z) (s : timers) :
  order ≡ₚ (map_to_list (timerMap s)).*1 → nextTime s <= now →
  (∀ k t, timerMap s !! k = Some t → 0 <= SpaceTime t) →
  let '(fired, s') := iteratorTimer now order s in
  NoDup fired ∧ (∀ k, k ∈ fired ↔ ∃ t, timerMap s !! k = Some t ∧ due now t = true) ∧
  (∀ k, timerMap s' !! k = (λ t, if due now t then with_next (advance now t) t else t) <$> timerMap s !! k) ∧
  now <= nextTime s' ∧
  (∀ k t, k ∈ fired → timerMap s' !! k = Some t → now <= NextTime t ∧ nextTime s' <= NextTime t).
Proof.
  intros Hord Hnext Hsp. unfold iteratorTimer.
  assert (NoDup order) as Hnd by (rewrite Hord; apply NoDup_fst_map_to_list).
  assert (∀ k, k ∈ order ↔ is_Some (timerMap s !! k)) as Hin.
  { intros k. rewrite Hord, list_elem_of_fmap. split.
    - intros ([k' t] & -> & Ht%elem_of_map_to_list). by eexists.
    - intros [t Ht]. exists (k, t). split; [done|]. by apply elem_of_map_to_list. }
  pose proof (visit_all_spec now true (now + 5 * Second) order (timerMap s) Hnd Hsp) as Hv.
  destruct (visit_all _ _ _ _ _) as [fired [nn m]]. destruct Hv as (F & N & M & L & _ & B).
  assert (0 <= 5 * Second) by done. specialize (B ltac:(lia)). cbn.
  assert ((if nextTime s <? nn then if nn <? now then now else nn else nextTime s) = nn) as ->.
  { destruct (Z.ltb_spec (nextTime s) nn); [|lia]. destruct (Z.ltb_spec nn now); lia. }
  assert (∀ k, m !! k = (λ t, if due now t then with_next (advance now t) t else t) <$> timerMap s !! k) as HM.
  { intros k. rewrite M. destruct (timerMap s !! k) eqn:E; [|done]. cbn.
    rewrite bool_decide_eq_true_2; [done|]. apply Hin. rewrite E. by eexists. }
  split_and!; [done| |done|done|].
  - intros k. rewrite F, Hin. split; [naive_solver|]. intros (t & Ht & Hd). split; [by eexists|by exists t].
  - intros k t Hk Ht. specialize (L k t Hk Ht). split; [lia|done].
Qed.

(** A long period starves the others. If the first task visited is the only one due, the next
    visit is set to its next time, however far: until then no tick fires anything, although
    another task's time may have come long before. *)
Lemma long_period_starves (now : Z) (k j : Z) (tk tj : timerStr) (s : timers) :
  k ≠ j → timerMap s = {[k := tk; j := tj]} → nextTime s <= now → 0 <= SpaceTime tk →
  due now tk = true → due now tj = false →
  let '(fired, s') := iteratorTimer now [k; j] s in
  fired = [k] ∧ timerMap s' !! j = Some tj ∧ nextTime s' = Z.max now (advance now tk) ∧
  ∀ t order, t < advance now tk → tick t order s' = ([], s').
Proof.
  intros Hkj Hm Hn Hs Hdk Hdj. unfold iteratorTimer. rewrite Hm. cbn [visit_all].
  rewrite lookup_insert_eq. unfold visit at 1. unfold due in *. rewrite Hdk.
  rewrite Z.ltb_irrefl. rewrite lookup_insert_ne, lookup_insert_ne, lookup_singleton_eq by done.
  unfold visit. rewrite Hdj. cbn [fst snd].
  assert (now <= advance now tk) as Ha.
  { unfold advance. destruct (Z.ltb_spec (NextTime tk + SpaceTime tk) now); lia. }
  cbn [timerMap nextTime timerCount hasUnique].
  assert ((if nextTime s <? advance now tk
           then if advance now tk <? now then now else advance now tk else nextTime s) = advance now tk) as ->.
  { destruct (Z.ltb_spec (nextTime s) (advance now tk)); [|lia]. destruct (Z.ltb_spec (advance now tk) now); lia. }
  split_and!; [done|by rewrite lookup_insert_eq|lia|].
  intros t order Ht. unfold tick. cbn [nextTime]. by destruct (Z.ltb_spec t (advance now tk)); [|lia].
Qed.

(** ** Witnesses *)
Definition two_timers : timers :=
  mkTimers {[1 := mkTimer 0 0 (3600 * Second) "" TDefault false;
             2 := mkTimer 0 Second Second "" TDefault false]} 2 0 false.
Lemma iterate_fires_due_witness :
  let '(fired, s') := iteratorTimer (2 * Second) [1; 2] two_timers in
  NoDup fired ∧ (∀ k, k ∈ fired ↔ ∃ t, timerMap two_timers !! k = Some t ∧ due (2 * Second) t = true) ∧
  (∀ k, timerMap s' !! k
        = (λ t, if due (2 * Second) t then with_next (advance (2 * Second) t) t else t) <$> timerMap two_timers !! k) ∧
  2 * Second <= nextTime s' ∧
  (∀ k t, k ∈ fired → timerMap s' !! k = Some t → 2 * Second <= NextTime t ∧ nextTime s' <= NextTime t).
Proof.
  apply (iterate_fires_due (2 * Second) [1; 2] two_timers).
  - vm_compute. solve_Permutation.
  - by vm_compute.
  - intros k t Hk. unfold two_timers, timerMap in Hk.
    apply lookup_insert_Some in Hk as [[_ <-]|[_ Hk]]; [by vm_compute|].
    apply lookup_singleton_Some in Hk as [_ <-]. by vm_compute.
Defined.
Lemma long_period_starves_witness :
  let '(fired, s') := iteratorTimer 1 [1; 2] two_timers in
  fired = [1] ∧ timerMap s' !! 2 = Some (mkTimer 0 Second Second "" TDefault false) ∧
  nextTime s' = 3600 * Second ∧ ∀ t order, t < 3600 * Second → tick t order s' = ([], s').
Proof.
  apply (long_period_starves 1 1 2 (mkTimer 0 0 (3600 * Second) "" TDefault false)); try done.
Defined.
