(* ===== verification/TimerLoop.v ===== *)
(** The life of the timer (pkg/timer/timer.go): [InitTimer]'s loop, tasks added and deleted while
    it runs, and how late a task can get.  Also the parameters a callback finds in its context. *)
From stdpp Require Import prelude gmap strings list.
From S2P Require Import Prelude GoStrings Timer.

(** ** InitTimer *)
(** The goroutine's events: a tick of the millisecond ticker, with the order the map is iterated
    in, and the end of the context. *)
Inductive loop_event := TickerTick (t : Z) (order : list Z) | ContextDone.
(** Whether [onceLimit] was used, whether the goroutine runs, and the timer's variables. *)
Record timer_process := mkProcess { once_done : bool; looping : bool; vars : timers }.
Definition InitTimer (uni : bool) (p : timer_process) : timer_process :=
  if once_done p then p
  else mkProcess true true (mkTimers (timerMap (vars p)) (timerCount (vars p)) (nextTime (vars p)) uni).
Definition timer_loop (e : loop_event) (p : timer_process) : list Z * timer_process :=
  if negb (looping p) then ([], p)
  else match e with
       | TickerTick t order => let '(fired, s) := tick t order (vars p) in (fired, mkProcess (once_done p) true s)
       | ContextDone => ([], mkProcess (once_done p) false (vars p))
       end.
Lemma InitTimer_once u u' p : InitTimer u' (InitTimer u p) = InitTimer u p.
Proof. unfold InitTimer. destruct (once_done p) eqn:E; [by rewrite E|done]. Qed.

(** ** The context of a callback *)
Record ExtendParams := mkExtend { e_UniqueKey : string; e_Params : gmap string string }.
(** What a context answers for [extendParamKey]: another value stands for any other type. *)
Inductive ctx_value := CtxExtend (p : ExtendParams) | CtxOther | CtxNone.
Definition action_context (extend : ExtendParams) : ctx_value := CtxExtend extend.
Definition GetExtendParams (val : ctx_value) : goerr + ExtendParams :=
  match val with CtxExtend p => inr p | _ => inl (ErrNew "没找到参数") end.

(** ** Histories *)
Definition table_order (order : list Z) (s : timers) : Prop := order ≡ₚ (map_to_list (timerMap s)).*1.
(** The states after calls and ticks at growing times, of tasks with periods up to [P]. *)
Inductive timer_history (P : Z) : timers → Z → Prop :=
  | th_start t0 uni : timer_history P (mkTimers ∅ 0 t0 uni) t0
  | th_add s c now space key : timer_history P s c → c <= now → 0 <= space <= P → timer_history P (AddTimer now space key s).2 now
  | th_delete s c k : timer_history P s c → timer_history P (DelToTimer k s) c
  | th_tick s c t order : timer_history P s c → c <= t → table_order order s → timer_history P (tick t order s).2 t
  | th_task_starts s c k : timer_history P s c → timer_history P (start_task k s).2 c
  | th_task_ends s c k : timer_history P s c → timer_history P (end_task k s) c.
Definition longest_pause (P : Z) : Z := Z.max (5 * Second) P.

(** The last visit was at [v]: no task's time is before it, and the next visit is near. *)
Definition visited_at (P v : Z) (s : timers) : Prop :=
  nextTime s <= v + longest_pause P ∧ ∀ k t, timerMap s !! k = Some t → v <= NextTime t ∧ 0 <= SpaceTime t <= P.
Lemma advance_bounds now t : 0 <= SpaceTime t → due now t = true → now <= advance now t <= now + SpaceTime t.
Proof. unfold due, advance. intros Hs Hd. destruct (Z.ltb_spec (NextTime t + SpaceTime t) now); lia. Qed.
(** The time of the next visit is at most a period away. *)
Lemma visit_all_next P now first nn order m :
  (∀ k t, m !! k = Some t → 0 <= SpaceTime t <= P) → (visit_all now first nn order m).2.1 <= Z.max nn (now + P).
Proof.
  revert first nn m. induction order as [|k order IH]; intros first nn m Hsp; cbn [visit_all]; [cbn; lia|].
  destruct (m !! k) as [t|] eqn:Ek; [|by apply IH]. destruct (Hsp k t Ek) as [Hs HP].
  unfold visit. destruct (NextTime t <? now) eqn:Hd.
  - pose proof (advance_bounds now t Hs Hd). set (nn1 := if advance now t <? _ then _ else _).
    assert (nn1 <= Z.max nn (now + P)) as Hn1 by (unfold nn1; destruct first; case_match; lia).
    specialize (IH false nn1 (<[k:=with_next (advance now t) t]> m)).
    destruct (visit_all now false nn1 order _) as [fs [nn' m']]. cbn in *.
    etrans; [apply IH|lia]. intros j u [[_ <-]|[_ Hj]]%lookup_insert_Some; [split; [exact Hs|exact HP]|by eapply Hsp].
  - rewrite insert_id by done. specialize (IH false nn m Hsp). destruct (visit_all now false nn order m) as [fs [nn' m']]. exact IH.
Qed.
Lemma visited_tick P v t order s :
  visited_at P v s → v <= t → table_order order s → nextTime s <= t → visited_at P t (iteratorTimer t order s).2.
Proof.
  intros [Hn Hm] Hv Ho Ht. pose proof (iterate_fires_due t order s Ho Ht) as Hit.
  pose proof (visit_all_next P t true (t + 5 * Second) order (timerMap s)) as Hnext. unfold iteratorTimer in *.
  destruct (visit_all t true (t + 5 * Second) order (timerMap s)) as [fired [nn m]]. cbn [fst snd] in *.
  destruct Hit as (_ & _ & HM & Hnow & _); [intros k x Hx; apply Hm in Hx; lia|].
  specialize (Hnext ltac:(intros k x Hx; apply Hm in Hx; lia)). unfold visited_at, longest_pause. cbn [nextTime timerMap] in *. split.
  - assert (0 <= 5 * Second) by done. repeat case_match; lia.
  - intros k x Hk. rewrite HM in Hk. destruct (timerMap s !! k) as [y|] eqn:Ey; [|done]. injection Hk as <-.
    destruct (Hm k y Ey) as [Hy Hsp]. destruct (due t y) eqn:Hd; [|unfold due in Hd; cbn; lia].
    pose proof (advance_bounds t y ltac:(lia) Hd). cbn. lia.
Qed.
Lemma history_visited P s c : timer_history P s c → ∃ v, v <= c ∧ visited_at P v s.
Proof.
  induction 1 as [t0 uni|s c now space key _ (v & Hv & Hn & Hm) Hc Hsp|s c k _ (v & Hv & Hn & Hm)|s c t order _ (v & Hv & Hvis) Hc Ho
    |s c k _ (v & Hv & Hn & Hm)|s c k _ (v & Hv & Hn & Hm)].
  - exists t0. split; [done|]. unfold visited_at, longest_pause. split; [|done]. cbn [nextTime]. assert (0 <= 5 * Second) by done. lia.
  - exists v. split; [lia|]. unfold AddTimer. destruct (_ && negb (hasUnique s)); [by split|]. destruct (_ && existsb _ _); [by split|].
    cbn [snd]. split; [cbn [nextTime]; lia|]. cbn [timerMap]. intros j x [[_ <-]|[_ Hj]]%lookup_insert_Some; [cbn; lia|by eapply Hm].
  - exists v. split; [done|]. split; [done|]. unfold DelToTimer, set_map. cbn [timerMap]. intros j x [_ Hj]%lookup_delete_Some. by eapply Hm.
  - unfold tick. destruct (Z.ltb_spec t (nextTime s)).
    + exists v. split; [lia|done].
    + exists t. split; [done|]. apply (visited_tick P v); [done|lia|done|lia].
  - exists v. split; [done|]. unfold start_task. destruct (timerMap s !! k) as [x|] eqn:Ex; [|by split]. destruct (running x); [by split|].
    split; [done|]. cbn [snd set_map timerMap]. intros j y [[_ <-]|[_ Hj]]%lookup_insert_Some; [exact (Hm k x Ex)|by eapply Hm].
  - exists v. split; [done|]. split; [done|]. intros j y Hj. cbn in Hj. destruct (decide (j = k)) as [->|Hne].
    + rewrite lookup_alter_eq in Hj. destruct (timerMap s !! k) as [x|] eqn:Ex; [|done]. injection Hj as <-. exact (Hm k x Ex).
    + rewrite lookup_alter_ne in Hj by done. by eapply Hm.
Qed.

(** C37: Lateness. After any history of tasks added, deleted, started and ended and of ticks, with
    periods of at most [P], a tick fires only tasks whose time has come, and every task that is
    late by [P], or by five seconds if that is more. *)
Theorem lateness_bounded (P : Z) (s : timers) (c t : Z) (order : list Z) :
  timer_history P s c → c <= t → table_order order s →
  let fired := (tick t order s).1 in
  ∀ k x, timerMap s !! k = Some x →
    (k ∈ fired → NextTime x < t) ∧ (NextTime x + longest_pause P <= t → k ∈ fired).
Proof.
  intros Hh Hc Ho fired k x Hk. destruct (history_visited P s c Hh) as (v & Hv & Hn & Hm). destruct (Hm k x Hk) as [Hx Hsp].
  subst fired. unfold tick. destruct (Z.ltb_spec t (nextTime s)).
  - split; [by intros ?%not_elem_of_nil|lia].
  - pose proof (iterate_fires_due t order s Ho) as Hit. destruct (iteratorTimer t order s) as [fired s'].
    destruct Hit as (_ & HF & _); [lia|intros j y Hj; apply Hm in Hj; lia|]. cbn [fst]. rewrite HF. unfold due. split.
    + intros (y & Hy & Hd). rewrite Hk in Hy. injection Hy as <-. lia.
    + intros Hl. exists x. split; [done|]. unfold longest_pause in Hl. assert (0 < 5 * Second) by done. lia.
Qed.

(** ** A witness: a quick task beside a slow one, a tick too early, and one five seconds later *)
Definition added : timers := (AddTimer 1 Second "" (mkTimers ∅ 0 0 false)).2.
Definition added_two : timers := (AddTimer 2 (3600 * Second) "" added).2.
Definition hour : Z := 3600 * Second.
Lemma added_history : timer_history hour added_two 2.
Proof. apply th_add with (c := 1); [apply th_add with (c := 0); [apply th_start|..]|..]; by vm_compute. Qed.
Lemma lateness_bounded_witness :
  (tick (2 + hour) [1; 2] added_two).1 = [1; 2] ∧
  ∀ k x, timerMap added_two !! k = Some x →
    (k ∈ (tick (2 + hour) [1; 2] added_two).1 → NextTime x < 2 + hour) ∧
    (NextTime x + longest_pause hour <= 2 + hour → k ∈ (tick (2 + hour) [1; 2] added_two).1).
Proof.
  split; [vm_compute; reflexivity|].
  apply (lateness_bounded hour added_two 2 (2 + hour) [1; 2] added_history).
  - by vm_compute.
  - unfold table_order. vm_compute. solve_Permutation.
Defined.
(** A second [InitTimer] changes nothing, and a callback finds what its task was added with. *)
Example init_once :
  InitTimer true (InitTimer false (mkProcess false false added)) = mkProcess true true added ∧
  GetExtendParams (action_context (mkExtend "k" ∅)) = inr (mkExtend "k" ∅).
Proof. done. Qed.
