(* ===== verification/Health.v ===== *)
(** Instance heartbeats (pkg/health) over a store of sorted sets, and the release check's verdict
    on them (cmd/release_check/report.go).  A score is the Unix second of a beat; as a float64 it
    is exact, and it is kept as an integer. *)
From Stdlib Require Import Ascii.
From stdpp Require Import prelude gmap strings list sorting.
From S2P Require Import Prelude GoStrings.

(** ** The store *)
(** Sorted sets and hashes of strings; reads are answered from [zset] and [hash]. *)
Class HealthStore (R : Type) := {
  zset : string → R → gmap string Z;
  hash : string → R → gmap string string;
  ZAdd : string → Z → string → R → R;
  ZRemRangeUpTo : string → Z → R → R;
  ZRem : string → string → R → R;
  HSet : string → string → string → R → R;
  HDel : string → string → R → R }.
Class HealthStoreLaws (R : Type) `{HealthStore R} := {
  ZAdd_zset k s m r : zset k (ZAdd k s m r) = <[m := s]> (zset k r);
  ZRem_zset k m r : zset k (ZRem k m r) = delete m (zset k r);
  ZRemRange_zset k mx r m : zset k (ZRemRangeUpTo k mx r) !! m
    = match zset k r !! m with Some s => if s <=? mx then None else Some s | None => None end;
  HSet_zset k k' f v r : zset k (HSet k' f v r) = zset k r;
  HDel_zset k k' f r : zset k (HDel k' f r) = zset k r }.

(** ** health.go *)
Definition defaultInterval : Z := 10 * Second.
Definition defaultAliveWindow : Z := 30 * Second.
Definition defaultStaleCleanup : Z := 5 * Minute.
Definition keyFor (prefix service : string) : string :=
  (if bool_decide (prefix = "") then "compkg" else prefix) +++ ":health:instance:" +++ service.
Definition metaKeyFor (prefix service : string) : string :=
  (if bool_decide (prefix = "") then "compkg" else prefix) +++ ":health:meta:" +++ service.
Record Reporter := mkReporter {
  r_Prefix : string; r_Service : string; r_Instance : string; r_Interval : Z; StaleCleanup : Z;
  (** the JSON of [Meta], or the error of marshalling it; [None] without meta or [MetaStore] *)
  meta_json : option (goerr + string) }.
Definition seconds (d : Z) : Z := Z.quot d Second.

Section health.
Context {R : Type} `{HealthStore R}.
(** The answers to the calls of one beat; an error may come after the call took effect. *)
Record beat_answers := mkAnswers { zadd_err : option bool; zrem_err : option bool; hset_err : option bool }.
Definition answered (a : option bool) (f : R → R) (r : R) : R :=
  match a with None | Some true => f r | Some false => r end.
Definition reportMeta (rp : Reporter) (a : option bool) (r : R) : R :=
  match meta_json rp with
  | Some (inr payload) => answered a (HSet (metaKeyFor (r_Prefix rp) (r_Service rp)) (r_Instance rp) payload) r
  | _ => r
  end.
Definition beat (rp : Reporter) (now : Z) (a : beat_answers) (r : R) : R :=
  let key := keyFor (r_Prefix rp) (r_Service rp) in
  let r := answered (zadd_err a) (ZAdd key now (r_Instance rp)) r in
  match zadd_err a with
  | Some _ => r
  | None =>
      let staleBefore := now - seconds (StaleCleanup rp) in
      let r := answered (zrem_err a) (ZRemRangeUpTo key staleBefore) r in
      reportMeta rp (hset_err a) r
  end.
(** [Start] up to its first beat. *)
Definition with_defaults (rp : Reporter) : Reporter :=
  mkReporter (r_Prefix rp) (r_Service rp) (r_Instance rp)
    (if r_Interval rp <=? 0 then defaultInterval else r_Interval rp)
    (if StaleCleanup rp <=? 0 then defaultStaleCleanup else StaleCleanup rp) (meta_json rp).
Definition Start (rp : Reporter) (now : Z) (a : beat_answers) (r : R) : (goerr + Reporter) * R :=
  if bool_decide (r_Service rp = "") || bool_decide (r_Instance rp = "")
  then (inl (ErrNew "health: empty service or instance"), r)
  else (inr (with_defaults rp), beat (with_defaults rp) now a r).
(** [Stop], the first time it is called. *)
Definition Stop (rp : Reporter) (zrem hdel : option bool) (r : R) : R :=
  answered hdel (HDel (metaKeyFor (r_Prefix rp) (r_Service rp)) (r_Instance rp))
    (answered zrem (ZRem (keyFor (r_Prefix rp) (r_Service rp)) (r_Instance rp)) r).

(** *** The reader *)
Record Reader := mkReader { rd_Prefix : string; AliveWindow : Z }.
Definition alive_from (rd : Reader) (now : Z) : Z :=
  now - seconds (if AliveWindow rd <=? 0 then defaultAliveWindow else AliveWindow rd).
Record ServiceStat := mkStat { s_Service : string; Running : Z; Total : Z }.
Definition ZCount (k : string) (from : Z) (r : R) : Z :=
  zlen (filter (λ kv, from <= kv.2) (map_to_list (zset k r))).
Definition ZCard (k : string) (r : R) : Z := zlen (map_to_list (zset k r)).
Definition Stat (rd : Reader) (service : string) (now : Z) (count_err card_err : option goerr) (r : R)
    : ServiceStat * option goerr :=
  let key := keyFor (rd_Prefix rd) service in
  match count_err with
  | Some e => (mkStat service 0 0, Some e)
  | None => match card_err with
            | Some e => (mkStat service 0 0, Some e)
            | None => (mkStat service (ZCount key (alive_from rd now) r) (ZCard key r), None)
            end
  end.
Definition first_error (l : list (option goerr)) : option goerr :=
  foldr (λ e acc, match e with Some _ => e | None => acc end) None l.
(** [StatAll], given what [Stat] answered for each service in turn. *)
Definition StatAll (stats : list (ServiceStat * option goerr)) : list ServiceStat * option goerr :=
  (stats.*1, first_error stats.*2).
Definition Aggregate (stats : list ServiceStat) : Z * Z :=
  foldl (λ acc s, (i64 (acc.1 + Running s), i64 (acc.2 + Total s))) (0, 0) stats.

Context (parse_meta : string → option (gmap string string)).
Record InstanceMeta := mkInstanceMeta {
  im_Instance : string; LastBeat : Z; im_Alive : bool; Meta : option (gmap string string) }.
(** [Instances]: the members as the store returned them, and the meta hash if it could be read. *)
Definition Instances (rd : Reader) (service : string) (now : Z) (range_err : option goerr)
    (hgetall_ok : bool) (r : R) : goerr + list InstanceMeta :=
  match range_err with
  | Some e => inl (ErrWrap "health instances zrange" e)
  | None =>
      let metaMap := if hgetall_ok then hash (metaKeyFor (rd_Prefix rd) service) r else ∅ in
      inr (map (λ m, mkInstanceMeta m.1 m.2 (alive_from rd now <=? m.2)
                       match metaMap !! m.1 with
                       | Some raw => if bool_decide (raw = "") then None else parse_meta raw
                       | None => None
                       end)
             (map_to_list (zset (keyFor (rd_Prefix rd) service) r)))
  end.
End health.

(** ** Liveness *)
(** What the instances of one service do: beats and stops, with the store's answer to each call. *)
Inductive hevent :=
  | HBeat (rp : Reporter) (now : Z) (a : beat_answers)
  | HStop (rp : Reporter) (now : Z) (zrem hdel : option bool).
Definition hevent_time (e : hevent) : Z := match e with HBeat _ t _ | HStop _ t _ _ => t end.
Definition hevent_reporter (e : hevent) : Reporter := match e with HBeat rp _ _ | HStop rp _ _ _ => rp end.
(** A call takes effect when it is answered without error, or when only the answer is lost. *)
Definition took_effect (a : option bool) : bool := match a with None => true | Some b => b end.

Section liveness.
Context {R : Type} `{HealthStoreLaws R} (prefix service : string).
Definition hstep (e : hevent) (r : R) : R :=
  match e with
  | HBeat rp now a => beat rp now a r
  | HStop rp _ zrem hdel => Stop rp zrem hdel r
  end.
(** The last beat that reached the store of each instance not removed from it by a stop since. *)
Definition last_beat (e : hevent) (m : gmap string Z) : gmap string Z :=
  match e with
  | HBeat rp now a => if took_effect (zadd_err a) then <[r_Instance rp := now]> m else m
  | HStop rp _ zrem _ => if took_effect zrem then delete (r_Instance rp) m else m
  end.
Definition of_service (e : hevent) : Prop :=
  r_Prefix (hevent_reporter e) = prefix ∧ r_Service (hevent_reporter e) = service.

(** The store holds last beats only, and all those younger than [c] seconds. *)
Definition tracks (c now : Z) (r : R) (m : gmap string Z) : Prop :=
  (∀ i s, zset (keyFor prefix service) r !! i = Some s → m !! i = Some s ∧ s <= now) ∧
  (∀ i s, m !! i = Some s → now - c < s → zset (keyFor prefix service) r !! i = Some s) ∧
  (∀ i s, m !! i = Some s → s <= now).

Lemma tracks_later c t t' r m : t <= t' → tracks c t r m → tracks c t' r m.
Proof.
  intros Ht (T1 & T2 & T3). split_and!.
  - intros i s Hi. destruct (T1 i s Hi). split; [done|lia].
  - intros i s Hi Hlt. apply T2; [done|lia].
  - intros i s Hi. specialize (T3 i s Hi). lia.
Qed.
Lemma tracks_zset c t r r' m :
  zset (keyFor prefix service) r' = zset (keyFor prefix service) r → tracks c t r m → tracks c t r' m.
Proof. unfold tracks. by intros ->. Qed.
Lemma tracks_add c t i r m : tracks c t r m → tracks c t (ZAdd (keyFor prefix service) t i r) (<[i := t]> m).
Proof.
  intros (T1 & T2 & T3). unfold tracks. rewrite ZAdd_zset. split_and!.
  - intros j s [[<- <-]|[Hne Hi]]%lookup_insert_Some; [by rewrite lookup_insert_eq|].
    rewrite lookup_insert_ne by done. by apply T1.
  - intros j s [[<- <-]|[Hne Hi]]%lookup_insert_Some Hlt; [by rewrite lookup_insert_eq|].
    rewrite lookup_insert_ne by done. by apply T2.
  - intros j s [[_ <-]|[_ Hi]]%lookup_insert_Some; [lia|]. by apply (T3 j).
Qed.
Lemma tracks_clean c t mx r m :
  mx <= t - c → tracks c t r m → tracks c t (ZRemRangeUpTo (keyFor prefix service) mx r) m.
Proof.
  intros Hc (T1 & T2 & T3). split_and!; [| |done].
  - intros j s Hi. rewrite ZRemRange_zset in Hi. destruct (zset _ r !! j) as [s'|] eqn:E; [|done].
    destruct (s' <=? mx); [done|]. injection Hi as <-. by apply T1.
  - intros j s Hi Hlt. rewrite ZRemRange_zset, (T2 j s Hi Hlt). by replace (s <=? mx) with false by lia.
Qed.
Lemma tracks_rem c t i r m : tracks c t r m → tracks c t (ZRem (keyFor prefix service) i r) (delete i m).
Proof.
  intros (T1 & T2 & T3). unfold tracks. rewrite ZRem_zset. split_and!.
  - intros j s [Hne Hi]%lookup_delete_Some. rewrite lookup_delete_ne by done. by apply T1.
  - intros j s [Hne Hi]%lookup_delete_Some Hlt. rewrite lookup_delete_ne by done. by apply T2.
  - intros j s [_ Hi]%lookup_delete_Some. by apply (T3 j).
Qed.
(** A call with any answer. *)
Lemma answered_zset a f r :
  (∀ r, zset (keyFor prefix service) (f r) = zset (keyFor prefix service) r) →
  zset (keyFor prefix service) (answered a f r) = zset (keyFor prefix service) r.
Proof. intros Hf. unfold answered. destruct a as [[]|]; by rewrite ?Hf. Qed.

Lemma tracks_step c now e r m :
  of_service e → now <= hevent_time e → c <= seconds (StaleCleanup (hevent_reporter e)) →
  tracks c now r m → tracks c (hevent_time e) (hstep e r) (last_beat e m).
Proof.
  intros [Hp Hs] Ht Hc HT%(tracks_later _ _ _ _ _ Ht).
  destruct e as [rp t a|rp t zr hd]; cbn [hstep last_beat hevent_time hevent_reporter] in *.
  - unfold beat. rewrite Hp, Hs. set (k := keyFor prefix service) in *.
    assert (tracks c t (answered (zadd_err a) (ZAdd k t (r_Instance rp)) r)
              (if took_effect (zadd_err a) then <[r_Instance rp := t]> m else m)) as H1.
    { destruct (zadd_err a) as [[]|]; cbn; [by apply tracks_add|done|by apply tracks_add]. }
    destruct (zadd_err a) as [eff|]; [exact H1|]. cbn [took_effect] in H1 |- *. eapply tracks_zset.
    { unfold reportMeta. destruct (meta_json rp) as [[|p]|]; [reflexivity| |reflexivity].
      apply answered_zset. intros. by rewrite HSet_zset. }
    assert (t - seconds (StaleCleanup rp) <= t - c) by lia.
    unfold answered at 1. destruct (zrem_err a) as [[]|]; [by apply tracks_clean|done|by apply tracks_clean].
  - unfold Stop. rewrite Hp, Hs. eapply tracks_zset.
    { apply answered_zset. intros. by rewrite HDel_zset. }
    destruct zr as [[]|]; cbn; [by apply tracks_rem|done|by apply tracks_rem].
Qed.

(** C24: Liveness. If every reporter's cleanup threshold is above the reader's window, then after
    any history of beats and stops of a service's instances, whatever the store answers to each
    call, the reader reports an instance alive exactly when the last of its beats that reached the
    store is within the window and no stop has removed it since; and the number it gives as running
    is the number of these.  A stop is best effort: one whose removal fails leaves the instance alive
    until the window has passed. *)
Theorem alive_is_recent_beat (es : list hevent) (r : R) (rd : Reader) (t0 now : Z)
    (parse_meta : string → option (gmap string string)) (hgetall_ok : bool) :
  rd_Prefix rd = prefix → zset (keyFor prefix service) r = ∅ → Forall of_service es →
  StronglySorted Z.le (t0 :: map hevent_time es ++ [now]) →
  Forall (λ e, now - alive_from rd now < seconds (StaleCleanup (hevent_reporter e))) es →
  let r' := foldl (flip hstep) r es in
  let last := foldl (flip last_beat) ∅ es in
  ∃ l, Instances parse_meta rd service now None hgetall_ok r' = inr l ∧
    (∀ i, (∃ im, im ∈ l ∧ im_Instance im = i ∧ im_Alive im = true) ↔
          ∃ b, last !! i = Some b ∧ alive_from rd now <= b) ∧
    (Stat rd service now None None r').1
      = mkStat service (zlen (filter (λ im, im_Alive im = true) l)) (zlen l).
Proof.
  intros Hpre Hemp Hsvc Hsort Hwin r' last.
  set (c := now - alive_from rd now + 1).
  assert (tracks c now r' last) as (T1 & T2 & _).
  { assert (tracks c t0 r ∅) as HT.
    { split_and!; [intros i s Hi; by rewrite Hemp in Hi|intros i s Hi; by rewrite lookup_empty in Hi|
        intros i s Hi; by rewrite lookup_empty in Hi]. }
    unfold r', last. revert HT. generalize (∅ : gmap string Z) as m. clear Hemp r' last.
    revert t0 r Hsort. induction es as [|e es IH]; intros t0 r Hsort m HT.
    - cbn in *. apply StronglySorted_inv in Hsort as [_ Hle]. apply Forall_cons in Hle as [Hle _].
      destruct HT as (A1 & A2 & A3). split_and!.
      + intros i s Hi. destruct (A1 i s Hi). split; [done|lia].
      + intros i s Hi Hlt. apply A2; [done|lia].
      + intros i s Hi. specialize (A3 i s Hi). lia.
    - cbn [map app] in Hsort. apply StronglySorted_inv in Hsort as [Hsort Hle].
      apply Forall_cons in Hle as [Hle _]. apply Forall_cons in Hsvc as [He Hsvc].
      apply Forall_cons in Hwin as [Hw Hwin]. cbn [foldl]. eapply (IH Hsvc Hwin); [exact Hsort|].
      apply (tracks_step _ t0); [done|done|unfold c; lia|done]. }
  eexists. split; [reflexivity|]. rewrite Hpre. split.
  - intros i. split.
    + intros (im & Him & <- & Hal). apply list_elem_of_In, in_map_iff in Him as ([j s] & <- & Him).
      cbn in *. apply list_elem_of_In, elem_of_map_to_list in Him. apply T1 in Him as [Hm _].
      exists s. split; [done|lia].
    + intros (b & Hb & Hle). assert (zset (keyFor prefix service) r' !! i = Some b) as Hz
        by (apply T2; [done|unfold c; lia]).
      eexists. split; [apply list_elem_of_In, in_map_iff; exists (i, b); split; [reflexivity|]|].
      { by apply list_elem_of_In, elem_of_map_to_list. }
      cbn. split; [done|lia].
  - cbn. rewrite Hpre. unfold ZCount, ZCard. f_equal; unfold zlen; f_equal; [|by rewrite length_map].
    induction (map_to_list (zset (keyFor prefix service) r')) as [|[j s] l IH]; [done|].
    cbn [map]. rewrite !filter_cons. cbn [snd im_Alive].
    destruct (Z.leb_spec (alive_from rd now) s).
    + rewrite decide_True, decide_True by done. cbn. by rewrite IH.
    + rewrite decide_False, decide_False by (done || lia). exact IH.
Qed.
End liveness.

(** ** A concrete store, and a witness *)
Record mem_health := mkMemHealth { mh_sets : gmap string (gmap string Z); mh_hashes : gmap string (gmap string string) }.
Definition mh_set (k : string) (r : mem_health) : gmap string Z := default ∅ (mh_sets r !! k).
Definition mh_hash (k : string) (r : mem_health) : gmap string string := default ∅ (mh_hashes r !! k).
Definition mh_put (k : string) (s : gmap string Z) (r : mem_health) : mem_health :=
  mkMemHealth (<[k := s]> (mh_sets r)) (mh_hashes r).
#[global] Instance mem_HealthStore : HealthStore mem_health := {
  zset := mh_set;
  hash := mh_hash;
  ZAdd k s m r := mh_put k (<[m := s]> (mh_set k r)) r;
  ZRemRangeUpTo k mx r := mh_put k (filter (λ kv, mx < kv.2) (mh_set k r)) r;
  ZRem k m r := mh_put k (delete m (mh_set k r)) r;
  HSet k f v r := mkMemHealth (mh_sets r) (<[k := <[f := v]> (mh_hash k r)]> (mh_hashes r));
  HDel k f r := mkMemHealth (mh_sets r) (<[k := delete f (mh_hash k r)]> (mh_hashes r)) }.
#[global] Instance mem_HealthStoreLaws : HealthStoreLaws mem_health.
Proof.
  assert (∀ k s r, mh_set k (mh_put k s r) = s) as Hput
    by (intros k s r; unfold mh_set, mh_put; cbn; by rewrite lookup_insert_eq).
  split; cbn; try done; intros; rewrite ?Hput; try done.
  rewrite map_lookup_filter. destruct (mh_set k r !! m) as [s|]; [|done]. cbn.
  destruct (Z.leb_spec s mx); [by rewrite option_guard_False by lia|by rewrite option_guard_True by lia].
Qed.
Definition reporter (i : string) : Reporter := mkReporter "" "svc" i defaultInterval defaultStaleCleanup None.
Definition ok_answers : beat_answers := mkAnswers None None None.
Definition health_events : list hevent :=
  [HBeat (reporter "a") 1000 ok_answers; HBeat (reporter "b") 1001 ok_answers; HBeat (reporter "c") 1005 ok_answers;
   HStop (reporter "c") 1006 None None; HBeat (reporter "b") 1035 (mkAnswers None (Some false) None);
   HBeat (reporter "d") 1035 (mkAnswers (Some false) None None); HStop (reporter "b") 1036 (Some false) None].
Definition reader : Reader := mkReader "" 0.
Definition after_beats : mem_health := foldl (flip hstep) (mkMemHealth ∅ ∅) health_events.
Lemma alive_is_recent_beat_witness :
  Stat reader "svc" 1036 None None after_beats = (mkStat "svc" 1 2, None) ∧
  ∃ l, Instances (λ _, None) reader "svc" 1036 None true after_beats = inr l ∧
    (∀ i, (∃ im, im ∈ l ∧ im_Instance im = i ∧ im_Alive im = true) ↔
          ∃ b, foldl (flip last_beat) ∅ health_events !! i = Some b ∧ alive_from reader 1036 <= b) ∧
    (Stat reader "svc" 1036 None None after_beats).1
      = mkStat "svc" (zlen (filter (λ im, im_Alive im = true) l)) (zlen l).
Proof.
  split; [vm_compute; reflexivity|].
  apply (alive_is_recent_beat "" "svc" health_events (mkMemHealth ∅ ∅) reader 1000 1036 (λ _, None) true).
  - reflexivity.
  - reflexivity.
  - repeat constructor.
  - repeat constructor; vm_compute; congruence.
  - repeat constructor; vm_compute; congruence.
Defined.
