(* ===== verification/Release.v ===== *)
(** The release check (cmd/release_check): its configuration's checks and defaults, what it
    concludes from the instances of a service, and when a service passes. *)
From Stdlib Require Import Ascii.
From stdpp Require Import prelude gmap strings list.
From S2P Require Import Prelude GoStrings Health.

(** ** config.go *)
Record ServiceTarget := mkTarget {
  Name : string; Display : string; HighRisk : bool; ExpectCommit : string; MinInstances : Z }.
Record RedisConf := mkRedisConf { Addr : string; Password : string; Db : Z }.
Record DefaultsConf := mkDefaultsConf { AliveWindow : string; aliveWindow : Z }.
Record CheckConfig := mkCheckConfig {
  Redis : RedisConf; Prefix : string; Output : string; Defaults : DefaultsConf;
  Services : list ServiceTarget }.
Definition default_target (t : ServiceTarget) : ServiceTarget :=
  mkTarget (Name t) (if bool_decide (Display t = "") then Name t else Display t) (HighRisk t)
    (ExpectCommit t) (if MinInstances t <=? 0 then 1 else MinInstances t).
(** The loop over the services: the index of the first one without a name, or all with defaults. *)
Fixpoint default_targets (i : Z) (l : list ServiceTarget) : goerr + list ServiceTarget :=
  match l with
  | [] => inr []
  | t :: l =>
      if bool_decide (Name t = "") then inl (ErrNew ("services[" +++ FormatInt i +++ "].name 不能为空"))
      else match default_targets (i + 1) l with
           | inl e => inl e
           | inr l => inr (default_target t :: l)
           end
  end.
(** [LoadConfig], on what reading the file answered; [unmarshal] is yaml.v3's, and
    [ParseDuration] package time's.  The error of a window leaves out the text it quotes. *)
Section load.
Context (unmarshal : string → goerr + CheckConfig) (ParseDuration : string → goerr + Z).
Definition parse_window (d : DefaultsConf) : goerr + Z :=
  if bool_decide (AliveWindow d = "") then inr (30 * Second)
  else match ParseDuration (AliveWindow d) with
       | inl e => inl (ErrWrap "defaults.aliveWindow 格式错误" e)
       | inr w => inr w
       end.
Definition LoadConfig (file : goerr + string) : goerr + CheckConfig :=
  match file with
  | inl e => inl (ErrWrap "读取配置文件失败" e)
  | inr data =>
      match unmarshal data with
      | inl e => inl (ErrWrap "解析配置文件失败" e)
      | inr c =>
          if bool_decide (Addr (Redis c) = "") then inl (ErrNew "redis.addr 不能为空")
          else match parse_window (Defaults c) with
               | inl e => inl e
               | inr w =>
                   match Services c with
                   | [] => inl (ErrNew "services 不能为空")
                   | _ :: _ =>
                       match default_targets 0 (Services c) with
                       | inl e => inl e
                       | inr l =>
                           inr (mkCheckConfig (Redis c)
                                  (if bool_decide (Prefix c = "") then "compkg" else Prefix c) (Output c)
                                  (mkDefaultsConf (AliveWindow (Defaults c)) w) l)
                       end
                   end
               end
      end
  end.
End load.

(** ** report.go *)
(** A [time.Time]: nanoseconds since the year 1, where the zero time is; the seconds are an
    int64, and [time.Unix] adds to it. *)
Definition zero_time : Z := 0.
Definition unixToInternal : Z := 62135596800.
Definition time_Unix (sec : Z) : Z := i64 (sec + unixToInternal) * Second.
Definition IsZero (t : Z) : bool := t =? zero_time.

Record instanceResult := mkInstanceResult {
  ir_Instance : string; Alive : bool; Commit : string; BuildID : string; StartTime : Z;
  Pid : string; Host : string; CommitMatch : bool; RestartedNew : bool; reason : string }.
Record serviceResult := mkServiceResult {
  Target : ServiceTarget; res_ExpectCommit : string; res_Instances : list instanceResult;
  AliveCount : Z; Pass : bool; Summary : string }.
Definition parseStartTime (s : string) : Z :=
  if bool_decide (s = "") then zero_time
  else match ParseInt s with Some sec => time_Unix sec | None => zero_time end.
Definition meta_get (m : option (gmap string string)) (k : string) : string :=
  match m with Some m => default "" (m !! k) | None => "" end.
Definition emptyAs (s def : string) : string := if bool_decide (s = "") then def else s.
Definition buildReason (ir : instanceResult) : string :=
  if negb (Alive ir) then "离线"
  else match app (if CommitMatch ir then ([] : list string) else ["commit不匹配"])
                 (if RestartedNew ir then ([] : list string) else ["未重启"]) with
       | [] => "正常"
       | probs => Join probs "+"
       end.
Definition with_reason (ir : instanceResult) : instanceResult :=
  mkInstanceResult (ir_Instance ir) (Alive ir) (Commit ir) (BuildID ir) (StartTime ir) (Pid ir)
    (Host ir) (CommitMatch ir) (RestartedNew ir) (buildReason ir).
(** The body of [checkService]'s loop. *)
Definition check_instance (expectCommit : string) (since : Z) (inst : InstanceMeta) : instanceResult :=
  let commit := meta_get (Meta inst) "commit" in
  let start := parseStartTime (meta_get (Meta inst) "startTime") in
  with_reason
    (mkInstanceResult (im_Instance inst) (im_Alive inst) commit (meta_get (Meta inst) "buildID") start
       (meta_get (Meta inst) "pid") (meta_get (Meta inst) "host")
       (bool_decide (expectCommit = "") || bool_decide (commit = expectCommit))
       (IsZero since || (negb (IsZero start) && (since <? start))) "").

Definition LF : string := String (ascii_of_nat 10) EmptyString.

Section report.
(** How a time and an error are printed. *)
Context (Format : Z → string) (Error : goerr → string).
Definition fmtTime (t : Z) : string := if IsZero t then "-" else Format t.
(** The loop of [judgeService]: the first live instance that is not the new release. *)
Fixpoint judge_instances (expect : string) (l : list instanceResult) : option string :=
  match l with
  | [] => None
  | ir :: l =>
      if negb (Alive ir) then judge_instances expect l
      else if negb (CommitMatch ir) then
        Some ("实例 " +++ ir_Instance ir +++ " 运行 commit=" +++ emptyAs (Commit ir) "?" +++ " 与预期 " +++ expect +++ " 不一致")
      else if negb (RestartedNew ir) then
        Some ("实例 " +++ ir_Instance ir +++ " 启动时间 " +++ fmtTime (StartTime ir) +++ " 早于发版时刻，疑似未重启")
      else judge_instances expect l
  end.
Definition judgeService (res : serviceResult) (target : ServiceTarget) : bool * string :=
  if AliveCount res <? MinInstances target then
    (false, "存活实例 " +++ FormatInt (AliveCount res) +++ " < 期望 " +++ FormatInt (MinInstances target))
  else match judge_instances (res_ExpectCommit res) (res_Instances res) with
       | Some s => (false, s)
       | None => (true, "全部 " +++ FormatInt (AliveCount res) +++ " 个存活实例已更新到 "
                          +++ emptyAs (res_ExpectCommit res) "(未校验commit)")
       end.
(** [checkService], on what the reader answered. *)
Definition checkService (instances : goerr + list InstanceMeta) (target : ServiceTarget)
    (expectCommit : string) (since : Z) : serviceResult :=
  match instances with
  | inl e => mkServiceResult target expectCommit [] 0 false ("读取实例失败: " +++ Error e)
  | inr l =>
      let res := mkServiceResult target expectCommit (map (check_instance expectCommit since) l)
                   (zlen (filter (λ im, im_Alive im = true) l)) false "" in
      let '(pass, summary) := judgeService res target in
      mkServiceResult target expectCommit (res_Instances res) (AliveCount res) pass summary
  end.
(** [BuildMarkdown]: one section per service, one row per instance; [now] is the current time. *)
Definition instance_row (ir : instanceResult) : string :=
  "| " +++ ir_Instance ir +++ " | " +++ emptyAs (Host ir) "-" +++ " | " +++ emptyAs (Pid ir) "-"
  +++ " | `" +++ emptyAs (Commit ir) "?" +++ "` | `" +++ emptyAs (BuildID ir) "?" +++ "` | "
  +++ fmtTime (StartTime ir) +++ " | " +++ (if Alive ir then "活" else "离线") +++ " | " +++ reason ir +++ " |" +++ LF.
Definition service_section (r : serviceResult) : string :=
  "## " +++ Display (Target r) +++ " `" +++ Name (Target r) +++ "`"
  +++ (if HighRisk (Target r) then "（高危）" else "") +++ " — " +++ (if Pass r then "✅ 成功" else "❌ 失败") +++ LF +++ LF
  +++ "> " +++ Summary r +++ LF +++ LF
  +++ "| 实例 | 主机 | PID | 运行commit | BuildID | 启动时间 | 状态 | 结论 |" +++ LF
  +++ "|------|------|-----|-----------|---------|----------|------|------|" +++ LF
  +++ (match res_Instances r with [] => "| _无实例_ | - | - | - | - | - | - | - |" +++ LF | _ => "" end)
  +++ foldr (λ ir s, instance_row ir +++ s) "" (res_Instances r) +++ LF.
Definition BuildMarkdown (now : Z) (results : list serviceResult) (expectCommit : string) (since : Z)
    (allPass : bool) : string :=
  "# 发版自动化服务检测报告" +++ LF +++ LF
  +++ "- 检测时间：" +++ Format now +++ LF
  +++ "- 预期 commit：`" +++ emptyAs expectCommit "(未指定，跳过commit校验)" +++ "`" +++ LF
  +++ (if IsZero since then "- 发版时刻：未指定（跳过重启时间校验）" +++ LF
       else "- 发版时刻：" +++ Format since +++ "（启动时间须晚于此）" +++ LF)
  +++ "- 总体结论：**" +++ (if allPass then "✅ 全部通过" else "❌ 存在失败") +++ "**" +++ LF +++ LF
  +++ foldr (λ r s, service_section r +++ s) "" results.

(** ** When a service passes *)
(** The instance runs the expected commit, if there is one, and started after the release, if
    its time is given. *)
Definition is_release (expect : string) (since : Z) (im : InstanceMeta) : Prop :=
  (expect = "" ∨ meta_get (Meta im) "commit" = expect) ∧
  (since = zero_time ∨
   ∃ sec, ParseInt (meta_get (Meta im) "startTime") = Some sec ∧ time_Unix sec ≠ zero_time ∧ since < time_Unix sec).

Lemma check_instance_spec expect since im :
  CommitMatch (check_instance expect since im) = true ∧ RestartedNew (check_instance expect since im) = true
  ↔ is_release expect since im.
Proof.
  unfold is_release, check_instance, IsZero, parseStartTime. cbn [CommitMatch RestartedNew with_reason].
  rewrite !orb_true_iff, !andb_true_iff, !bool_decide_eq_true, negb_true_iff, Z.eqb_eq, Z.eqb_neq, Z.ltb_lt.
  assert (ParseInt "" = None) as Hempty by reflexivity.
  set (m := meta_get (Meta im) "startTime").
  destruct (decide (m = "")) as [E|E].
  { rewrite (bool_decide_eq_true_2 (m = "")) by done. rewrite E, Hempty. unfold zero_time. naive_solver. }
  rewrite (bool_decide_eq_false_2 (m = "")) by done. destruct (ParseInt m) as [sec|]; naive_solver.
Qed.
Lemma judge_instances_spec expect since l :
  judge_instances expect (map (check_instance expect since) l) = None
  ↔ ∀ im, im ∈ l → im_Alive im = true → is_release expect since im.
Proof.
  induction l as [|im l IH]; cbn [map judge_instances]; [by split; [intros _ im ?%not_elem_of_nil|]|].
  assert ((∀ x, x ∈ im :: l → im_Alive x = true → is_release expect since x)
          ↔ (im_Alive im = true → is_release expect since im)
            ∧ ∀ x, x ∈ l → im_Alive x = true → is_release expect since x) as ->.
  { split; [intros Hx; split; [|intros x Hl]; apply Hx; by constructor|].
    intros [H1 H2] x [->|Hl]%elem_of_cons; auto. }
  rewrite <-IH, <-check_instance_spec. clear IH.
  change (Alive (check_instance expect since im)) with (im_Alive im).
  destruct (im_Alive im), (CommitMatch _), (RestartedNew _); cbn [negb]; intuition congruence.
Qed.

(** The verdict. A service passes exactly when its instances could be read, enough of them
    are alive, and every live one runs the expected commit, if one is expected, and started
    after the release, if its time is given; an instance without a readable start time did
    not. *)
Lemma release_verdict (instances : goerr + list InstanceMeta) (target : ServiceTarget)
    (expect : string) (since : Z) :
  Pass (checkService instances target expect since) = true ↔
  ∃ l, instances = inr l ∧ MinInstances target <= zlen (filter (λ im, im_Alive im = true) l) ∧
    ∀ im, im ∈ l → im_Alive im = true → is_release expect since im.
Proof.
  unfold checkService, judgeService. destruct instances as [e|l]; [split; [done|naive_solver]|].
  cbn [AliveCount res_ExpectCommit res_Instances].
  pose proof (judge_instances_spec expect since l) as Hj.
  destruct (Z.ltb_spec (zlen (filter (λ im, im_Alive im = true) l)) (MinInstances target)); cbn.
  { split; [done|]. intros (l' & [= <-] & ? & _). lia. }
  destruct (judge_instances _ _) as [s|] eqn:E; cbn; [split; [done|]|split; [intros _|done]].
  - intros (l' & [= <-] & _ & Hall). by apply Hj in Hall.
  - exists l. split_and!; [done|lia|]. by apply Hj.
Qed.
End report.

(** A loaded configuration has an address, a prefix, services with names, and asks each for at
    least one instance; so no service passes with no live instance. *)
Definition target_ok (t : ServiceTarget) : Prop := Name t ≠ "" ∧ Display t ≠ "" ∧ 1 <= MinInstances t.
Definition config_ok (c : CheckConfig) : Prop :=
  Addr (Redis c) ≠ "" ∧ Prefix c ≠ "" ∧ Services c ≠ [] ∧ Forall target_ok (Services c).
(** A service of the file, and the one the check uses. *)
Record filled (t t' : ServiceTarget) : Prop := {
  fi_name : Name t' = Name t;
  fi_risk : HighRisk t' = HighRisk t;
  fi_commit : ExpectCommit t' = ExpectCommit t;
  fi_display : (Display t = "" → Display t' = Name t) ∧ (Display t ≠ "" → Display t' = Display t);
  fi_min : (MinInstances t <= 0 → MinInstances t' = 1) ∧ (0 < MinInstances t → MinInstances t' = MinInstances t) }.
Lemma filled_ok t t' : Name t ≠ "" → filled t t' → target_ok t'.
Proof.
  intros Hn [N _ _ [D1 D2] [M1 M2]]. unfold target_ok. rewrite N. split_and!; [done| |].
  - destruct (decide (Display t = "")) as [E|E]; [by rewrite D1|by rewrite D2].
  - destruct (decide (MinInstances t <= 0)); [by rewrite M1|rewrite M2; lia].
Qed.
Lemma default_targets_spec i l :
  match default_targets i l with
  | inr l' => Forall (λ t, Name t ≠ "") l ∧ Forall2 filled l l'
  | inl e => ∃ n t, l !! n = Some t ∧ Name t = "" ∧ Forall (λ t, Name t ≠ "") (take n l) ∧
      e = ErrNew ("services[" +++ FormatInt (i + Z.of_nat n) +++ "].name 不能为空")
  end.
Proof.
  revert i. induction l as [|t l IH]; intros i; cbn [default_targets]; [done|].
  case_bool_decide as Hn.
  { exists 0%nat, t. split_and!; [done|done|constructor|]. by rewrite Z.add_0_r. }
  specialize (IH (i + 1)). destruct (default_targets (i + 1) l) as [e|l'].
  - destruct IH as (n & t' & Ht & Hn' & Hall & ->). exists (S n), t'. split_and!; [done|done|by constructor|].
    by replace (i + Z.of_nat (S n)) with (i + 1 + Z.of_nat n) by lia.
  - destruct IH as [IH1 IH2]. split; constructor; try done. unfold default_target. split; cbn; try done.
    + by case_bool_decide.
    + split; intros ?; destruct (Z.leb_spec (MinInstances t) 0); lia.
Qed.

(** C36: The configuration of a check. What is loaded is well formed, and is the file's: the prefix
    is "compkg" if the file has none, the window is what its text means as a duration, or 30 seconds
    if it has none, and the services are the file's in their order, an empty display name replaced
    by the name and a minimum that is not positive by one, all else as written. Otherwise the error
    says what is wrong: the file cannot be read or decoded, has no address, a window that is not a
    duration, no service, or a service without a name, the first of which is named. *)
Theorem config_well_formed (unmarshal : string → goerr + CheckConfig) (ParseDuration : string → goerr + Z)
    (file : goerr + string) :
  match LoadConfig unmarshal ParseDuration file with
  | inr c => config_ok c ∧ ∃ data c0, file = inr data ∧ unmarshal data = inr c0 ∧
      Redis c = Redis c0 ∧ Output c = Output c0 ∧
      (Prefix c0 = "" → Prefix c = "compkg") ∧ (Prefix c0 ≠ "" → Prefix c = Prefix c0) ∧
      (AliveWindow (Defaults c0) = "" → aliveWindow (Defaults c) = 30 * Second) ∧
      (AliveWindow (Defaults c0) ≠ "" →
        ParseDuration (AliveWindow (Defaults c0)) = inr (aliveWindow (Defaults c))) ∧
      Forall2 filled (Services c0) (Services c)
  | inl e =>
      (∃ e', file = inl e' ∧ e = ErrWrap "读取配置文件失败" e') ∨
      (∃ data e', file = inr data ∧ unmarshal data = inl e' ∧ e = ErrWrap "解析配置文件失败" e') ∨
      ∃ data c0, file = inr data ∧ unmarshal data = inr c0 ∧
        (Addr (Redis c0) = "" ∧ e = ErrNew "redis.addr 不能为空" ∨
         (∃ e', AliveWindow (Defaults c0) ≠ "" ∧ ParseDuration (AliveWindow (Defaults c0)) = inl e' ∧
                e = ErrWrap "defaults.aliveWindow 格式错误" e') ∨
         Services c0 = [] ∧ e = ErrNew "services 不能为空" ∨
         ∃ n t, Services c0 !! n = Some t ∧ Name t = "" ∧ Forall (λ t, Name t ≠ "") (take n (Services c0)) ∧
                e = ErrNew ("services[" +++ FormatInt (Z.of_nat n) +++ "].name 不能为空"))
  end.
Proof.
  unfold LoadConfig. destruct file as [e|data]; [by eauto|].
  destruct (unmarshal data) as [e|c0] eqn:Eu; [by eauto 7|].
  case_bool_decide as Ha; [right; right; exists data, c0; by auto|].
  unfold parse_window. destruct (decide (AliveWindow (Defaults c0) = "")) as [Et|Et];
    [rewrite bool_decide_eq_true_2 by done|rewrite bool_decide_eq_false_2 by done;
     destruct (ParseDuration _) as [e|w] eqn:Ew; [right; right; exists data, c0; by eauto 10|]].
  all: destruct (Services c0) as [|t l] eqn:Es; [right; right; exists data, c0; by auto 12|].
  all: pose proof (default_targets_spec 0 (t :: l)) as Hn; destruct (default_targets 0 (t :: l)) as [e|l'];
    [destruct Hn as (n & t' & ? & ? & ? & ->); right; right; exists data, c0; rewrite Es;
     do 2 (split; [done|]); do 3 right; by exists n, t'|].
  all: destruct Hn as [Hn Hf]; split;
    [split_and!; [done|cbn; by case_bool_decide|by inversion Hf|
      cbn; clear -Hn Hf; induction Hf; constructor; decompose_Forall_hyps; eauto using filled_ok]
    |exists data, c0; rewrite Es; cbn; split_and!; try done; intros; first [by case_bool_decide|congruence]].
Qed.
