(* ===== verification/Sharding.v ===== *)
(** The sharding of API request records (pkg/sharding): which table a device's records are in, and
    the list of all the tables. *)
From Stdlib Require Import Ascii.
From stdpp Require Import prelude strings list.
From S2P Require Import Prelude GoStrings Digest.

(** ** Configuration *)
Definition ApiRequestRecordShardModeSingle : string := "single".
Definition ApiRequestRecordShardModeHash : string := "hash".
Definition ApiRequestRecordShardCount : Z := 64.
Definition ApiRequestRecordVirtualShardCount : Z := 1024.
Record ApiRequestRecordShardingConfig := mkSharding {
  Mode : string; TableName : string; TablePrefix : string;
  PhysicalShardCount : Z; VirtualShardCount : Z }.
Definition DefaultApiRequestRecordShardingConfig : ApiRequestRecordShardingConfig :=
  mkSharding ApiRequestRecordShardModeHash "api_request_record" "api_request_record_"
    ApiRequestRecordShardCount ApiRequestRecordVirtualShardCount.
Definition or_default (s d : string) : string := if bool_decide (s = "") then d else s.
Definition normalizeApiRequestRecordShardingConfig (cfg : ApiRequestRecordShardingConfig)
    : goerr + ApiRequestRecordShardingConfig :=
  let d := DefaultApiRequestRecordShardingConfig in
  let mode := or_default (TrimSpace (Mode cfg)) (Mode d) in
  let name := or_default (TrimSpace (TableName cfg)) (TableName d) in
  let prefix := or_default (TrimSpace (TablePrefix cfg)) (TablePrefix d) in
  let physical := if PhysicalShardCount cfg <=? 0 then PhysicalShardCount d else PhysicalShardCount cfg in
  let virtual := if VirtualShardCount cfg <=? 0 then VirtualShardCount d else VirtualShardCount cfg in
  if bool_decide (mode = ApiRequestRecordShardModeSingle) then inr (mkSharding mode name prefix 1 virtual)
  else if bool_decide (mode = ApiRequestRecordShardModeHash) then inr (mkSharding mode name prefix physical virtual)
  else inl (ErrNew "invalid api_request_record sharding mode").
(** The global configuration after a call of [ConfigureApiRequestRecordSharding]. *)
Definition ConfigureApiRequestRecordSharding (cfg : ApiRequestRecordShardingConfig)
    (global : ApiRequestRecordShardingConfig) : option goerr * ApiRequestRecordShardingConfig :=
  match normalizeApiRequestRecordShardingConfig cfg with
  | inl e => (Some e, global)
  | inr normalized => (None, normalized)
  end.

(** ** Tables *)
Definition shard_table (cfg : ApiRequestRecordShardingConfig) (i : Z) : string := TablePrefix cfg +++ fmt_0d 2 i.
Definition ApiRequestRecordTable (cfg : ApiRequestRecordShardingConfig) (deviceNo : string) : gores string :=
  if bool_decide (Mode cfg = ApiRequestRecordShardModeSingle) then Ret (TableName cfg)
  else if bool_decide (deviceNo = "") then Ret (shard_table cfg 0)
  else if u32 (PhysicalShardCount cfg) =? 0 then Panic "runtime error: integer divide by zero"
  else Ret (shard_table cfg (crc32 (to_bytes deviceNo) mod u32 (PhysicalShardCount cfg))).
Definition AllApiRequestRecordTables (cfg : ApiRequestRecordShardingConfig) : list string :=
  if bool_decide (Mode cfg = ApiRequestRecordShardModeSingle) then [TableName cfg]
  else map (shard_table cfg) (seqZ 0 (PhysicalShardCount cfg)).

(** ** What a configuration guarantees *)
(** The configurations the program can hold: the default one, or a normalized one. *)
Definition sharding_ok (cfg : ApiRequestRecordShardingConfig) : Prop :=
  (Mode cfg = ApiRequestRecordShardModeSingle ∨ Mode cfg = ApiRequestRecordShardModeHash) ∧
  1 <= PhysicalShardCount cfg < 2 ^ 63 ∧ TableName cfg ≠ "" ∧ TablePrefix cfg ≠ "".
Lemma default_sharding_ok : sharding_ok DefaultApiRequestRecordShardingConfig.
Proof. split; [by right|]. by vm_compute. Qed.
Lemma or_default_ne s d : d ≠ "" → or_default s d ≠ "".
Proof. unfold or_default. by case_bool_decide. Qed.
Lemma configure_ok cfg global :
  PhysicalShardCount cfg < 2 ^ 63 → sharding_ok global →
  sharding_ok (ConfigureApiRequestRecordSharding cfg global).2.
Proof.
  intros Hc Hg. unfold ConfigureApiRequestRecordSharding, normalizeApiRequestRecordShardingConfig.
  case_bool_decide as E; [|case_bool_decide as E'; [|done]]; unfold sharding_ok;
    cbn [snd Mode PhysicalShardCount TableName TablePrefix].
  - split_and!; [by left|done|done|by apply or_default_ne|by apply or_default_ne].
  - split_and!; [by right| | |by apply or_default_ne|by apply or_default_ne];
      destruct (Z.leb_spec (PhysicalShardCount cfg) 0); try done; lia.
Qed.
Definition configure_all (cs : list ApiRequestRecordShardingConfig) (global : ApiRequestRecordShardingConfig)
    : ApiRequestRecordShardingConfig :=
  foldl (λ g c, (ConfigureApiRequestRecordSharding c g).2) global cs.
Lemma configure_all_ok cs global :
  Forall (λ c, PhysicalShardCount c < 2 ^ 63) cs → sharding_ok global → sharding_ok (configure_all cs global).
Proof.
  revert global. induction cs as [|c cs IH]; intros global Hc Hg; [done|].
  apply Forall_cons in Hc as [H1 H2]. cbn. apply IH; [done|]. by apply configure_ok.
Qed.

Lemma shard_table_inj cfg i j :
  0 <= i < 2 ^ 63 → 0 <= j < 2 ^ 63 → shard_table cfg i = shard_table cfg j → i = j.
Proof. intros Hi Hj E%app_str_inj_l. by eapply fmt_0d_inj. Qed.

(** Routing stays within the listed tables. Whatever configurations were set, accepted or
    not, the list has as many different tables as there are shards (one in single mode), and a
    device's table is one of them; only a shard count that is a multiple of 2^32 makes the
    routing of a named device panic. *)
Lemma routed_table_listed (cs : list ApiRequestRecordShardingConfig) (deviceNo : string) :
  Forall (λ c, PhysicalShardCount c < 2 ^ 63) cs →
  let cfg := configure_all cs DefaultApiRequestRecordShardingConfig in
  NoDup (AllApiRequestRecordTables cfg) ∧
  zlen (AllApiRequestRecordTables cfg)
    = (if bool_decide (Mode cfg = ApiRequestRecordShardModeSingle) then 1 else PhysicalShardCount cfg) ∧
  match ApiRequestRecordTable cfg deviceNo with
  | Ret t => t ∈ AllApiRequestRecordTables cfg
  | Panic _ => deviceNo ≠ "" ∧ Mode cfg = ApiRequestRecordShardModeHash ∧ PhysicalShardCount cfg mod 2 ^ 32 = 0
  end.
Proof.
  intros Hcs cfg. destruct (configure_all_ok cs _ Hcs default_sharding_ok) as (Hm & Hp & _). fold cfg in Hm, Hp.
  assert (∀ i, 0 <= i < PhysicalShardCount cfg →
    shard_table cfg i ∈ map (shard_table cfg) (seqZ 0 (PhysicalShardCount cfg))) as Hin.
  { intros i Hi. apply list_elem_of_fmap. exists i. split; [done|]. apply elem_of_seqZ. lia. }
  unfold AllApiRequestRecordTables, ApiRequestRecordTable. case_bool_decide as E.
  { split_and!; [by apply NoDup_singleton|done|by constructor]. }
  split_and!.
  - apply NoDup_fmap_2_strong; [|apply NoDup_seqZ].
    intros i j Hi%elem_of_seqZ Hj%elem_of_seqZ. apply shard_table_inj; lia.
  - unfold zlen. rewrite length_map, length_seqZ. lia.
  - destruct Hm as [Hm|Hm]; [done|]. case_bool_decide as Ed; [apply Hin; lia|].
    destruct (Z.eqb_spec (u32 (PhysicalShardCount cfg)) 0) as [Hz|Hz]; [done|].
    assert (0 <= u32 (PhysicalShardCount cfg)) by (unfold u32; apply Z.mod_pos_bound; lia).
    assert (u32 (PhysicalShardCount cfg) <= PhysicalShardCount cfg) by (unfold u32; apply Z.mod_le; lia).
    apply Hin. pose proof (Z.mod_pos_bound (crc32 (to_bytes deviceNo)) (u32 (PhysicalShardCount cfg))). lia.
Qed.

(** Two settings, of which the second is refused. *)
Definition sharding_settings : list ApiRequestRecordShardingConfig :=
  [mkSharding " hash " "" "rec_" 4 0; mkSharding "range" "" "" 8 0].
Lemma routed_table_listed_witness :
  let cfg := configure_all sharding_settings DefaultApiRequestRecordShardingConfig in
  AllApiRequestRecordTables cfg = ["rec_00"; "rec_01"; "rec_02"; "rec_03"] ∧
  ApiRequestRecordTable cfg "dev-1" = Ret "rec_02" ∧
  match ApiRequestRecordTable cfg "dev-1" with
  | Ret t => t ∈ AllApiRequestRecordTables cfg
  | Panic _ => "dev-1" ≠ "" ∧ Mode cfg = ApiRequestRecordShardModeHash ∧ PhysicalShardCount cfg mod 2 ^ 32 = 0
  end.
Proof.
  split; [vm_compute; reflexivity|]. split; [vm_compute; reflexivity|].
  pose proof (routed_table_listed sharding_settings "dev-1") as P. cbv zeta in P.
  apply P. repeat constructor.
Defined.
