(* ===== verification/Dispatch.v ===== *)
(** Node routing (pkg/dispatch/router.go): which node holds a device's connection, and the
    envelope of an instruction on a node's private channel. *)
From Stdlib Require Import Ascii.
From stdpp Require Import prelude gmap strings list.
From S2P Require Import Prelude GoStrings Digest Utf8.

(** ** Keys and data *)
Definition NodeAliveKey (instanceId : string) : string := "iot:nodes:alive:" +++ instanceId.
Definition NodeInstructionChannel (instanceId : string) : string := "iot:instruction:" +++ instanceId.
Definition InstructionPayloadSchema : string := "queue.v1".
Record routeValueArray := mkRouteArray { rva_Schema : string; Addresses : list string }.
Record routeValueSingle := mkRouteSingle { rvs_Schema : string; InstanceId : string }.
(** [Trace] is [None] for a nil map. *)
Record InstructionPayload := mkPayload { ip_Schema : string; QueueId : Z; Trace : option (gmap string string) }.
Definition blank (s : string) : bool := bool_decide (TrimSpace s = "").

(** encoding/json at the types the program decodes and encodes. *)
Class Json := {
  unmarshal_strings : string → goerr + list string;
  unmarshal_string : string → goerr + string;
  unmarshal_schema : string → goerr + string;
  unmarshal_array : string → goerr + routeValueArray;
  unmarshal_single : string → goerr + routeValueSingle;
  unmarshal_payload : string → goerr + InstructionPayload;
  marshal_payload : InstructionPayload → string }.
(** An omitted map and an empty one are both left out of the text. *)
Definition no_trace (t : option (gmap string string)) : option (gmap string string) :=
  match t with Some m => if bool_decide (m = ∅) then None else Some m | None => None end.
Definition ascii_trace (t : option (gmap string string)) : Prop :=
  match t with Some m => map_Forall (λ k v, is_ascii k = true ∧ is_ascii v = true) m | None => True end.
Class JsonLaws `{Json} := {
  (** an object, without space around it *)
  marshal_object p : ∃ s, marshal_payload p = String "{" s;
  marshal_trimmed p : TrimSpace (marshal_payload p) = marshal_payload p;
  unmarshal_marshal p : is_ascii (ip_Schema p) = true → in_i64 (QueueId p) → ascii_trace (Trace p) →
    unmarshal_payload (marshal_payload p)
    = inr (mkPayload (ip_Schema p) (QueueId p) (no_trace (Trace p))) }.

(** A Redis client: [HGet] answers the value and the error as go-redis returns them ([redis.Nil]
    where there is no such field), [Exists] the number of keys. *)
Definition redis_Nil : goerr := ErrSentinel "redis.Nil".
Record Redis := mkRedis {
  HGet : string → string → string * option goerr;
  Exists : string → goerr + Z;
  Publish : string → string → option goerr }.

Section dispatch.
Context `{Json}.
(** ** Looking a node up; a nil client is [None] *)
Definition IsNodeAlive (client : option Redis) (instanceId : string) : bool :=
  match client with
  | None => false
  | Some c => if blank instanceId then false
              else match Exists c (NodeAliveKey instanceId) with inr n => 0 <? n | inl _ => false end
  end.
Fixpoint firstAliveNode (client : option Redis) (addresses : list string) : string :=
  match addresses with
  | [] => ""
  | addr :: addresses =>
      if IsNodeAlive client (TrimSpace addr) then TrimSpace addr else firstAliveNode client addresses
  end.
Definition if_alive (client : option Redis) (addr : string) : string :=
  if IsNodeAlive client addr then addr else "".
Definition sum_map {A B} (f : A → B) (x : goerr + A) : goerr + B :=
  match x with inl e => inl e | inr a => inr (f a) end.
Definition lookupNodeFromRaw (client : option Redis) (raw : string) : goerr + string :=
  match raw with
  | EmptyString => inr ""
  | String c _ =>
      if Ascii.eqb c "[" then sum_map (firstAliveNode client) (unmarshal_strings raw)
      else if Ascii.eqb c "{" then
        match unmarshal_schema raw with
        | inl e => inl e
        | inr schema =>
            if bool_decide (schema = "addrs.v1") then
              sum_map (λ v, firstAliveNode client (Addresses v)) (unmarshal_array raw)
            else if bool_decide (schema = "addr.v1") then
              sum_map (λ v, if_alive client (InstanceId v)) (unmarshal_single raw)
            else inl (ErrNew ("未知路由数据版本: " +++ schema))
        end
      else if Ascii.eqb c (ascii_of_nat 34) then sum_map (if_alive client) (unmarshal_string raw)
      else inr (if_alive client raw)
  end.
Definition LookupDeviceNode (client : option Redis) (deviceRouteKey deviceNo : string) : goerr + string :=
  match client with
  | None => inr ""
  | Some c =>
      if blank deviceRouteKey || blank deviceNo then inr ""
      else
        let '(raw, err) := HGet c deviceRouteKey deviceNo in
        if bool_decide (err = Some redis_Nil) || blank raw then inr ""
        else match err with
             | Some e => inl e
             | None => lookupNodeFromRaw client (TrimSpace raw)
             end
  end.

(** ** The instruction envelope *)
(** The message sent, if one is, and the result. *)
Definition PublishToNodeWithTrace (client : option Redis) (instanceId : string) (queueId : Z)
    (traceCarrier : option (gmap string string)) : option (string * string) * option goerr :=
  match client with
  | None => (None, None)
  | Some c =>
      if blank instanceId || (queueId <=? 0) then (None, None)
      else
        let raw := marshal_payload (mkPayload InstructionPayloadSchema queueId traceCarrier) in
        (Some (NodeInstructionChannel instanceId, raw), Publish c (NodeInstructionChannel instanceId) raw)
  end.
Definition PublishToNode (client : option Redis) (instanceId : string) (queueId : Z) :=
  PublishToNodeWithTrace client instanceId queueId None.
Definition ParseInstructionPayload (raw : string) : goerr + (Z * option (gmap string string)) :=
  let raw := TrimSpace raw in
  match raw with
  | EmptyString => inl (ErrNew "empty instruction payload")
  | String c _ =>
      if negb (Ascii.eqb c "{")
      then inl (ErrNew ("unsupported instruction payload format (expect json envelope): " +++ raw))
      else match unmarshal_payload raw with
           | inl e => inl (ErrWrap "decode instruction envelope" e)
           | inr p =>
               if QueueId p <=? 0 then inl (ErrNew ("invalid queueId in envelope: " +++ FormatInt (QueueId p)))
               else inr (QueueId p, Trace p)
           end
  end.

(** ** Properties *)
Lemma TrimSpace_empty : TrimSpace "" = "".
Proof. reflexivity. Qed.
Lemma alive_nonempty client i : IsNodeAlive client i = true → i ≠ "".
Proof. intros Ha ->. destruct client; [|done]. cbn in Ha. unfold blank in Ha. by rewrite TrimSpace_empty in Ha. Qed.
Lemma if_alive_spec client i : if_alive client i = "" ∨ IsNodeAlive client (if_alive client i) = true.
Proof. unfold if_alive. destruct (IsNodeAlive client i) eqn:E; auto. Qed.
(** The first live address of the list, trimmed. *)
Lemma firstAliveNode_spec client l :
  (firstAliveNode client l = "" ∧ Forall (λ a, IsNodeAlive client (TrimSpace a) = false) l) ∨
  (IsNodeAlive client (firstAliveNode client l) = true ∧
   ∃ l1 a l2, l = l1 ++ a :: l2 ∧ firstAliveNode client l = TrimSpace a ∧
     Forall (λ a, IsNodeAlive client (TrimSpace a) = false) l1).
Proof.
  induction l as [|a l IH]; cbn; [by left|].
  destruct (IsNodeAlive client (TrimSpace a)) eqn:E.
  - right. split; [done|]. by exists [], a, l.
  - destruct IH as [[-> Hf]|[Ha (l1 & b & l2 & -> & Hb & Hf)]]; [left; by split; [|constructor]|].
    right. split; [done|]. exists (a :: l1), b, l2. split_and!; [done|done|by constructor].
Qed.
Lemma firstAliveNode_alive client l : firstAliveNode client l = "" ∨ IsNodeAlive client (firstAliveNode client l) = true.
Proof. destruct (firstAliveNode_spec client l) as [[-> _]|[Ha _]]; auto. Qed.
Lemma sum_map_inr {A B} (f : A → B) x b : sum_map f x = inr b → ∃ a, x = inr a ∧ b = f a.
Proof. destruct x as [e|a]; [done|]. intros [= <-]. by exists a. Qed.

(** The addresses a route value names: the elements of a list, the one address of the other
    forms, [None] if the value does not decode. *)
Definition route_addresses (raw : string) : option (list string) :=
  match raw with
  | EmptyString => Some []
  | String c _ =>
      if Ascii.eqb c "[" then match unmarshal_strings raw with inr l => Some (map TrimSpace l) | inl _ => None end
      else if Ascii.eqb c "{" then
        match unmarshal_schema raw with
        | inl _ => None
        | inr schema =>
            if bool_decide (schema = "addrs.v1") then
              match unmarshal_array raw with inr v => Some (map TrimSpace (Addresses v)) | inl _ => None end
            else if bool_decide (schema = "addr.v1") then
              match unmarshal_single raw with inr v => Some [InstanceId v] | inl _ => None end
            else None
        end
      else if Ascii.eqb c (ascii_of_nat 34) then
        match unmarshal_string raw with inr a => Some [a] | inl _ => None end
      else Some [raw]
  end.
Lemma firstAliveNode_find client l :
  firstAliveNode client l = default "" (find (IsNodeAlive client) (map TrimSpace l)).
Proof. induction l as [|a l IH]; cbn; [done|]. destruct (IsNodeAlive client (TrimSpace a)); done. Qed.
Lemma if_alive_find client a : if_alive client a = default "" (find (IsNodeAlive client) [a]).
Proof. unfold if_alive. cbn. by destruct (IsNodeAlive client a). Qed.
Lemma lookup_find client raw :
  match route_addresses raw with
  | Some l => lookupNodeFromRaw client raw = inr (default "" (find (IsNodeAlive client) l))
  | None => ∃ e, lookupNodeFromRaw client raw = inl e
  end.
Proof.
  unfold route_addresses, lookupNodeFromRaw. destruct raw as [|c s]; [done|].
  destruct (Ascii.eqb c "[").
  { destruct (unmarshal_strings _); cbn; [by eexists|]. by rewrite firstAliveNode_find. }
  destruct (Ascii.eqb c "{").
  { destruct (unmarshal_schema _) as [e|schema]; [by eexists|].
    case_bool_decide; [destruct (unmarshal_array _); cbn; [by eexists|]; by rewrite firstAliveNode_find|].
    case_bool_decide; [|by eexists]. destruct (unmarshal_single _); cbn [sum_map]; [by eexists|].
    by rewrite if_alive_find. }
  destruct (Ascii.eqb c _); [|by rewrite if_alive_find].
  destruct (unmarshal_string _); cbn [sum_map]; [by eexists|]. by rewrite if_alive_find.
Qed.

(** Routing. A device whose route value could be read is routed to the first of the addresses
    the value names, in whichever of its forms, that is alive, and to none if none is alive; a
    value that does not decode is an error. *)
Lemma routed_to_first_alive (c : Redis) (deviceRouteKey deviceNo raw : string) :
  blank deviceRouteKey = false → blank deviceNo = false → HGet c deviceRouteKey deviceNo = (raw, None) →
  match route_addresses (TrimSpace raw) with
  | Some l =>
      LookupDeviceNode (Some c) deviceRouteKey deviceNo = inr (default "" (find (IsNodeAlive (Some c)) l))
  | None => ∃ e, LookupDeviceNode (Some c) deviceRouteKey deviceNo = inl e
  end.
Proof.
  intros Hk Hd Hg. unfold LookupDeviceNode. rewrite Hk, Hd, Hg. cbn [orb].
  rewrite bool_decide_eq_false_2 by done. cbn [orb].
  pose proof (lookup_find (Some c) (TrimSpace raw)) as Hl. unfold blank. case_bool_decide as E; [|done].
  by rewrite E.
Qed.

(** A failed read is not reported. go-redis returns the empty string with an error, and that
    is tested before the error: whatever goes wrong with the read, the device looks unrouted. *)
Lemma redis_error_hidden (c : Redis) (deviceRouteKey deviceNo : string) (e : goerr) :
  HGet c deviceRouteKey deviceNo = ("", Some e) →
  LookupDeviceNode (Some c) deviceRouteKey deviceNo = inr "".
Proof.
  intros Hg. unfold LookupDeviceNode. rewrite Hg. destruct (blank _ || blank _); [done|].
  assert (blank "" = true) as -> by reflexivity. by rewrite orb_true_r.
Qed.

(** The envelope arrives. What is published for a queue id and a trace, whose keys and values
    are ASCII as those of a W3C carrier, is read back as that id and trace (an empty trace as
    none); and nothing is published for an id that could not be read back. *)
Lemma instruction_roundtrip `{!JsonLaws} (client : option Redis) (instanceId : string) (queueId : Z)
    (trace : option (gmap string string)) :
  in_i64 queueId → ascii_trace trace →
  match (PublishToNodeWithTrace client instanceId queueId trace).1 with
  | Some (channel, raw) =>
      channel = NodeInstructionChannel instanceId ∧ 0 < queueId ∧
      ParseInstructionPayload raw = inr (queueId, no_trace trace)
  | None => client = None ∨ blank instanceId = true ∨ queueId <= 0
  end.
Proof.
  intros Hi Ht. unfold PublishToNodeWithTrace. destruct client as [c|]; [|by left].
  destruct (blank instanceId) eqn:Eb; cbn [orb fst]; [by right; left|].
  destruct (Z.leb_spec queueId 0) as [Hq|Hq]; cbn [fst]; [by right; right|]. split_and!; [done|done|].
  unfold ParseInstructionPayload. rewrite marshal_trimmed.
  set (p := mkPayload InstructionPayloadSchema queueId trace).
  destruct (marshal_object p) as [s Hs]. pose proof (unmarshal_marshal p eq_refl Hi Ht) as Hu.
  rewrite Hs in *. rewrite Ascii.eqb_refl. cbn [negb]. rewrite Hu. unfold p. cbn [QueueId Trace].
  destruct (Z.leb_spec queueId 0); [lia|done].
Qed.
End dispatch.

(** ** Witnesses: a client over maps, and a codec *)
Definition map_redis (routes : gmap (string * string) string) (alive : list string) : Redis :=
  mkRedis (λ k f, match routes !! (k, f) with Some v => (v, None) | None => ("", Some redis_Nil) end)
    (λ k, inr (if bool_decide (k ∈ map NodeAliveKey alive) then 1 else 0)) (λ _ _, None).
Definition dquote : string := String (ascii_of_nat 34) EmptyString.
Definition unquote (s : string) : string := trim_prefix (trim_suffix s dquote) dquote.
(** Arrays of strings without commas, and a payload as a number between braces. *)
#[global] Instance num_Json : Json := {
  unmarshal_strings raw := if has_suffix raw "]"
    then inr (map unquote (Split "," (trim_prefix (trim_suffix raw "]") "["))) else inl (ErrExt "json");
  unmarshal_string _ := inl (ErrExt "json");
  unmarshal_schema _ := inl (ErrExt "json");
  unmarshal_array _ := inl (ErrExt "json");
  unmarshal_single _ := inl (ErrExt "json");
  unmarshal_payload raw :=
    match parse_digits (trim_prefix (trim_suffix raw "}") "{") 0 with
    | Some (Zpos n) => match decode n with
                       | Some (s, q, t) => inr (mkPayload s q t)
                       | None => inl (ErrExt "json")
                       end
    | _ => inl (ErrExt "json")
    end;
  marshal_payload p := "{" +++ utoa (Zpos (encode (ip_Schema p, QueueId p, no_trace (Trace p)))) +++ "}" }.
Lemma last_to_bytes s b l : to_bytes (s +++ b) = l → b ≠ "" → last l = last (to_bytes b).
Proof.
  intros <- Hb. rewrite to_bytes_app, last_app. destruct b as [|c b]; [done|].
  destruct (last (to_bytes (String c b))) eqn:E; [done|]. by apply last_None in E.
Qed.
Lemma TrimSpace_braces s : TrimSpace ("{" +++ s +++ "}") = "{" +++ s +++ "}".
Proof.
  assert (find (has_prefix ("{" +++ s +++ "}")) spaces = None) as Hp by reflexivity.
  assert (find (has_suffix ("{" +++ s +++ "}")) spaces = None) as Hs.
  { destruct (find (has_suffix ("{" +++ s +++ "}")) spaces) as [sp|] eqn:E; [|reflexivity].
    apply find_some in E as [Hin Hsuf].
    apply has_suffix_spec in Hsuf as [t Ht]. exfalso.
    assert (Forall (λ sp, sp ≠ "" ∧ last (to_bytes sp) ≠ Some 125) spaces) as Hall
      by (repeat constructor; by vm_compute).
    rewrite Forall_forall in Hall. destruct (Hall sp) as [Hne Hl]; [by apply list_elem_of_In|]. apply Hl.
    rewrite <-(last_to_bytes t sp (to_bytes ("{" +++ s +++ "}"))) by (done || by rewrite Ht).
    rewrite <-app_str_assoc. by apply (last_to_bytes ("{" +++ s) "}"). }
  unfold TrimSpace. assert (∀ n, trim_with trim_prefix has_prefix n ("{" +++ s +++ "}") = "{" +++ s +++ "}") as ->.
  { intros [|n]; [done|]. cbn [trim_with]. by rewrite Hp. }
  generalize (String.length ("{" +++ s +++ "}")). intros [|n]; [done|]. cbn [trim_with]. by rewrite Hs.
Qed.
#[global] Instance num_JsonLaws : JsonLaws.
Proof.
  split.
  - intros p. by eexists.
  - intros p. apply TrimSpace_braces.
  - intros p _ _ _. cbn [unmarshal_payload marshal_payload num_Json].
    rewrite <-app_str_assoc, trim_suffix_app, trim_prefix_app, parse_utoa by lia. cbv beta iota.
    by rewrite decode_encode.
Qed.

Definition routes : Redis :=
  map_redis {[("route", "d1") := " [" +++ dquote +++ "n1" +++ dquote +++ "," +++ dquote +++ "n2" +++ dquote +++ "]"]}
    ["n2"; "n3"].
Lemma routed_to_first_alive_witness :
  LookupDeviceNode (Some routes) "route" "d1" = inr "n2" ∧
  match route_addresses (TrimSpace (HGet routes "route" "d1").1) with
  | Some l => LookupDeviceNode (Some routes) "route" "d1" = inr (default "" (find (IsNodeAlive (Some routes)) l))
  | None => ∃ e, LookupDeviceNode (Some routes) "route" "d1" = inl e
  end.
Proof.
  split; [vm_compute; reflexivity|].
  pose proof (routed_to_first_alive routes "route" "d1" (HGet routes "route" "d1").1) as P.
  apply P; vm_compute; reflexivity.
Defined.
Definition failing_redis : Redis :=
  mkRedis (λ _ _, ("", Some (ErrExt "connection refused"))) (λ _, inr 1) (λ _ _, None).
Lemma redis_error_hidden_witness : LookupDeviceNode (Some failing_redis) "route" "d1" = inr "".
Proof. apply (redis_error_hidden failing_redis "route" "d1" (ErrExt "connection refused")). reflexivity. Defined.
Definition a_trace : option (gmap string string) := Some {["traceparent" := "00-ab-cd-01"]}.
Lemma instruction_roundtrip_witness :
  match (PublishToNodeWithTrace (Some routes) "n2" 7 a_trace).1 with
  | Some (channel, raw) =>
      channel = NodeInstructionChannel "n2" ∧ 0 < 7 ∧ ParseInstructionPayload raw = inr (7, no_trace a_trace)
  | None => Some routes = None ∨ blank "n2" = true ∨ 7 <= 0
  end.
Proof.
  pose proof (instruction_roundtrip (Some routes) "n2" 7 a_trace) as P. apply P.
  - by vm_compute.
  - apply map_Forall_singleton. split; vm_compute; reflexivity.
Defined.
