(* ===== verification/TcpContext.v ===== *)
(** The map from message ids to span contexts (pkg/trace/tcp_context.go): entries that live for a
    bounded time and are consumed by the first load, and a sweeper that no load can notice. *)
From stdpp Require Import prelude gmap strings list sorting.
From S2P Require Import Prelude.

(** Span contexts are OpenTelemetry's; [IsValid] is all the code asks of one. *)
Class SpanContexts (SC : Type) := { IsValid : SC → bool }.
Definition default_maxTTL : Z := 10 * Minute.

Section tcp.
Context {SC : Type} `{SpanContexts SC}.
Record tcpEntry := mkEntry { sc : SC; deviceNo : string; insType : string; expireAt : Z }.
Record TCPContextMap := mkTCP { items : gmap string tcpEntry; maxTTL : Z; closed : bool }.

(** ** Operations *)
Definition NewTCPContextMap (ttl : Z) : TCPContextMap :=
  mkTCP ∅ (if ttl <=? 0 then default_maxTTL else ttl) false.
Definition with_items (i : gmap string tcpEntry) (m : TCPContextMap) : TCPContextMap :=
  mkTCP i (maxTTL m) (closed m).
Definition Save (now : Z) (c : SC) (msgID : string) (ttl : Z) (device ins : string) (m : TCPContextMap) : TCPContextMap :=
  if closed m || bool_decide (msgID = "") then m
  else
    let ttl := if (ttl <=? 0) || (maxTTL m <? ttl) then maxTTL m else ttl in
    with_items (<[msgID := mkEntry c device ins (now + ttl)]> (items m)) m.
(** The span context put into the returned context, if one is, the device, the instruction type
    and [ok]. *)
Record load_result := mkLoad { l_span : option SC; l_device : string; l_ins : string; l_ok : bool }.
Definition no_hit : load_result := mkLoad None "" "" false.
Definition answer (now : Z) (entry : option tcpEntry) : load_result :=
  match entry with
  | None => no_hit
  | Some e =>
      if expireAt e <? now then no_hit
      else if negb (IsValid (sc e)) then mkLoad None (deviceNo e) (insType e) false
      else mkLoad (Some (sc e)) (deviceNo e) (insType e) true
  end.
Definition Load (now : Z) (msgID : string) (m : TCPContextMap) : load_result * TCPContextMap :=
  if closed m || bool_decide (msgID = "") then (no_hit, m)
  else (answer now (items m !! msgID), with_items (delete msgID (items m)) m).
Definition Stats (m : TCPContextMap) : Z := zlen (map_to_list (items m)).
Definition Close (m : TCPContextMap) : TCPContextMap := mkTCP (items m) (maxTTL m) true.
Definition sweep (now : Z) (m : TCPContextMap) : TCPContextMap :=
  with_items (filter (λ kv, now <= expireAt kv.2) (items m)) m.

(** ** Histories *)
Inductive event :=
  | ESave (now : Z) (c : SC) (msgID : string) (ttl : Z) (device ins : string)
  | ELoad (now : Z) (msgID : string)
  | ESweep (now : Z)
  | EClose (now : Z).
Definition event_time (e : event) : Z :=
  match e with ESave t _ _ _ _ _ | ELoad t _ | ESweep t | EClose t => t end.
Definition step (e : event) (m : TCPContextMap) : TCPContextMap :=
  match e with
  | ESave now c msgID ttl device ins => Save now c msgID ttl device ins m
  | ELoad now msgID => (Load now msgID m).2
  | ESweep now => sweep now m
  | EClose _ => Close m
  end.
Definition run_events (es : list event) (m : TCPContextMap) : TCPContextMap := foldl (flip step) m es.
(** The specification: without a sweeper, the save that a message id's next load is to find. *)
Definition spec_step (maxTTL : Z) (msgID : string) (e : event) (s : bool * option tcpEntry) : bool * option tcpEntry :=
  let '(closed, entry) := s in
  match e with
  | ESave now c id ttl device ins =>
      if closed || negb (bool_decide (id = msgID)) then s
      else (closed, Some (mkEntry c device ins (now + (if (ttl <=? 0) || (maxTTL <? ttl) then maxTTL else ttl))))
  | ELoad _ id => if closed || negb (bool_decide (id = msgID)) then s else (closed, None)
  | ESweep _ => s
  | EClose _ => (true, entry)
  end.
Definition spec_run (maxTTL : Z) (msgID : string) (es : list event) : bool * option tcpEntry :=
  foldl (flip (spec_step maxTTL msgID)) (false, None) es.
Definition spec_load (now maxTTL : Z) (msgID : string) (es : list event) : load_result :=
  let '(closed, entry) := spec_run maxTTL msgID es in if closed then no_hit else answer now entry.

(** The map agrees with the specification up to an entry that is already expired. *)
Definition agrees (now ttl : Z) (msgID : string) (m : TCPContextMap) (s : bool * option tcpEntry) : Prop :=
  closed m = s.1 ∧ maxTTL m = ttl ∧
  (items m !! msgID = s.2 ∨ (items m !! msgID = None ∧ ∃ e, s.2 = Some e ∧ expireAt e < now)).
Lemma agrees_later now now' ttl msgID m s : now <= now' → agrees now ttl msgID m s → agrees now' ttl msgID m s.
Proof.
  intros Hle (Hc & Ht & Hi). split_and!; [done|done|].
  destruct Hi as [Hi|(Hn & e & He & Hx)]; [by left|right; split; [done|]]. exists e. split; [done|lia].
Qed.
Lemma agrees_step ttl msgID e m s :
  msgID ≠ "" → agrees (event_time e) ttl msgID m s →
  agrees (event_time e) ttl msgID (step e m) (spec_step ttl msgID e s).
Proof.
  destruct s as [cl en]. intros Hne (Hc & Ht & Hi). cbn in Hc, Hi. subst cl ttl.
  assert (agrees (event_time e) (maxTTL m) msgID m (closed m, en)) as Hsame by by split_and!.
  destruct e as [t c id ttl d i|t id|t|t]; cbn [step spec_step event_time] in *.
  - unfold Save. destruct (closed m) eqn:Ec; cbn [orb]; [done|].
    destruct (decide (id = "")) as [->|Hid].
    + rewrite bool_decide_eq_true_2 by done. rewrite bool_decide_eq_false_2 by done. done.
    + rewrite (bool_decide_eq_false_2 (id = "")) by done.
      destruct (decide (id = msgID)) as [->|Hm].
      * rewrite bool_decide_eq_true_2 by done. split_and!; [by cbn|done|]. left. cbn. by rewrite lookup_insert_eq.
      * rewrite bool_decide_eq_false_2 by done. split_and!; [by cbn|done|].
        cbn. by rewrite lookup_insert_ne by done.
  - unfold Load. destruct (closed m) eqn:Ec; cbn [orb]; [done|].
    destruct (decide (id = "")) as [->|Hid].
    + rewrite bool_decide_eq_true_2 by done. rewrite bool_decide_eq_false_2 by done. done.
    + rewrite (bool_decide_eq_false_2 (id = "")) by done.
      destruct (decide (id = msgID)) as [->|Hm].
      * rewrite bool_decide_eq_true_2 by done. split_and!; [by cbn|done|]. left. cbn. by rewrite lookup_delete_eq.
      * rewrite bool_decide_eq_false_2 by done. split_and!; [by cbn|done|].
        cbn. by rewrite lookup_delete_ne by done.
  - split_and!; [done|done|]. cbn. rewrite map_lookup_filter.
    destruct Hi as [->|(-> & e & -> & Hx)]; cbn; [|right; split; [done|by exists e]].
    destruct en as [e|]; cbn; [|by left]. destruct (decide (t <= expireAt e)).
    + left. by rewrite option_guard_True.
    + right. split; [by rewrite option_guard_False|]. exists e. split; [done|lia].
  - by split_and!.
Qed.
Lemma agrees_run ttl msgID t0 es now m s :
  msgID ≠ "" → StronglySorted Z.le (t0 :: map event_time es ++ [now]) → agrees t0 ttl msgID m s →
  agrees now ttl msgID (run_events es m) (foldl (flip (spec_step ttl msgID)) s es).
Proof.
  intros Hne. revert t0 m s. induction es as [|e es IH]; intros t0 m s Hs Ha; cbn [map app] in Hs;
    apply StronglySorted_inv in Hs as [Hs Hle]; apply Forall_cons in Hle as [Hle _]; cbn.
  - by eapply agrees_later.
  - apply (IH (event_time e)); [done|]. apply agrees_step; [done|]. by eapply agrees_later.
Qed.

(** C31: A load answers the last save. After any history of saves, loads, sweeps and a close, a load
    gives the context of the last save of the id, if no load has taken it, its time is not over
    and it is valid; it gives the device and the type without a context if it is not valid, and
    nothing otherwise. Neither the sweeper nor other ids make a difference. *)
Theorem load_answers_last_save (ttl : Z) (es : list event) (now t0 : Z) (msgID : string) :
  msgID ≠ "" → StronglySorted Z.le (t0 :: map event_time es ++ [now]) →
  let m := NewTCPContextMap ttl in
  (Load now msgID (run_events es m)).1 = spec_load now (maxTTL m) msgID es ∧
  (Load now msgID (Load now msgID (run_events es m)).2).1 = no_hit.
Proof.
  intros Hne Hs m.
  assert (agrees now (maxTTL m) msgID (run_events es m) (spec_run (maxTTL m) msgID es)) as (Hc & _ & Hi).
  { eapply agrees_run; [done|exact Hs|]. split_and!; [done|done|]. left. apply lookup_empty. }
  unfold Load, spec_load. destruct (spec_run _ _ _) as [cl en]. cbn in Hc, Hi. subst cl.
  rewrite (bool_decide_eq_false_2 (msgID = "")), orb_false_r by done.
  destruct (closed (run_events es m)) eqn:Ec; cbn [fst snd]; [by rewrite Ec|].
  cbn [closed with_items items]. rewrite Ec. cbn [orb fst]. rewrite lookup_delete_eq. split; [|done].
  destruct Hi as [->|(-> & e & -> & Hx)]; [done|]. cbn. by replace (expireAt e <? now) with true by lia.
Qed.

(** The number of entries is bounded by the number of saves. *)
Lemma Stats_bound e m : Stats (step e m) <= Stats m + match e with ESave _ _ _ _ _ _ => 1 | _ => 0 end.
Proof.
  assert (∀ i : gmap string tcpEntry, zlen (map_to_list i) = Z.of_nat (size i)) as Hz.
  { intros i. unfold zlen. by rewrite length_map_to_list. }
  unfold Stats. rewrite !Hz. destruct e as [t c id ttl d i|t id|t|t]; cbn [step].
  - unfold Save. destruct (_ || _); cbn [items with_items]; [lia|]. rewrite map_size_insert.
    destruct (items m !! id); unfold Datatypes.id; lia.
  - unfold Load. destruct (_ || _); cbn [snd items with_items]; [lia|]. rewrite map_size_delete.
    destruct (items m !! id); unfold Datatypes.id; lia.
  - cbn [items sweep with_items]. apply Z.le_trans with (Z.of_nat (size (items m))); [|lia].
    apply inj_le, map_subseteq_size, map_filter_subseteq.
  - cbn. lia.
Qed.
End tcp.

(** ** A witness: contexts are numbers, and zero is not valid *)
#[global] Instance Z_SpanContexts : SpanContexts Z := { IsValid z := negb (z =? 0) }.
Definition tcp_events : list (event (SC := Z)) :=
  [ESave 0 7 "m1" (5 * Minute) "d1" "open"; ESave 0 8 "m2" Minute "d2" "shut";
   ESweep (2 * Minute); ELoad (3 * Minute) "m2"; ESave (3 * Minute) 9 "m2" (60 * Minute) "d2" "open";
   ESweep (4 * Minute)].
Lemma load_answers_last_save_witness :
  spec_load (4 * Minute) default_maxTTL "m1" tcp_events = mkLoad (Some 7) "d1" "open" true ∧
  let m := NewTCPContextMap 0 in
  (Load (4 * Minute) "m1" (run_events tcp_events m)).1 = spec_load (4 * Minute) (maxTTL m) "m1" tcp_events ∧
  (Load (4 * Minute) "m1" (Load (4 * Minute) "m1" (run_events tcp_events m)).2).1 = no_hit.
Proof.
  split; [vm_compute; reflexivity|].
  pose proof (load_answers_last_save 0 tcp_events (4 * Minute) 0 "m1") as P. apply P.
  - done.
  - repeat constructor; vm_compute; congruence.
Defined.
