(* ===== verification/WorkerPool.v ===== *)
(** The worker pool (pkg/worker_pool): submitters, a dispatcher and workers that hand jobs over
    unbuffered channels, as steps of one machine; and the pool of functions behind one buffered
    channel. *)
From stdpp Require Import prelude list strings.
From S2P Require Import Prelude.

(** ** WorkerPool *)
Definition job := nat.
(** A worker is about to register its channel with the pool, waits for a job on it, or runs one. *)
Inductive wstate := WRegister | WWait | WRun (j : job).
(** The dispatcher waits for a job, has one and waits for a worker, or is about to hand it over. *)
Inductive dstate := DIdle | DJob (j : job) | DHand (j : job) (w : nat).
Record WorkerPool := mkWP {
  workerLen : nat;
  submitting : list job;      (** the callers blocked in [Submit] *)
  dispatcher : dstate;
  WorkerQueue : list nat;     (** the registered channels, by worker; capacity [workerLen] *)
  wp_workers : list wstate;
  done_jobs : list job }.
(** [NewWorkerPool] and [Run]: the goroutines are started, none has moved yet. *)
Definition NewWorkerPool (n : nat) : WorkerPool := mkWP n [] DIdle [] (replicate n WRegister) [].

Inductive action :=
  | Submit (j : job)          (** a caller arrives *)
  | TakeJob (i : nat)         (** the dispatcher receives from the [i]-th blocked caller *)
  | Register (w : nat)        (** [wq <- w.JobQueue] *)
  | TakeWorker                (** [worker := <-wp.WorkerQueue] *)
  | HandOver                  (** [worker <- job], received by that worker *)
  | Finish (w : nat).         (** [job.Do()] returns *)
(** A step, where it can be taken. A worker's [Quit] channel is known to no one who could send on
    it. *)
Definition wp_step (a : action) (p : WorkerPool) : option WorkerPool :=
  match a with
  | Submit j => Some (mkWP (workerLen p) (submitting p ++ [j]) (dispatcher p) (WorkerQueue p) (wp_workers p) (done_jobs p))
  | TakeJob i =>
      match dispatcher p, submitting p !! i with
      | DIdle, Some j =>
          Some (mkWP (workerLen p) (delete i (submitting p)) (DJob j) (WorkerQueue p) (wp_workers p) (done_jobs p))
      | _, _ => None
      end
  | Register w =>
      match wp_workers p !! w with
      | Some WRegister =>
          if (length (WorkerQueue p) <? workerLen p)%nat
          then Some (mkWP (workerLen p) (submitting p) (dispatcher p) (WorkerQueue p ++ [w])
                       (<[w := WWait]> (wp_workers p)) (done_jobs p))
          else None
      | _ => None
      end
  | TakeWorker =>
      match dispatcher p, WorkerQueue p with
      | DJob j, w :: q => Some (mkWP (workerLen p) (submitting p) (DHand j w) q (wp_workers p) (done_jobs p))
      | _, _ => None
      end
  | HandOver =>
      match dispatcher p with
      | DHand j w =>
          match wp_workers p !! w with
          | Some WWait =>
              Some (mkWP (workerLen p) (submitting p) DIdle (WorkerQueue p) (<[w := WRun j]> (wp_workers p)) (done_jobs p))
          | _ => None
          end
      | _ => None
      end
  | Finish w =>
      match wp_workers p !! w with
      | Some (WRun j) =>
          Some (mkWP (workerLen p) (submitting p) (dispatcher p) (WorkerQueue p) (<[w := WRegister]> (wp_workers p))
                  (done_jobs p ++ [j]))
      | _ => None
      end
  end.
(** A schedule; an action that cannot be taken does nothing. *)
Definition wp_do (p : WorkerPool) (a : action) : WorkerPool := default p (wp_step a p).
Definition wp_run (acts : list action) (p : WorkerPool) : WorkerPool := foldl wp_do p acts.
Definition submits (acts : list action) : list job := omap (λ a, match a with Submit j => Some j | _ => None end) acts.

(** ** What always holds *)
Definition held (d : dstate) : list job := match d with DIdle => [] | DJob j | DHand j _ => [j] end.
Definition reserved (d : dstate) : list nat := match d with DHand _ w => [w] | _ => [] end.
Definition running_job (s : wstate) : option job := match s with WRun j => Some j | _ => None end.
Definition running_jobs (p : WorkerPool) : list job := omap running_job (wp_workers p).
(** The jobs the pool knows about. *)
Definition all_jobs (p : WorkerPool) : list job :=
  submitting p ++ held (dispatcher p) ++ running_jobs p ++ done_jobs p.
(** The waiting workers are those registered, and the one about to be handed a job. *)
Definition wp_ok (p : WorkerPool) : Prop :=
  length (wp_workers p) = workerLen p ∧
  NoDup (reserved (dispatcher p) ++ WorkerQueue p) ∧
  ∀ w, wp_workers p !! w = Some WWait ↔ w ∈ reserved (dispatcher p) ++ WorkerQueue p.

Lemma wait_insert (ws : list wstate) w x y :
  ws !! w = Some x → ∀ v, <[w := y]> ws !! v = Some WWait ↔ (v = w ∧ y = WWait) ∨ (v ≠ w ∧ ws !! v = Some WWait).
Proof.
  intros Hw v. destruct (decide (v = w)) as [->|Hv].
  - rewrite list_lookup_insert_eq by (by eapply lookup_lt_Some). naive_solver.
  - rewrite list_lookup_insert_ne by done. naive_solver.
Qed.

Lemma wp_step_ok a p p' : wp_ok p → wp_step a p = Some p' → wp_ok p'.
Proof.
  intros (Hl & Hn & Hw) Hs.
  destruct a as [j|i|w| | |w]; cbn [wp_step] in Hs.
  - injection Hs as <-. by split_and!.
  - destruct (dispatcher p) eqn:Ed; [|done|done]. destruct (submitting p !! i); [|done]. injection Hs as <-. by split_and!.
  - destruct (wp_workers p !! w) as [[]|] eqn:Ew; try done. destruct (_ <? _)%nat; [|done]. injection Hs as <-.
    assert (w ∉ reserved (dispatcher p) ++ WorkerQueue p) as Hnot by (intros Hin%Hw; congruence).
    unfold wp_ok. cbn. rewrite length_insert, app_assoc. split_and!; [done| |].
    + apply NoDup_app. split_and!; [done| |by apply NoDup_singleton].
      intros v Hv Hv'. apply list_elem_of_singleton in Hv' as ->. done.
    + intros v. rewrite (wait_insert _ _ _ _ Ew), elem_of_app, list_elem_of_singleton, Hw.
      destruct (decide (v = w)); naive_solver.
  - destruct (dispatcher p) as [|j|] eqn:Ed; try done. destruct (WorkerQueue p) as [|w q] eqn:Eq; [done|].
    injection Hs as <-. by split_and!.
  - destruct (dispatcher p) as [| |j w] eqn:Ed; try done. destruct (wp_workers p !! w) as [[]|] eqn:Ew; try done.
    injection Hs as <-. cbn [reserved app] in Hn, Hw. apply NoDup_cons in Hn as [Hnot Hn].
    unfold wp_ok. cbn. rewrite length_insert. split_and!; [done|done|].
    intros v. rewrite (wait_insert _ _ _ _ Ew), Hw, elem_of_cons. destruct (decide (v = w)); naive_solver.
  - destruct (wp_workers p !! w) as [[| |j]|] eqn:Ew; try done. injection Hs as <-.
    assert (w ∉ reserved (dispatcher p) ++ WorkerQueue p) as Hnot by (intros Hin%Hw; congruence).
    unfold wp_ok. cbn. rewrite length_insert. split_and!; [done|done|].
    intros v. rewrite (wait_insert _ _ _ _ Ew), <-Hw. destruct (decide (v = w)); naive_solver.
Qed.
Lemma wp_step_jobs a p p' :
  wp_step a p = Some p' → all_jobs p' ≡ₚ submits [a] ++ all_jobs p.
Proof.
  unfold all_jobs, running_jobs. intros Hs. destruct a as [j|i|w| | |w]; cbn [wp_step] in Hs.
  - injection Hs as <-. cbn. solve_Permutation.
  - destruct (dispatcher p) eqn:Ed; [|done|done]. destruct (submitting p !! i) as [j|] eqn:Ej; [|done].
    injection Hs as <-. cbn. rewrite (delete_Permutation (submitting p) i j Ej) at 2. solve_Permutation.
  - destruct (wp_workers p !! w) as [[]|] eqn:Ew; try done. destruct (_ <? _)%nat; [|done]. injection Hs as <-.
    cbn. pose proof (omap_insert running_job _ _ _ WWait Ew) as Ho. cbn in Ho. by rewrite Ho.
  - destruct (dispatcher p) as [|j|] eqn:Ed; try done. destruct (WorkerQueue p) as [|w q]; [done|].
    by injection Hs as <-.
  - destruct (dispatcher p) as [| |j w] eqn:Ed; try done. destruct (wp_workers p !! w) as [[]|] eqn:Ew; try done.
    injection Hs as <-. cbn. pose proof (omap_insert running_job _ _ _ (WRun j) Ew) as Ho. cbn in Ho. by rewrite Ho.
  - destruct (wp_workers p !! w) as [[| |j]|] eqn:Ew; try done. injection Hs as <-. cbn.
    pose proof (omap_insert running_job _ _ _ WRegister Ew) as Ho. cbn in Ho. rewrite <-Ho. solve_Permutation.
Qed.
Lemma wp_run_spec n acts :
  let p := wp_run acts (NewWorkerPool n) in
  wp_ok p ∧ workerLen p = n ∧ all_jobs p ≡ₚ submits acts.
Proof.
  assert (∀ acts p, wp_ok p → wp_ok (wp_run acts p) ∧ workerLen (wp_run acts p) = workerLen p ∧
            all_jobs (wp_run acts p) ≡ₚ submits acts ++ all_jobs p) as H.
  { clear. induction acts as [|a acts IH]; intros p Hp; [done|].
    change (wp_run (a :: acts) p) with (wp_run acts (wp_do p a)). unfold wp_do.
    destruct (wp_step a p) as [p'|] eqn:Es; cbn [from_option]; unfold id.
    - destruct (IH p') as (H1 & H2 & H3); [by eapply wp_step_ok|]. split_and!; [done| |].
      + rewrite H2. clear -Es. destruct a; cbn in Es; repeat case_match; simplify_eq; done.
      + rewrite H3, (wp_step_jobs _ _ _ Es). unfold submits. destruct a; cbn; solve_Permutation.
    - destruct (IH p Hp) as (H1 & H2 & H3). split_and!; [done|done|].
      rewrite H3. by destruct a. }
  destruct (H acts (NewWorkerPool n)) as (H1 & H2 & H3).
  - unfold wp_ok. cbn. rewrite length_replicate. split_and!; [done|constructor|].
    intros w. rewrite lookup_replicate. split; [by intros [? _]|by intros ?%not_elem_of_nil].
  - cbv zeta. split_and!; [done|done|].
    assert (all_jobs (NewWorkerPool n) = []) as E.
    { assert (omap running_job (replicate n WRegister) = []) as E by (clear; by induction n).
      unfold all_jobs, running_jobs. cbn [submitting dispatcher wp_workers done_jobs NewWorkerPool held app].
      by rewrite E. }
    by rewrite E, app_nil_r in H3.
Qed.

(** A worker that registers never blocks: there is always room for its channel. *)
Lemma register_room p w :
  wp_ok p → wp_workers p !! w = Some WRegister → (length (WorkerQueue p) < workerLen p)%nat.
Proof.
  intros (Hl & Hn & Hw) Er. apply NoDup_app in Hn as (_ & _ & Hn).
  assert (length (w :: WorkerQueue p) ≤ length (seq 0 (workerLen p)))%nat as Hle.
  { apply submseteq_length, NoDup_submseteq.
    - constructor; [|done]. intros Hin. assert (wp_workers p !! w = Some WWait); [|congruence].
      apply Hw. apply elem_of_app. by right.
    - intros v [->|Hv]%elem_of_cons; apply elem_of_seq; rewrite <-Hl.
      + apply lookup_lt_Some in Er. lia.
      + assert (wp_workers p !! v = Some WWait) as Ev by (apply Hw, elem_of_app; by right).
        apply lookup_lt_Some in Ev. lia. }
  rewrite length_seq in Hle. cbn in Hle. lia.
Qed.
Lemma register_enabled p w :
  wp_ok p → wp_workers p !! w = Some WRegister → is_Some (wp_step (Register w) p).
Proof.
  intros Hok Er. cbn [wp_step]. rewrite Er. pose proof (register_room p w Hok Er) as H.
  apply Nat.ltb_lt in H as ->. by eexists.
Qed.
Lemma handover_enabled p j w : wp_ok p → dispatcher p = DHand j w → is_Some (wp_step HandOver p).
Proof.
  intros (_ & _ & Hw) Ed. cbn [wp_step]. rewrite Ed in *. assert (wp_workers p !! w = Some WWait) as ->; [|by eexists].
  apply Hw, elem_of_app. left. by constructor.
Qed.

(** C23: Every job is run once. After any schedule, the jobs submitted are exactly those whose
    callers still wait, the one the dispatcher holds, those running, at most one per worker, and
    those done; and neither a worker that registers nor a dispatcher that hands over a job can be
    blocked. *)
Theorem every_job_once (n : nat) (acts : list action) :
  let p := wp_run acts (NewWorkerPool n) in
  submits acts ≡ₚ submitting p ++ held (dispatcher p) ++ running_jobs p ++ done_jobs p ∧
  (length (running_jobs p) ≤ n)%nat ∧
  (∀ w, wp_workers p !! w = Some WRegister → is_Some (wp_step (Register w) p)) ∧
  (∀ j w, dispatcher p = DHand j w → is_Some (wp_step HandOver p)).
Proof.
  intros p. destruct (wp_run_spec n acts) as (Hok & Hn & Hj). fold p in Hok, Hn, Hj. split_and!.
  - by rewrite <-Hj.
  - destruct Hok as (Hl & _). rewrite <-Hn, <-Hl. apply length_omap_le.
  - intros w. by apply register_enabled.
  - intros j w. by apply handover_enabled.
Qed.

(** ** The pool drains *)
Definition wwork (s : wstate) : Z := match s with WRegister => 1 | WWait => 0 | WRun _ => 2 end.
Definition dwork (d : dstate) : Z := match d with DIdle => 0 | DJob _ => 4 | DHand _ _ => 3 end.
Definition wp_work (p : WorkerPool) : Z :=
  5 * zlen (submitting p) + dwork (dispatcher p) + zsum (map wwork (wp_workers p)).
Definition is_submit (a : action) : bool := match a with Submit _ => true | _ => false end.
Lemma wp_work_decreases a p p' :
  is_submit a = false → wp_step a p = Some p' → 0 <= wp_work p' < wp_work p.
Proof.
  assert (∀ q, 0 <= wp_work q) as Hnn.
  { intros q. unfold wp_work. pose proof (zlen_nonneg (submitting q)).
    assert (0 <= zsum (map wwork (wp_workers q))) by (apply zsum_nonneg, Forall_map, Forall_true; by intros []).
    destruct (dispatcher q); cbn; lia. }
  intros Ha Hs. split; [apply Hnn|].
  destruct a as [j|i|w| | |w]; cbn [wp_step] in Hs; [done|repeat case_match; simplify_eq..];
    unfold wp_work; cbn [submitting dispatcher wp_workers];
    repeat match goal with E : dispatcher _ = _ |- _ => rewrite E; clear E end; cbn [dwork].
  - rewrite (zlen_delete (submitting p) i j) by done. lia.
  - rewrite (zsum_insert wwork _ _ WRegister) by done. cbn. lia.
  - lia.
  - rewrite (zsum_insert wwork _ _ WWait) by done. cbn. lia.
  - rewrite (zsum_insert wwork _ _ (WRun j)) by done. cbn. lia.
Qed.
(** In a state where only new submissions are possible nothing is left to do. *)
Lemma wp_stuck p :
  wp_ok p → (0 < workerLen p)%nat → (∀ a, is_submit a = false → wp_step a p = None) →
  submitting p = [] ∧ dispatcher p = DIdle ∧ running_jobs p = [].
Proof.
  intros Hok Hpos Hno. pose proof Hok as (Hl & Hn & Hw).
  assert (∀ w s, wp_workers p !! w = Some s → s = WWait) as Hall.
  { intros w s Es. destruct s as [| |j]; [|done|].
    - destruct (register_enabled p w Hok Es) as [p' Hp']. by rewrite Hno in Hp'.
    - specialize (Hno (Finish w) eq_refl). cbn in Hno. by rewrite Es in Hno. }
  assert (running_jobs p = []) as Hrun.
  { unfold running_jobs. apply omap_none. intros s [w Es]%list_elem_of_lookup. by rewrite (Hall w s Es). }
  destruct (wp_workers p !! 0%nat) as [s|] eqn:E0.
  2: { apply lookup_ge_None in E0. lia. }
  assert (s = WWait) as -> by by eapply Hall. apply Hw in E0.
  destruct (dispatcher p) as [|j|j w] eqn:Ed.
  - split_and!; [|done|done]. destruct (submitting p) as [|j l] eqn:Es; [done|].
    specialize (Hno (TakeJob 0) eq_refl). cbn in Hno. by rewrite Ed, Es in Hno.
  - cbn in E0. destruct (WorkerQueue p) as [|w q] eqn:Eq; [by apply not_elem_of_nil in E0|].
    specialize (Hno TakeWorker eq_refl). cbn in Hno. by rewrite Ed, Eq in Hno.
  - destruct (handover_enabled p j w Hok Ed) as [p' Hp']. by rewrite Hno in Hp'.
Qed.

(** The pool drains. With at least one worker, whatever the scheduler does from any reachable
    state, every step that is not a new submission decreases a measure, and where no such step
    is left every job submitted has been run to its end. *)
Lemma worker_pool_drains (n : nat) (acts : list action) :
  (0 < n)%nat →
  let p := wp_run acts (NewWorkerPool n) in
  (∀ a p', is_submit a = false → wp_step a p = Some p' → 0 <= wp_work p' < wp_work p) ∧
  ((∀ a, is_submit a = false → wp_step a p = None) → done_jobs p ≡ₚ submits acts).
Proof.
  intros Hpos p. destruct (wp_run_spec n acts) as (Hok & Hn & Hj). fold p in Hok, Hn, Hj.
  split; [intros a p'; apply wp_work_decreases|]. intros Hno.
  destruct (wp_stuck p Hok) as (E1 & E2 & E3); [by rewrite Hn|done|].
  unfold all_jobs in Hj. by rewrite E1, E2, E3 in Hj.
Qed.

Definition wp_schedule : list action :=
  [Register 0; Submit 1%nat; Submit 2%nat; TakeJob 1; TakeWorker; HandOver; TakeJob 0; Finish 0; Register 0;
   TakeWorker; HandOver; Finish 0; Register 0].
Lemma worker_pool_drains_witness :
  done_jobs (wp_run wp_schedule (NewWorkerPool 1)) = [2; 1]%nat ∧
  let p := wp_run wp_schedule (NewWorkerPool 1) in
  (∀ a p', is_submit a = false → wp_step a p = Some p' → 0 <= wp_work p' < wp_work p) ∧
  ((∀ a, is_submit a = false → wp_step a p = None) → done_jobs p ≡ₚ submits wp_schedule).
Proof. split; [vm_compute; reflexivity|]. apply (worker_pool_drains 1 wp_schedule). lia. Defined.

(** ** Pool: functions behind one buffered channel *)
Record Pool := mkPool { maxWorkers : nat; jobs : list job; p_running : list job; p_done : list job }.
(** [newWorkerPool]: [make] of a channel panics on a negative size. *)
Definition newWorkerPool (n : Z) : gores Pool :=
  if n <? 0 then Panic "makechan: size out of range" else Ret (mkPool (Z.to_nat n) [] [] []).
(** The pool of the process is made by the first call, whatever size later calls ask for. *)
Definition GetNLPWorkerPool (n : Z) (nlp : option Pool) : gores Pool :=
  match nlp with Some p => Ret p | None => newWorkerPool n end.
(** [Submit], where the channel has room; the caller blocks where it has not. *)
Definition Pool_Submit (j : job) (p : Pool) : option Pool :=
  if (length (jobs p) <? maxWorkers p)%nat
  then Some (mkPool (maxWorkers p) (jobs p ++ [j]) (p_running p) (p_done p)) else None.
(** A free worker receives the next function; a function returns. *)
Definition Pool_take (p : Pool) : option Pool :=
  match jobs p with
  | j :: js => if (length (p_running p) <? maxWorkers p)%nat
               then Some (mkPool (maxWorkers p) js (p_running p ++ [j]) (p_done p)) else None
  | [] => None
  end.
Definition Pool_finish (i : nat) (p : Pool) : option Pool :=
  match p_running p !! i with
  | Some j => Some (mkPool (maxWorkers p) (jobs p) (delete i (p_running p)) (p_done p ++ [j]))
  | None => None
  end.
(** [SubmitAndWait] returns once its function has ended. *)
Definition wait_done (j : job) (p : Pool) : bool := bool_decide (j ∈ p_done p).
Inductive pool_action := ASubmit (j : job) | ATake | AFinish (i : nat).
Definition pool_do (p : Pool) (a : pool_action) : Pool :=
  default p (match a with ASubmit j => Pool_Submit j p | ATake => Pool_take p | AFinish i => Pool_finish i p end).
(** The functions whose submission did not block. *)
Definition newly (a : pool_action) (p : Pool) : list job :=
  match a with ASubmit j => match Pool_Submit j p with Some _ => [j] | None => [] end | _ => [] end.
Fixpoint accepted (acts : list pool_action) (p : Pool) : list job :=
  match acts with
  | [] => []
  | a :: acts =>
      newly a p ++ accepted acts (pool_do p a)
  end.
(** The accepted functions are those queued, running and done, and neither the queue nor the
    functions running at once exceed the size. *)
Lemma pool_accounting acts p :
  (length (jobs p) ≤ maxWorkers p)%nat → (length (p_running p) ≤ maxWorkers p)%nat →
  let p' := foldl pool_do p acts in
  jobs p ++ p_running p ++ p_done p ++ accepted acts p ≡ₚ jobs p' ++ p_running p' ++ p_done p' ∧
  (length (jobs p') ≤ maxWorkers p)%nat ∧ (length (p_running p') ≤ maxWorkers p)%nat.
Proof.
  revert p. induction acts as [|a acts IH]; intros p Hj Hr; [cbn; by rewrite app_nil_r|].
  cbn [foldl accepted].
  assert (maxWorkers (pool_do p a) = maxWorkers p ∧ (length (jobs (pool_do p a)) ≤ maxWorkers p)%nat ∧
          (length (p_running (pool_do p a)) ≤ maxWorkers p)%nat ∧
          jobs p ++ p_running p ++ p_done p ++
            newly a p
          ≡ₚ jobs (pool_do p a) ++ p_running (pool_do p a) ++ p_done (pool_do p a)) as (Hm & H1 & H2 & H3).
  { unfold pool_do, newly. destruct a as [j| |i].
    - unfold Pool_Submit. destruct (Nat.ltb_spec (length (jobs p)) (maxWorkers p)); cbn; [|by rewrite app_nil_r].
      rewrite length_app. cbn. split_and!; [done|lia|done|]. solve_Permutation.
    - rewrite app_nil_r. unfold Pool_take. destruct (jobs p) as [|j js] eqn:E.
      { cbn [from_option]. unfold id. by rewrite E. }
      destruct (Nat.ltb_spec (length (p_running p)) (maxWorkers p)); cbn [from_option]; unfold id.
      + cbn [jobs p_running p_done maxWorkers]. rewrite length_app. cbn in *. split_and!; [done|lia|lia|]. solve_Permutation.
      + rewrite E. split_and!; done.
    - unfold Pool_finish. destruct (p_running p !! i) as [j|] eqn:E; cbn; rewrite ?app_nil_r; [|done].
      rewrite length_delete by done. split_and!; [done|done|lia|].
      rewrite (delete_Permutation (p_running p) i j E) at 1. solve_Permutation. }
  destruct (IH (pool_do p a)) as (I1 & I2 & I3); [by rewrite Hm|by rewrite Hm|].
  rewrite Hm in I2, I3. split_and!; [|done|done]. rewrite <-I1.
  rewrite (app_assoc (p_done p)), !(app_assoc _ _ (accepted _ _)), H3. by rewrite <-!app_assoc.
Qed.
