(* ===== verification/Sanitize.v ===== *)
(** Masking of sensitive data in logs (pkg/logger/sanitize.go) and sampling of frequent ones
    (pkg/logger/sampler.go). *)
From Stdlib Require Import Ascii.
From stdpp Require Import prelude strings list.
From S2P Require Import Prelude GoStrings.

(** ** Patterns *)
(** The two regular expressions of the rules are sequences of byte classes. *)
Abbreviation pattern := (list (ascii → bool)).
Definition class (lo hi : ascii) (c : ascii) : bool := (byte_of lo <=? byte_of c) && (byte_of c <=? byte_of hi).
(** [1[3-9]\d{9}] and [\d{17}[\dXx]] *)
Definition phone_pattern : pattern :=
  Ascii.eqb "1" :: class "3" "9" :: replicate 9 is_digit.
Definition id_pattern : pattern :=
  replicate 17 is_digit ++ [λ c, is_digit c || Ascii.eqb "X" c || Ascii.eqb "x" c].
(** A match at the start of a string. *)
Fixpoint match_here (p : pattern) (s : string) : bool :=
  match p, s with
  | [], _ => true
  | _, EmptyString => false
  | cls :: p, String c s => cls c && match_here p s
  end.
(** [ReplaceAllStringFunc]: the leftmost matches that do not overlap; [skip] bytes of the last one
    are left. *)
Fixpoint replace_from (p : pattern) (f : string → string) (skip : nat) (s : string) : string :=
  match s with
  | EmptyString => EmptyString
  | String c s' =>
      match skip with
      | S skip => replace_from p f skip s'
      | O => if match_here p s then f (str_take (length p) s) +++ replace_from p f (length p - 1) s'
             else String c (replace_from p f 0 s')
      end
  end.
Definition ReplaceAllStringFunc (p : pattern) (f : string → string) (s : string) : string := replace_from p f 0 s.

(** ** Masks *)
Definition star : ascii := "*".
Definition maskAll (_ : string) : string := "***".
Definition str_last (n : nat) (s : string) : string := str_drop (String.length s - n) s.
Definition maskPhone (s : string) : string :=
  if slen s <? 7 then str_rep (String.length s) star
  else str_take 3 s +++ "****" +++ str_last 4 s.
Definition maskIdCard (s : string) : string :=
  if slen s <? 7 then str_rep (String.length s) star
  else str_take 3 s +++ str_rep (String.length s - 7) star +++ str_last 4 s.

(** ** Rules *)
Record SanitizeRule := mkRule { FieldName : string; Pattern : option pattern; Replace : string → string }.
Definition field_rule (n : string) (f : string → string) : SanitizeRule := mkRule n None f.
Definition pattern_rule (p : pattern) (f : string → string) : SanitizeRule := mkRule "" (Some p) f.
Definition DisableSanitize : list SanitizeRule := [].
Definition defaultSanitizeRules : list SanitizeRule :=
  map (λ n, field_rule n maskAll)
    ["password"; "passwd"; "pwd"; "access_token"; "refresh_token"; "secret"; "api_key"; "apikey";
     "callback_sign_key"; "encrypt_key"]
  ++ [field_rule "phone" maskPhone; field_rule "mobile" maskPhone;
      field_rule "id_card" maskIdCard; field_rule "idcard" maskIdCard;
      pattern_rule phone_pattern maskPhone; pattern_rule id_pattern maskIdCard].
Definition DefaultSanitizeRules : list SanitizeRule := defaultSanitizeRules.

(** [strings.ToLower] and [strings.EqualFold] on ASCII. *)
Definition lower (c : ascii) : ascii :=
  if class "A" "Z" c then ascii_of_nat (nat_of_ascii c + 32) else c.
Fixpoint ToLower (s : string) : string :=
  match s with EmptyString => EmptyString | String c s => String (lower c) (ToLower s) end.
Definition EqualFold (s t : string) : bool := bool_decide (ToLower s = ToLower t).
(** A value is a string, or of another type. *)
Inductive value := VStr (s : string) | VOther (tag : string).
Definition field_hit (key : string) (r : SanitizeRule) : bool :=
  negb (bool_decide (FieldName r = "")) && EqualFold (ToLower key) (FieldName r).
Definition apply_patterns (rules : list SanitizeRule) (s : string) : string :=
  foldl (λ s r, match Pattern r with Some p => ReplaceAllStringFunc p (Replace r) s | None => s end) s rules.
Definition applySanitize (rules : list SanitizeRule) (key : string) (v : value) : value :=
  match find (field_hit key) rules with
  | Some r => match v with VStr s => VStr (Replace r s) | VOther _ => VStr "***" end
  | None => match v with VStr s => VStr (apply_patterns rules s) | VOther _ => v end
  end.
Definition applyMessageSanitize (rules : list SanitizeRule) (msg : string) : string :=
  if bool_decide (msg = "") then msg else apply_patterns rules msg.

(** ** Replacement against its specification *)
(** No match starts in the first [n] bytes of [s]. *)
Definition no_match (p : pattern) (n : nat) (s : string) : Prop :=
  ∀ k, (k < n)%nat → match_here p (str_drop k s) = false.
(** The string is cut at its leftmost match, again and again. *)
Inductive Replaced (p : pattern) (f : string → string) : string → string → Prop :=
  | Replaced_none s : no_match p (String.length s) s → Replaced p f s s
  | Replaced_match a m b b' :
      String.length m = length p → match_here p (m +++ b) = true →
      no_match p (String.length a) (a +++ m +++ b) → Replaced p f b b' →
      Replaced p f (a +++ m +++ b) (a +++ f m +++ b').

Lemma no_match_cons p n c s :
  match_here p (String c s) = false → no_match p n s → no_match p (S n) (String c s).
Proof. intros H0 Hs [|k] Hk; [done|]. cbn. apply Hs. lia. Qed.
Lemma Replaced_cons p f c s s' :
  match_here p (String c s) = false → Replaced p f s s' → Replaced p f (String c s) (String c s').
Proof.
  intros Hc Hr. destruct Hr as [s Hn|a m b b' Hl Hm Hn Hr].
  - apply Replaced_none. cbn. by apply no_match_cons.
  - apply (Replaced_match p f (String c a)); try done. cbn. by apply no_match_cons.
Qed.
Lemma match_here_length p s : match_here p s = true → (length p ≤ String.length s)%nat.
Proof.
  revert s. induction p as [|cls p IH]; intros [|c s] H; cbn in *; try done; try lia.
  apply andb_true_iff in H as [_ H]. apply IH in H. lia.
Qed.
Lemma replace_from_skip p f n s : (n ≤ String.length s)%nat → replace_from p f n s = replace_from p f 0 (str_drop n s).
Proof.
  revert n. induction s as [|c s IH]; intros [|n] Hn; cbn in *; try done; try lia. apply IH. lia.
Qed.

(** What the rules replace. The scan cuts a text at the leftmost match of the pattern, puts the
    mask in its place, keeps what is before it, and goes on behind it; a text without a match
    is kept. *)
Lemma replace_all_leftmost (p : pattern) (f : string → string) (s : string) :
  p ≠ [] → Replaced p f s (ReplaceAllStringFunc p f s).
Proof.
  intros Hp. unfold ReplaceAllStringFunc.
  remember (String.length s) as n eqn:En. assert (String.length s ≤ n)%nat as Hn by lia. clear En.
  revert s Hn. induction n as [|n IH]; intros [|c s] Hn; cbn in Hn; try lia.
  1,2: apply Replaced_none; intros k Hk; cbn in Hk; lia.
  cbn [replace_from]. destruct (match_here p (String c s)) eqn:Em.
  - pose proof (match_here_length _ _ Em) as Hl. destruct (length p) as [|k] eqn:Ek; [by destruct p|].
    cbn in Hl. replace (S k - 1)%nat with k by lia. rewrite replace_from_skip by lia.
    pose proof (str_take_drop (S k) (String c s)) as E. cbn [str_drop] in E. rewrite <-E at 1.
    apply (Replaced_match p f ""); [|by rewrite E|by intros j Hj; cbn in Hj; lia|].
    + rewrite Ek. apply length_str_take. cbn. lia.
    + apply IH. rewrite length_str_drop. lia.
  - apply Replaced_cons; [done|]. apply IH. lia.
Qed.
Lemma replace_all_leftmost_witness :
  ReplaceAllStringFunc phone_pattern maskPhone "call 13812345678, 1391234567" = "call 138****5678, 1391234567" ∧
  Replaced phone_pattern maskPhone "call 13812345678, 1391234567"
    (ReplaceAllStringFunc phone_pattern maskPhone "call 13812345678, 1391234567").
Proof.
  split; [vm_compute; reflexivity|].
  pose proof (replace_all_leftmost phone_pattern maskPhone "call 13812345678, 1391234567") as P. by apply P.
Defined.

(** A sensitive field of any type is replaced as a whole, whatever the case of its key. *)
Lemma secret_field_masked key v :
  ToLower key ∈ ["password"; "passwd"; "pwd"; "access_token"; "refresh_token"; "secret"; "api_key"; "apikey";
                 "callback_sign_key"; "encrypt_key"] →
  applySanitize DefaultSanitizeRules key v = VStr "***".
Proof.
  intros Hk. unfold applySanitize.
  assert (∃ r, find (field_hit key) DefaultSanitizeRules = Some r ∧ Replace r = maskAll) as (r & -> & Hr).
  { assert (∀ n, ToLower key = n → ToLower n = n →
      find (field_hit key) DefaultSanitizeRules = find (λ r, negb (bool_decide (FieldName r = "")) && EqualFold n (FieldName r)) DefaultSanitizeRules) as Hf.
    { intros n E _. unfold field_hit. by rewrite E. }
    repeat (apply elem_of_cons in Hk as [Hk|Hk];
      [rewrite (Hf _ Hk eq_refl); vm_compute; eexists; split; reflexivity|]).
    by apply not_elem_of_nil in Hk. }
  rewrite Hr. by destruct v.
Qed.

(** ** Identity numbers are taken for phone numbers *)
Lemma get_str_drop n i s : String.get i (str_drop n s) = String.get (n + i) s.
Proof. revert n. induction s as [|c s IH]; intros [|n]; cbn; try done. Qed.
Lemma match_here_spec p s :
  match_here p s = true ↔ ∀ i cls, p !! i = Some cls → ∃ c, String.get i s = Some c ∧ cls c = true.
Proof.
  revert s. induction p as [|cls p IH]; intros s; [by destruct s|]. destruct s as [|c s]; cbn [match_here].
  - split; [done|]. intros H. by destruct (H 0%nat cls eq_refl) as (c & ? & _).
  - rewrite andb_true_iff, IH. split.
    + intros [Hc Hs] [|i] cls' Hi; cbn in *; [injection Hi as <-; by exists c|by apply Hs].
    + intros H. split; [|intros i cls' Hi; apply (H (S i) cls' Hi)].
      destruct (H 0%nat cls eq_refl) as (c' & Hc & Hcls). by injection Hc as ->.
Qed.
Lemma no_match_le p n m s : (n ≤ m)%nat → no_match p m s → no_match p n s.
Proof. intros Hle H k Hk. apply H. lia. Qed.
(** The scan keeps a prefix in which nothing matches, replaces a match, and keeps a text without. *)
Lemma replace_all_prefix p f a s :
  no_match p (String.length a) (a +++ s) → ReplaceAllStringFunc p f (a +++ s) = a +++ ReplaceAllStringFunc p f s.
Proof.
  unfold ReplaceAllStringFunc. induction a as [|c a IH]; intros Hn; [done|].
  change (String c a +++ s) with (String c (a +++ s)) in *. cbn [replace_from].
  pose proof (Hn 0%nat ltac:(cbn; lia)) as H0. cbn [str_drop] in H0. rewrite H0. cbn. f_equal. apply IH.
  intros k Hk. apply (Hn (S k)). cbn. lia.
Qed.
Lemma replace_all_match p f m b :
  p ≠ [] → String.length m = length p → match_here p (m +++ b) = true →
  ReplaceAllStringFunc p f (m +++ b) = f m +++ ReplaceAllStringFunc p f b.
Proof.
  intros Hp Hl Hm. unfold ReplaceAllStringFunc. destruct m as [|c m]; [by destruct p|].
  change (String c m +++ b) with (String c (m +++ b)) in *. cbn [replace_from]. rewrite Hm.
  cbn [String.length] in Hl. rewrite <-Hl.
  pose proof (str_take_app (String c m) b) as Ht. cbn [String.length] in Ht.
  change (String c m +++ b) with (String c (m +++ b)) in Ht. rewrite Ht. f_equal.
  cbn [Nat.sub]. rewrite Nat.sub_0_r, replace_from_skip by (rewrite length_app_str; lia).
  by rewrite str_drop_app.
Qed.
Lemma replace_all_none p f s : no_match p (String.length s) s → ReplaceAllStringFunc p f s = s.
Proof.
  intros Hn. pose proof (replace_all_prefix p f s "") as H. rewrite app_str_nil_r in H. rewrite H by done.
  apply app_str_nil_r.
Qed.

(** A number of a person born from 1900 to 1999 has a phone number inside, and the phone rule is
    the first of the two: unless a match starts even earlier, its first nine and last five
    characters stay, where the rule for identity numbers would leave three and four. *)
Lemma identity_number_shown (s : string) :
  String.length s = 18%nat → match_here id_pattern s = true →
  String.get 6 s = Some "1"%char → String.get 7 s = Some "9"%char → no_match phone_pattern 6 s →
  applyMessageSanitize DefaultSanitizeRules s = str_take 9 s +++ "****" +++ str_drop 13 s.
Proof.
  intros Hl Hid H6 H7 Hno. rewrite match_here_spec in Hid.
  assert (∀ i, (i < 17)%nat → ∃ c, String.get i s = Some c ∧ is_digit c = true) as Hd.
  { intros i Hi. apply Hid. unfold id_pattern. rewrite lookup_app_l by (rewrite length_replicate; lia).
    by apply lookup_replicate_2. }
  set (a := str_take 6 s). set (m := str_take 11 (str_drop 6 s)). set (b := str_drop 11 (str_drop 6 s)).
  assert (s = a +++ m +++ b) as Es by (unfold a, m, b; by rewrite !str_take_drop).
  assert (String.length a = 6%nat) as Ha by (apply length_str_take; lia).
  assert (String.length m = 11%nat) as Hm by (apply length_str_take; rewrite length_str_drop; lia).
  assert (String.length b = 1%nat) as Hb by (unfold b; rewrite !length_str_drop; lia).
  assert (str_drop 6 s = m +++ b) as Edrop by (unfold m, b; by rewrite str_take_drop).
  assert (match_here phone_pattern (m +++ b) = true) as Hmatch.
  { apply match_here_spec. intros i cls Hi. rewrite <-Edrop, get_str_drop.
    destruct i as [|[|i]]; cbn in Hi; [injection Hi as <-; by exists "1"%char|injection Hi as <-; by exists "9"%char|].
    change (replicate 9 is_digit !! i = Some cls) in Hi. apply lookup_replicate in Hi as [-> Hi].
    apply Hd. lia. }
  assert (∀ p f, (1 < length p)%nat → ReplaceAllStringFunc p f b = b) as Hshort.
  { intros p f Hp. apply replace_all_none. intros k _. destruct (match_here p (str_drop k b)) eqn:E; [|done].
    apply match_here_length in E. rewrite length_str_drop in E. lia. }
  assert (ReplaceAllStringFunc phone_pattern maskPhone s = a +++ maskPhone m +++ b) as E1.
  { rewrite Es at 1. rewrite replace_all_prefix by (rewrite Ha, <-Es; done).
    rewrite replace_all_match by (try done). rewrite Hshort; [done|]. cbn. lia. }
  assert (maskPhone m = str_take 3 m +++ "****" +++ str_drop 7 m) as E2.
  { unfold maskPhone, slen, str_last. by rewrite Hm. }
  assert (str_take 9 s +++ "****" +++ str_drop 13 s = a +++ maskPhone m +++ b) as E3.
  { rewrite E2. unfold a, m, b. clear -Hl. do 18 (destruct s as [|? s]; [done|]). by destruct s. }
  assert (ReplaceAllStringFunc id_pattern maskIdCard (a +++ maskPhone m +++ b) = a +++ maskPhone m +++ b) as E4.
  { apply replace_all_none. intros k _. apply not_true_iff_false. intros E.
    pose proof (match_here_length _ _ E) as Hlen. rewrite match_here_spec in E.
    assert (String.length (a +++ maskPhone m +++ b) = 18%nat) as Hlt.
    { rewrite E2, !length_app_str, length_str_drop, length_str_take, Ha, Hm, Hb by lia. done. }
    rewrite length_str_drop, Hlt in Hlen. change (length id_pattern) with 18%nat in Hlen.
    assert (k = 0%nat) as -> by lia.
    destruct (E 9%nat is_digit) as (c & Hc & Hdig); [done|].
    rewrite <-E3 in Hc. clear -Hl Hc Hdig. do 18 (destruct s as [|? s]; [done|]). cbn in Hc.
    injection Hc as <-. done. }
  unfold applyMessageSanitize. rewrite bool_decide_eq_false_2 by (intros ->; done).
  change (apply_patterns DefaultSanitizeRules s)
    with (ReplaceAllStringFunc id_pattern maskIdCard (ReplaceAllStringFunc phone_pattern maskPhone s)).
  by rewrite E1, E4, E3.
Qed.
Example identity_number_example :
  applyMessageSanitize DefaultSanitizeRules "id 110101199003071234" = "id 110101199****71234".
Proof. vm_compute. reflexivity. Qed.
(** Seven characters are kept, all of them. *)
Example seven_kept : (maskIdCard "1234567", maskPhone "1234567") = ("1234567", "123****4567").
Proof. vm_compute. reflexivity. Qed.

(** ** sampler.go *)
Definition DebugLevel : Z := -1.
Definition InfoLevel : Z := 0.
Definition WarnLevel : Z := 1.
Definition ErrorLevel : Z := 2.
Definition FatalLevel : Z := 5.
Record sampler := mkSampler { everyN : Z; count : Z }.
Definition newSampler (n : Z) : option sampler := if n <=? 1 then None else Some (mkSampler n 0).
Definition allow (lvl : Z) (s : option sampler) : bool * option sampler :=
  match s with
  | None => (true, s)
  | Some sm =>
      if everyN sm <=? 1 then (true, s)
      else if WarnLevel <=? lvl then (true, s)
      else let n := i64 (count sm + 1) in (Z.rem n (everyN sm) =? 1, Some (mkSampler (everyN sm) n))
  end.
(** Calls below the warning level, one after the other. *)
Fixpoint allows (lvls : list Z) (s : option sampler) : list bool :=
  match lvls with
  | [] => []
  | l :: lvls => let '(b, s) := allow l s in b :: allows lvls s
  end.
(** The calls let through are the 1st, the N+1st, the 2N+1st ... of those below the warning
    level; from there on every call is. *)
Lemma allows_spec n c lvls :
  1 < n → 0 <= c → c + zlen lvls < 2 ^ 63 → Forall (λ l, l < WarnLevel) lvls →
  allows lvls (Some (mkSampler n c)) = map (λ k, (c + k + 1) mod n =? 1) (seqZ 0 (zlen lvls)).
Proof.
  intros Hn. revert c. induction lvls as [|l lvls IH]; intros c Hc Hlt Hl; [done|].
  rewrite zlen_cons in *. apply Forall_cons in Hl as [Hlv Hl]. pose proof (zlen_nonneg lvls).
  rewrite seqZ_cons by lia. cbn [allows allow everyN count].
  replace (n <=? 1) with false by lia. replace (WarnLevel <=? l) with false by lia.
  rewrite i64_id by (unfold in_i64; lia). cbn [map]. rewrite Z.rem_mod_nonneg, Z.add_0_r by lia. f_equal.
  rewrite IH by (done || lia). replace (Z.pred (1 + zlen lvls)) with (zlen lvls) by lia.
  change (Z.succ 0) with (1 + 0). rewrite <-(fmap_add_seqZ 1 0). rewrite map_map. apply map_ext. intros k. by replace (c + 1 + k + 1) with (c + (1 + k) + 1) by lia.
Qed.
