(* ===== verification/Logging.v ===== *)
(** The logger (pkg/logger): levels and the default logger, the business fields of a context, and
    the chained entry with its sampling, level and masking, over slices that share their arrays. *)
From Stdlib Require Import Ascii.
From stdpp Require Import prelude gmap strings list.
From S2P Require Import Prelude GoStrings Sanitize.

(** ** logger.go, options.go: levels *)
Definition LevelTrace : Z := 0.
Definition LevelDebug : Z := 1.
Definition LevelInfo : Z := 2.
Definition LevelNotice : Z := 3.
Definition LevelWarn : Z := 4.
Definition LevelError : Z := 5.
Definition LevelFatal : Z := 6.
Definition strs : list string :=
  ["[Trace] "; "[Debug] "; "[Info] "; "[Notice] "; "[Warn] "; "[Error] "; "[Fatal] "].
Definition SetLevel (lv : Z) : gores Z :=
  if (lv <? LevelTrace) || (LevelFatal <? lv) then Panic "invalid level" else Ret lv.
Definition level_toString (lv : Z) : string :=
  if (LevelTrace <=? lv) && (lv <=? LevelFatal) then default "" (strs !! Z.to_nat lv)
  else "[?" +++ FormatInt lv +++ "] ".
Definition LevelName (lv : Z) : string :=
  if lv =? LevelTrace then "trace" else if lv =? LevelDebug then "debug" else if lv =? LevelInfo then "info"
  else if lv =? LevelNotice then "notice" else if lv =? LevelWarn then "warn"
  else if lv =? LevelError then "error" else if lv =? LevelFatal then "fatal" else "info".
Definition ParseLevel (s : string) : Z :=
  if bool_decide (s = "trace") then LevelTrace else if bool_decide (s = "debug") then LevelDebug
  else if bool_decide (s = "info") then LevelInfo else if bool_decide (s = "notice") then LevelNotice
  else if bool_decide (s ∈ ["warn"; "warning"]) then LevelWarn
  else if bool_decide (s ∈ ["err"; "error"]) then LevelError
  else if bool_decide (s ∈ ["fatal"; "panic"]) then LevelFatal else LevelInfo.
Definition toZapLevel (lv : Z) : Z :=
  if (lv =? LevelTrace) || (lv =? LevelDebug) then DebugLevel else if lv =? LevelInfo then InfoLevel
  else if (lv =? LevelNotice) || (lv =? LevelWarn) then WarnLevel else if lv =? LevelError then ErrorLevel
  else if lv =? LevelFatal then FatalLevel else InfoLevel.
Lemma ParseLevel_LevelName lv : LevelTrace <= lv <= LevelFatal → ParseLevel (LevelName lv) = lv.
Proof.
  intros H. unfold LevelTrace, LevelFatal in H.
  assert (lv = 0 ∨ lv = 1 ∨ lv = 2 ∨ lv = 3 ∨ lv = 4 ∨ lv = 5 ∨ lv = 6) as Hlv by lia.
  destruct_or!; subst lv; vm_compute; reflexivity.
Qed.

(** ** default.go: the default logger *)
(** An argument of a logging call, as package fmt prints it: a space goes between two operands
    that are not strings. *)
Inductive arg := AStr (s : string) | AInt (z : Z) | ASlice (l : list arg).
Fixpoint show_arg (a : arg) : string :=
  match a with
  | AStr s => s
  | AInt z => FormatInt z
  | ASlice l => "[" +++ Join (map show_arg l) " " +++ "]"
  end.
Definition is_str (a : arg) : bool := match a with AStr _ => true | _ => false end.
Fixpoint Sprint (l : list arg) : string :=
  match l with
  | [] => ""
  | a :: l => show_arg a +++ match l with
                             | b :: _ => if is_str a || is_str b then "" else " "
                             | [] => ""
                             end +++ Sprint l
  end.
(** What [localLogger.logf] writes at a level when the threshold is [level]; the text of a call
    with a format is given formatted. *)
Definition logf (level lv : Z) (formatted : option string) (v : list arg) : option string :=
  if lv <? level then None
  else Some (level_toString lv +++ match formatted with Some s => s | None => Sprint v end).
(** The functions of the package: the arguments are passed on as one, a slice. *)
Definition pkg_log (level lv : Z) (v : list arg) : option string :=
  if negb (lv =? LevelFatal) && (lv <? level) then None else logf level lv None [ASlice v].
Definition pkg_logf (level lv : Z) (formatted : string) : option string :=
  if negb (lv =? LevelFatal) && (lv <? level) then None else logf level lv (Some formatted) [].
Lemma pkg_log_brackets level v :
  level <= LevelError →
  pkg_log level LevelError v = Some ("[Error] [" +++ Join (map show_arg v) " " +++ "]").
Proof.
  intros Hl. unfold pkg_log, logf. replace (LevelError <? level) with false by lia. cbn.
  by rewrite app_str_nil_r.
Qed.
Lemma pkg_logf_threshold level lv s :
  LevelTrace <= level <= LevelFatal → pkg_logf level lv s = None ↔ lv < level.
Proof.
  intros Hl. unfold pkg_logf, logf. destruct (Z.ltb_spec lv level); [|rewrite andb_false_r; split; [done|lia]].
  split; [done|intros _]. by destruct (lv =? LevelFatal).
Qed.

(** ** ctx.go: the fields of a context *)
Record BizCtxKeys := mkBiz { DeviceNo : string; AccountId : Z; MsgId : string; UserId : Z; InstanceId : string }.
Definition no_biz : BizCtxKeys := mkBiz "" 0 "" 0 "".
(** A context, as far as this package reads it: the fields bound and what the trace extractor
    answers for it. A nil context is [None]. *)
Record context := mkCtx { bound : option BizCtxKeys; trace_ids : string * string }.
Definition Background : context := mkCtx None ("", "").
Definition GetBizCtx (c : option context) : BizCtxKeys :=
  match c with Some c => default no_biz (bound c) | None => no_biz end.
Definition over_s (new old : string) : string := if bool_decide (new = "") then old else new.
Definition over_z (new old : Z) : Z := if new =? 0 then old else new.
Definition merge_biz (k prev : BizCtxKeys) : BizCtxKeys :=
  mkBiz (over_s (DeviceNo k) (DeviceNo prev)) (over_z (AccountId k) (AccountId prev))
    (over_s (MsgId k) (MsgId prev)) (over_z (UserId k) (UserId prev)) (over_s (InstanceId k) (InstanceId prev)).
Definition WithBizCtx (c : option context) (k : BizCtxKeys) : context :=
  let c' := default Background c in mkCtx (Some (merge_biz k (GetBizCtx (Some c')))) (trace_ids c').
Definition extractTrace (c : option context) : string * string :=
  match c with Some c => trace_ids c | None => ("", "") end.

Lemma over_s_assoc a b c : over_s a (over_s b c) = over_s (over_s a b) c.
Proof. unfold over_s. repeat case_bool_decide; congruence. Qed.
Lemma over_z_assoc a b c : over_z a (over_z b c) = over_z (over_z a b) c.
Proof. unfold over_z. destruct (Z.eqb_spec a 0) as [->|H]; [done|]. by destruct (Z.eqb_spec a 0). Qed.
(** Binding twice is binding the merge: the later fields win, empty ones do not. *)
Lemma WithBizCtx_twice c k1 k2 :
  WithBizCtx (Some (WithBizCtx c k1)) k2 = WithBizCtx c (merge_biz k2 k1).
Proof.
  unfold WithBizCtx, GetBizCtx. cbn. do 2 f_equal. unfold merge_biz. cbn.
  by rewrite !over_s_assoc, !over_z_assoc.
Qed.

(** ** Slices of fields *)
Inductive fval := FVal (v : value) | FStr (s : string) | FInt (z : Z) | FErr (e : goerr).
Definition field : Type := string * fval.
(** The arrays behind slices; a slice is an array, a length and a capacity. *)
Abbreviation arrays := (gmap nat (list field)).
Record slice := mkSlice { s_array : nat; s_len : nat; s_cap : nat }.
Definition nil_slice : slice := mkSlice 0 0 0.
Definition read_slice (m : arrays) (s : slice) : list field := take (s_len s) (default [] (m !! s_array s)).
Definition zero_field : field := ("", FStr "").
(** [append(s, x)]: in place if there is room, else in a new array of twice the capacity, which
    is what the runtime makes of small slices. *)
Definition append1 (m : arrays) (s : slice) (x : field) : arrays * slice :=
  if (s_len s <? s_cap s)%nat
  then (alter (<[s_len s := x]>) (s_array s) m, mkSlice (s_array s) (S (s_len s)) (s_cap s))
  else let a := fresh (dom m) in
       let cap := if (s_cap s =? 0)%nat then 1%nat else (2 * s_cap s)%nat in
       (<[a := read_slice m s ++ x :: replicate (cap - S (s_len s)) zero_field]> m, mkSlice a (S (s_len s)) cap).

(** ** entry.go *)
Record driver := mkDriver { d_level : Z; d_rules : list SanitizeRule; d_sampler : option sampler }.
(** [None] is an entry made before [Bootstrap]. *)
Record Entry := mkEntry { e_driver : option driver; e_ctx : option context; e_fields : slice; e_err : option goerr }.
Definition Ctx (d : option driver) (c : option context) : Entry := mkEntry d c nil_slice None.
Definition With (key : string) (v : value) (e : Entry) (m : arrays) : Entry * arrays :=
  match e_driver e with
  | None => (e, m)
  | Some d =>
      let '(m, s) := append1 m (e_fields e) (key, FVal (applySanitize (d_rules d) key v)) in
      (mkEntry (e_driver e) (e_ctx e) s (e_err e), m)
  end.
Definition WithErr (err : option goerr) (e : Entry) (m : arrays) : Entry * arrays :=
  match err with
  | None => (e, m)
  | Some er =>
      let '(m, s) := append1 m (e_fields e) ("error", FErr er) in
      (mkEntry (e_driver e) (e_ctx e) s (Some er), m)
  end.
Definition field_if_s (k s : string) : list field := if bool_decide (s = "") then [] else [(k, FStr s)].
Definition field_if_z (k : string) (z : Z) : list field := if z =? 0 then [] else [(k, FInt z)].
Definition ctx_fields (c : option context) : list field :=
  match c with
  | None => []
  | Some _ =>
      let '(traceId, spanId) := extractTrace c in
      let biz := GetBizCtx c in
      (if bool_decide (traceId = "") then [] else ("trace_id", FStr traceId) :: field_if_s "span_id" spanId)
      ++ field_if_s "device_no" (DeviceNo biz) ++ field_if_z "account_id" (AccountId biz)
      ++ field_if_s "msg_id" (MsgId biz) ++ field_if_z "user_id" (UserId biz)
      ++ field_if_s "instance_id" (InstanceId biz)
  end.
Definition buildFields (e : Entry) (m : arrays) : list field := ctx_fields (e_ctx e) ++ read_slice m (e_fields e).
(** A line written, if one is, and the driver's sampler afterwards. *)
Record line := mkLine { l_level : Z; l_msg : string; l_fields : list field }.
Definition driver_log (lvl : Z) (msg : string) (fields : list field) (d : driver) : option line * driver :=
  let '(ok, sm) := allow lvl (d_sampler d) in
  let d' := mkDriver (d_level d) (d_rules d) sm in
  if negb ok then (None, d')
  else if lvl <? d_level d then (None, d')
  else (Some (mkLine lvl (applyMessageSanitize (d_rules d) msg) fields), d').
Definition log (lvl : Z) (msg : string) (e : Entry) (m : arrays) (d : driver) : option line * driver :=
  driver_log lvl msg (buildFields e m) d.

(** ** What a chain of calls logs *)
(** The slice is all of an array that exists, or is nil. *)
Definition slice_ok (m : arrays) (s : slice) : Prop :=
  (s_len s ≤ s_cap s)%nat ∧ (s_cap s = 0%nat ∨ ∃ l, m !! s_array s = Some l ∧ length l = s_cap s).
Lemma append1_ok m s x :
  slice_ok m s → let '(m', s') := append1 m s x in slice_ok m' s' ∧ read_slice m' s' = read_slice m s ++ [x].
Proof.
  intros [Hlen Ha]. unfold append1. destruct (Nat.ltb_spec (s_len s) (s_cap s)) as [Hlt|Hge].
  - destruct Ha as [Ha|(l & Hl & Hc)]; [lia|]. split.
    + split; cbn; [lia|]. right. rewrite lookup_alter_eq, Hl. cbn. eexists. split; [done|]. by rewrite length_insert.
    + unfold read_slice. cbn [s_array s_len]. rewrite lookup_alter_eq, Hl. cbn [fmap option_fmap option_map default from_option]. unfold id.
      rewrite (take_S_r _ _ x) by (rewrite list_lookup_insert_eq by lia; done). by rewrite take_insert_ge by lia.
  - set (a := fresh (dom m)). assert (length (read_slice m s) = s_len s) as Hr.
    { unfold read_slice. rewrite length_take. destruct Ha as [Ha|(l & Hl & Hc)]; [lia|]. rewrite Hl. cbn. lia. }
    split.
    + split; cbn; [destruct (Nat.eqb_spec (s_cap s) 0); lia|]. right. rewrite lookup_insert_eq. eexists. split; [done|].
      rewrite length_app. cbn. rewrite length_replicate, Hr. destruct (Nat.eqb_spec (s_cap s) 0); lia.
    + unfold read_slice at 1. cbn [s_array s_len]. rewrite lookup_insert_eq. cbn [default from_option]. unfold id.
rewrite take_app, take_ge by lia. f_equal.
      replace (S (s_len s) - length (read_slice m s))%nat with 1%nat by lia. done.
Qed.
(** *** The contract of a log call *)
(** A text goes through the patterns of the rules in turn, each of which replaces its leftmost
    matches ([Replaced]). *)
Inductive Patterned : list SanitizeRule → string → string → Prop :=
  | Patterned_nil s : Patterned [] s s
  | Patterned_skip r rules s s' : Pattern r = None → Patterned rules s s' → Patterned (r :: rules) s s'
  | Patterned_step r rules p s s1 s' :
      Pattern r = Some p → (p ≠ [] → Replaced p (Replace r) s s1) → Patterned rules s1 s' →
      Patterned (r :: rules) s s'.
Lemma apply_patterns_Patterned rules s : Patterned rules s (apply_patterns rules s).
Proof.
  unfold apply_patterns. revert s. induction rules as [|r rules IH]; intros s; cbn; [constructor|].
  destruct (Pattern r) as [p|] eqn:E; [|by constructor].
  eapply Patterned_step; [done| |apply IH]. intros Hp. by apply replace_all_leftmost.
Qed.
(** A rule is for a field by name, whatever the case of the letters. *)
Definition rule_for (key : string) (r : SanitizeRule) : Prop :=
  FieldName r ≠ "" ∧ ToLower (ToLower key) = ToLower (FieldName r).
Lemma field_hit_rule_for key r : field_hit key r = true ↔ rule_for key r.
Proof.
  unfold field_hit, rule_for, EqualFold. by rewrite andb_true_iff, negb_true_iff, bool_decide_eq_false, bool_decide_eq_true.
Qed.
(** What is written for a value: the first rule for its key replaces a string by its mask and
    anything else by stars; without one, strings go through the patterns. *)
Definition masked_as (rules : list SanitizeRule) (key : string) (v v' : value) : Prop :=
  (∃ pre r post, rules = pre ++ r :: post ∧ Forall (λ r, ¬ rule_for key r) pre ∧ rule_for key r ∧
     v' = match v with VStr s => VStr (Replace r s) | VOther _ => VStr "***" end) ∨
  Forall (λ r, ¬ rule_for key r) rules ∧
  match v with VStr s => ∃ s', v' = VStr s' ∧ Patterned rules s s' | VOther _ => v' = v end.
Lemma applySanitize_masked rules key v : masked_as rules key v (applySanitize rules key v).
Proof.
  unfold applySanitize. destruct (find (field_hit key) rules) as [r|] eqn:E; [left|right].
  - induction rules as [|r0 rules IH]; [done|]. cbn in E. destruct (field_hit key r0) eqn:E0.
    + injection E as ->. exists [], r, rules. split_and!; [done|done|by apply field_hit_rule_for|done].
    + destruct (IH E) as (pre & r1 & post & -> & Hpre & Hr & Hv). exists (r0 :: pre), r1, post.
      split_and!; try done. constructor; [|done]. rewrite <- field_hit_rule_for. by rewrite E0.
  - split; [|destruct v; [eexists; split; [done|apply apply_patterns_Patterned]|done]].
    apply Forall_forall. intros r Hr. rewrite <- field_hit_rule_for.
    intros Ht. apply list_elem_of_In in Hr. by rewrite (find_none _ _ E _ Hr) in Ht.
Qed.
(** The calls of a chain, and what each adds to the line; [WithErr(nil)] adds nothing. *)
Inductive chain_call := CWith (key : string) (v : value) | CErr (err : option goerr).
Definition do_call (em : Entry * arrays) (c : chain_call) : Entry * arrays :=
  match c with CWith key v => With key v em.1 em.2 | CErr err => WithErr err em.1 em.2 end.
Definition chain (cs : list chain_call) (em : Entry * arrays) : Entry * arrays := foldl do_call em cs.
Definition adds (rules : list SanitizeRule) (c : chain_call) (fs : list field) : Prop :=
  match c with
  | CWith key v => ∃ v', masked_as rules key v v' ∧ fs = [(key, FVal v')]
  | CErr (Some e) => fs = [("error", FErr e)]
  | CErr None => fs = []
  end.
(** The field of a context under a key: the trace's ids if there is a trace, and the bound values
    that are not empty; in a fixed order, at the front of the line. *)
Definition ctx_keys : list string :=
  ["trace_id"; "span_id"; "device_no"; "account_id"; "msg_id"; "user_id"; "instance_id"].
Definition ctx_field (c : option context) (k : string) (f : fval) : Prop :=
  ∃ c0, c = Some c0 ∧
   (k = "trace_id" ∧ f = FStr (trace_ids c0).1 ∧ (trace_ids c0).1 ≠ "" ∨
    k = "span_id" ∧ f = FStr (trace_ids c0).2 ∧ (trace_ids c0).1 ≠ "" ∧ (trace_ids c0).2 ≠ "" ∨
    ∃ biz, bound c0 = Some biz ∧
     (k = "device_no" ∧ f = FStr (DeviceNo biz) ∧ DeviceNo biz ≠ "" ∨
      k = "account_id" ∧ f = FInt (AccountId biz) ∧ AccountId biz ≠ 0 ∨
      k = "msg_id" ∧ f = FStr (MsgId biz) ∧ MsgId biz ≠ "" ∨
      k = "user_id" ∧ f = FInt (UserId biz) ∧ UserId biz ≠ 0 ∨
      k = "instance_id" ∧ f = FStr (InstanceId biz) ∧ InstanceId biz ≠ "")).
Lemma elem_field_if_s k s x : x ∈ field_if_s k s ↔ x = (k, FStr s) ∧ s ≠ "".
Proof. unfold field_if_s. case_bool_decide; set_solver. Qed.
Lemma elem_field_if_z k z x : x ∈ field_if_z k z ↔ x = (k, FInt z) ∧ z ≠ 0.
Proof. unfold field_if_z. destruct (Z.eqb_spec z 0); set_solver. Qed.
Lemma field_if_s_keys k s : (field_if_s k s).*1 `sublist_of` [k].
Proof. unfold field_if_s. case_bool_decide; [apply sublist_nil_l|done]. Qed.
Lemma field_if_z_keys k z : (field_if_z k z).*1 `sublist_of` [k].
Proof. unfold field_if_z. destruct (z =? 0); [apply sublist_nil_l|done]. Qed.
Lemma ctx_fields_keys c : (ctx_fields c).*1 `sublist_of` ctx_keys.
Proof.
  destruct c as [[bd [t sp]]|]; [|apply sublist_nil_l]. unfold ctx_fields, extractTrace. cbn [trace_ids].
  rewrite !fmap_app. change ctx_keys with
    (["trace_id"; "span_id"] ++ ["device_no"] ++ ["account_id"] ++ ["msg_id"] ++ ["user_id"] ++ ["instance_id"]).
  repeat apply sublist_app; [|apply field_if_s_keys || apply field_if_z_keys..].
  case_bool_decide; [apply sublist_nil_l|]. constructor. apply field_if_s_keys.
Qed.
Lemma ctx_fields_spec c k f : (k, f) ∈ ctx_fields c ↔ ctx_field c k f.
Proof.
  unfold ctx_field. destruct c as [[bd [t sp]]|]; [|cbn; set_solver].
  unfold ctx_fields, extractTrace, GetBizCtx. cbn [trace_ids bound fst snd].
  rewrite !elem_of_app, !elem_field_if_s, !elem_field_if_z.
  assert ((k, f) ∈ (if bool_decide (t = "") then [] else ("trace_id", FStr t) :: field_if_s "span_id" sp) ↔
    k = "trace_id" ∧ f = FStr t ∧ t ≠ "" ∨ k = "span_id" ∧ f = FStr sp ∧ t ≠ "" ∧ sp ≠ "") as ->.
  { case_bool_decide; [set_solver|]. rewrite elem_of_cons, elem_field_if_s. naive_solver. }
  destruct bd as [biz|]; cbn; naive_solver.
Qed.
(** Whether the sampler lets a call through, and what becomes of it: below the warning level, one
    in [everyN] passes, starting with the first. *)
Definition sampled (lvl : Z) (s : option sampler) (pass : bool) (s' : option sampler) : Prop :=
  match s with
  | Some (mkSampler every n) =>
      (1 < every ∧ lvl < WarnLevel ∧ s' = Some (mkSampler every (i64 (n + 1))) ∧
         (pass = true ↔ Z.rem (i64 (n + 1)) every = 1)) ∨
      ((every <= 1 ∨ WarnLevel <= lvl) ∧ s' = s ∧ pass = true)
  | None => s' = None ∧ pass = true
  end.
Lemma allow_sampled lvl s : sampled lvl s (allow lvl s).1 (allow lvl s).2.
Proof.
  destruct s as [[every n]|]; [|done]. unfold allow. cbn [everyN count].
  destruct (Z.leb_spec every 1); [right; cbn; auto|].
  destruct (Z.leb_spec WarnLevel lvl); [right; cbn; auto|]. left. cbn [fst snd]. by rewrite Z.eqb_eq.
Qed.

Lemma chain_spec d c cs e m :
  e_driver e = Some d → e_ctx e = c → slice_ok m (e_fields e) →
  let '(e', m') := chain cs (e, m) in
  e_driver e' = Some d ∧ e_ctx e' = c ∧
  ∃ fss, Forall2 (adds (d_rules d)) cs fss ∧
    read_slice m' (e_fields e') = read_slice m (e_fields e) ++ mjoin fss.
Proof.
  revert e m. induction cs as [|call cs IH]; intros e m Hd Hc Hok.
  { cbn. split_and!; try done. exists []. split; [constructor|by rewrite app_nil_r]. }
  change (chain (call :: cs) (e, m)) with (chain cs (do_call (e, m) call)).
  assert (let '(e1, m1) := do_call (e, m) call in e_driver e1 = Some d ∧ e_ctx e1 = c ∧ slice_ok m1 (e_fields e1) ∧
    ∃ fs, adds (d_rules d) call fs ∧ read_slice m1 (e_fields e1) = read_slice m (e_fields e) ++ fs) as H1.
  { destruct call as [k v|[er|]]; cbn [do_call fst snd].
    - unfold With. rewrite Hd. set (x := (k, _)). pose proof (append1_ok m (e_fields e) x Hok) as Ha.
      destruct (append1 _ _ _) as [m1 s1]. destruct Ha. split_and!; try done. exists [x]. split; [|done].
      eexists. split; [apply applySanitize_masked|done].
    - unfold WithErr. pose proof (append1_ok m (e_fields e) ("error", FErr er) Hok) as Ha.
      destruct (append1 _ _ _) as [m1 s1]. destruct Ha. split_and!; try done. by eexists.
    - split_and!; try done. exists []. by rewrite app_nil_r. }
  destruct (do_call (e, m) call) as [e1 m1]. destruct H1 as (Hd1 & Hc1 & Hok1 & fs & Hfs & Hr).
  specialize (IH e1 m1 Hd1 Hc1 Hok1). destruct (chain cs (e1, m1)) as [e' m'].
  destruct IH as (I1 & I2 & fss & I3 & I4). split_and!; try done.
  exists (fs :: fss). split; [by constructor|]. cbn. by rewrite I4, Hr, <-app_assoc.
Qed.

(** C34: What a log call writes. Take a chain of [With] and [WithErr] calls, each on the entry the
    one before returned, on a fresh entry of a context, logged at a level. A line is written exactly
    if the sampler lets the call through and the level is enabled. The line has the level; the
    message, through the patterns of the rules; then the fields of the context, which are the trace
    ids, if there is a trace, and the bound values that are not empty, in their fixed order; and then
    the fields of the chain in order, each masked under its key. Only the sampler's count changes.
    (Entries derived from one entry can overwrite each other's fields: [sibling_overwrites].) *)
Theorem entry_logs_chain (d : driver) (c : option context) (cs : list chain_call) (m : arrays)
    (lvl : Z) (msg : string) :
  let '(e, m') := chain cs (Ctx (Some d) c, m) in
  let '(out, d') := log lvl msg e m' d in
  d_level d' = d_level d ∧ d_rules d' = d_rules d ∧
  ∃ pass, sampled lvl (d_sampler d) pass (d_sampler d') ∧
  match out with
  | None => pass = false ∨ lvl < d_level d
  | Some l => pass = true ∧ d_level d <= lvl ∧ l_level l = lvl ∧
      (msg = "" ∧ l_msg l = "" ∨ msg ≠ "" ∧ Patterned (d_rules d) msg (l_msg l)) ∧
      ∃ cfs fss, l_fields l = cfs ++ mjoin fss ∧
        (∀ k f, (k, f) ∈ cfs ↔ ctx_field c k f) ∧ cfs.*1 `sublist_of` ctx_keys ∧
        Forall2 (adds (d_rules d)) cs fss
  end.
Proof.
  pose proof (chain_spec d c cs (Ctx (Some d) c) m eq_refl eq_refl) as Hc.
  destruct (chain _ _) as [e m']. destruct Hc as (_ & Hctx & fss & Hf & Hr); [split; [done|by left]|].
  pose proof (allow_sampled lvl (d_sampler d)) as Hs.
  unfold log, driver_log. destruct (allow _ _) as [[] sm]; cbn [fst snd negb] in *.
  2: { split_and!; try done. exists false. split; [done|by left]. }
  destruct (Z.ltb_spec lvl (d_level d)); (split_and!; [done|done|]); exists true; (split; [done|]); [by right|].
  cbn [l_level l_msg l_fields]. split_and!; [done|lia|done| |].
  - unfold applyMessageSanitize. case_bool_decide; [by left|right]. split; [done|apply apply_patterns_Patterned].
  - exists (ctx_fields c), fss. split_and!; [|apply ctx_fields_spec|apply ctx_fields_keys|done].
    unfold buildFields. by rewrite Hctx, Hr.
Qed.

(** Two entries derived from one: if there is room in the array, the second one's field is put
    where the first one's was. *)
Lemma sibling_overwrites (d : driver) (base : Entry) (m : arrays) k1 v1 k2 v2 l :
  e_driver base = Some d → m !! s_array (e_fields base) = Some l → length l = s_cap (e_fields base) →
  (s_len (e_fields base) < s_cap (e_fields base))%nat →
  let '(e1, m1) := With k1 v1 base m in
  let '(e2, m2) := With k2 v2 base m1 in
  read_slice m2 (e_fields e1) = read_slice m (e_fields base) ++ [(k2, FVal (applySanitize (d_rules d) k2 v2))].
Proof.
  intros Hd Hl Hlen Hlt. unfold With. rewrite Hd. unfold append1.
  assert ((s_len (e_fields base) <? s_cap (e_fields base))%nat = true) as Hb by by apply Nat.ltb_lt.
  rewrite !Hb. cbn [e_fields]. unfold read_slice. cbn [s_array s_len].
  rewrite !lookup_alter_eq, Hl. cbn [fmap option_fmap option_map default from_option]. unfold id. rewrite list_insert_insert_eq.
  set (x := (k2, FVal (applySanitize (d_rules d) k2 v2)) : field).
  rewrite (take_S_r _ _ x) by (rewrite list_lookup_insert_eq by lia; done).
  by rewrite take_insert_ge by lia.
Qed.
(** The entry with three fields has room for a fourth. *)
Definition three_fields : Entry * arrays :=
  chain [CWith "a" (VStr "1"); CWith "b" (VStr "2"); CWith "c" (VStr "3")] (Ctx (Some (mkDriver InfoLevel [] None)) None, ∅).
Example sibling_example :
  let '(base, m) := three_fields in
  let '(e1, m) := With "left" (VStr "x") base m in
  let '(_, m) := With "right" (VStr "y") base m in
  map fst (buildFields e1 m) = ["a"; "b"; "c"; "right"].
Proof. vm_compute. reflexivity. Qed.

(** Calls that the level rejects are counted by the sampler: if every second one is a debug call
    on a logger at the info level that keeps one in two, no info call is ever written. *)
Fixpoint run_calls (calls : list (Z * string)) (d : driver) : list (option line) :=
  match calls with
  | [] => []
  | (lvl, msg) :: calls => let '(out, d) := driver_log lvl msg [] d in out :: run_calls calls d
  end.
Lemma info_never_logged rules n c :
  0 <= c → c mod 2 = 0 → c + 2 * Z.of_nat n < 2 ^ 63 →
  Forall (λ o, o = None)
    (run_calls (mjoin (replicate n [(DebugLevel, "d"); (InfoLevel, "i")])) (mkDriver InfoLevel rules (Some (mkSampler 2 c)))).
Proof.
  revert c. induction n as [|n IH]; intros c Hc Hm Hlt; [constructor|].
  assert (c + 1 < 2 ^ 63 ∧ c + 2 < 2 ^ 63) as [H1 H2] by lia.
  assert (allow DebugLevel (Some (mkSampler 2 c)) = (true, Some (mkSampler 2 (c + 1)))) as E1.
  { unfold allow. cbn [everyN count]. cbn -[i64 Z.rem]. rewrite i64_id by (unfold in_i64; lia). f_equal.
    rewrite Z.rem_mod_nonneg by lia. apply Z.eqb_eq. rewrite Zplus_mod, Hm. done. }
  assert (allow InfoLevel (Some (mkSampler 2 (c + 1))) = (false, Some (mkSampler 2 (c + 2)))) as E2.
  { unfold allow. cbn [everyN count]. cbn -[i64 Z.rem]. rewrite i64_id by (unfold in_i64; lia).
    replace (c + 1 + 1) with (c + 2) by lia. f_equal.
    rewrite Z.rem_mod_nonneg by lia. apply Z.eqb_neq. rewrite Zplus_mod, Hm. done. }
  change (mjoin (replicate (S n) [(DebugLevel, "d"); (InfoLevel, "i")]))
    with ([(DebugLevel, "d"); (InfoLevel, "i")] ++ mjoin (replicate n [(DebugLevel, "d"); (InfoLevel, "i")])).
  cbn [app run_calls]. unfold driver_log at 1. cbn [d_sampler d_level d_rules]. rewrite E1. cbn [negb].
  change (DebugLevel <? InfoLevel) with true. cbv iota beta zeta.
  unfold driver_log at 1. cbn [d_sampler d_level d_rules]. rewrite E2. cbn [negb]. cbv iota beta zeta.
  repeat constructor. apply IH; [lia| |lia]. by rewrite Zplus_mod, Hm.
Qed.

(** ** options.go, bootstrap.go: the driver *)
Record FileSinkOptions := mkFile {
  Path : string; MaxSizeMB : Z; MaxBackups : Z; MaxAgeDays : Z; Compress : bool; LocalTime : bool }.
Record BootstrapOptions := mkBootstrap {
  ServiceName : string; Env : string; o_Version : string; Host : string; o_Level : Z; Format : string;
  File : FileSinkOptions; EnableStdout : bool; SanitizeRules : option (list SanitizeRule);
  SampleEveryN : Z; AddCaller : bool; CallerSkip : Z }.
Definition positive_or (z d : Z) : Z := if z <=? 0 then d else z.
Definition applyDefaults (o : BootstrapOptions) : BootstrapOptions :=
  let f := File o in
  mkBootstrap (ServiceName o) (Env o) (o_Version o) (Host o) (o_Level o)
    (if bool_decide (Format o = "") then "json" else Format o)
    (if bool_decide (Path f = "") then f
     else mkFile (Path f) (positive_or (MaxSizeMB f) 50) (positive_or (MaxBackups f) 30) (positive_or (MaxAgeDays f) 30)
            (Compress f) (LocalTime f))
    (EnableStdout o) (SanitizeRules o) (SampleEveryN o)
    (if negb (AddCaller o) && (CallerSkip o =? 0) then true else AddCaller o) (CallerSkip o).
(** What [buildDriver] gives to zap, and the driver: the sinks in order, the encoder, the options
    of the logger, and the fields of every line. [hostname] is the answer of [os.Hostname]. *)
Inductive sink := SFile (f : FileSinkOptions) | SStdout.
Inductive encoder := ConsoleEncoder | JSONEncoder.
Inductive zap_option := ZAddCaller | ZAddCallerSkip (n : Z) | ZAddStacktrace (lvl : Z).
Record built := mkBuilt {
  b_sinks : list sink; b_encoder : encoder; b_options : list zap_option; b_fixed : list field; b_driver : driver }.
Definition buildEncoder (format : string) : encoder :=
  if bool_decide (format = "console") then ConsoleEncoder else JSONEncoder.
Definition buildDriver (hostname : option string) (o : BootstrapOptions) : goerr + built :=
  if bool_decide (ServiceName o = "") then inl (ErrNew "logger: ServiceName is required")
  else
    let o := applyDefaults o in
    let host := if bool_decide (Host o = "") then default "" hostname else Host o in
    inr (mkBuilt
      ((if bool_decide (Path (File o) = "") then [] else [SFile (File o)])
       ++ (if EnableStdout o || bool_decide (Path (File o) = "") then [SStdout] else []))
      (buildEncoder (Format o))
      ((if AddCaller o then ZAddCaller :: (if 0 <? CallerSkip o then [ZAddCallerSkip (CallerSkip o)] else []) else [])
       ++ [ZAddStacktrace ErrorLevel])
      (("service", FStr (ServiceName o)) :: field_if_s "env" (Env o) ++ field_if_s "version" (o_Version o)
       ++ field_if_s "host" host)
      (mkDriver (toZapLevel (o_Level o)) (default DefaultSanitizeRules (SanitizeRules o)) (newSampler (SampleEveryN o)))).
Definition Bootstrap (hostname : option string) (o : BootstrapOptions) (global : option driver) :
    option goerr * option driver :=
  match buildDriver hostname o with
  | inl e => (Some e, global)
  | inr b => (None, Some (b_driver b))
  end.
Definition SetLevelDynamic (lv : Z) (global : option driver) : option driver :=
  (λ d, mkDriver (toZapLevel lv) (d_rules d) (d_sampler d)) <$> global.
(** The files of the driver are all closed; the first error is returned. [closes] is what closing
    each answers. *)
Definition shutdown (closes : list (option goerr)) : option goerr := head (omap id closes).
Definition Shutdown (global : option driver) (closes : list (option goerr)) : option goerr :=
  match global with None => None | Some _ => shutdown closes end.
(** A driver always has somewhere to write to. *)
Lemma buildDriver_sinks h o b : buildDriver h o = inr b → b_sinks b ≠ [].
Proof.
  unfold buildDriver. case_bool_decide; [done|]. intros [= <-]. cbn [b_sinks].
  case_bool_decide as E; [|done]. by rewrite orb_true_r.
Qed.
