(* ===== verification/Attributes.v ===== *)
(** What goes into a trace (pkg/trace): the cleaning of span attributes and the envelope a trace
    context travels in. *)
From Stdlib Require Import Ascii.
From stdpp Require Import prelude gmap strings list.
From S2P Require Import Prelude GoStrings Digest Sanitize.

(** ** attributes.go *)
(** An attribute's value is a string or of another type, for which [AsString] is empty. *)
Inductive avalue := AString (s : string) | AInt64 (z : Z) | ABool (b : bool).
Definition AsString (v : avalue) : string := match v with AString s => s | _ => "" end.
Definition attribute : Type := string * avalue.
Record AttributePolicy := mkPolicy { DenyKeys : gset string; HashKeys : gset string; AllowBizKeys : gset string }.
Definition toSet (keys : list string) : gset string := list_to_set (map ToLower keys).
Definition AttrKeys : list string :=
  ["device_no"; "account_id"; "msg_id"; "instruction_id"; "instruction_type"; "record_id"; "record_file_name";
   "run_id"; "job_name"; "trace_origin"; "trace_orphan"; "orphan_reason"; "mq_claim_result"].
Definition DefaultAttributePolicy : AttributePolicy :=
  mkPolicy
    (toSet ["phone"; "id_card"; "email"; "password"; "token"; "authorization"; "access_token"; "sign_key"; "secret";
            "presigned_url"; "callback_url_with_sign"; "request_body"; "response_body"])
    (toSet ["user_id"]) (toSet AttrKeys).
Definition hashValue (v : string) : string :=
  if bool_decide (v = "") then "" else hex_encode (take 6 (sha256 (to_bytes v))).
Fixpoint clean (p : AttributePolicy) (kvs : list attribute) : list attribute :=
  match kvs with
  | [] => []
  | (k, v) :: kvs =>
      if decide (ToLower k ∈ DenyKeys p) then clean p kvs
      else if decide (ToLower k ∈ HashKeys p) then (k, AString (hashValue (AsString v))) :: clean p kvs
      else (k, v) :: clean p kvs
  end.
(** A span that records, or one that does not; a nil span is none of them. *)
Record span := mkSpan { IsRecording : bool; s_attributes : list attribute }.
Definition SetAttributes (policy : option AttributePolicy) (kvs : list attribute) (s : option span) : option span :=
  match s with
  | None => None
  | Some sp =>
      if negb (IsRecording sp) then s
      else match policy with
           | None => Some (mkSpan true (s_attributes sp ++ kvs))
           | Some p => match clean p kvs with
                       | [] => s
                       | out => Some (mkSpan true (s_attributes sp ++ out))
                       end
           end
  end.
Record BizAttrs := mkBizAttrs {
  DeviceNo : string; AccountID : string; MsgID : string; InstructionID : Z; InstructionType : string;
  RecordID : Z; RecordFileName : string; RunID : string; JobName : string; TraceOrigin : string;
  TraceOrphan : bool; OrphanReason : string; MQClaimResult : string }.
Definition attr_s (k v : string) : list attribute := if bool_decide (v = "") then [] else [(k, AString v)].
Definition attr_z (k : string) (z : Z) : list attribute := if z =? 0 then [] else [(k, AInt64 z)].
Definition biz_attributes (b : BizAttrs) : list attribute :=
  attr_s "device_no" (DeviceNo b) ++ attr_s "account_id" (AccountID b) ++ attr_s "msg_id" (MsgID b)
  ++ attr_z "instruction_id" (InstructionID b) ++ attr_s "instruction_type" (InstructionType b)
  ++ attr_z "record_id" (RecordID b) ++ attr_s "record_file_name" (RecordFileName b) ++ attr_s "run_id" (RunID b)
  ++ attr_s "job_name" (JobName b) ++ attr_s "trace_origin" (TraceOrigin b)
  ++ (if TraceOrphan b then [("trace_orphan", ABool true)] else [])
  ++ attr_s "orphan_reason" (OrphanReason b) ++ attr_s "mq_claim_result" (MQClaimResult b).
Definition SetBizAttributes (policy : option AttributePolicy) (b : BizAttrs) (s : option span) : option span :=
  SetAttributes policy (biz_attributes b) s.

(** ** propagation.go, mq.go *)
(** The propagator is OpenTelemetry's: it writes a context's trace into a carrier, and reads one
    into a context. *)
Class Propagator (C : Type) := {
  Inject : C → gmap string string → gmap string string;
  Extract : C → gmap string string → C }.
Definition HeaderTraceparent : string := "traceparent".
Definition HeaderTracestate : string := "tracestate".
Record TraceContextEnvelope := mkEnvelope { Traceparent : string; Tracestate : string }.
Section propagation.
Context {C : Type} `{Propagator C}.
Definition InjectMap (c : C) : gmap string string := Inject c ∅.
Definition InjectEnvelope (c : C) : TraceContextEnvelope :=
  let m := InjectMap c in
  mkEnvelope (default "" (m !! HeaderTraceparent)) (default "" (m !! HeaderTracestate)).
Definition envelope_carrier (e : TraceContextEnvelope) : gmap string string :=
  let m := {[HeaderTraceparent := Traceparent e]} in
  if bool_decide (Tracestate e = "") then m else <[HeaderTracestate := Tracestate e]> m.
Definition ExtractEnvelope (c : C) (e : TraceContextEnvelope) : C :=
  if bool_decide (Traceparent e = "") then c else Extract c (envelope_carrier e).
Definition MQInject (c : C) : gmap string string := InjectMap c.
Definition MQExtract (c : C) (headers : gmap string string) : C :=
  if bool_decide (headers = ∅) then c else Extract c headers.
End propagation.

(** ** What a trace shows *)
Definition cleaned (p : AttributePolicy) (kv : attribute) : option attribute :=
  if decide (ToLower kv.1 ∈ DenyKeys p) then None
  else if decide (ToLower kv.1 ∈ HashKeys p) then Some (kv.1, AString (hashValue (AsString kv.2)))
  else Some kv.
Lemma clean_omap p kvs : clean p kvs = omap (cleaned p) kvs.
Proof.
  induction kvs as [|[k v] kvs IH]; [done|]. cbn [clean]. csimpl. unfold cleaned at 1. cbn [fst snd].
  destruct (decide _); [done|]. destruct (decide _); by rewrite IH.
Qed.
Lemma SetAttributes_some p kvs sp :
  IsRecording sp = true →
  SetAttributes (Some p) kvs (Some sp) = Some (mkSpan true (s_attributes sp ++ omap (cleaned p) kvs)).
Proof.
  intros Hr. unfold SetAttributes. rewrite Hr, <-clean_omap. cbn [negb].
  destruct sp as [r l]. cbn in *. subst r. destruct (clean p kvs); [by rewrite app_nil_r|done].
Qed.

(** Nothing denied is traced. What is set on a recording span appears in order, without the
    keys the policy denies, in any case of letters, and with only the digest of those it hashes;
    in particular two values under a denied key cannot be told apart by the trace. *)
Lemma attributes_cleaned (p : AttributePolicy) (kvs : list attribute) (sp : span) :
  IsRecording sp = true →
  ∃ out, SetAttributes (Some p) kvs (Some sp) = Some (mkSpan true (s_attributes sp ++ out)) ∧
    out = omap (cleaned p) kvs ∧
    (∀ k v, (k, v) ∈ out → ToLower k ∉ DenyKeys p) ∧
    (∀ k v, (k, v) ∈ out → ToLower k ∈ HashKeys p → ∃ w, (k, w) ∈ kvs ∧ v = AString (hashValue (AsString w))) ∧
    (∀ kvs', Forall2 (λ a b, a.1 = b.1 ∧ (a.2 = b.2 ∨ ToLower a.1 ∈ DenyKeys p)) kvs kvs' →
       SetAttributes (Some p) kvs' (Some sp) = SetAttributes (Some p) kvs (Some sp)).
Proof.
  intros Hr. exists (omap (cleaned p) kvs). split; [by apply SetAttributes_some|]. split; [done|].
  assert (∀ k v, (k, v) ∈ omap (cleaned p) kvs → ∃ w, (k, w) ∈ kvs ∧ cleaned p (k, w) = Some (k, v)) as Hin.
  { intros k v ([k' w] & Hw & Hc)%list_elem_of_omap. exists w. assert (k' = k) as ->; [|done].
    unfold cleaned in Hc. cbn in Hc. repeat case_decide; naive_solver. }
  split_and!.
  - intros k v (w & _ & Hc)%Hin. unfold cleaned in Hc. cbn in Hc. by case_decide.
  - intros k v (w & Hw & Hc)%Hin Hh. exists w. split; [done|]. unfold cleaned in Hc. cbn in Hc.
    case_decide; [done|]. rewrite decide_True in Hc by done. by injection Hc as <-.
  - intros kvs' HF. rewrite !SetAttributes_some by done. do 3 f_equal. clear Hin.
    induction HF as [|[k v] [k' v'] l l' [Hk Hv] _ IH]; [done|]. cbn in Hk, Hv. subst k'. csimpl.
    assert (cleaned p (k, v') = cleaned p (k, v)) as ->; [|by rewrite IH].
    unfold cleaned. cbn. destruct Hv as [->|Hd]; [done|]. by rewrite !decide_True.
Qed.

Definition some_attributes : list attribute :=
  [("Phone", AString "13812345678"); ("user_id", AString "u1"); ("job_name", AString "sync"); ("user_id", AInt64 7)].
Lemma attributes_cleaned_witness :
  clean DefaultAttributePolicy some_attributes
    = [("user_id", AString "bb82030dbc2b"); ("job_name", AString "sync"); ("user_id", AString "")] ∧
  ∃ out, SetAttributes (Some DefaultAttributePolicy) some_attributes (Some (mkSpan true []))
           = Some (mkSpan true ([] ++ out)) ∧
    out = omap (cleaned DefaultAttributePolicy) some_attributes ∧
    (∀ k v, (k, v) ∈ out → ToLower k ∉ DenyKeys DefaultAttributePolicy) ∧
    (∀ k v, (k, v) ∈ out → ToLower k ∈ HashKeys DefaultAttributePolicy →
       ∃ w, (k, w) ∈ some_attributes ∧ v = AString (hashValue (AsString w))) ∧
    (∀ kvs', Forall2 (λ a b, a.1 = b.1 ∧ (a.2 = b.2 ∨ ToLower a.1 ∈ DenyKeys DefaultAttributePolicy)) some_attributes kvs' →
       SetAttributes (Some DefaultAttributePolicy) kvs' (Some (mkSpan true []))
       = SetAttributes (Some DefaultAttributePolicy) some_attributes (Some (mkSpan true []))).
Proof.
  split; [vm_compute; reflexivity|].
  pose proof (attributes_cleaned DefaultAttributePolicy some_attributes (mkSpan true [])) as P. by apply P.
Defined.
(** An envelope carries what was injected. *)
Lemma envelope_roundtrip {C} `{Propagator C} (c c' : C) :
  dom (InjectMap c) ⊆ {[HeaderTraceparent; HeaderTracestate]} →
  map_Forall (λ _ v, v ≠ "") (InjectMap c) → is_Some (InjectMap c !! HeaderTraceparent) →
  ExtractEnvelope c' (InjectEnvelope c) = Extract c' (InjectMap c).
Proof.
  intros Hd Hne [tp Htp]. unfold ExtractEnvelope, InjectEnvelope. cbn [Traceparent]. rewrite Htp. cbn [default from_option].
  unfold id. rewrite bool_decide_eq_false_2 by (by eapply Hne). f_equal.
  unfold envelope_carrier. cbn [Traceparent Tracestate]. apply map_eq. intros k.
  destruct (decide (k = HeaderTraceparent)) as [->|Hk1].
  { rewrite Htp. case_bool_decide; [by rewrite lookup_singleton_eq|]. rewrite lookup_insert_ne by done. by rewrite lookup_singleton_eq. }
  destruct (decide (k = HeaderTracestate)) as [->|Hk2].
  { destruct (InjectMap c !! HeaderTracestate) as [ts|] eqn:Ets; cbn [default from_option]; unfold id.
    - rewrite bool_decide_eq_false_2 by (by eapply Hne). by rewrite lookup_insert_eq.
    - rewrite bool_decide_eq_true_2 by done. by rewrite lookup_singleton_ne by done. }
  assert (InjectMap c !! k = None) as ->.
  { apply not_elem_of_dom. intros Hk%Hd. set_solver. }
  case_bool_decide; [by rewrite lookup_singleton_ne|]. rewrite lookup_insert_ne by done. by rewrite lookup_singleton_ne.
Qed.
