(* ===== verification/PromExport.v ===== *)
(** The Prometheus exporter (pkg/metrics/prometheus_exporter.go): names, and the collectors that
    snapshots are exported to. *)
From Stdlib Require Import Ascii.
From stdpp Require Import prelude gmap strings list.
From S2P Require Import Prelude GoStrings Digest Utf8 GoFloat Metrics.

(** ** Names *)
Definition in_range (lo hi r : Z) : bool := (lo <=? r) && (r <=? hi).
Definition name_rune (r : Z) : bool :=
  in_range 97 122 r || in_range 65 90 r || in_range 48 57 r || (r =? 95) || (r =? 58).
Definition clean_runes (l : list Z) : list Z :=
  let l := map (λ r, if name_rune r then r else 95) l in
  match l with
  | r :: _ => if in_range 48 57 r then 95 :: l else l
  | [] => l
  end.
Definition sanitizeName (name : string) : string := string_of_runes (clean_runes (runes name)).

(** ** Collectors *)
(** The registry is client_golang's. A descriptor is a name, a help text and constant labels; a
    new collector, known by a handle, is registered, or refused with the one that has its
    descriptor, or refused. *)
Record desc := mkDesc { fqName : string; help : string; ConstLabels : tagmap }.
Inductive reg_answer := Registered | Already (h : nat) | Refused.
Class PromRegistry (P : Type) := {
  Register : nat → desc → P → reg_answer * P;
  registered : P → nat → desc → Prop }.
Class PromRegistryLaws (P : Type) `{PromRegistry P} := {
  Register_spec h d p : match Register h d p with
    | (Registered, p') => ∀ h' d', registered p' h' d' ↔ registered p h' d' ∨ (h' = h ∧ d' = d)
    | (Already h0, p') => p' = p ∧ registered p h0 d
    | (Refused, p') => p' = p
    end }.
(** The calls a collector received, and the metric each was made for. A counter is not a
    [prometheus.Gauge]; a gauge has every method of a [prometheus.Counter]. *)
Inductive ckind := KCounter | KGauge.
Inductive op := OpAdd (v : Z) | OpSet (v : float64).
Record collector := mkCollector { kind : ckind; c_desc : desc; calls : list (string * op) }.
Record exporter (P : Type) := mkExporter {
  promCounters : gmap string nat; promGauges : gmap string nat; promRates : gmap string nat;
  collectors : gmap nat collector; reg : P }.
Arguments mkExporter {P}. Arguments promCounters {P}. Arguments promGauges {P}. Arguments promRates {P}.
Arguments collectors {P}. Arguments reg {P}.

Section exporter.
Context {P : Type} `{PromRegistry P}.
Definition NewPrometheusExporter (p : P) : exporter P := mkExporter ∅ ∅ ∅ ∅ p.
Definition set_collectors (m : gmap nat collector) (e : exporter P) : exporter P :=
  mkExporter (promCounters e) (promGauges e) (promRates e) m (reg e).
Definition call (source : string) (h : nat) (o : op) (e : exporter P) : exporter P :=
  set_collectors (alter (λ c, mkCollector (kind c) (c_desc c) (calls c ++ [(source, o)])) h (collectors e)) e.
Inductive cache := CounterCache | GaugeCache | RateCache.
Definition cached (w : cache) (e : exporter P) : gmap string nat :=
  match w with CounterCache => promCounters e | GaugeCache => promGauges e | RateCache => promRates e end.
Definition remember (w : cache) (key : string) (h : nat) (e : exporter P) : exporter P :=
  match w with
  | CounterCache => mkExporter (<[key := h]> (promCounters e)) (promGauges e) (promRates e) (collectors e) (reg e)
  | GaugeCache => mkExporter (promCounters e) (<[key := h]> (promGauges e)) (promRates e) (collectors e) (reg e)
  | RateCache => mkExporter (promCounters e) (promGauges e) (<[key := h]> (promRates e)) (collectors e) (reg e)
  end.
(** What the four export functions share: the collector cached under the key, else a new one,
    else the registered one with its descriptor, whose type is asserted; no collector if the
    registry refuses. *)
Definition obtain (w : cache) (k : ckind) (key : string) (d : desc) (e : exporter P) : gores (option nat * exporter P) :=
  match cached w e !! key with
  | Some h => Ret (Some h, e)
  | None =>
      let h := fresh (dom (collectors e)) in
      match Register h d (reg e) with
      | (Registered, p) =>
          Ret (Some h, remember w key h (mkExporter (promCounters e) (promGauges e) (promRates e)
                                           (<[h := mkCollector k d []]> (collectors e)) p))
      | (Already h0, p) =>
          let e := mkExporter (promCounters e) (promGauges e) (promRates e) (collectors e) p in
          match k, kind <$> collectors e !! h0 with
          | KCounter, Some _ | KGauge, Some KGauge => Ret (Some h0, remember w key h0 e)
          | _, _ => Panic "interface conversion"
          end
      | (Refused, p) => Ret (None, mkExporter (promCounters e) (promGauges e) (promRates e) (collectors e) p)
      end
  end.
Definition exportCounter (name : string) (tags : tagmap) (v : Z) (e : exporter P) : gores (exporter P) :=
  match obtain CounterCache KCounter name (mkDesc (sanitizeName name) name tags) e with
  | Panic m => Panic m
  | Ret (None, e) => Ret e
  | Ret (Some h, e) => Ret (if 0 <? v then call name h (OpAdd v) e else e)
  end.
(** [exportGauge], and the helpers of histograms and rates, whose help text is the name. *)
Definition set_gauge (w : cache) (source key : string) (d : desc) (v : float64) (e : exporter P) : gores (exporter P) :=
  match obtain w KGauge key d e with
  | Panic m => Panic m
  | Ret (None, e) => Ret e
  | Ret (Some h, e) => Ret (call source h (OpSet v) e)
  end.
Definition exportGauge (name : string) (tags : tagmap) (v : float64) : exporter P → gores (exporter P) :=
  set_gauge GaugeCache name name (mkDesc (sanitizeName name) name tags) v.
Definition exportHistogramQuantile (source name : string) (tags : tagmap) (v : float64) : exporter P → gores (exporter P) :=
  set_gauge GaugeCache source name (mkDesc name name tags) v.
Definition exportRateGauge (source name : string) (tags : tagmap) (v : float64) : exporter P → gores (exporter P) :=
  set_gauge RateCache source name (mkDesc name name tags) v.
Definition gores_bind {A B} (x : gores A) (f : A → gores B) : gores B := match x with Ret a => f a | Panic m => Panic m end.
Fixpoint in_turn (fs : list (exporter P → gores (exporter P))) (e : exporter P) : gores (exporter P) :=
  match fs with [] => Ret e | f :: fs => gores_bind (f e) (in_turn fs) end.
Definition exportHistogram (name : string) (tags : tagmap) (h : HistogramSnapshot) (e : exporter P) : gores (exporter P) :=
  if hs_Count h =? 0 then Ret e
  else
    let q s v := exportHistogramQuantile name (sanitizeName name +++ s) tags v in
    in_turn [q "_p50" (hs_P50 h); q "_p95" (hs_P95 h); q "_p99" (hs_P99 h); q "_avg" (hs_Avg h);
             q "_max" (hs_Max h); q "_min" (hs_Min h); q "_count" (f_of_Z (hs_Count h))] e.
Definition exportRate (name : string) (tags : tagmap) (r : RateSnapshot) (e : exporter P) : gores (exporter P) :=
  let g s v := exportRateGauge name (sanitizeName name +++ s) tags v in
  in_turn [g "_total" (f_of_Z (rs_Total r)); g "_success" (f_of_Z (rs_Success r)); g "_fail" (f_of_Z (rs_Fail r));
           g "_rate" (rs_Rate r)] e.
Definition export1 (s : Snapshot) : exporter P → gores (exporter P) :=
  match s_Value s with
  | SnapCounter v => exportCounter (s_Name s) (s_Tags s) v
  | SnapGauge v => exportGauge (s_Name s) (s_Tags s) v
  | SnapHistogram h => exportHistogram (s_Name s) (s_Tags s) h
  | SnapRate r => exportRate (s_Name s) (s_Tags s) r
  end.
(** The snapshots of one collection, in the order of the iteration. *)
Definition ExportSnapshots (snaps : list Snapshot) (e : exporter P) : gores (exporter P) := in_turn (map export1 snaps) e.

(** ** No increment is lost *)
(** The positive values of a counter among the snapshots. *)
Definition increments (name : string) (snaps : list Snapshot) : list Z :=
  omap (λ s, match s_Value s with
             | SnapCounter v => if decide (s_Name s = name ∧ 0 < v) then Some v else None
             | _ => None
             end) snaps.
Definition adds_for (name : string) (l : list (string * op)) : list Z :=
  omap (λ c, match c.2 with OpAdd v => if decide (c.1 = name) then Some v else None | OpSet _ => None end) l.
Definition adds_at (name : string) (h : nat) (e : exporter P) : list Z :=
  adds_for name (from_option calls [] (collectors e !! h)).
(** The collector of a counter is known, and no one else's calls count for it. *)
Definition counting (name : string) (h : nat) (e : exporter P) : Prop :=
  promCounters e !! name = Some h ∧ is_Some (collectors e !! h).

Lemma call_adds name h source h' o e :
  is_Some (collectors e !! h) →
  adds_at name h (call source h' o e) =
    adds_at name h e ++ (if decide (h = h') then adds_for name [(source, o)] else []).
Proof.
  intros [c Hc]. unfold adds_at, call. cbn [collectors set_collectors]. destruct (decide (h = h')) as [->|Hne].
  - rewrite lookup_alter_eq, Hc. cbn. unfold adds_for. by rewrite omap_app.
  - rewrite lookup_alter_ne by done. by rewrite app_nil_r.
Qed.
(** Every registered collector exists. *)
Definition reg_ok (e : exporter P) : Prop := ∀ h d, registered (reg e) h d → is_Some (collectors e !! h).
(** A step that adds [vs] to what the counter received. *)
Definition adding (name : string) (h : nat) (vs : list Z) (e e' : exporter P) : Prop :=
  (reg_ok e → reg_ok e') ∧
  (counting name h e → counting name h e' ∧ adds_at name h e' = adds_at name h e ++ vs).
Lemma adding_trans name h vs ws e1 e2 e3 :
  adding name h vs e1 e2 → adding name h ws e2 e3 → adding name h (vs ++ ws) e1 e3.
Proof.
  intros [R1 A1] [R2 A2]. split; [auto|]. intros Hc.
  destruct (A1 Hc) as [C2 E2]. destruct (A2 C2) as [C3 E3]. split; [done|]. by rewrite E3, E2, app_assoc.
Qed.
Lemma adding_call name h source h' o e :
  adding name h (if decide (h = h') then adds_for name [(source, o)] else []) e (call source h' o e).
Proof.
  assert (∀ k, is_Some (collectors e !! k) → is_Some (collectors (call source h' o e) !! k)) as Hs.
  { intros k [c Hc]. cbn. destruct (decide (k = h')) as [->|Hk]; [rewrite lookup_alter_eq, Hc|rewrite lookup_alter_ne, Hc by done]; by eexists. }
  split; [intros Hr k d Hd; apply Hs; by eapply Hr|]. intros [Hp Hh]. split; [by split; [|apply Hs]|].
  by apply call_adds.
Qed.
(** Obtaining a collector adds nothing, finds the counter's own one, and panics only where a
    gauge asks for a collector that is not one. *)
Lemma obtain_spec `{!PromRegistryLaws P} name h w k key d e :
  match obtain w k key d e with
  | Panic _ => reg_ok e → k = KGauge
  | Ret (oh, e') => adding name h [] e e' ∧
      (counting name h e → w = CounterCache → key = name → oh = Some h)
  end.
Proof.
  unfold obtain. destruct (cached w e !! key) as [h1|] eqn:Ec.
  { split; [split; [done|intros Hc; by rewrite app_nil_r]|]. intros [Hp _] -> ->. cbn in Ec. congruence. }
  set (h1 := fresh (dom (collectors e))).
  assert (collectors e !! h1 = None) as Hf by (apply not_elem_of_dom, is_fresh).
  assert (∀ c p m r e2, e2 = remember w key r (mkExporter (promCounters e) (promGauges e) (promRates e) c p) → m = collectors e →
    counting name h e → promCounters e2 !! name = Some h) as Hrem.
  { intros c p m r e2 -> _ [Hp _]. destruct w; cbn; try done. rewrite lookup_insert_ne; [done|].
    intros ->. cbn in Ec. congruence. }
  assert (∀ m r e2, collectors (remember w m r e2) = collectors e2 ∧ reg (remember w m r e2) = reg e2) as Hsame
    by by destruct w.
  assert (counting name h e → ¬ (w = CounterCache ∧ key = name)) as Hno.
  { intros [Hp _] [-> ->]. cbn in Ec. congruence. }
  pose proof (Register_spec h1 d (reg e)) as Hs. destruct (Register h1 d (reg e)) as [[|h0|] p].
  - split; [split|].
    + intros Hr h' d' Hd. destruct (Hsame key h1 (mkExporter (promCounters e) (promGauges e) (promRates e) (<[h1:=mkCollector k d []]> (collectors e)) p)) as [-> E].
      rewrite E in Hd. cbn in *. apply Hs in Hd as [Hd|[-> ->]]; [|rewrite lookup_insert_eq; by eexists].
      destruct (decide (h' = h1)) as [->|]; [rewrite lookup_insert_eq; by eexists|rewrite lookup_insert_ne by done; by eapply Hr].
    + intros Hc. destruct (Hsame key h1 (mkExporter (promCounters e) (promGauges e) (promRates e) (<[h1:=mkCollector k d []]> (collectors e)) p)) as [E _].
      assert (h ≠ h1) as Hne by (intros ->; destruct Hc as [_ [c Hc]]; congruence).
      unfold adds_at, counting. rewrite E. cbn. rewrite lookup_insert_ne, app_nil_r by done.
      split; [split; [by eapply Hrem|apply Hc]|done].
    + intros Hc -> ->. by destruct (Hno Hc).
  - destruct Hs as [-> Hd].
    assert (adding name h [] e (remember w key h0 (mkExporter (promCounters e) (promGauges e) (promRates e) (collectors e) (reg e)))) as Hadd.
    { destruct (Hsame key h0 (mkExporter (promCounters e) (promGauges e) (promRates e) (collectors e) (reg e))) as [E1 E2].
      split; [intros Hr; unfold reg_ok; by rewrite E1, E2|]. intros Hc. unfold adds_at, counting. rewrite E1, app_nil_r.
      split; [split; [by eapply Hrem|apply Hc]|done]. }
    cbn [collectors]. destruct k; [|destruct (kind <$> collectors e !! h0) as [[]|]]; try done.
    + destruct (kind <$> collectors e !! h0) as [k0|] eqn:Ek.
      * split; [done|]. intros Hc -> ->. by destruct (Hno Hc).
      * intros Hr. destruct (Hr _ _ Hd) as [c Hcol]. by rewrite Hcol in Ek.
    + split; [done|]. intros Hc -> ->. by destruct (Hno Hc).
  - subst p. split; [split|].
    + done.
    + intros Hc. rewrite app_nil_r. split; [exact Hc|done].
    + intros Hc -> ->. by destruct (Hno Hc).
Qed.

Lemma export_counter_spec `{!PromRegistryLaws P} name h n tags v e :
  match exportCounter n tags v e with
  | Panic _ => ¬ reg_ok e
  | Ret e' => adding name h (if decide (n = name ∧ 0 < v) then [v] else []) e e'
  end.
Proof.
  unfold exportCounter. pose proof (obtain_spec name h CounterCache KCounter n (mkDesc (sanitizeName n) n tags) e) as Ho.
  destruct (obtain _ _ _ _ _) as [[oh e1]|]; [|intros Hr; by apply Ho in Hr]. destruct Ho as [Ha Hoh].
  destruct oh as [h1|].
  - destruct (Z.ltb_spec 0 v) as [Hv|Hv].
    + split.
      * intros Hr. apply (adding_call name h n h1 (OpAdd v)). by apply Ha.
      * intros Hc. destruct Ha as [_ Ha]. destruct (Ha Hc) as [Hc1 E1]. rewrite app_nil_r in E1.
        destruct (adding_call name h n h1 (OpAdd v) e1) as [_ Hcall]. destruct (Hcall Hc1) as [Hc2 E2].
        split; [done|]. rewrite E2, E1. f_equal. unfold adds_for. cbn.
        destruct (decide (n = name)) as [->|Hn].
        -- rewrite (decide_True (P := name = name ∧ 0 < v)) by done. specialize (Hoh Hc eq_refl eq_refl).
           injection Hoh as ->. by rewrite decide_True.
        -- rewrite (decide_False (P := n = name ∧ 0 < v)) by naive_solver. by destruct (decide (h = h1)).
    + rewrite decide_False by lia. done.
  - split; [apply Ha|]. intros Hc. rewrite decide_False; [by apply Ha|]. intros [-> _]. by specialize (Hoh Hc eq_refl eq_refl).
Qed.
Lemma set_gauge_spec `{!PromRegistryLaws P} name h w source key d v e e' :
  set_gauge w source key d v e = Ret e' → w ≠ CounterCache → adding name h [] e e'.
Proof.
  unfold set_gauge. intros Hg Hw. pose proof (obtain_spec name h w KGauge key d e) as Ho.
  destruct (obtain _ _ _ _ _) as [[oh e1]|]; [|done]. destruct Ho as [Ha _].
  destruct oh as [h1|]; injection Hg as <-; [|done].
  pose proof (adding_trans _ _ _ _ _ _ _ Ha (adding_call name h source h1 (OpSet v) e1)) as Ht.
  unfold adds_for in Ht. cbn in Ht. by destruct (decide (h = h1)).
Qed.
Lemma in_turn_adding name h (fs : list (exporter P → gores (exporter P))) e e' :
  (∀ f e e', f ∈ fs → f e = Ret e' → adding name h [] e e') → in_turn fs e = Ret e' → adding name h [] e e'.
Proof.
  revert e. induction fs as [|f fs IH]; intros e Hf; cbn.
  - intros [= <-]. split; [done|]. intros Hc. by rewrite app_nil_r.
  - destruct (f e) as [e1|] eqn:E; [|done]. intros Ht.
    apply (adding_trans name h [] [] e e1); [by eapply Hf; [constructor|]|]. apply IH; [|done].
    intros g x y Hg. apply Hf. by constructor.
Qed.
Definition is_counter (s : Snapshot) : bool := match s_Value s with SnapCounter _ => true | _ => false end.
Lemma export1_spec `{!PromRegistryLaws P} name h s e :
  match export1 s e with
  | Panic _ => reg_ok e → is_counter s = false
  | Ret e' => adding name h (increments name [s]) e e'
  end.
Proof.
  unfold export1, is_counter, increments. destruct s as [n [v|v|hs|r] tags svc t]; cbn -[exportCounter exportGauge exportHistogram exportRate].
  - pose proof (export_counter_spec name h n tags v e) as Hc. destruct (exportCounter n tags v e); [|done].
    by destruct (decide (n = name ∧ 0 < v)).
  - destruct (exportGauge n tags v e) eqn:E; [|done]. by eapply set_gauge_spec.
  - destruct (exportHistogram n tags hs e) eqn:E; [|done]. unfold exportHistogram in E.
    destruct (hs_Count hs =? 0); [injection E as <-; split; [done|]; intros Hc; by rewrite app_nil_r|].
    eapply in_turn_adding; [|exact E]. intros f x y Hf Hxy.
    repeat (apply elem_of_cons in Hf as [->|Hf]; [by eapply set_gauge_spec|]). by apply not_elem_of_nil in Hf.
  - destruct (exportRate n tags r e) eqn:E; [|done]. unfold exportRate in E.
    eapply in_turn_adding; [|exact E]. intros f x y Hf Hxy.
    repeat (apply elem_of_cons in Hf as [->|Hf]; [by eapply set_gauge_spec|]). by apply not_elem_of_nil in Hf.
Qed.

(** C33: No increment is lost or counted twice on the way to Prometheus. Once a counter's collector
    is known, then for any snapshots of any metrics, exported in any order, the collector receives
    for this counter exactly the positive values of its snapshots, in order; the export ends,
    unless a snapshot that is not a counter's meets a counter where it needs a gauge. *)
Theorem exported_increments `{!PromRegistryLaws P} (name : string) (h : nat) (snaps : list Snapshot) (e : exporter P) :
  reg_ok e → counting name h e →
  match ExportSnapshots snaps e with
  | Ret e' => reg_ok e' ∧ counting name h e' ∧ adds_at name h e' = adds_at name h e ++ increments name snaps
  | Panic _ => ∃ s, s ∈ snaps ∧ is_counter s = false
  end.
Proof.
  unfold ExportSnapshots. revert e. induction snaps as [|s snaps IH]; intros e Hr Hc; cbn [map in_turn]; [cbn; by rewrite app_nil_r|].
  pose proof (export1_spec name h s e) as Hs. destruct (export1 s e) as [e1|]; cbn [gores_bind].
  - destruct Hs as [Hr1 Ha]. destruct (Ha Hc) as [Hc1 E1]. specialize (IH e1 (Hr1 Hr) Hc1).
    destruct (in_turn _ e1) as [e2|]; [|destruct IH as (x & Hx & ?); exists x; by split; [constructor|]].
    destruct IH as (? & ? & E2). split_and!; [done|done|]. rewrite E2, E1, <-app_assoc. f_equal.
    symmetry. apply (omap_app _ [s] snaps).
  - exists s. split; [by constructor|]. by apply Hs.
Qed.
End exporter.

(** ** Names are valid *)
(** [[a-zA-Z_:][a-zA-Z0-9_:]*] *)
Definition valid_metric_name (s : string) : bool :=
  match to_bytes s with
  | [] => false
  | b :: l => name_rune b && negb (in_range 48 57 b) && forallb name_rune l
  end.
Lemma name_rune_ascii r : name_rune r = true → ascii_rune r.
Proof. unfold name_rune, in_range, ascii_rune. rewrite !orb_true_iff, !andb_true_iff, !Z.leb_le, !Z.eqb_eq. lia. Qed.
Lemma clean_runes_valid l :
  l ≠ [] → ∃ r l', clean_runes l = r :: l' ∧ name_rune r && negb (in_range 48 57 r) && forallb name_rune l' = true.
Proof.
  intros Hl. destruct l as [|r l]; [done|]. unfold clean_runes. cbn [map].
  assert (∀ x, name_rune (if name_rune x then x else 95) = true) as Hx by (intros x; by destruct (name_rune x) eqn:E).
  assert (∀ l, forallb name_rune (map (λ r, if name_rune r then r else 95) l) = true) as Hall.
  { intros k. apply forallb_forall. intros y (x & <- & _)%in_map_iff. apply Hx. }
  destruct (in_range 48 57 (if name_rune r then r else 95)) eqn:E.
  - exists 95, ((if name_rune r then r else 95) :: map (λ r, if name_rune r then r else 95) l). split; [done|].
    cbn [forallb]. by rewrite Hx, Hall.
  - eexists _, _. split; [done|]. by rewrite Hx, E, Hall.
Qed.
Lemma runes_nonempty s : s ≠ "" → runes s ≠ [].
Proof. destruct s as [|c s]; [done|]. intros _. unfold runes, range_string. cbn. by destruct (decode_rune _ _). Qed.
(** A non-empty name is exported under a valid one. *)
Lemma sanitizeName_valid name : name ≠ "" → valid_metric_name (sanitizeName name) = true.
Proof.
  intros Hn. destruct (clean_runes_valid (runes name) (runes_nonempty name Hn)) as (r & l & E & Hv).
  unfold valid_metric_name, sanitizeName. rewrite E. rewrite to_string_of_runes; [done|].
  rewrite !andb_true_iff in Hv. destruct Hv as [[Hr _] Hl]. constructor; [by apply name_rune_ascii|].
  apply Forall_forall. intros x Hx. apply name_rune_ascii. rewrite forallb_forall in Hl. by apply Hl, list_elem_of_In.
Qed.

(** ** A registry, and witnesses *)
(** Equal descriptors meet; a name is taken by one help text. *)
Definition list_registry : Type := list (nat * desc).
#[global] Instance desc_eq_dec : EqDecision desc.
Proof. solve_decision. Defined.
#[global] Instance list_PromRegistry : PromRegistry list_registry := {
  Register h d p :=
    match find (λ x, bool_decide (x.2 = d)) p with
    | Some x => (Already x.1, p)
    | None => if existsb (λ x, bool_decide (fqName x.2 = fqName d)) p then (Refused, p) else (Registered, p ++ [(h, d)])
    end;
  registered p h d := (h, d) ∈ p }.
#[global] Instance list_PromRegistryLaws : PromRegistryLaws list_registry.
Proof.
  split. intros h d p. cbn. destruct (find _ p) as [[h0 d0]|] eqn:Ef.
  - apply find_some in Ef as [Hin Hd]. apply bool_decide_eq_true in Hd. cbn in *. subst d0. split; [done|].
    by apply list_elem_of_In.
  - destruct (existsb _ p); [done|]. intros h' d'. rewrite elem_of_app, list_elem_of_singleton. naive_solver.
Qed.
Definition snap (n : string) (v : SnapValue) : Snapshot := mkSnapshot n v ∅ "svc" 0.
Definition first_export : gores (exporter list_registry) :=
  ExportSnapshots [snap "req.total" (SnapCounter 3)] (NewPrometheusExporter []).
Definition after_first : exporter list_registry :=
  match first_export with Ret e => e | Panic _ => NewPrometheusExporter [] end.
Definition more_snaps : list Snapshot :=
  [snap "load" (SnapGauge f1); snap "req.total" (SnapCounter 4); snap "req_total" (SnapCounter 9);
   snap "ok" (SnapRate (buildRateSnapshot 1 0)); snap "req.total" (SnapCounter 0); snap "req.total" (SnapCounter 2)].
Lemma exported_increments_witness :
  increments "req.total" more_snaps = [4; 2] ∧ adds_at "req.total" 0 after_first = [3] ∧
  match ExportSnapshots more_snaps after_first with
  | Ret e' => reg_ok e' ∧ counting "req.total" 0 e' ∧
      adds_at "req.total" 0 e' = adds_at "req.total" 0 after_first ++ increments "req.total" more_snaps
  | Panic _ => ∃ s, s ∈ more_snaps ∧ is_counter s = false
  end.
Proof.
  split; [vm_compute; reflexivity|]. split; [vm_compute; reflexivity|].
  pose proof (exported_increments "req.total" 0 more_snaps after_first) as P. apply P.
  - intros h d Hd. vm_compute in Hd. apply list_elem_of_singleton in Hd. injection Hd as -> _. by eexists.
  - split; [reflexivity|by eexists].
Defined.
(** A name used first for a counter and then for a gauge ends the exporting goroutine. *)
Example counter_then_gauge :
  ExportSnapshots [snap "x" (SnapGauge f1)]
    (match ExportSnapshots [snap "x" (SnapCounter 1)] (NewPrometheusExporter ([] : list_registry)) with
     | Ret e => e | Panic _ => NewPrometheusExporter [] end)
  = Panic "interface conversion".
Proof. vm_compute. reflexivity. Qed.
