(* ===== verification/StringsX.v ===== *)
(** String utilities (pkg/stringsx, and [RemoveQuotes] of pkg/util): membership by sorting and binary
    search, changes of case, and the camel and snake styles of names. *)
From Stdlib Require Import Ascii.
From stdpp Require Import prelude strings list sorting.
From S2P Require Import Prelude GoStrings Digest Utf8.

(** ** Membership *)
(** Strings are ordered by their bytes. *)
Abbreviation str_le := String.le.
Definition Strings (l : list string) : list string := merge_sort str_le l.
(** [sort.Search] for [a[i] >= x]: the bounds, and fuel for the halvings. *)
Fixpoint search_loop (fuel : nat) (a : list string) (x : string) (i j : nat) : nat :=
  match fuel with
  | O => i
  | S fuel =>
      if (i <? j)%nat then
        let h := ((i + j) / 2)%nat in
        if bool_decide (str_le x (default "" (a !! h))) then search_loop fuel a x i h
        else search_loop fuel a x (S h) j
      else i
  end.
Definition SearchStrings (a : list string) (x : string) : nat := search_loop (length a) a x 0 (length a).
(** The result, and the caller's slice afterwards. *)
Definition InStringArray (target : string) (strArray : list string) : bool * list string :=
  let a := Strings strArray in
  let index := SearchStrings a target in
  ((index <? length a)%nat && bool_decide (a !! index = Some target), a).

(** Earlier elements of a sorted list are related to later ones. *)
Lemma StronglySorted_lookup {A} (R : relation A) (l : list A) i j x y :
  StronglySorted R l → l !! i = Some x → l !! j = Some y → (i < j)%nat → R x y.
Proof.
  intros Hs. revert i j. induction Hs as [|z l Hs IH Hz]; intros i j Hi Hj Hlt; [done|].
  destruct j as [|j]; [lia|]. destruct i as [|i]; [|eapply IH; [exact Hi|exact Hj|lia]].
  injection Hi as ->. rewrite Forall_lookup in Hz. by eapply Hz.
Qed.

(** What [sort.Search] finds: everything before is smaller, everything from there on is not. *)
Lemma search_loop_spec fuel a x i j :
  (j - i ≤ fuel)%nat → (i ≤ j ≤ length a)%nat → StronglySorted str_le a →
  (∀ k y, (k < i)%nat → a !! k = Some y → ¬ str_le x y) →
  (∀ k y, (j ≤ k)%nat → a !! k = Some y → str_le x y) →
  let r := search_loop fuel a x i j in
  (i ≤ r ≤ j)%nat ∧ (∀ k y, (k < r)%nat → a !! k = Some y → ¬ str_le x y) ∧
  (∀ k y, (r ≤ k)%nat → a !! k = Some y → str_le x y).
Proof.
  revert i j. induction fuel as [|fuel IH]; intros i j Hf Hij Hs Hlo Hhi; cbn [search_loop].
  { assert (i = j) as -> by lia. cbv zeta. by split_and!. }
  destruct (Nat.ltb_spec i j) as [Hlt|Hge]; [|assert (i = j) as -> by lia; cbv zeta; by split_and!].
  assert (i ≤ (i + j) / 2 < j)%nat as Hh.
  { split; [apply Nat.div_le_lower_bound; lia|apply Nat.Div0.div_lt_upper_bound; lia]. }
  set (h := ((i + j) / 2)%nat) in *. destruct (lookup_lt_is_Some_2 a h) as [y Hy]; [lia|]. rewrite Hy. cbn [default from_option].
  unfold id. case_bool_decide as Hle.
  - destruct (IH i h) as (H1 & H2 & H3); [lia|lia|done|done| |cbv zeta; split_and!; [lia|lia|done|done]].
    intros k z Hk Hz. destruct (decide (k = h)) as [->|Hne]; [by simplify_eq|].
    etrans; [exact Hle|]. eapply (StronglySorted_lookup str_le a); [done|exact Hy|exact Hz|lia].
  - destruct (IH (S h) j) as (H1 & H2 & H3); [lia|lia|done| |done|cbv zeta; split_and!; [lia|lia|done|done]].
    intros k z Hk Hz Hxz. apply Hle. destruct (decide (k = h)) as [->|Hne]; [by simplify_eq|].
    etrans; [exact Hxz|]. eapply (StronglySorted_lookup str_le a); [done|exact Hz|exact Hy|lia].
Qed.

(** Membership. The answer is whether the string is in the array, for any array, empty or
    unsorted or with repetitions; and the caller's array is left sorted, with the same strings. *)
Lemma in_string_array (target : string) (strArray : list string) :
  let '(found, a) := InStringArray target strArray in
  (found = true ↔ target ∈ strArray) ∧ a ≡ₚ strArray ∧ StronglySorted str_le a.
Proof.
  unfold InStringArray, Strings. set (a := merge_sort str_le strArray).
  assert (StronglySorted str_le a) as Hs by apply (StronglySorted_merge_sort str_le).
  assert (a ≡ₚ strArray) as Hp by apply merge_sort_Permutation.
  split_and!; [|done|done]. rewrite <-Hp, andb_true_iff, Nat.ltb_lt, bool_decide_eq_true.
  split; [intros [_ H]; by eapply list_elem_of_lookup_2|].
  intros [k Hk]%list_elem_of_lookup.
  destruct (search_loop_spec (length a) a target 0 (length a)) as ((_ & Hr) & Hlo & Hhi); try done; try lia.
  { intros k' y Hk' Hy. apply lookup_lt_Some in Hy. lia. }
  fold (SearchStrings a target) in *. set (r := SearchStrings a target) in *.
  assert (r ≤ k)%nat as Hrk.
  { destruct (decide (r ≤ k)%nat); [done|]. exfalso. eapply (Hlo k); [lia|done|]. done. }
  pose proof (lookup_lt_Some _ _ _ Hk) as Hlt. split; [lia|].
  destruct (lookup_lt_is_Some_2 a r) as [y Hy]; [lia|]. rewrite Hy. f_equal.
  apply (anti_symm str_le); [|by apply (Hhi r y)].
  destruct (decide (r = k)) as [->|Hne]; [rewrite Hk in Hy; by injection Hy as ->|].
  eapply (StronglySorted_lookup str_le a); [done|exact Hy|exact Hk|lia].
Qed.

(** ** Case *)
Definition IsUpperCase (r : Z) : bool := (65 <=? r) && (r <=? 90).
Definition IsLowerCase (r : Z) : bool := (97 <=? r) && (r <=? 122).
Definition ToLowerCase (r : Z) : Z := if IsUpperCase r then r + 32 else r.
Definition ToUpperCase (r : Z) : Z := if IsLowerCase r then r - 32 else r.
Definition ToLower (s : string) : string := string_of_runes (map ToLowerCase (runes s)).
Definition ToUpper (s : string) : string := string_of_runes (map ToUpperCase (runes s)).
(** [s[:1]] is the first byte. *)
Definition UpperFirst (s : string) : string :=
  match s with EmptyString => s | String c t => ToUpper (String c EmptyString) +++ t end.
Definition RemoveQuotes (s : string) : string :=
  of_bytes (filter (λ b, b ≠ 34) (to_bytes s)).
(** Numbers; text that does not parse is zero. *)
Definition StringIntoInt64 (s : string) : Z := default 0 (ParseInt s).
Definition StringIntoInt (s : string) : Z := default 0 (ParseInt s).
Definition Int64IntoString (z : Z) : string := FormatInt z.
Definition IntIntoString (z : Z) : string := FormatInt z.
Lemma StringIntoInt64_round z : in_i64 z → StringIntoInt64 (Int64IntoString z) = z.
Proof. intros Hz. unfold StringIntoInt64, Int64IntoString. by rewrite ParseInt_FormatInt. Qed.

(** An interface value: nil, a slice of bytes, or anything else, which the assertion refuses. *)
Inductive iface := INil | IBytes (b : string) | IOther.
Definition InterfaceIntoString (data : iface) : gores string :=
  match data with INil => Ret "" | IBytes b => Ret b | IOther => Panic "interface conversion: interface {} is not []uint8" end.

(** ** [UnExport], over package unicode's tables *)
Class Unicode := { IsLetter : Z → bool; unicode_ToLower : Z → Z }.
Class UnicodeLaws `{Unicode} := {
  IsLetter_ascii r : ascii_rune r → IsLetter r = IsUpperCase r || IsLowerCase r;
  ToLower_ascii r : ascii_rune r → unicode_ToLower r = ToLowerCase r }.
Section unexport.
Context `{Unicode}.
(** The mapping of [strings.Map]: [flag] tells that a letter was seen. *)
Fixpoint unexport_runes (flag : bool) (l : list Z) : list Z :=
  match l with
  | [] => []
  | r :: l =>
      if flag then r :: unexport_runes flag l
      else if IsLetter r then unicode_ToLower r :: unexport_runes true l
      else r :: unexport_runes flag l
  end.
Definition UnExport (text : string) : string := string_of_runes (unexport_runes false (runes text)).
Lemma unexport_runes_done l : unexport_runes true l = l.
Proof. induction l as [|r l IH]; [done|]. cbn. by rewrite IH. Qed.
(** The first letter is made small, and nothing else is touched. *)
Lemma unexport_first (p l : list Z) (r : Z) :
  Forall (λ x, IsLetter x = false) p → IsLetter r = true →
  unexport_runes false (p ++ r :: l) = p ++ unicode_ToLower r :: l.
Proof.
  intros Hp Hr. induction Hp as [|x p Hx _ IH]; cbn; [by rewrite Hr, unexport_runes_done|]. by rewrite Hx, IH.
Qed.
Context {UL : UnicodeLaws}.
Lemma UnExport_exported (c : ascii) (t : string) :
  is_ascii (String c t) = true → IsUpperCase (byte_of c) = true →
  UnExport (String c t) = String (byte_char (byte_of c + 32)) t.
Proof.
  intros Ha Hc. assert (runes (String c t) = byte_of c :: to_bytes t) as Hr by (by rewrite runes_ascii).
  assert (Forall ascii_rune (byte_of c :: to_bytes t)) as Hf by (by apply (is_ascii_bytes (String c t))).
  pose proof Hf as [Hc0 Ht]%Forall_cons.
  unfold UnExport. rewrite Hr. pose proof (unexport_first [] (to_bytes t) (byte_of c)) as Hu. cbn [app] in Hu.
  rewrite Hu by (done || by rewrite IsLetter_ascii, Hc). rewrite ToLower_ascii by done. unfold ToLowerCase. rewrite Hc.
  unfold string_of_runes. rewrite encode_runes_ascii.
  - cbn. f_equal. apply of_to_bytes.
  - constructor; [|done]. unfold ascii_rune, IsUpperCase in *. lia.
Qed.
End unexport.

(** ** Snake and camel style *)
Definition underscore : Z := 95.
Definition byte_at (bs : list Z) (i : nat) : Z := default 0 (bs !! i).
(** The runes that one rune of the name, at a byte offset, gives. *)
Definition snake_step (bs : list Z) (ir : nat * Z) : list Z :=
  let '(i, r) := ir in
  if (i =? 0)%nat then [ToLowerCase r]
  else if IsUpperCase r then
    if IsLowerCase (byte_at bs (i - 1)) then [underscore; ToLowerCase r]
    else if (S i <? length bs)%nat && IsLowerCase (byte_at bs (S i)) then [underscore; ToLowerCase r]
    else [ToLowerCase r]
  else [r].
Definition ToSnakeCase (s : string) : string :=
  string_of_runes (mjoin (map (snake_step (to_bytes s)) (range_string s))).
Definition camel_step (bs : list Z) (ir : nat * Z) : list Z :=
  let '(i, r) := ir in
  if r =? underscore then []
  else if (i =? 0)%nat then [ToUpperCase r]
  else if byte_at bs (i - 1) =? underscore then [ToUpperCase r]
  else [r].
Definition ToCamelCase (s : string) : string :=
  let s := ToLower s in
  string_of_runes (mjoin (map (camel_step (to_bytes s)) (range_string s))).
(** On ASCII text both are walks over the letters with the one before, and for the snake style
    the one after. *)
Fixpoint snake_walk (prev : option Z) (l : list Z) : list Z :=
  match l with
  | [] => []
  | r :: l =>
      match prev with
      | None => [ToLowerCase r]
      | Some b =>
          if IsUpperCase r then
            if IsLowerCase b || IsLowerCase (default 0 (head l)) then [underscore; ToLowerCase r] else [ToLowerCase r]
          else [r]
      end ++ snake_walk (Some r) l
  end.
Fixpoint camel_walk (prev : option Z) (l : list Z) : list Z :=
  match l with
  | [] => []
  | r :: l =>
      (if r =? underscore then []
       else match prev with None => [ToUpperCase r] | Some b => if b =? underscore then [ToUpperCase r] else [r] end)
        ++ camel_walk (Some r) l
  end.
Lemma byte_at_prev pre b l : byte_at ((pre ++ [b]) ++ l) (length (pre ++ [b]) - 1) = b.
Proof. unfold byte_at. rewrite <-app_assoc, length_app, Nat.add_sub. cbn [app]. by rewrite list_lookup_middle. Qed.
Lemma byte_at_next pre r l : byte_at (pre ++ r :: l) (S (length pre)) = default 0 (head l).
Proof.
  unfold byte_at. rewrite lookup_app_r by lia. replace (S (length pre) - length pre)%nat with 1%nat by lia.
  by destruct l.
Qed.
Lemma snake_walk_spec pre l :
  mjoin (map (snake_step (pre ++ l)) (imap (λ k b, ((length pre + k)%nat, b)) l)) = snake_walk (last pre) l.
Proof.
  revert pre. induction l as [|r l IH]; intros pre; [done|].
  rewrite imap_cons. cbn [map mjoin list_join fmap list_fmap snake_walk]. rewrite Nat.add_0_r. f_equal.
  - unfold snake_step. destruct pre as [|b pre _] using rev_ind; [done|].
    rewrite last_snoc. assert ((length (pre ++ [b]) =? 0)%nat = false) as -> by (apply Nat.eqb_neq; rewrite length_app; cbn; lia).
    rewrite byte_at_prev, byte_at_next. destruct (IsUpperCase r); [|done].
    destruct (IsLowerCase b); [done|]. cbn [orb]. rewrite (length_app (pre ++ [b])). destruct l as [|r' l]; cbn [length head default from_option].
    + assert ((S (length (pre ++ [b])) <? length (pre ++ [b]) + 1)%nat = false) as -> by (apply Nat.ltb_ge; lia). done.
    + assert ((S (length (pre ++ [b])) <? length (pre ++ [b]) + S (S (length l)))%nat = true) as -> by (apply Nat.ltb_lt; lia). done.
  - specialize (IH (pre ++ [r])). rewrite last_snoc, <-app_assoc in IH. cbn [app] in IH. rewrite <-IH. do 2 f_equal.
    apply imap_ext. intros k x _. cbn. f_equal. rewrite length_app. cbn. lia.
Qed.
Lemma camel_walk_spec pre l :
  mjoin (map (camel_step (pre ++ l)) (imap (λ k b, ((length pre + k)%nat, b)) l)) = camel_walk (last pre) l.
Proof.
  revert pre. induction l as [|r l IH]; intros pre; [done|].
  rewrite imap_cons. cbn [map mjoin list_join fmap list_fmap camel_walk]. rewrite Nat.add_0_r. f_equal.
  - unfold camel_step. destruct (r =? underscore); [done|]. destruct pre as [|b pre _] using rev_ind; [done|].
    rewrite last_snoc. assert ((length (pre ++ [b]) =? 0)%nat = false) as -> by (apply Nat.eqb_neq; rewrite length_app; cbn; lia).
    by rewrite byte_at_prev.
  - specialize (IH (pre ++ [r])). rewrite last_snoc, <-app_assoc in IH. cbn [app] in IH. rewrite <-IH. do 2 f_equal.
    apply imap_ext. intros k x _. cbn. f_equal. rewrite length_app. cbn. lia.
Qed.
(** A name in camel style: letters, the first a capital, and each later capital after a small one. *)
Fixpoint camel_name (prev : option Z) (l : list Z) : bool :=
  match l with
  | [] => true
  | r :: l =>
      match prev with None => IsUpperCase r | Some b => IsLowerCase r || (IsUpperCase r && IsLowerCase b) end
        && camel_name (Some r) l
  end.
Definition snake_letter (r : Z) : Prop := IsLowerCase r = true ∨ r = underscore.
Ltac letters := unfold snake_letter, camel_name, IsUpperCase, IsLowerCase, ToLowerCase, ToUpperCase, underscore, ascii_rune in *.
Lemma ToLowerCase_upper r : IsUpperCase r = true → IsLowerCase (ToLowerCase r) = true ∧ ToUpperCase (ToLowerCase r) = r.
Proof.
  intros Hr. unfold ToLowerCase. rewrite Hr. unfold ToUpperCase. letters.
  replace ((97 <=? r + 32) && (r + 32 <=? 122)) with true by lia. split; [done|lia].
Qed.
Lemma lower_not_upper r : IsLowerCase r = true → IsUpperCase r = false ∧ (r =? underscore) = false.
Proof. letters. lia. Qed.
Lemma snake_letters prev l : camel_name prev l = true → Forall snake_letter (snake_walk prev l).
Proof.
  revert prev. induction l as [|r l IH]; intros prev; [done|]. cbn [camel_name snake_walk].
  intros [Hr Hl]%andb_true_iff. apply Forall_app. split; [|by apply IH].
  destruct prev as [b|].
  - destruct (IsUpperCase r) eqn:Hu.
    + destruct (ToLowerCase_upper r Hu) as [Hlow _].
      destruct (IsLowerCase b || _); repeat apply Forall_cons_2; try apply Forall_nil_2; first [by left|by right].
    + rewrite orb_false_r in Hr. apply Forall_singleton. by left.
  - destruct (ToLowerCase_upper r Hr) as [Hlow _]. apply Forall_singleton. by left.
Qed.
Lemma camel_snake_walk b b' l :
  camel_name (Some b) l = true → (b' =? underscore) = false → camel_walk (Some b') (snake_walk (Some b) l) = l.
Proof.
  revert b b'. induction l as [|r l IH]; intros b b'; [done|]. cbn [camel_name snake_walk].
  intros [Hr Hl]%andb_true_iff Hb'. destruct (IsUpperCase r) eqn:Hu.
  - destruct (ToLowerCase_upper r Hu) as [Hlow Hup]. destruct (lower_not_upper _ Hlow) as [_ Hne].
    assert (IsLowerCase b = true) as -> by (revert Hr Hu; letters; lia).
    cbn [orb app camel_walk]. rewrite Hne. cbn [app]. rewrite Hup. change (underscore =? underscore) with true.
    cbn [app]. f_equal. by apply IH.
  - rewrite orb_false_r in Hr. destruct (lower_not_upper _ Hr) as [_ Hne].
    cbn [app camel_walk]. rewrite Hne, Hb'. cbn [app]. f_equal. by apply IH.
Qed.
Lemma ToLowerCase_letter r : snake_letter r → ToLowerCase r = r.
Proof. intros [Hr| ->]; [|done]. unfold ToLowerCase. by destruct (lower_not_upper r Hr) as [-> _]. Qed.
Lemma ToLower_letters l : Forall snake_letter l → map ToLowerCase l = l.
Proof. induction 1 as [|r l Hr _ IH]; [done|]. cbn [map]. by rewrite IH, ToLowerCase_letter. Qed.
Lemma snake_letter_ascii r : snake_letter r → ascii_rune r.
Proof. letters. lia. Qed.

(** Names. A name in camel style comes back from its snake form: [ToCamelCase] undoes
    [ToSnakeCase] on every name of letters that begins with a capital and has no two in a row. *)
Lemma camel_snake_roundtrip (s : string) :
  camel_name None (to_bytes s) = true → ToCamelCase (ToSnakeCase s) = s.
Proof.
  intros Hc. assert (is_ascii s = true) as Ha.
  { apply is_ascii_bytes. revert Hc. generalize (@None Z). induction (to_bytes s) as [|r l IH]; intros prev; [constructor|].
    cbn [camel_name]. intros [Hr Hl]%andb_true_iff. constructor; [|by eapply IH].
    destruct prev; revert Hr; letters; lia. }
  assert (to_bytes (ToSnakeCase s) = snake_walk None (to_bytes s)) as Hs.
  { unfold ToSnakeCase, range_string. rewrite range_bytes_ascii by (by apply is_ascii_bytes).
    pose proof (snake_walk_spec [] (to_bytes s)) as W. cbn [length app last] in W. rewrite W. apply to_string_of_runes.
    eapply Forall_impl; [by apply snake_letters|]. apply snake_letter_ascii. }
  pose proof (snake_letters None _ Hc) as Hl.
  assert (is_ascii (ToSnakeCase s) = true) as Ha'.
  { apply is_ascii_bytes. rewrite Hs. eapply Forall_impl; [exact Hl|]. apply snake_letter_ascii. }
  assert (ToLower (ToSnakeCase s) = ToSnakeCase s) as Hlow.
  { unfold ToLower. rewrite runes_ascii, Hs, ToLower_letters, <-Hs, <-runes_ascii by done. by apply string_of_runes_ascii. }
  unfold ToCamelCase. rewrite Hlow. unfold range_string. rewrite range_bytes_ascii by (by apply is_ascii_bytes).
  pose proof (camel_walk_spec [] (to_bytes (ToSnakeCase s))) as W. cbn [length app last] in W. rewrite W, Hs.
  assert (camel_walk None (snake_walk None (to_bytes s)) = to_bytes s) as ->.
  { destruct (to_bytes s) as [|r l]; [done|]. cbn [camel_name] in Hc. apply andb_true_iff in Hc as [Hr Hn].
    destruct (ToLowerCase_upper r Hr) as [Hlw Hup]. destruct (lower_not_upper _ Hlw) as [_ Hne].
    cbn [snake_walk app camel_walk]. rewrite Hne, Hup. cbn [app]. f_equal. by apply camel_snake_walk. }
  unfold string_of_runes. rewrite encode_runes_ascii by (by apply is_ascii_bytes). apply of_to_bytes.
Qed.
Lemma camel_snake_roundtrip_witness : ToCamelCase (ToSnakeCase "CreateAt") = "CreateAt".
Proof. apply (camel_snake_roundtrip "CreateAt"). vm_compute. reflexivity. Defined.
Example snake_example : map ToSnakeCase ["HTTPServer"; "userID"; "CreateAt"] = ["http_server"; "user_id"; "create_at"].
Proof. vm_compute. reflexivity. Qed.
(** The first byte of a character that has several is not one: it is replaced. *)
Example UpperFirst_damages : to_bytes (UpperFirst (of_bytes [0xE4; 0xBD; 0xA0])) = [0xEF; 0xBF; 0xBD; 0xBD; 0xA0].
Proof. vm_compute. reflexivity. Qed.
(** The tables for ASCII, and a leading digit before the letter. *)
#[local] Instance ascii_unicode : Unicode := { IsLetter r := IsUpperCase r || IsLowerCase r; unicode_ToLower := ToLowerCase }.
#[local] Instance ascii_unicode_laws : UnicodeLaws.
Proof. by split. Qed.
Example unexport_example : map UnExport ["CreateAt"; "9Lives"; ""; "_X"] = ["createAt"; "9lives"; ""; "_x"].
Proof. vm_compute. reflexivity. Qed.
