(* ===== verification/ParseFloat.v ===== *)
(** Text to floating point ([StringToFloat64] of pkg/stringsx): the syntax that [strconv.ParseFloat]
    accepts, scanned the way package strconv does, and the correctly rounded value. *)
From Stdlib Require Import Ascii SpecFloat.
From stdpp Require Import prelude strings list.
From S2P Require Import Prelude GoStrings Digest GoFloat.

(** [c | 0x20]. *)
Definition lower (c : ascii) : Z := Z.lor (byte_of c) 32.
Definition is_char (n : Z) (c : ascii) : bool := byte_of c =? n.
Definition dot : ascii := byte_char 46.
Definition e_ : ascii := byte_char 101.

(** ** The special values *)
Fixpoint same_letters (s p : string) : bool :=
  match s, p with
  | EmptyString, EmptyString => true
  | String c s, String d p => (lower c =? byte_of d) && (is_char (byte_of d) c || (byte_of c =? byte_of d - 32)) && same_letters s p
  | _, _ => false
  end.
Definition cut_sign (s : string) : option bool * string :=
  match s with
  | String c t => if is_char 43 c then (Some false, t) else if is_char 45 c then (Some true, t) else (None, s)
  | EmptyString => (None, s)
  end.
Definition special (s : string) : option float64 :=
  let '(sign, t) := cut_sign s in
  if same_letters t "inf" || same_letters t "infinity" then Some (S754_infinity (default false sign))
  else if same_letters s "nan" then Some S754_nan else None.

(** ** Numbers *)
(** The loop over the digits: [mant] is their value, [nd] their number without leading zeros,
    [dp] the place of the point. *)
Record scanner := mkScanner { mant : Z; nd : Z; dp : Z; sawdot : bool; sawdigits : bool; underscores : bool }.
Definition hex_letter (c : ascii) : bool := (97 <=? lower c) && (lower c <=? 102).
Definition digit_step (base d : Z) (z : scanner) : scanner :=
  mkScanner (mant z * base + d) (nd z + 1) (dp z) (sawdot z) true (underscores z).
Fixpoint scan_digits (hex : bool) (s : string) (z : scanner) : scanner * string :=
  match s with
  | EmptyString => (z, s)
  | String c t =>
      if is_char 95 c then scan_digits hex t (mkScanner (mant z) (nd z) (dp z) (sawdot z) (sawdigits z) true)
      else if is_char 46 c then
        if sawdot z then (z, s)
        else scan_digits hex t (mkScanner (mant z) (nd z) (nd z) true (sawdigits z) (underscores z))
      else if is_digit c then
        if (digit_val c =? 0) && (nd z =? 0)
        then scan_digits hex t (mkScanner (mant z) (nd z) (dp z - 1) (sawdot z) true (underscores z))
        else scan_digits hex t (digit_step (if hex then 16 else 10) (digit_val c) z)
      else if hex && hex_letter c then scan_digits hex t (digit_step 16 (lower c - 87) z)
      else (z, s)
  end.
(** The loop over the exponent, which stops to grow at 10000. *)
Fixpoint scan_exp (s : string) (e : Z) (us : bool) : Z * bool * string :=
  match s with
  | EmptyString => (e, us, s)
  | String c t =>
      if is_char 95 c then scan_exp t e true
      else if is_digit c then scan_exp t (if e <? 10000 then e * 10 + digit_val c else e) us
      else (e, us, s)
  end.
(** The exponent, if there is one, whether it has underscores, and the rest; [None] if it has
    no digits. *)
Definition exponent (hex : bool) (s : string) : option (Z * bool * string) :=
  match s with
  | String c t =>
      if lower c =? (if hex then 112 else 101) then
        let '(sign, t) := cut_sign t in
        match t with
        | String d _ =>
            if is_digit d then
              let '(e, us, rest) := scan_exp t 0 false in
              Some (if default false sign then - e else e, us, rest)
            else None
        | EmptyString => None
        end
      else if hex then None else Some (0, false, s)
  | EmptyString => if hex then None else Some (0, false, s)
  end.
(** [underscoreOK]: only between digits, or after the base prefix. *)
Inductive saw := SawStart | SawDigit | SawUnderscore | SawOther.
Fixpoint underscores_ok (hex : bool) (s : string) (w : saw) : bool :=
  match s with
  | EmptyString => match w with SawUnderscore => false | _ => true end
  | String c t =>
      if is_digit c || (hex && hex_letter c) then underscores_ok hex t SawDigit
      else if is_char 95 c then match w with SawDigit => underscores_ok hex t SawUnderscore | _ => false end
      else match w with SawUnderscore => false | _ => underscores_ok hex t SawOther end
  end.
Definition base_prefix (s : string) : option (Z * string) :=
  match s with
  | String c (String b t) => if is_char 48 c && bool_decide (lower b ∈ [98; 111; 120]) then Some (lower b, t) else None
  | _ => None
  end.
Definition underscoreOK (s : string) : bool :=
  let '(_, s) := cut_sign s in
  match base_prefix s with
  | Some (b, t) => underscores_ok (b =? 120) t SawDigit
  | None => underscores_ok false s SawStart
  end.
(** Sign, base 16, value of the digits and exponent of a number that is the whole text. *)
Definition hex_prefix (s : string) : option string :=
  match s with
  | String c (String b (String _ _ as t)) => if is_char 48 c && (lower b =? 120) then Some t else None
  | _ => None
  end.
Definition readFloat (s : string) : option (bool * bool * Z * Z) :=
  let '(sign, t) := cut_sign s in
  let '(hex, t) := match hex_prefix t with Some t => (true, t) | None => (false, t) end in
  let '(z, t) := scan_digits hex t (mkScanner 0 0 0 false false false) in
  if negb (sawdigits z) then None
  else
    let p := (if sawdot z then dp z else nd z) - nd z in
    match exponent hex t with
    | None => None
    | Some (e, us, rest) =>
        if (underscores z || us) && negb (underscoreOK s) then None
        else if bool_decide (rest = "") then Some (default false sign, hex, mant z, (if hex then 4 * p else p) + e)
        else None
    end.

(** [±m * 2^e] and [±m * 10^e], correctly rounded. *)
Definition signed (neg : bool) (m : Z) : Z := if neg then - m else m.
Definition binary_float (neg : bool) (m e : Z) : float64 := binary_normalize 53 1024 (signed neg m) e neg.
Definition decimal_float (neg : bool) (m e : Z) : float64 :=
  match m with
  | Z.pos p =>
      if 0 <=? e then binary_float neg (m * 10 ^ e) 0
      else fdiv (S754_finite neg p 0) (S754_finite false (Z.to_pos (10 ^ (- e))) 0)
  | _ => S754_zero neg
  end.
(** [strconv.ParseFloat]: the value and the error; too large a number is infinite, with an error. *)
Definition ErrSyntax : goerr := ErrSentinel "invalid syntax".
Definition ErrRange : goerr := ErrSentinel "value out of range".
Definition is_inf (f : float64) : bool := match f with S754_infinity _ => true | _ => false end.
Definition ParseFloat (s : string) : float64 * option goerr :=
  match special s with
  | Some f => (f, None)
  | None =>
      match readFloat s with
      | None => (f0, Some ErrSyntax)
      | Some (neg, hex, m, e) =>
          let f := if hex then binary_float neg m e else decimal_float neg m e in
          (f, if is_inf f then Some ErrRange else None)
      end
  end.
Definition StringToFloat64 (str : string) : float64 :=
  let '(parseFloat, err) := ParseFloat str in
  match err with Some _ => f0 | None => parseFloat end.

Example parse_floats :
  map StringToFloat64 ["0.1"; "1e23"; "1_000.5"; "0x1p-2"; ".5e1"; "1e400"; "abc"; ""; "+Inf"; "4.9e-324"; "1__0"; "0x1.8"; "-0"; "1e"]
  = [f_percent 10; S754_finite false 5960464477539062 24; fdiv (f_of_Z 10005) (f_of_Z 10); fdiv f1 (f_of_Z 4); f_of_Z 5;
     f0; f0; f0; S754_infinity false; SmallestNonzeroFloat64; f0; f0; S754_zero true; f0].
Proof. vm_compute. reflexivity. Qed.

(** ** What a decimal literal means *)
Lemma digit_not_mark c : is_digit c = true → is_char 95 c = false ∧ is_char 46 c = false.
Proof. unfold is_digit, is_char. lia. Qed.
(** A run of digits: their value is appended, and the distance from the point moves only after it. *)
Lemma scan_run hex a s z m :
  str_all is_digit a = true → hex = false → parse_digits a (mant z) = Some m → (nd z = 0 → mant z = 0) → 0 <= nd z →
  ∃ z', scan_digits hex (a +++ s) z = scan_digits hex s z' ∧ mant z' = m ∧ (nd z' = 0 → mant z' = 0) ∧ 0 <= nd z' ∧
    sawdot z' = sawdot z ∧ dp z' - nd z' = dp z - nd z - slen a ∧ underscores z' = underscores z ∧
    (a ≠ "" ∨ sawdigits z = true → sawdigits z' = true).
Proof.
  intros Ha -> . revert z. induction a as [|c a IH]; intros z Hm Hz Hn; cbn [str_all parse_digits String.append] in *.
  { injection Hm as <-. exists z. split_and!; try done; [unfold slen; cbn; lia|]. by intros [?|?]. }
  apply andb_true_iff in Ha as [Hc Ha]. rewrite Hc in Hm. destruct (digit_not_mark c Hc) as [H1 H2].
  assert (slen (String c a) = 1 + slen a) as Hl by (unfold slen; cbn [String.length]; lia).
  change (scan_digits false (String c a +++ s) z) with (scan_digits false (String c (a +++ s)) z).
  cbn [scan_digits]. rewrite H1, H2, Hc. destruct ((digit_val c =? 0) && (nd z =? 0)) eqn:E0.
  - apply andb_true_iff in E0 as [Ed En].
    destruct (IH Ha (mkScanner (mant z) (nd z) (dp z - 1) (sawdot z) true (underscores z))) as (z' & E & Hz'); cbn [mant nd] in *; try done.
    { rewrite Hz in * by lia. replace (0 * 10 + digit_val c) with 0 in Hm by lia. done. }
    exists z'. cbn [nd dp sawdot underscores sawdigits] in Hz'. destruct Hz' as (? & ? & ? & ? & ? & ? & ?).
    split_and!; try done; [lia|]. intros _. auto.
  - destruct (IH Ha (digit_step 10 (digit_val c) z)) as (z' & E & Hz'); cbn [mant nd digit_step] in *; [done|lia|lia|].
    exists z'. cbn [nd dp sawdot underscores sawdigits digit_step] in Hz'. destruct Hz' as (? & ? & ? & ? & ? & ? & ?).
    split_and!; try done; [lia|]. intros _. auto.
Qed.
Lemma parse_digits_total a acc : str_all is_digit a = true → ∃ m, parse_digits a acc = Some m.
Proof.
  revert acc. induction a as [|c a IH]; intros acc; cbn [str_all parse_digits]; [by exists acc|].
  intros [-> Ha]%andb_true_iff. by apply IH.
Qed.
Lemma parse_digits_app a b acc : str_all is_digit a = true →
  parse_digits (a +++ b) acc = match parse_digits a acc with Some m => parse_digits b m | None => None end.
Proof.
  revert acc. induction a as [|c a IH]; intros acc; cbn [str_all parse_digits String.append]; [done|].
  intros [Hc Ha]%andb_true_iff. rewrite Hc. by apply IH.
Qed.
Lemma parse_digits_ge a acc m : parse_digits a acc = Some m → 0 <= acc → acc <= m ∧ (str_all is_digit a = true → a ≠ "" → acc * 10 <= m).
Proof.
  revert acc. induction a as [|c a IH]; intros acc; cbn [parse_digits]; [intros [= ->]; split; [lia|done]|].
  destruct (is_digit c) eqn:Hc; [|done]. intros Hm Hacc. unfold is_digit, digit_val in *.
  destruct (IH _ Hm); [lia|]. split; [lia|]. intros _ _. lia.
Qed.
(** The exponent, up to five digits. *)
Lemma scan_exp_run b acc m : str_all is_digit b = true → parse_digits b acc = Some m → 0 <= acc → m < 100000 →
  scan_exp b acc false = (m, false, "").
Proof.
  revert acc. induction b as [|c b IH]; intros acc; cbn [str_all parse_digits scan_exp]; [by intros _ [= ->]|].
  intros [Hc Hb]%andb_true_iff. rewrite Hc. destruct (digit_not_mark c Hc) as [-> _]. intros Hm Hacc Hlt.
  assert (acc * 10 + digit_val c <= m) as Hle.
  { unfold is_digit, digit_val in *. destruct (parse_digits_ge _ _ _ Hm); lia. }
  assert (0 <= digit_val c) by (unfold is_digit, digit_val in *; lia).
  destruct (Z.ltb_spec acc 10000); [|lia]. apply IH; [done|done|lia|done].
Qed.
Definition exponent_text (x : option Z) : string := match x with None => "" | Some k => String e_ (FormatInt k) end.
Definition exponent_value (x : option Z) : Z := default 0 x.
Lemma exponent_run (x : option Z) : (∀ k, x = Some k → Z.abs k < 100000) →
  exponent false (exponent_text x) = Some (exponent_value x, false, "").
Proof.
  intros Hx. destruct x as [k|]; [|done]. specialize (Hx k eq_refl).
  assert (∀ n, 0 <= n < 100000 → ∃ d t, utoa n = String d t ∧ is_digit d = true ∧ scan_exp (utoa n) 0 false = (n, false, "")) as Hu.
  { intros n Hn. pose proof (utoa_digits n ltac:(lia)) as Hd. pose proof (parse_utoa n ltac:(lia)) as Hp.
    pose proof (utoa_nonempty n) as Hne. destruct (utoa n) as [|d t]; [done|]. exists d, t. split; [done|].
    split; [by cbn in Hd; apply andb_true_iff in Hd as [? _]|]. apply scan_exp_run; [done|done|lia|lia]. }
  unfold exponent_text, FormatInt. destruct (Z.ltb_spec k 0).
  - destruct (Hu (- k)) as (d & t & E & Hd & Hs); [lia|]. rewrite E in *. unfold exponent. change (lower e_ =? 101) with true. cbv iota.
    change (cut_sign ("-" +++ String d t)) with (Some true, String d t). cbv iota beta. rewrite Hd, Hs.
    cbn. by rewrite Z.opp_involutive.
  - destruct (Hu k) as (d & t & E & Hd & Hs); [lia|]. rewrite E in *. unfold exponent. change (lower e_ =? 101) with true. cbv iota.
    assert (cut_sign (String d t) = (None, String d t)) as ->.
    { unfold cut_sign, is_char, is_digit in *. destruct (Z.eqb_spec (byte_of d) 43); [lia|]. destruct (Z.eqb_spec (byte_of d) 45); [lia|done]. }
    cbv iota beta. by rewrite Hd, Hs.
Qed.

Definition sign_text (neg : bool) : string := if neg then "-" else "".
Lemma sign_run neg c t : is_digit c = true → cut_sign (sign_text neg +++ String c t) = (if neg then Some true else None, String c t).
Proof.
  intros Hc. destruct neg; [done|]. unfold sign_text, cut_sign, is_char, is_digit in *. cbn [String.append].
  destruct (Z.eqb_spec (byte_of c) 43); [lia|]. by destruct (Z.eqb_spec (byte_of c) 45); [lia|].
Qed.
Lemma lower_digit c : is_digit c = true → lower c = byte_of c.
Proof. destruct c as [[] [] [] [] [] [] [] []]; vm_compute; congruence. Qed.
Lemma digit_not_special neg c t : is_digit c = true → special (sign_text neg +++ String c t) = None.
Proof.
  intros Hc. unfold special. rewrite sign_run by done. assert (lower c ≠ 105 ∧ lower c ≠ 110) as [H1 H2].
  { rewrite lower_digit by done. unfold is_digit in Hc. lia. }
  cbn [same_letters]. change (byte_of "i") with 105. destruct (Z.eqb_spec (lower c) 105); [done|]. cbn [andb orb].
  destruct neg; cbn [sign_text String.append same_letters]; [done|].
  change (byte_of "n") with 110. by destruct (Z.eqb_spec (lower c) 110).
Qed.
(** The digits after the point, if there is one. *)
Definition fraction_text (b : option string) : string := match b with None => "" | Some b => String dot b end.
Definition fraction (b : option string) : string := default "" b.
Lemma scan_literal (a : string) (b : option string) (m : Z) (rest : string) :
  str_all is_digit a = true → a ≠ "" → str_all is_digit (fraction b) = true → parse_digits (a +++ fraction b) 0 = Some m →
  (∀ z, scan_digits false rest z = (z, rest)) →
  ∃ z, scan_digits false (a +++ fraction_text b +++ rest) (mkScanner 0 0 0 false false false) = (z, rest) ∧
    mant z = m ∧ sawdigits z = true ∧ underscores z = false ∧
    (if sawdot z then dp z else nd z) - nd z = - slen (fraction b).
Proof.
  intros Ha Hne Hb Hm Hrest. rewrite parse_digits_app in Hm by done.
  destruct (parse_digits_total a 0 Ha) as [ma Hma]. rewrite Hma in Hm. set (z0 := mkScanner 0 0 0 false false false).
  destruct (scan_run false a (fraction_text b +++ rest) z0 ma Ha eq_refl Hma ltac:(done) ltac:(done)) as (z1 & E1 & M1 & N1 & P1 & D1 & _ & U1 & S1).
  rewrite E1. destruct b as [b|]; cbn [fraction_text fraction default from_option] in *; unfold id in *.
  2: { injection Hm as <-. exists z1. cbn [String.append]. rewrite Hrest, D1. cbn [sawdot z0]. split_and!; [done|done|auto|done|unfold slen; cbn; lia]. }
  set (z1' := mkScanner (mant z1) (nd z1) (nd z1) true (sawdigits z1) (underscores z1)).
  assert (scan_digits false (String dot b +++ rest) z1 = scan_digits false (b +++ rest) z1') as ->.
  { cbn [scan_digits String.append]. change (is_char 95 dot) with false. change (is_char 46 dot) with true. by rewrite D1. }
  destruct (scan_run false b rest z1' m Hb eq_refl) as (z2 & E2 & M2 & N2 & P2 & D2 & Dist & U2 & S2);
    [by cbn [mant z1']; rewrite M1|done|done|].
  exists z2. rewrite E2, Hrest, D2. cbn [sawdot z1' dp nd] in *. split_and!; [done|done| |by rewrite U2|lia].
  apply S2. right. apply S1. by left.
Qed.
Lemma no_hex_prefix a rest : str_all is_digit a = true → a ≠ "" →
  (∀ c t, rest = String c t → lower c ≠ 120) → hex_prefix (a +++ rest) = None.
Proof.
  intros Ha Hne Hr. destruct a as [|c a]; [done|]. cbn [str_all] in Ha. apply andb_true_iff in Ha as [_ Ha].
  unfold hex_prefix. destruct a as [|d a]; cbn [String.append].
  - destruct rest as [|d rest]; [done|]. specialize (Hr d rest eq_refl). destruct rest; [done|].
    destruct (Z.eqb_spec (lower d) 120); [done|]. by rewrite andb_false_r.
  - cbn [str_all] in Ha. apply andb_true_iff in Ha as [Hd _]. destruct (a +++ rest); [done|].
    rewrite lower_digit by done. unfold is_digit in Hd. destruct (Z.eqb_spec (byte_of d) 120); [lia|]. by rewrite andb_false_r.
Qed.
(** Decimal literals. A text of a sign, digits with a point among them and an exponent of up to
    five digits is read as the number it denotes, correctly rounded; it is refused exactly if it is
    too large. *)
Lemma parse_decimal (neg : bool) (a : string) (b : option string) (x : option Z) (m : Z) :
  str_all is_digit a = true → a ≠ "" → str_all is_digit (fraction b) = true → parse_digits (a +++ fraction b) 0 = Some m →
  (∀ k, x = Some k → Z.abs k < 100000) →
  let f := decimal_float neg m (exponent_value x - slen (fraction b)) in
  ParseFloat (sign_text neg +++ a +++ fraction_text b +++ exponent_text x) = (f, if is_inf f then Some ErrRange else None).
Proof.
  intros Ha Hne Hb Hm Hx f.
  destruct (scan_literal a b m (exponent_text x) Ha Hne Hb Hm) as (z & Ez & Mz & Sz & Uz & Pz); [by destruct x|].
  assert (hex_prefix (a +++ fraction_text b +++ exponent_text x) = None) as Hh.
  { apply no_hex_prefix; [done|done|]. intros c t Hct. by destruct b, x; cbn in Hct; try done; injection Hct as <- _. }
  destruct a as [|c a]; [done|]. pose proof Ha as Hc. cbn [str_all] in Hc. apply andb_true_iff in Hc as [Hc _].
  set (tail := fraction_text b +++ exponent_text x) in *.
  change (String c a +++ tail) with (String c (a +++ tail)) in *.
  unfold ParseFloat. rewrite digit_not_special by done. unfold readFloat. rewrite sign_run, Hh, Ez, Sz by done. cbn [negb].
  rewrite exponent_run, Uz by done. cbn [orb andb]. rewrite bool_decide_eq_true_2, Mz, Pz by done.
  replace (- slen (fraction b) + exponent_value x) with (exponent_value x - slen (fraction b)) by lia.
  by destruct neg.
Qed.
Lemma round_sign_inf p e : is_inf (binary_round 53 1024 true p e) = is_inf (binary_round 53 1024 false p e).
Proof.
  unfold binary_round. destruct (shl_align _ _ _) as [mz ez]. unfold binary_round_aux.
  destruct (shr_fexp _ _ _ _ loc_Exact) as [r1 e1]. destruct (shr_fexp _ _ (round_nearest_even _ _) _ _) as [r2 e2].
  destruct (shr_m r2); try done. by destruct (e2 <=? _).
Qed.
(** Integers come back: a 50-bit one is read as itself, exactly. *)
Lemma StringToFloat64_int z : Z.abs z < 2 ^ 50 → StringToFloat64 (FormatInt z) = f_of_Z z.
Proof.
  intros Hz. assert (∀ neg n, 0 <= n < 2 ^ 50 →
    ParseFloat (sign_text neg +++ utoa n) = (decimal_float neg n 0, if is_inf (decimal_float neg n 0) then Some ErrRange else None)) as Hp.
  { intros neg n Hn. pose proof (parse_decimal neg (utoa n) None None n) as Hd. cbn [fraction_text exponent_text fraction exponent_value] in Hd.
    change (("" +++ "")%string) with "" in Hd. cbn [String.append default from_option] in Hd. unfold id in Hd. rewrite !app_str_nil_r in Hd.
    apply Hd; [by apply utoa_digits; lia|apply utoa_nonempty|done|apply parse_utoa; lia|done]. }
  assert (∀ (neg : bool) n, 0 < n < 2 ^ 50 → decimal_float neg n 0 = f_of_Z (if neg then - n else n)) as Hf.
  { intros neg n Hn. destruct n as [|p|]; [lia| |lia]. unfold decimal_float. cbn [Z.leb Z.compare].
    rewrite Z.pow_0_r, Z.mul_1_r. unfold binary_float, signed, f_of_Z. by destruct neg. }
  assert (∀ (neg : bool) n, 0 < n < 2 ^ 50 → is_inf (f_of_Z (if neg then - n else n)) = false) as Hi.
  { intros neg n Hn. destruct (f_of_Z_exact n Hn) as (m & e & He & _).
    destruct neg; [|by rewrite He]. destruct n as [|p|]; [lia| |lia].
    change (f_of_Z (- Z.pos p)) with (binary_round 53 1024 true p 0). rewrite round_sign_inf.
    change (binary_round 53 1024 false p 0) with (f_of_Z (Z.pos p)). by rewrite He. }
  unfold StringToFloat64, FormatInt. destruct (Z.ltb_spec z 0).
  - change ("-" +++ utoa (- z)) with (sign_text true +++ utoa (- z)). rewrite Hp by lia. rewrite (Hf true), (Hi true) by lia.
    by rewrite Z.opp_involutive.
  - change (utoa z) with (sign_text false +++ utoa z). rewrite Hp by lia.
    destruct (decide (z = 0)) as [->|]; [done|]. by rewrite (Hf false), (Hi false) by lia.
Qed.
