(* ===== verification/OldHashes.v ===== *)
(** MD5 (RFC 1321) and SHA-1 (FIPS 180-4) of the Standard Library's crypto packages, which
    pkg/util and pkg/secret use. *)
From Stdlib Require Import Ascii.
From stdpp Require Import prelude strings list.
From S2P Require Import Prelude GoStrings Digest.

Definition rotl (n x : Z) : Z := Z.lor (u32 (Z.shiftl x n)) (Z.shiftr x (32 - n)).

(** ** MD5 *)
(** The sines' fractional parts, and the rotations of the four rounds. *)
Definition md5_K : list Z := words_of_hex (
   "d76aa478e8c7b756242070dbc1bdceeef57c0faf4787c62aa8304613fd469501" +++
   "698098d88b44f7afffff5bb1895cd7be6b901122fd987193a679438e49b40821" +++
   "f61e2562c040b340265e5a51e9b6c7aad62f105d02441453d8a1e681e7d3fbc8" +++
   "21e1cde6c33707d6f4d50d87455a14eda9e3e905fcefa3f8676f02d98d2a4c8a" +++
   "fffa39428771f6816d9d6122fde5380ca4beea444bdecfa9f6bb4b60bebfbc70" +++
   "289b7ec6eaa127fad4ef308504881d05d9d4d039e6db99e51fa27cf8c4ac5665" +++
   "f4292244432aff97ab9423a7fc93a039655b59c38f0ccc92ffeff47d85845dd1" +++
   "6fa87e4ffe2ce6e0a30143144e0811a1f7537e82bd3af2352ad7d2bbeb86d391").
Definition md5_R : list (list Z) := [[7; 12; 17; 22]; [5; 9; 14; 20]; [4; 11; 16; 23]; [6; 10; 15; 21]].
Definition md5_H0 : list Z := words_of_hex "67452301efcdab8998badcfe10325476".
Definition le_word (b : list Z) : Z := be_word (rev b).
Definition le_bytes (n : nat) (x : Z) : list Z := rev (be_bytes n x).
Definition md5_step (m : list Z) (st : list Z) (ik : nat * Z) : list Z :=
  match st with
  | [a; b; c; d] =>
      let '(i, k) := ik in
      let '(f, g) :=
        match (i / 16)%nat with
        | 0%nat => (Z.lor (Z.land b c) (Z.land (not32 b) d), i)
        | 1%nat => (Z.lor (Z.land d b) (Z.land (not32 d) c), (5 * i + 1) mod 16)%nat
        | 2%nat => (Z.lxor (Z.lxor b c) d, (3 * i + 5) mod 16)%nat
        | _ => (Z.lxor c (Z.lor b (not32 d)), (7 * i) mod 16)%nat
        end in
      let r := nth (i mod 4) (nth (i / 16) md5_R []) 0 in
      let x := add32 (add32 f a) (add32 k (nth g m 0)) in
      [d; add32 b (rotl r x); b; c]
  | _ => st
  end.
Definition md5_block (h blk : list Z) : list Z :=
  zip_with add32 h (foldl (md5_step (map le_word (chunks 16 4 blk))) h (zip (seq 0 64) md5_K)).
Definition md5_pad (l : list Z) : list Z :=
  let n := zlen l in l ++ 128 :: repeat 0 (Z.to_nat ((55 - n) mod 64)) ++ le_bytes 8 (8 * n).
Definition md5 (l : list Z) : list Z :=
  let p := md5_pad l in
  concat (map (le_bytes 4) (foldl md5_block md5_H0 (chunks (length p / 64) 64 p))).

(** ** SHA-1 *)
Definition sha1_H0 : list Z := words_of_hex "67452301efcdab8998badcfe10325476c3d2e1f0".
(** The schedule, newest first. *)
Fixpoint sha1_schedule (n : nat) (w : list Z) : list Z :=
  match n with
  | O => w
  | S n =>
      let g i := nth i w 0 in
      sha1_schedule n (rotl 1 (Z.lxor (Z.lxor (g 2%nat) (g 7%nat)) (Z.lxor (g 13%nat) (g 15%nat))) :: w)
  end.
Definition sha1_step (st : list Z) (iw : nat * Z) : list Z :=
  match st with
  | [a; b; c; d; e] =>
      let '(i, w) := iw in
      let '(f, k) :=
        match (i / 20)%nat with
        | 0%nat => (Z.lor (Z.land b c) (Z.land (not32 b) d), 0x5A827999)
        | 1%nat => (Z.lxor (Z.lxor b c) d, 0x6ED9EBA1)
        | 2%nat => (Z.lor (Z.lor (Z.land b c) (Z.land b d)) (Z.land c d), 0x8F1BBCDC)
        | _ => (Z.lxor (Z.lxor b c) d, 0xCA62C1D6)
        end in
      [add32 (add32 (add32 (rotl 5 a) f) (add32 e k)) w; a; rotl 30 b; c; d]
  | _ => st
  end.
Definition sha1_block (h blk : list Z) : list Z :=
  let w := rev (sha1_schedule 64 (rev (map be_word (chunks 16 4 blk)))) in
  zip_with add32 h (foldl sha1_step h (zip (seq 0 80) w)).
Definition sha1 (l : list Z) : list Z :=
  let p := sha_pad l in
  concat (map (be_bytes 4) (foldl sha1_block sha1_H0 (chunks (length p / 64) 64 p))).

(** The vectors of the standards. *)
Example md5_vectors : map (λ s, hex_encode (md5 (to_bytes s))) [""; "message digest"] =
  ["d41d8cd98f00b204e9800998ecf8427e"; "f96b697d7cb7938d525a2f31aaf161d0"].
Proof. vm_compute. reflexivity. Qed.
Example sha1_abc : hex_encode (sha1 (to_bytes "abc")) = "a9993e364706816aba3e25717850c26c9cd0d89d".
Proof. vm_compute. reflexivity. Qed.
