(* ===== verification/Timex.v ===== *)
(** Time helpers (pkg/timex): the bounds of a day and a month, formats, clocks, and the dates
    between two instants.  [loc] is the process's local zone. *)
From Stdlib Require Import Ascii.
From stdpp Require Import prelude strings list sorting.
From S2P Require Import Prelude GoStrings GoFloat GoTime.

(** ** Stamps and days *)
(** [time.Unix(ts, 0)]. *)
Definition at_second (ts : Z) : Z := ts * Second.
Section local.
Context (loc : location).
Definition UnixMilli (now : Z) : Z := Z.quot (i64 now) 1000000.
Definition day_clock (timestamp h mi s : Z) : Z :=
  let c := local_datetime loc (at_second timestamp) in Unix_ (Date loc (Year c) (Month c) (Day c) h mi s 0).
Definition GetTodayTimeByTimestamp (timestamp : Z) : Z := day_clock timestamp 0 0 0.
Definition GetTodayEndTimeByTimestamp (timestamp : Z) : Z := day_clock timestamp 23 59 59.
Definition GetMonthTimeByTimestamp (timestamp : Z) : Z :=
  let c := local_datetime loc (at_second timestamp) in Unix_ (Date loc (Year c) (Month c) 1 0 0 0 0).
Definition GetTimeDayByTimestamp (timestamp : Z) : string := Format loc layout_date (at_second timestamp).
Definition GetTimeByTimestamp (timestamp : Z) : string := Format loc layout_second (at_second timestamp).
Definition GetTimeByTimestampMilli (timestamp : Z) : string := Format loc layout_milli (timestamp * Millisecond).
(** The branches of the switch; [None] is its end. *)
Definition format_type (sType : Z) (t : Z) : option string :=
  match sType with
  | 1 => Some (Format loc layout_milli t)
  | 2 => Some (Format loc layout_second t)
  | 3 => Some (Format loc layout_minute t)
  | 4 => Some (Format loc layout_hour t)
  | 5 => Some (Format loc layout_date t)
  | 6 => Some (Format loc [Y4; Lit "-"; M2] t)
  | 7 => Some (Format loc [Y4] t)
  | 8 => Some (Format loc layout_compact t)
  | 9 => Some (Format loc layout_compact t +++ fmt_0d 3 (Z.quot (Z.rem (i64 t) 1000000000) 1000000))
  | _ => None
  end.
Definition TimestampFormat (t sType : Z) : string :=
  if t <=? 0 then ""
  else let n := String.length (FormatInt t) in
       if (n =? 10)%nat then default "" (format_type sType (i64 (t * 1000) * Millisecond))
       else if (n =? 13)%nat then default "" (format_type sType (t * Millisecond))
       else "".

(** The whole-second bounds of a day hold its stamps, where the offset does not change nearby. *)
Lemma day_clock_spec ts off h mi s :
  (∀ u, Z.abs (u - ts) <= 33 * secs_per_day + 2 * Z.abs off → loc u = off) →
  0 <= h * 3600 + mi * 60 + s < secs_per_day →
  day_clock ts h mi s = (ts + off) / secs_per_day * secs_per_day + h * 3600 + mi * 60 + s - off.
Proof.
  intros Hloc Hh. unfold day_clock, local_datetime, at_second.
  rewrite Z.div_mul by (unfold Second, Millisecond; lia). rewrite (Hloc ts) by (unfold secs_per_day; lia).
  destruct (civil_of_days ((ts + off) / secs_per_day)) as [[y m] d] eqn:Hc. cbn [Year Month Day].
  rewrite (Date_unix loc ts off h mi s d y m d) by (done || lia). lia.
Qed.
Lemma month_start_spec ts off :
  (∀ u, Z.abs (u - ts) <= 33 * secs_per_day + 2 * Z.abs off → loc u = off) →
  ∃ k, 0 <= k < 31 ∧ GetMonthTimeByTimestamp ts = ((ts + off) / secs_per_day - k) * secs_per_day - off.
Proof.
  intros Hloc. unfold GetMonthTimeByTimestamp, local_datetime, at_second.
  rewrite Z.div_mul by (unfold Second, Millisecond; lia). rewrite (Hloc ts) by (unfold secs_per_day; lia).
  pose proof (civil_of_days_spec ((ts + off) / secs_per_day)) as Hs.
  destruct (civil_of_days ((ts + off) / secs_per_day)) as [[y m] d] eqn:Hc. cbn [Year Month Day].
  destruct Hs as (_ & Hd & _). exists (d - 1). split; [lia|].
  rewrite (Date_unix loc ts off 0 0 0 1 y m d) by (done || (unfold secs_per_day; lia)).
  f_equal. lia.
Qed.

(** The bounds of a day and a month. Where the zone's offset does not change nearby, the
    start of a stamp's day is at most the stamp, its end at least the stamp and 86399 seconds
    after the start, the start is a local midnight, and the month's start is less than 31 whole
    days before the day's. *)
Lemma day_bounds (ts off : Z) :
  (∀ u, Z.abs (u - ts) <= 33 * secs_per_day + 2 * Z.abs off → loc u = off) →
  let b := GetTodayTimeByTimestamp ts in let e := GetTodayEndTimeByTimestamp ts in
  b <= ts <= e ∧ e = b + 86399 ∧ (b + off) mod secs_per_day = 0 ∧
  (∃ k, 0 <= k < 31 ∧ GetMonthTimeByTimestamp ts = b - k * secs_per_day).
Proof.
  intros Hloc. unfold GetTodayTimeByTimestamp, GetTodayEndTimeByTimestamp.
  rewrite !(day_clock_spec ts off) by (done || (unfold secs_per_day; lia)).
  cbv zeta. destruct (month_start_spec ts off Hloc) as (k & Hk & Hm).
  assert ((ts + off) / secs_per_day * secs_per_day <= ts + off
          < (ts + off) / secs_per_day * secs_per_day + secs_per_day) as Hq by (unfold secs_per_day; dlia).
  split_and!; [lia|unfold secs_per_day in *; lia|lia| |].
  - replace (_ + off) with ((ts + off) / secs_per_day * secs_per_day) by lia. by apply Z.mod_mul.
  - exists k. split; [done|]. rewrite Hm. lia.
Qed.
End local.
(** 2024-02-29 in Shanghai. *)
Definition shanghai : location := λ _, 28800.
Lemma day_bounds_witness :
  let b := GetTodayTimeByTimestamp shanghai 1709200000 in let e := GetTodayEndTimeByTimestamp shanghai 1709200000 in
  b <= 1709200000 <= e ∧ e = b + 86399 ∧ (b + 28800) mod secs_per_day = 0 ∧
  (∃ k, 0 <= k < 31 ∧ GetMonthTimeByTimestamp shanghai 1709200000 = b - k * secs_per_day).
Proof. apply (day_bounds shanghai 1709200000 28800). done. Defined.
Example format_example :
  map (TimestampFormat shanghai 1709200000) [1; 2; 5; 8; 9; 10] =
    ["2024-02-29 17:46:40.000"; "2024-02-29 17:46:40"; "2024-02-29"; "20240229174640"; "20240229174640000"; ""].
Proof. vm_compute. reflexivity. Qed.

(** ** Durations *)
(** [d.Hours()], [d.Minutes()], [d.Seconds()] in floating point. *)
Definition in_units (unit d : Z) : float64 :=
  fadd (f_of_Z (Z.quot d unit)) (fdiv (f_of_Z (Z.rem d unit)) (f_of_Z unit)).
Definition SecondsToTimeFormat (seconds : Z) : string :=
  let d := i64 (Second * seconds) in
  fmt_0d 2 (f_trunc (in_units Hour d)) +++ ":" +++ fmt_0d 2 (Z.rem (f_trunc (in_units Minute d)) 60)
    +++ ":" +++ fmt_0d 2 (Z.rem (f_trunc (in_units Second d)) 60).
Example clock_example : map SecondsToTimeFormat [0; 59; 3600; 86399; 360000] =
  ["00:00:00"; "00:00:59"; "01:00:00"; "23:59:59"; "100:00:00"].
Proof. vm_compute. reflexivity. Qed.

(** The text before the first dot and after it. *)
Fixpoint cut_dot (s : string) : option (string * string) :=
  match s with
  | EmptyString => None
  | String c s => if Ascii.eqb c "."%char then Some ("", s)
                  else '(a, b) ← cut_dot s; Some (String c a, b)
  end.
Definition invalid_format : goerr := ErrNew "invalid time format".
Definition Atoi (s : string) : goerr + Z :=
  match ParseInt s with Some z => inr z | None => inl (ErrExt "strconv.Atoi") end.
Definition ParseTimeStr (timeStr : string) : goerr + Z :=
  match Split ":" timeStr with
  | [p0; p1] =>
      match Atoi p0 with
      | inl e => inl e
      | inr minutes =>
          match cut_dot p1 with
          | None => inl invalid_format
          | Some (a, b) =>
              match Atoi a with
              | inl e => inl e
              | inr seconds =>
                  match Atoi b with
                  | inl e => inl e
                  | inr millis => inr (i64 (i64 (i64 (minutes * Minute) + i64 (seconds * Second)) + i64 (millis * Millisecond)))
                  end
              end
          end
      end
  | _ => inl invalid_format
  end.
Lemma cut_dot_app a b : str_all is_digit a = true → cut_dot (a +++ String "."%char b) = Some (a, b).
Proof.
  induction a as [|c a IH]; intros Ha; [done|]. cbn [str_all] in Ha. apply andb_true_iff in Ha as [Hc Ha].
  cbn [String.append cut_dot]. rewrite IH by done. assert (Ascii.eqb c "."%char = false) as ->; [|done].
  destruct (Ascii.eqb_spec c "."%char) as [->|]; done.
Qed.
(** The form mm:ss.mmm is read back; a shorter fraction is read as a whole number of
    milliseconds. *)
Lemma ParseTimeStr_clock (m s ms : Z) :
  0 <= m < 10 ^ 6 → 0 <= s < 60 → 0 <= ms < 1000 →
  ParseTimeStr (fmt_0d 2 m +++ ":" +++ fmt_0d 2 s +++ "." +++ fmt_0d 3 ms) = inr (m * Minute + s * Second + ms * Millisecond).
Proof.
  intros Hm Hs Hms. unfold ParseTimeStr.
  change (":" +++ ?x) with (String ":" x). change ("." +++ ?x) with (String "." x). rewrite Split_app by (apply digits_without; [done|apply fmt_0d_digits; lia]).
  rewrite Split_none.
  2:{ unfold without. rewrite str_all_app. cbn [str_all]. rewrite !andb_true_iff. split_and!; try (apply digits_without; [done|apply fmt_0d_digits; lia]). done. }
  unfold Atoi. rewrite ParseInt_fmt_0d, cut_dot_app by (lia || (apply fmt_0d_digits; lia)).
  rewrite !ParseInt_fmt_0d by lia. 
  unfold Minute, Second, Millisecond.
  rewrite (i64_id (m * _)), (i64_id (s * _)), (i64_id (ms * _)) by (unfold in_i64; lia).
  rewrite (i64_id (_ + s * _)) by (unfold in_i64; lia). by rewrite i64_id by (unfold in_i64; lia).
Qed.
Example short_fraction : ParseTimeStr "01:02.5" = inr (62 * Second + 5 * Millisecond).
Proof. vm_compute. reflexivity. Qed.

(** ** Dates between *)
Definition day_ns : Z := 24 * Hour.
Definition CalculateDaysDifference (t1 t2 : Z) : Z :=
  let t1 := Truncate_day t1 in let t2 := Truncate_day t2 in
  if t1 =? t2 then 1 else f_trunc (fdiv (in_units Hour (time_Sub t2 t1)) (f_of_Z 24)).
(** The loop: at most so many days can be left. *)
Fixpoint dates_loop (fuel : nat) (startTime endTime endDate d : Z) : list Z :=
  match fuel with
  | O => []
  | S fuel =>
      if d <=? endDate then
        (if (startTime <=? d) && (d <=? endTime) then [d] else [])
          ++ dates_loop fuel startTime endTime endDate (d + day_ns)
      else []
  end.
Definition GetDatesBetween (startTime endTime : Z) : list Z :=
  let startDate := Truncate_day startTime in let endDate := Truncate_day endTime in
  dates_loop (S (Z.to_nat ((endDate - startDate) / day_ns))) startTime endTime endDate startDate.
Lemma Truncate_day_spec t : Truncate_day t mod day_ns = 0 ∧ Truncate_day t <= t < Truncate_day t + day_ns.
Proof.
  unfold Truncate_day, day_ns, Hour, Minute, Second, Millisecond. split; [apply Z.mod_mul; lia|dlia].
Qed.
Lemma day_ns_pos : 0 < day_ns.
Proof. done. Qed.

(** Any day's midnight in UTC from [d] on is visited by the loop until the end. *)
Lemma dates_loop_spec fuel a b e d x :
  d mod day_ns = 0 → e mod day_ns = 0 → (e - d) / day_ns < Z.of_nat fuel → 0 <= (e - d) / day_ns + 1 →
  (∀ y, y <= b → y mod day_ns = 0 → y <= e) →
  x ∈ dates_loop fuel a b e d ↔ d <= x ∧ x mod day_ns = 0 ∧ a <= x <= b.
Proof.
  intros Hd He Hf Hn Hb. revert d Hd Hf Hn.
  induction fuel as [|fuel IH]; intros d Hd Hf Hn; cbn [dates_loop].
  - assert (e < d) as Hlt by (unfold day_ns, Hour, Minute, Second, Millisecond in *; dlia).
    split; [by intros ?%elem_of_nil|]. intros (Hx & Hm & Ha & Hxb). specialize (Hb x Hxb Hm). lia.
  - destruct (Z.leb_spec d e) as [Hle|Hgt].
    + assert ((e - (d + day_ns)) / day_ns = (e - d) / day_ns - 1) as Hq.
      { replace (e - (d + day_ns)) with (e - d + (-1) * day_ns) by lia. rewrite Z.div_add; [lia|done]. }
      assert (0 <= (e - d) / day_ns) by (apply Z.div_pos; [lia|done]).
      assert ((d + day_ns) mod day_ns = 0) as Hd'.
      { replace (d + day_ns) with (d + 1 * day_ns) by lia. by rewrite Z.mod_add. }
      rewrite elem_of_app, IH by (rewrite ?Hq; done || lia).
      assert (x mod day_ns = 0 → d < x → d + day_ns <= x) as Hstep.
      { intros. unfold day_ns, Hour, Minute, Second, Millisecond in *. dlia. }
      destruct ((a <=? d) && (d <=? b)) eqn:E.
      * rewrite elem_of_cons, elem_of_nil. split.
        -- intros [[->|[]]|(H1 & H2 & H3)]; [split_and!; [lia|done|lia|lia]|]. pose proof day_ns_pos. split_and!; [lia|done|lia|lia].
        -- intros (H1 & H2 & H3). destruct (decide (x = d)) as [->|Hne]; [left; by left|right]. split_and!; [apply Hstep; [done|lia]|done|lia|lia].
      * split.
        -- intros [[]%elem_of_nil|(H1 & H2 & H3)]. pose proof day_ns_pos. split_and!; [lia|done|lia|lia].
        -- intros (H1 & H2 & H3). right. assert (x ≠ d) by (intros ->; lia). split_and!; [apply Hstep; [done|lia]|done|lia|lia].
    + split; [by intros ?%elem_of_nil|]. intros (Hx & Hm & Ha & Hxb). specialize (Hb x Hxb Hm). lia.
Qed.
Lemma dates_loop_sorted fuel a b e d :
  StronglySorted Z.lt (dates_loop fuel a b e d) ∧ Forall (λ x, d <= x) (dates_loop fuel a b e d).
Proof.
  revert d. induction fuel as [|fuel IH]; intros d; cbn [dates_loop]; [split; constructor|].
  destruct (IH (d + day_ns)) as [Hs Hl]. pose proof day_ns_pos.
  assert (Forall (λ x, d <= x) (dates_loop fuel a b e (d + day_ns))) as Hl' by (eapply Forall_impl; [exact Hl|intros; cbn in *; lia]).
  destruct (d <=? e); [|split; constructor]. destruct (_ && _); cbn [app]; [|by split].
  split; constructor; [done|eapply Forall_impl; [exact Hl|intros; cbn in *; lia]|lia|done].
Qed.

(** The dates between. The result is, in ascending order and without repetition, exactly the
    midnights in UTC that are not before the start and not after the end. *)
Lemma dates_between_exact (startTime endTime x : Z) :
  (x ∈ GetDatesBetween startTime endTime ↔ x mod day_ns = 0 ∧ startTime <= x <= endTime) ∧
  StronglySorted Z.lt (GetDatesBetween startTime endTime).
Proof.
  split; [|apply dates_loop_sorted]. unfold GetDatesBetween.
  destruct (Truncate_day_spec startTime) as [Hs1 Hs2]. destruct (Truncate_day_spec endTime) as [He1 He2].
  set (s := Truncate_day startTime) in *. set (e := Truncate_day endTime) in *.
  assert (∀ y, y <= endTime → y mod day_ns = 0 → y <= e) as Hb.
  { intros. unfold day_ns, Hour, Minute, Second, Millisecond in *. dlia. }
  destruct (decide (e < s)) as [Hlt|Hge].
  - cbn [dates_loop]. destruct (Z.leb_spec s e); [lia|]. split; [by intros ?%elem_of_nil|].
    intros (Hm & H1 & H2). specialize (Hb x H2 Hm). lia.
  - assert (0 <= (e - s) / day_ns) by (apply Z.div_pos; [lia|done]).
    rewrite dates_loop_spec by (done || lia). split; [intros (? & ? & ?); split; [done|lia]|].
    intros (Hm & H1 & H2). split_and!; [lia|done|lia|lia].
Qed.
(** Three days from noon to noon are two dates: the first day is left out. *)
Example first_day_left_out : GetDatesBetween (12 * Hour) (2 * day_ns + 12 * Hour) = [day_ns; 2 * day_ns].
Proof. vm_compute. reflexivity. Qed.
(** The same day and the next one are both one day apart. *)
Example day_difference_repeats :
  map (CalculateDaysDifference 0) [12 * Hour; day_ns; 2 * day_ns; - day_ns] = [1; 1; 2; -1].
Proof. vm_compute. reflexivity. Qed.
