(* ===== verification/TimeParse.v ===== *)
(** Texts read as times (pkg/timex): [time.ParseInLocation] on the layouts in use, and the three
    operations built on it. *)
From Stdlib Require Import Ascii.
From stdpp Require Import prelude strings list.
From S2P Require Import Prelude GoStrings GoTime Timex.

(** ** The days of a month *)
Lemma leap_years doe :
  0 <= doe < 146097 → 365 <= doy_of doe →
  (yoe_of doe + 1) mod 4 = 0 ∧ ((yoe_of doe + 1) mod 100 ≠ 0 ∨ (yoe_of doe + 1) mod 400 = 0).
Proof. unfold doy_of, yoe_of. intros. dlia. Qed.
Lemma is_leap_true y : y mod 4 = 0 → y mod 100 ≠ 0 ∨ y mod 400 = 0 → is_leap y = true.
Proof. unfold is_leap. lia. Qed.
Lemma civil_day_valid z : let '(y, m, d) := civil_of_days z in d <= days_in m y.
Proof.
  unfold civil_of_days. pose proof (doe_bounds z) as Hdoe. pose proof (doy_bounds _ Hdoe) as Hdoy.
  destruct (mp_bounds _ Hdoy) as [Hmp Hd]. set (doe := doe_of z) in *. set (y := yoe_of doe + era_of z * 400).
  assert (365 <= doy_of doe → is_leap (y + 1) = true) as Hleap.
  { intros H. destruct (leap_years _ Hdoe H) as [H4 H100]. unfold y. apply is_leap_true; clear -H4 H100; dlia. }
  set (doy := doy_of doe) in *. unfold days_in, mp_of in *.
  destruct (Z.ltb_spec ((5 * doy + 2) / 153) 10) as [Hlt|Hge].
  - replace ((5 * doy + 2) / 153 + 3 =? 2) with false by lia.
    destruct (_ || _) eqn:E; [|clear -Hd; lia]. clear -E Hdoy Hlt. dlia.
  - destruct (Z.eqb_spec ((5 * doy + 2) / 153 - 9) 2) as [E|E].
    + replace ((5 * doy + 2) / 153 - 9 <=? 2) with true by lia.
      destruct (is_leap (y + 1)) eqn:El; [clear -E Hdoy; dlia|].
      assert (doy < 365) by (destruct (Z_le_dec 365 doy) as [Hl|Hl]; [by specialize (Hleap Hl)|lia]). clear -E Hdoy H. dlia.
    + destruct (_ || _) eqn:E'; [|clear -Hd; lia]. clear -E E' Hdoy Hge. dlia.
Qed.

(** ** [time.ParseInLocation] *)
Record parts := mkParts { p_y : Z; p_mo : Z; p_d : Z; p_h : Z; p_mi : Z; p_s : Z; p_ns : Z }.
Definition no_parts : parts := mkParts 0 (-1) (-1) 0 0 0 0.
Definition with_y (p : parts) (y : Z) : parts := mkParts y (p_mo p) (p_d p) (p_h p) (p_mi p) (p_s p) (p_ns p).
Definition with_mo (p : parts) (m : Z) : parts := mkParts (p_y p) m (p_d p) (p_h p) (p_mi p) (p_s p) (p_ns p).
Definition with_d (p : parts) (d : Z) : parts := mkParts (p_y p) (p_mo p) d (p_h p) (p_mi p) (p_s p) (p_ns p).
Definition with_h (p : parts) (h : Z) : parts := mkParts (p_y p) (p_mo p) (p_d p) h (p_mi p) (p_s p) (p_ns p).
Definition with_mi (p : parts) (m : Z) : parts := mkParts (p_y p) (p_mo p) (p_d p) (p_h p) m (p_s p) (p_ns p).
Definition with_s (p : parts) (s : Z) : parts := mkParts (p_y p) (p_mo p) (p_d p) (p_h p) (p_mi p) s (p_ns p).
Definition with_ns (p : parts) (n : Z) : parts := mkParts (p_y p) (p_mo p) (p_d p) (p_h p) (p_mi p) (p_s p) n.
(** A sign and digits. *)
Definition atoi (s : string) : option Z :=
  match s with
  | String c s' =>
      if Ascii.eqb c "-"%char then Z.opp <$> parse_uint s'
      else if Ascii.eqb c "+"%char then parse_uint s' else parse_uint s
  | EmptyString => parse_uint s
  end.
Fixpoint cutspace (s : string) : string :=
  match s with String c s' => if Ascii.eqb c " "%char then cutspace s' else s | EmptyString => s end.
(** The text of a layout between its elements: a run of spaces stands for any number of them, or
    for none at the end of the value; [cut] says that such a run is under way. *)
Fixpoint skip (cut : bool) (prefix value : string) : option string :=
  match prefix with
  | EmptyString => Some value
  | String c prefix =>
      if Ascii.eqb c " "%char then
        if cut then skip true prefix value
        else match value with
             | String v _ => if Ascii.eqb v " "%char then skip true prefix (cutspace value) else None
             | EmptyString => skip true prefix value
             end
      else match value with
           | String v value => if Ascii.eqb v c then skip false prefix value else None
           | EmptyString => None
           end
  end.
Definition commaOrPeriod (c : ascii) : bool := Ascii.eqb c "."%char || Ascii.eqb c ","%char.
(** The first [nbytes] bytes as a fraction of a second. *)
Definition parseNanoseconds (value : string) (nbytes : nat) : option Z :=
  match value with
  | String c rest =>
      if commaOrPeriod c then
        let n := Nat.min nbytes 10 in
        ns ← atoi (str_take (n - 1) rest);
        if ns <? 0 then None else Some (ns * 10 ^ (10 - Z.of_nat n))
      else None
  | EmptyString => None
  end.
Fixpoint digits_len (s : string) : nat :=
  match s with String c s => if is_digit c then S (digits_len s) else 0%nat | EmptyString => 0%nat end.
(** A fraction of a second that the layout does not name. *)
Definition extra_fraction (value : string) : option (option Z * string) :=
  match value with
  | String c (String d _ as rest) =>
      if commaOrPeriod c && is_digit d then
        let n := S (digits_len rest) in
        ns ← parseNanoseconds value n; Some (Some ns, str_drop n value)
      else Some (None, value)
  | _ => Some (None, value)
  end.
Fixpoint names_fraction (layout : list layout_item) : bool :=
  match layout with Lit _ :: layout => names_fraction layout | Ms3 :: _ => true | _ => false end.
Definition in_range (lo hi n : Z) : option unit := if (lo <=? n) && (n <? hi) then Some tt else None.
Definition starts_digit (s : string) : bool := match s with String c _ => is_digit c | EmptyString => false end.
Fixpoint parse_items (layout : list layout_item) (value : string) (p : parts) : option parts :=
  match layout with
  | [] => if bool_decide (value = "") then Some p else None
  | i :: layout =>
      match i with
      | Lit s => value ← skip false s value; parse_items layout value p
      | Y4 =>
          if (String.length value <? 4)%nat || negb (starts_digit value) then None
          else y ← parse_uint (str_take 4 value); parse_items layout (str_drop 4 value) (with_y p y)
      | M2 => '(m, value) ← getnum true value; _ ← in_range 1 13 m; parse_items layout value (with_mo p m)
      | D2 => '(d, value) ← getnum true value; parse_items layout value (with_d p d)
      | H2 => '(h, value) ← getnum false value; _ ← in_range 0 24 h; parse_items layout value (with_h p h)
      | Mi2 => '(m, value) ← getnum true value; _ ← in_range 0 60 m; parse_items layout value (with_mi p m)
      | S2 =>
          '(s, value) ← getnum true value; _ ← in_range 0 60 s;
          if names_fraction layout then parse_items layout value (with_s p s)
          else '(ns, value) ← extra_fraction value;
               parse_items layout value (match ns with Some ns => with_ns (with_s p s) ns | None => with_s p s end)
      | Ms3 =>
          if (String.length value <? 4)%nat then None
          else ns ← parseNanoseconds value 4; parse_items layout (str_drop 4 value) (with_ns p ns)
      end
  end.
Definition ParseInLocation (layout : list layout_item) (value : string) (loc : location) : option Z :=
  p ← parse_items layout value no_parts;
  let m := if p_mo p <? 0 then 1 else p_mo p in
  let d := if p_d p <? 0 then 1 else p_d p in
  _ ← in_range 1 (days_in m (p_y p) + 1) d;
  Some (Date loc (p_y p) m d (p_h p) (p_mi p) (p_s p) (p_ns p)).

(** ** time.go *)
(** The clock, as nanoseconds and as seconds. *)
Definition UnixNano (now : Z) : Z := i64 now.
Definition Unix (now : Z) : Z := Unix_ now.
(** The zero [time.Time] is midnight of January 1, year 1, UTC. *)
Definition zero_time : Z := -62135596800 * Second.
Section local.
Context (loc : location).
Definition GetTimestampByTime (timeFormat : string) : Z :=
  match ParseInLocation layout_second timeFormat loc with Some t => Unix_ t | None => 0 end.
Definition TimeFormat (timeFormat : string) (sType : Z) : Z :=
  let layout := if sType =? 2 then layout_milli else layout_second in
  Unix_ (default zero_time (ParseInLocation layout timeFormat loc)).
Definition layout_of_type (sType : Z) : list layout_item :=
  match sType with
  | 1 => layout_milli | 2 => layout_second | 3 => layout_minute | 4 => layout_hour | 5 => layout_date
  | 6 => [Y4; Lit "-"; M2] | 7 => [Y4] | 8 => layout_compact | _ => []
  end.
(** [now] is the clock, asked when the text does not parse. *)
Definition TimeStrFormat (now : Z) (timeStr : string) (sType : Z) : Z * option goerr :=
  match ParseInLocation (layout_of_type sType) timeStr loc with
  | Some t => (t, None)
  | None => (now, Some (ErrExt "time.ParseError"))
  end.
End local.
Example parse_examples :
  map (λ s, GetTimestampByTime shanghai s)
    ["2024-02-29 17:46:40"; "2024-02-29  7:46:40.25"; "2023-02-29 00:00:00"; "2024-02-29"; "2024-13-01 00:00:00"]
  = [1709200000; 1709164000; 0; 0; 0] ∧
  TimeFormat shanghai "tomorrow" 1 = -62135596800 ∧
  TimeStrFormat shanghai 7 "2024-02-29 17:46:40.125" 1 = (1709200000 * Second + 125 * Millisecond, None) ∧
  TimeStrFormat shanghai 7 "20240229174640" 8 = (1709200000 * Second, None) ∧
  TimeStrFormat shanghai 7 "20240229174640000" 9 = (7, Some (ErrExt "time.ParseError")).
Proof. vm_compute. done. Qed.

(** ** What is formatted is read back *)
Definition in_fields (dt : datetime) : Prop :=
  0 <= Year dt < 10000 ∧ 1 <= Month dt < 13 ∧ 0 <= Day dt < 100 ∧ 0 <= Clock_h dt < 24 ∧
  0 <= Clock_m dt < 60 ∧ 0 <= Clock_s dt < 60 ∧ 0 <= Nanosecond dt < Second.
(** Layouts whose separators come one at a time, before a number, and whose fraction comes last. *)
Definition numeric (i : layout_item) : bool := match i with Lit _ | Ms3 => false | _ => true end.
Fixpoint plain (layout : list layout_item) : bool :=
  match layout with
  | [] => true
  | i :: layout =>
      plain layout &&
      match i with
      | Lit s => bool_decide (s = "-" ∨ s = " " ∨ s = ":") && match layout with i' :: _ => numeric i' | [] => false end
      | S2 => match layout with [] | [Ms3] => true | _ => false end
      | Ms3 => match layout with [] => true | _ => false end
      | _ => true
      end
  end.
Definition format_items (dt : datetime) (layout : list layout_item) : string := foldr (λ i s, format_item dt i +++ s) "" layout.
(** What a layout tells of a time. *)
Definition read_item (dt : datetime) (p : parts) (i : layout_item) : parts :=
  match i with
  | Y4 => with_y p (Year dt) | M2 => with_mo p (Month dt) | D2 => with_d p (Day dt)
  | H2 => with_h p (Clock_h dt) | Mi2 => with_mi p (Clock_m dt) | S2 => with_s p (Clock_s dt)
  | Ms3 => with_ns p (Nanosecond dt / Millisecond * Millisecond) | Lit _ => p
  end.
Lemma pad_id w n : 0 <= n → pad w n = fmt_0d w n.
Proof. unfold pad. intros. by replace (n <? 0) with false by lia. Qed.
Lemma str_4 s t : String.length s = 4%nat → (String.length (s +++ t) <? 4)%nat = false ∧ str_take 4 (s +++ t) = s ∧ str_drop 4 (s +++ t) = t.
Proof. intros <-. rewrite str_take_app, str_drop_app, length_app_str. split; [apply Nat.ltb_ge; lia|done]. Qed.
Lemma fmt_starts w n s : 0 <= n → starts_digit (fmt_0d w n +++ s) = true.
Proof.
  intros Hn. pose proof (fmt_0d_digits w n Hn) as Hd. unfold starts_digit.
  destruct (fmt_0d w n) as [|c t] eqn:E; [|by apply andb_true_iff in Hd as [? _]].
  exfalso. pose proof (utoa_nonempty n) as Hu. unfold fmt_0d in E. replace (n <? 0) with false in E by lia.
  apply (f_equal String.length) in E. rewrite length_app_str in E. destruct (utoa n); [done|]. cbn in E. lia.
Qed.
Lemma numeric_starts dt i s : in_fields dt → numeric i = true → starts_digit (format_item dt i +++ s) = true.
Proof.
  intros (Hy & Hmo & Hd & Hh & Hmi & Hs & _) Hi. destruct i; try discriminate Hi; cbn [format_item].
  all: rewrite pad_id by lia; apply fmt_starts; lia.
Qed.
Lemma skip_sep s value : s = "-" ∨ s = " " ∨ s = ":" → starts_digit value = true → skip false s (s +++ value) = Some value.
Proof.
  intros Hs Hv. destruct Hs as [->|[->| ->]]; [done| |done]. cbn. f_equal.
  destruct value as [|c v]; [done|]. cbn [cutspace]. cbn in Hv. by destruct (Ascii.eqb_spec c " "%char) as [->|].
Qed.
Lemma parse_milli ns : 0 <= ns < Second →
  parseNanoseconds ("." +++ fmt_0d 3 (ns / Millisecond)) 4 = Some (ns / Millisecond * Millisecond).
Proof.
  intros Hns. assert (0 <= ns / Millisecond < 1000) as Hms by (unfold Second, Millisecond in *; dlia).
  set (k := ns / Millisecond) in *. change ("." +++ ?x) with (String "."%char x). cbn [parseNanoseconds commaOrPeriod].
  change (Ascii.eqb "."%char "."%char || _) with true. cbv zeta. change (Nat.min 4 10 - 1)%nat with 3%nat.
  pose proof (length_fmt_0d 3 k ltac:(cbn; lia) ltac:(lia)) as Hl.
  assert (str_take 3 (fmt_0d 3 k) = fmt_0d 3 k) as ->.
  { rewrite <-(app_str_nil_r (fmt_0d 3 k)) at 1. rewrite <-Hl at 1. apply str_take_app. }
  assert (atoi (fmt_0d 3 k) = Some k) as ->.
  { pose proof (fmt_starts 3 k "" ltac:(lia)) as Hd. rewrite app_str_nil_r in Hd. pose proof (parse_uint_fmt_0d 3 k ltac:(lia)) as Hp.
    unfold atoi. destruct (fmt_0d 3 k) as [|c s]; [done|]. cbn in Hd.
    by destruct (Ascii.eqb_spec c "-"%char) as [->|]; [|destruct (Ascii.eqb_spec c "+"%char) as [->|]]. }
  cbn [mbind option_bind]. replace (k <? 0) with false by lia. f_equal.
Qed.
Lemma in_range_some lo hi n : lo <= n < hi → in_range lo hi n = Some tt.
Proof. unfold in_range. intros. by replace ((lo <=? n) && (n <? hi)) with true by lia. Qed.
Lemma parse_format dt layout p :
  in_fields dt → plain layout = true →
  parse_items layout (format_items dt layout) p = Some (foldl (read_item dt) p layout).
Proof.
  intros Hdt. pose proof Hdt as (Hy & Hmo & Hd & Hh & Hmi & Hs & Hns). revert p.
  induction layout as [|i layout IH]; intros p Hp; [done|].
  cbn [plain] in Hp. apply andb_true_iff in Hp as [Hpl Hi].
  change (format_items dt (i :: layout)) with (format_item dt i +++ format_items dt layout).
  destruct i; cbn [parse_items format_item foldl read_item]; rewrite ?pad_id by lia; rewrite ?getnum_2d by lia;
    cbn [mbind option_bind]; rewrite ?in_range_some by lia; cbn [mbind option_bind].
  - destruct (str_4 (fmt_0d 4 (Year dt)) (format_items dt layout)) as (-> & -> & ->); [apply length_fmt_0d; [cbn|]; lia|].
    rewrite fmt_starts by lia. cbn [orb negb]. rewrite parse_uint_fmt_0d by lia. cbn [mbind option_bind]. by apply IH.
  - by apply IH.
  - by apply IH.
  - by apply IH.
  - by apply IH.
  - destruct layout as [|[] [|]]; try discriminate Hi; [done|]. cbn [names_fraction]. by apply IH.
  - destruct layout; [|discriminate Hi]. unfold format_items. cbn [foldr]. rewrite app_str_nil_r.
    destruct (str_4 ("." +++ fmt_0d 3 (Nanosecond dt / Millisecond)) "") as (Hl & _ & Hdr).
    { change ("." +++ ?x) with (String "."%char x). cbn [String.length]. rewrite length_fmt_0d; [done| |lia].
      change (10 ^ Z.of_nat 3) with 1000. unfold Second, Millisecond in *. clear -Hns. dlia. }
    rewrite app_str_nil_r in Hl, Hdr. rewrite Hl, parse_milli by done. cbn [mbind option_bind]. by rewrite Hdr.
  - apply andb_true_iff in Hi as [Hs' Hn]. apply bool_decide_eq_true in Hs'.
    destruct layout as [|i layout]; [done|]. rewrite skip_sep; [by apply IH|done|].
    by apply numeric_starts.
Qed.
Lemma local_in_fields loc t : 0 <= Year (local_datetime loc t) < 10000 → in_fields (local_datetime loc t).
Proof.
  unfold in_fields, local_datetime, secs_per_day. set (w := t / Second + loc (t / Second)).
  pose proof (civil_of_days_spec (w / 86400)) as Hs. destruct (civil_of_days (w / 86400)) as [[y m] d].
  cbn [Year Month Day Clock_h Clock_m Clock_s Nanosecond]. intros Hy.
  pose proof (Z.mod_pos_bound t Second ltac:(unfold Second, Millisecond; lia)).
  split_and!; try lia; clear; dlia.
Qed.
(** The wall clock of a time, to the second and below. *)
Lemma local_wall loc t :
  let dt := local_datetime loc t in
  days_of_civil (Year dt) (Month dt) (Day dt) * secs_per_day + Clock_h dt * 3600 + Clock_m dt * 60 + Clock_s dt
    = t / Second + loc (t / Second) ∧ Day dt <= days_in (Month dt) (Year dt) ∧ 1 <= Day dt ∧ Nanosecond dt = t mod Second.
Proof.
  unfold local_datetime. set (w := t / Second + loc (t / Second)).
  pose proof (civil_of_days_spec (w / secs_per_day)) as Hs. pose proof (civil_day_valid (w / secs_per_day)) as Hv.
  destruct (civil_of_days (w / secs_per_day)) as [[y m] d]. cbn [Year Month Day Clock_h Clock_m Clock_s Nanosecond].
  destruct Hs as (_ & Hd & Hday). split_and!; [|done|lia|done]. rewrite Hday. unfold secs_per_day. clear. dlia.
Qed.
Definition unit_of (sType : Z) : option Z :=
  match sType with
  | 1 => Some Millisecond | 2 => Some Second | 3 => Some Minute | 4 => Some Hour | 5 => Some (24 * Hour) | 8 => Some Second
  | _ => None
  end.
Lemma unit_cases k u : unit_of k = Some u → k = 1 ∨ k = 2 ∨ k = 3 ∨ k = 4 ∨ k = 5 ∨ k = 8.
Proof. unfold unit_of. repeat case_match; try done; tauto. Qed.
Lemma floor_unique u x k : 0 < u → 0 <= x - u * k < u → x / u * u = u * k.
Proof. intros Hu Hx. rewrite (Z.div_unique_pos x u k (x - u * k)) at 1; lia. Qed.

(** The clock that a type shows. *)
Definition shown (dt : datetime) (sType : Z) : Z * Z * Z * Z :=
  match sType with
  | 1 => (Clock_h dt, Clock_m dt, Clock_s dt, Nanosecond dt / Millisecond * Millisecond)
  | 3 => (Clock_h dt, Clock_m dt, 0, 0) | 4 => (Clock_h dt, 0, 0, 0) | 5 => (0, 0, 0, 0)
  | _ => (Clock_h dt, Clock_m dt, Clock_s dt, 0)
  end.
Lemma shown_floor dt sType unit h mi s ns D :
  unit_of sType = Some unit → in_fields dt → (h, mi, s, ns) = shown dt sType →
  ((D * secs_per_day + Clock_h dt * 3600 + Clock_m dt * 60 + Clock_s dt) * Second + Nanosecond dt) / unit * unit
    = (D * secs_per_day + h * 3600 + mi * 60 + s) * Second + ns ∧
  0 <= h * 3600 + mi * 60 + s < secs_per_day.
Proof.
  intros Hu (_ & _ & _ & Hh & Hmi & Hs & Hns) Hk.
  unfold unit_of, shown, secs_per_day, Hour, Minute, Second, Millisecond in *.
  repeat case_match; try discriminate Hu; injection Hu as <-; injection Hk as -> -> -> ->.
  all: split; [|lia].
  - rewrite (floor_unique _ _ D) by lia. lia.
  - rewrite (floor_unique _ _ (D * 1440 + Clock_h dt * 60 + Clock_m dt)) by lia. lia.
  - rewrite (floor_unique _ _ (D * 86400 + Clock_h dt * 3600 + Clock_m dt * 60 + Clock_s dt)) by lia. lia.
  - rewrite (floor_unique _ _ (D * 24 + Clock_h dt)) by lia. lia.
  - rewrite (floor_unique _ _ (D * 86400 + Clock_h dt * 3600 + Clock_m dt * 60 + Clock_s dt)) by lia. lia.
  - rewrite (floor_unique _ (_ + Nanosecond dt) ((D * 86400 + Clock_h dt * 3600 + Clock_m dt * 60 + Clock_s dt) * 1000 + Nanosecond dt / 1000000))
      by (clear -Hns; dlia). lia.
Qed.

Lemma Format_items loc layout t : Format loc layout t = format_items (local_datetime loc t) layout.
Proof. reflexivity. Qed.
Lemma type_layout loc sType t unit text (dt := local_datetime loc t) :
  unit_of sType = Some unit → format_type loc sType t = Some text →
  text = format_items dt (layout_of_type sType) ∧ plain (layout_of_type sType) = true ∧
  foldl (read_item dt) no_parts (layout_of_type sType) =
    let '(h, mi, s, ns) := shown dt sType in mkParts (Year dt) (Month dt) (Day dt) h mi s ns.
Proof.
  intros Hu Hf. apply unit_cases in Hu. destruct Hu as [->|[->|[->|[->|[->| ->]]]]].
  all: cbn [format_type] in Hf; apply (inj Some) in Hf; rewrite <-Hf, Format_items; clear Hf; subst dt.
  all: generalize (local_datetime loc t); intros dt; split; [reflexivity|split; reflexivity].
Qed.

Lemma parse_read_back (loc : location) (t off sType unit : Z) (text : string) :
  unit_of sType = Some unit → format_type loc sType t = Some text →
  0 <= Year (local_datetime loc t) < 10000 →
  (∀ u, Z.abs (u - t / Second) <= 2 * secs_per_day + 2 * Z.abs off → loc u = off) →
  ParseInLocation (layout_of_type sType) text loc = Some ((t + off * Second) / unit * unit - off * Second).
Proof.
  intros Hu Hf Hy Hloc. pose proof (local_in_fields loc t Hy) as Hin.
  destruct (local_wall loc t) as (Hw & Hdv & Hd1 & Hns). set (dt := local_datetime loc t) in *.
  destruct (type_layout loc sType t unit text Hu Hf) as (-> & Hp & Hr). fold dt in Hr |- *.
  destruct (shown dt sType) as [[[h mi] s] ns] eqn:Hk. symmetry in Hk.
  unfold ParseInLocation. rewrite parse_format by done. rewrite Hr.
  cbn [mbind option_bind p_mo p_d p_y p_h p_mi p_s p_ns]. pose proof Hin as (_ & Hm & _ & Hh & Hmi & Hs & _).
  replace (Month dt <? 0) with false by lia. replace (Day dt <? 0) with false by lia.
  rewrite in_range_some by lia. cbn [mbind option_bind]. f_equal.
  destruct (shown_floor dt sType unit h mi s ns (days_of_civil (Year dt) (Month dt) (Day dt)) Hu Hin Hk) as [Hfl Hr'].
  unfold Date. rewrite <-Z.add_assoc in Hw.
  rewrite (Hloc (t / Second)) in Hw by (unfold secs_per_day in *; lia). unfold secs_per_day in *.
  set (D := days_of_civil _ _ _) in *.
  rewrite (Hloc (D * 86400 + h * 3600 + mi * 60 + s)) by lia. rewrite Hloc by lia.
  replace (t + off * Second) with ((D * 86400 + Clock_h dt * 3600 + Clock_m dt * 60 + Clock_s dt) * Second + Nanosecond dt).
  { rewrite Hfl. lia. }
  rewrite Hns. pose proof (Z.div_mod t Second ltac:(done)). nia.
Qed.
(** A second's text is read back as the second. *)
Lemma stamp_read_back (loc : location) (ts off : Z) :
  0 <= Year (local_datetime loc (at_second ts)) < 10000 →
  (∀ u, Z.abs (u - ts) <= 2 * secs_per_day + 2 * Z.abs off → loc u = off) →
  GetTimestampByTime loc (GetTimeByTimestamp loc ts) = ts ∧ TimeFormat loc (GetTimeByTimestamp loc ts) 1 = ts.
Proof.
  intros Hy Hloc. unfold GetTimestampByTime, TimeFormat.
  assert (at_second ts / Second = ts) as Hts by (unfold at_second; by apply Z.div_mul).
  pose proof (parse_read_back loc (at_second ts) off 2 Second (GetTimeByTimestamp loc ts) eq_refl eq_refl Hy) as Hp.
  rewrite Hts in Hp. specialize (Hp Hloc). cbn [layout_of_type] in Hp. change (1 =? 2) with false. cbv zeta iota. rewrite Hp.
  cbn [default]. assert ((at_second ts + off * Second) / Second * Second - off * Second = ts * Second) as ->.
  { unfold at_second. rewrite <-Z.mul_add_distr_r, Z.div_mul by done. lia. }
  unfold Unix_. by rewrite Z.div_mul.
Qed.

(** C40: Times as text. Where the zone's offset does not change nearby, a time formatted by any
    of the types 1 to 5 and 8 is read back by that type as the same time, cut to the
    milliseconds, seconds, minutes, hours or days of the local clock that the format shows. *)
Theorem format_read_back (loc : location) (now t off sType unit : Z) (text : string) :
  unit_of sType = Some unit → format_type loc sType t = Some text →
  0 <= Year (local_datetime loc t) < 10000 →
  (∀ u, Z.abs (u - t / Second) <= 2 * secs_per_day + 2 * Z.abs off → loc u = off) →
  TimeStrFormat loc now text sType = ((t + off * Second) / unit * unit - off * Second, None).
Proof. intros Hu Hf Hy Hloc. unfold TimeStrFormat. by rewrite (parse_read_back loc t off sType unit text). Qed.
Lemma format_read_back_witness :
  TimeStrFormat shanghai 0 "2024-02-29 17:46" 3 =
    ((1709200000123456789 + 28800 * Second) / Minute * Minute - 28800 * Second, None).
Proof.
  apply (format_read_back shanghai 0 1709200000123456789 28800 3 Minute);
    [reflexivity|reflexivity|vm_compute; split; congruence|reflexivity].
Defined.
(** A text of type 9 is one of no layout. *)
Example type_nine :
  format_type shanghai 9 (1709200000 * Second) = Some "20240229174640000" ∧
  TimeStrFormat shanghai 0 "20240229174640000" 9 = (0, Some (ErrExt "time.ParseError")).
Proof. vm_compute. done. Qed.
