(* ===== verification/RandId.v ===== *)
(** Random identifiers (pkg/redis_lock/random.go): letters drawn six bits at a time from the
    words of a random source. *)
From Stdlib Require Import Ascii.
From stdpp Require Import prelude strings list.
From S2P Require Import Prelude GoStrings Digest.

Definition letterBytes : string := "abcdefghijklmnopqrstuvwxyzABCDEFGHIJKLMNOPQRSTUVWXYZ0123456789".
Definition letterIdxBits : Z := 6.
Definition idLen : Z := 8.
Definition defaultRandLen : nat := 8.
Definition letterIdxMask : Z := Z.shiftl 1 letterIdxBits - 1.
Definition letterIdxMax : nat := Z.to_nat (63 / letterIdxBits).
Definition letters : list Z := to_bytes letterBytes.

(** The numbers [Int63] gives, and how many were drawn. *)
Section source.
Context (src : nat → Z).
(** The loop with [i] bytes still to write, into what follows them; [None]: the fuel, one unit
    per index looked at, was not enough. *)
Fixpoint randn_loop (fuel : nat) (i : nat) (drawn : nat) (cache : Z) (remain : nat) (b : list Z)
    : option (list Z * nat) :=
  match i with
  | O => Some (b, drawn)
  | S i' =>
      match fuel with
      | O => None
      | S fuel =>
          let '(drawn, cache, remain) :=
            match remain with
            | O => (S drawn, src drawn, letterIdxMax)
            | S _ => (drawn, cache, remain)
            end in
          match letters !! Z.to_nat (Z.land cache letterIdxMask) with
          | Some c => randn_loop fuel i' drawn (Z.shiftr cache letterIdxBits) (remain - 1) (c :: b)
          | None => randn_loop fuel i drawn (Z.shiftr cache letterIdxBits) (remain - 1) b
          end
      end
  end.
Definition Randn (fuel n drawn : nat) : option (string * nat) :=
  '(b, drawn) ← randn_loop fuel n (S drawn) (src drawn) letterIdxMax []; Some (of_bytes b, drawn).
Definition Rand (fuel drawn : nat) : option (string * nat) := Randn fuel defaultRandLen drawn.
(** [RandId] with what [crypto/rand] answered. *)
Definition RandId (fuel drawn : nat) (crand : option (list Z)) : option (string * nat) :=
  match crand with
  | None => Randn fuel (Z.to_nat idLen) drawn
  | Some b => Some (hex_encode (take 2 b) +++ hex_encode (take 2 (drop 2 b)) +++ hex_encode (take 2 (drop 4 b)) +++ hex_encode (take 2 (drop 6 b)), drawn)
  end.

(** ** The letters of the words, in order *)
Definition index (w : Z) (k : nat) : Z := Z.land (Z.shiftr w (letterIdxBits * Z.of_nat k)) letterIdxMask.
Definition word_letters_from (w : Z) (remain : nat) : list Z :=
  omap (λ k, letters !! Z.to_nat (index w k)) (seq 0 remain).
Definition word_letters (w : Z) : list Z := word_letters_from w letterIdxMax.
Lemma omap_S {A} (f : nat → option A) (l : list nat) : omap f (S <$> l) = omap (λ k, f (S k)) l.
Proof. induction l as [|k l IH]; csimpl; [done|]. by rewrite IH. Qed.
Lemma word_letters_S w r :
  word_letters_from w (S r) =
    option_list (letters !! Z.to_nat (Z.land w letterIdxMask)) ++ word_letters_from (Z.shiftr w letterIdxBits) r.
Proof.
  unfold word_letters_from. cbn [seq]. rewrite <-fmap_S_seq.
  assert (index w 0 = Z.land w letterIdxMask) as Hi by (unfold index; by rewrite Z.mul_0_r, Z.shiftr_0_r).
  assert (omap (λ k, letters !! Z.to_nat (index w k)) (S <$> seq 0 r)
          = omap (λ k, letters !! Z.to_nat (index (Z.shiftr w letterIdxBits) k)) (seq 0 r)) as Ho.
  { rewrite omap_S. apply list_omap_ext. apply Forall2_same_length_lookup_2; [done|].
    intros k x y Hx Hy. assert (x = y) as -> by congruence. unfold index.
    rewrite Z.shiftr_shiftr by (unfold letterIdxBits; lia). do 4 f_equal. lia. }
  csimpl. rewrite Hi, Ho. by destruct (letters !! _).
Qed.
(** The letters of the words drawn from [d] to [d']. *)
Definition drawn_letters (d d' : nat) : list Z := mjoin (map (λ k, word_letters (src k)) (seq d (d' - d))).
Lemma drawn_letters_S d d' : (d < d')%nat → drawn_letters d d' = word_letters (src d) ++ drawn_letters (S d) d'.
Proof.
  intros Hd. unfold drawn_letters. replace (d' - d)%nat with (S (d' - S d)) by lia. reflexivity.
Qed.
Lemma randn_loop_spec fuel i d cache remain b b' d' :
  randn_loop fuel i d cache remain b = Some (b', d') →
  (d ≤ d')%nat ∧ ∃ l, b' = reverse l ++ b ∧ length l = i ∧
  l `prefix_of` word_letters_from cache remain ++ drawn_letters d d'.
Proof.
  revert i d cache remain b. induction fuel as [|fuel IH]; intros i d cache remain b; (destruct i as [|i]; cbn [randn_loop];
    [intros [= <- <-]; split; [lia|]; exists []; split_and!; [done|done|apply prefix_nil]|]); [done|].
  (* one index of a word with [r] further ones *)
  assert (∀ dr w r, 
    match letters !! Z.to_nat (Z.land w letterIdxMask) with
    | Some c => randn_loop fuel i dr (Z.shiftr w letterIdxBits) (S r - 1) (c :: b)
    | None => randn_loop fuel (S i) dr (Z.shiftr w letterIdxBits) (S r - 1) b
    end = Some (b', d') →
    (dr ≤ d')%nat ∧ ∃ l, b' = reverse l ++ b ∧ length l = S i ∧
      l `prefix_of` word_letters_from w (S r) ++ drawn_letters dr d') as Hstep.
  { intros dr w r. rewrite word_letters_S, Nat.sub_succ, Nat.sub_0_r.
    destruct (letters !! _) as [c|]; intros (Hd & l & -> & Hl & Hp)%IH; (split; [done|]).
    - exists (c :: l). split_and!; [by rewrite reverse_cons, <-app_assoc|cbn; lia|]. by apply prefix_cons.
    - by exists l. }
  destruct remain as [|r]; [|apply Hstep].
  intros (Hd & l & -> & Hl & Hp)%(Hstep (S d) (src d) 9%nat). split; [lia|]. exists l. split_and!; [done|done|].
  by rewrite drawn_letters_S by lia.
Qed.
Lemma randn_loop_total fuel i d cache remain b :
  (∀ k, word_letters (src k) ≠ []) →
  (remain + 10 * (i - length (word_letters_from cache remain)) ≤ fuel)%nat →
  is_Some (randn_loop fuel i d cache remain b).
Proof.
  intros Hw. revert i d cache remain b. induction fuel as [|fuel IH]; intros i d cache remain b Hf;
    (destruct i as [|i]; cbn [randn_loop]; [by eexists|]).
  - assert (remain = 0)%nat as -> by lia. cbn in Hf. lia.
  - assert (∀ dr w r, (S r + 10 * (S i - length (word_letters_from w (S r))) ≤ S fuel)%nat → is_Some
      match letters !! Z.to_nat (Z.land w letterIdxMask) with
      | Some c => randn_loop fuel i dr (Z.shiftr w letterIdxBits) (S r - 1) (c :: b)
      | None => randn_loop fuel (S i) dr (Z.shiftr w letterIdxBits) (S r - 1) b
      end) as Hstep.
    { intros dr w r. rewrite word_letters_S, length_app, Nat.sub_succ, Nat.sub_0_r.
      destruct (letters !! _) as [c|]; intros Hr; cbn [option_list from_option length] in Hr; unfold id in Hr; apply IH; cbn in Hr; lia. }
    destruct remain as [|r]; [|by apply Hstep]. apply (Hstep (S d) (src d) 9%nat).
    cbn [word_letters_from seq omap list_omap length] in Hf. specialize (Hw d).
    change (word_letters_from (src d) 10) with (word_letters (src d)).
    destruct (word_letters (src d)) as [|c l]; [done|]. cbn [length]. lia.
Qed.

(** Random letters. If no word of the source is without a letter, [Randn n] ends within ten
    indices for each letter, and read backwards gives the first [n] letters of the words it drew,
    in their order: none is skipped, used twice or taken from outside the alphabet. *)
Lemma randn_takes_letters (n drawn : nat) :
  (∀ k, word_letters (src k) ≠ []) →
  ∃ s d', Randn (10 * S n) n drawn = Some (s, d') ∧
    reverse (to_bytes s) = take n (drawn_letters drawn d') ∧ String.length s = n.
Proof.
  intros Hw. unfold Randn.
  destruct (randn_loop_total (10 * S n) n (S drawn) (src drawn) letterIdxMax [] Hw) as [[b d'] Hr].
  { change letterIdxMax with 10%nat. lia. }
  rewrite Hr. cbn [mbind option_bind]. exists (of_bytes b), d'. split; [done|].
  apply randn_loop_spec in Hr as (Hd & l & Hb & Hl & Hp). rewrite app_nil_r in Hb. subst b.
  fold (word_letters (src drawn)) in Hp. rewrite <-drawn_letters_S in Hp by lia.
  assert (Forall is_byte (reverse l)) as Hby.
  { apply Forall_reverse. assert (Forall is_byte (drawn_letters drawn d')) as Ha; [|destruct Hp as [k Hk]; rewrite Hk, Forall_app in Ha; apply Ha].
    apply Forall_forall. intros c Hc.
    unfold drawn_letters in Hc. apply list_elem_of_join in Hc as (ws & Hc & Hws).
    apply list_elem_of_fmap in Hws as (k & -> & _). unfold word_letters, word_letters_from in Hc.
    apply list_elem_of_omap in Hc as (j & _ & Hc). eapply (Forall_lookup_1 is_byte letters); [|exact Hc].
    apply to_bytes_range. }
  rewrite to_of_bytes by done. split.
  - rewrite reverse_involutive. destruct Hp as [k ->]. by rewrite take_app_length'.
  - rewrite <-length_to_bytes, to_of_bytes, length_reverse by done. done.
Qed.
End source.
(** Every word begins with the letters c and b. *)
Lemma randn_takes_letters_witness :
  ∃ s d', Randn (λ _, 66) (10 * S 16) 16 0 = Some (s, d') ∧
    reverse (to_bytes s) = take 16 (drawn_letters (λ _, 66) 0 d') ∧ String.length s = 16%nat.
Proof. apply (randn_takes_letters (λ _, 66) 16 0). intros k. vm_compute. congruence. Defined.
Example randn_example : Randn (λ _, 66) 170 16 0 = Some ("aaaabcaaaaaaaabc", 2%nat).
Proof. vm_compute. reflexivity. Qed.
