(* ===== verification/Cache.v ===== *)
(** The Redis wrapper (pkg/cache) and the record it traces (pkg/tracelegacy): named clients, keys
    under a prefix, one command of the client per call, and a log of the slow calls. *)
From Stdlib Require Import Ascii.
From stdpp Require Import prelude gmap strings list.
From S2P Require Import Prelude GoStrings GoFloat GoTime Timex.

(** ** The commands of the Redis client *)
(** One constructor per method of the client in use, with the type of its result; [V] stands for
    the values of type [interface{}]. *)
Inductive cmd (V : Type) : Type → Type :=
  | CSet (k : string) (v : V) (ttl : Z) : cmd V unit
  | CGet (k : string) : cmd V string
  | CTTL (k : string) : cmd V Z
  | CExpire (k : string) (ttl : Z) : cmd V bool
  | CExpireAt (k : string) (at_ : Z) : cmd V bool
  | CDel (k : string) : cmd V Z
  | CIncr (k : string) : cmd V Z
  | CHGet (k f : string) : cmd V string
  | CHSet (k : string) (vs : list V) : cmd V Z
  | CHKeys (k : string) : cmd V (list string)
  | CHDel (k : string) (fs : list string) : cmd V Z
  | CRPush (k : string) (vs : list V) : cmd V Z
  | CHIncrBy (k f : string) (incr : Z) : cmd V Z
  | CPublish (ch : string) (v : V) : cmd V Z.
#[global] Arguments CSet {V}. #[global] Arguments CGet {V}. #[global] Arguments CTTL {V}.
#[global] Arguments CExpire {V}. #[global] Arguments CExpireAt {V}. #[global] Arguments CDel {V}.
#[global] Arguments CIncr {V}. #[global] Arguments CHGet {V}. #[global] Arguments CHSet {V}.
#[global] Arguments CHKeys {V}. #[global] Arguments CHDel {V}. #[global] Arguments CRPush {V}.
#[global] Arguments CHIncrBy {V}. #[global] Arguments CPublish {V}.
(** The key a command is about. *)
Definition cmd_key {V A} (c : cmd V A) : option string :=
  match c with
  | CSet k _ _ | CGet k | CTTL k | CExpire k _ | CExpireAt k _ | CDel k | CIncr k | CHGet k _
  | CHSet k _ | CHKeys k | CHDel k _ | CRPush k _ | CHIncrBy k _ _ => Some k
  | CPublish _ _ => None
  end.
(** A server (with its connection) executes a command at a time; what it holds under a key.  A
    command touches its key only, and answers by what is there. *)
Class RedisServer (V S W : Type) := {
  exec : ∀ {A}, cmd V A → Z → S → S * (A * option goerr);
  view : S → string → W }.
Class RedisServerLaws (V S W : Type) `{RedisServer V S W} := {
  exec_frame {A} (c : cmd V A) now s k :
    cmd_key c ≠ Some k → view (exec c now s).1 k = view s k;
  exec_local {A} (c : cmd V A) now s1 s2 k :
    cmd_key c = Some k → view s1 k = view s2 k →
    (exec c now s1).2 = (exec c now s2).2 ∧ view (exec c now s1).1 k = view (exec c now s2).1 k }.

Definition redis_Nil : goerr := ErrSentinel "redis: nil".
(** [err != nil && err != redis.Nil]. *)
Definition real_error (e : option goerr) : bool :=
  match e with Some e => bool_decide (e ≠ redis_Nil) | None => false end.

(** ** tracelegacy.Cache: the record, which every call of the wrappers that hold it overwrites in place *)
Inductive tvalue (V : Type) := TVal (v : V) | TStr (s : string) | TStrs (l : list string) | TNil.
#[global] Arguments TVal {V}. #[global] Arguments TStr {V}. #[global] Arguments TStrs {V}. #[global] Arguments TNil {V}.
Record CacheTrace (V : Type) := mkTrace {
  Name : string; TraceTime : string; CMD : string; Key : string; Value : tvalue V; TTL_ : float64;
  CostMillisecond : Z; SlowLoggerMillisecond : Z; HasLogger : bool; AlwaysTrace : bool }.
#[global] Arguments mkTrace {V}. #[global] Arguments Name {V}. #[global] Arguments TraceTime {V}.
#[global] Arguments CMD {V}. #[global] Arguments Key {V}. #[global] Arguments Value {V}. #[global] Arguments TTL_ {V}.
#[global] Arguments CostMillisecond {V}. #[global] Arguments SlowLoggerMillisecond {V}.
#[global] Arguments HasLogger {V}. #[global] Arguments AlwaysTrace {V}.

(** ** The wrapper *)
(** A pointer to a record of the heap of the world below. *)
Abbreviation trace_ptr := nat (only parsing).
(** Whether the single client is there, and the cluster client; the record by its pointer, which
    several wrappers may hold. *)
Record Redis := mkRedis {
  client : bool; clusterClient : bool; trace : option trace_ptr; prefix : string }.
(** The servers behind the clients, the trace records in memory (every pointer held has its cell),
    and what was logged, newest first: the record's pointer and what it held then. *)
Record world (V S : Type) := mkWorld {
  single : S; cluster : S; heap : gmap trace_ptr (CacheTrace V); traced : list (trace_ptr * CacheTrace V) }.
#[global] Arguments mkWorld {V S}. #[global] Arguments single {V S}. #[global] Arguments cluster {V S}.
#[global] Arguments heap {V S}. #[global] Arguments traced {V S}.
(** The clock at the call, at its end, and in milliseconds between. *)
Record clock := mkClock { c_begin : Z; c_end : Z; c_cost : Z }.

Definition empty_key : goerr := ErrNew "empty key".
(** [fmt.Sprintf] of the prefix and the key. *)
Definition full_key (p key : string) : string := p +++ ":" +++ key.

Section cache.
Context {V S W : Type} `{RedisServer V S W} (loc : location).
(** A command on the client in use; a nil cluster client panics. *)
Definition on_client {A} (r : Redis) (c : cmd V A) (now : Z) (w : world V S) : world V S * gores (A * option goerr) :=
  if client r then
    let '(s, a) := exec c now (single w) in (mkWorld s (cluster w) (heap w) (traced w), Ret a)
  else if clusterClient r then
    let '(s, a) := exec c now (cluster w) in (mkWorld (single w) s (heap w) (traced w), Ret a)
  else (w, Panic "nil cluster client").
(** The deferred function: it writes the fields of the record the wrapper points to, and logs the
    record.  Only [Set] writes a [ttl], and [Subscribe] writes no value. *)
Definition emit (r : Redis) (cmd_name key : string) (value : option (tvalue V)) (ttl : option Z) (t : clock)
    (w : world V S) : world V S :=
  match trace r ≫= λ p, pair p <$> heap w !! p with
  | None => w
  | Some (p, tr) =>
      if negb (HasLogger tr) then w
      else if negb (AlwaysTrace tr) && (c_cost t <? SlowLoggerMillisecond tr) then w
      else
        let tr := mkTrace (Name tr) (GetTimeByTimestamp loc (c_end t / Second)) cmd_name key (default (Value tr) value)
                    (match ttl with Some d => in_units Minute d | None => TTL_ tr end) (c_cost t)
                    (SlowLoggerMillisecond tr) (HasLogger tr) (AlwaysTrace tr) in
        mkWorld (single w) (cluster w) (<[p := tr]> (heap w)) ((p, tr) :: traced w)
  end.
(** A traced call: the command, then the deferred function with the value it sees then; a panic
    passes through it. *)
Definition traced_call {A B} (r : Redis) (cmd_name key : string) (c : cmd V A) (ttl : option Z)
    (finish : A * option goerr → B) (value : B → tvalue V) (zero : B) (t : clock) (w : world V S)
    : world V S * gores B :=
  let '(w, a) := on_client r c (c_begin t) w in
  match a with
  | Ret a => let b := finish a in (emit r cmd_name key (Some (value b)) ttl t w, Ret b)
  | Panic m => (emit r cmd_name key (Some (value zero)) ttl t w, Panic m)
  end.
Definition int_text (v : Z) : tvalue V := TStr (FormatInt v).

Definition Set_ (r : Redis) (key : string) (value : V) (ttl : Z) (t : clock) (w : world V S) : world V S * gores (option goerr) :=
  if bool_decide (key = "") then (w, Ret (Some empty_key))
  else let key := full_key (prefix r) key in
       traced_call r "set" key (CSet key value ttl) (Some ttl) (λ a, a.2) (λ _, TVal value) None t w.
(** [Get]: [None] is the nil interface; an error is printed only. *)
Definition Get (r : Redis) (key : string) (t : clock) (w : world V S) : world V S * gores (option string) :=
  if bool_decide (key = "") then (w, Ret None)
  else let key := full_key (prefix r) key in
       traced_call r "get" key (CGet key) None (λ a, Some a.1) (λ _, TStr "") None t w.
Definition GetStr (r : Redis) (key : string) (t : clock) (w : world V S) : world V S * gores (string * option goerr) :=
  if bool_decide (key = "") then (w, Ret ("", Some empty_key))
  else let key := full_key (prefix r) key in
       traced_call r "get" key (CGet key) None (λ a, if real_error a.2 then ("", a.2) else a)
         (λ b, TStr b.1) ("", None) t w.
Definition TTL (r : Redis) (key : string) (t : clock) (w : world V S) : world V S * gores (Z * option goerr) :=
  if bool_decide (key = "") then (w, Ret (0, Some empty_key))
  else let '(w, a) := on_client r (CTTL (full_key (prefix r) key)) (c_begin t) w in
       (w, match a with
           | Ret (ttl, e) => Ret (if real_error e then (-1, e) else (ttl, None))
           | Panic m => Panic m
           end).
Definition Expire (r : Redis) (key : string) (ttl : Z) (t : clock) (w : world V S) : world V S * gores (bool * option goerr) :=
  if bool_decide (key = "") then (w, Ret (false, Some empty_key))
  else on_client r (CExpire (full_key (prefix r) key) ttl) (c_begin t) w.
Definition ExpireAt (r : Redis) (key : string) (at_ : Z) (t : clock) (w : world V S) : world V S * gores (bool * option goerr) :=
  if bool_decide (key = "") then (w, Ret (false, Some empty_key))
  else on_client r (CExpireAt (full_key (prefix r) key) at_) (c_begin t) w.
(** The count is dropped: the traced value is 0. *)
Definition Delete (r : Redis) (key : string) (t : clock) (w : world V S) : world V S * gores (option goerr) :=
  if bool_decide (key = "") then (w, Ret (Some empty_key))
  else let key := full_key (prefix r) key in
       traced_call r "del" key (CDel key) None (λ a, a.2) (λ _, int_text 0) None t w.
(** The calls that return the client's number and error. *)
Definition int_call (r : Redis) (cmd_name key : string) (c : string → cmd V Z) (t : clock) (w : world V S)
    : world V S * gores (Z * option goerr) :=
  if bool_decide (key = "") then (w, Ret (0, Some empty_key))
  else let key := full_key (prefix r) key in
       traced_call r cmd_name key (c key) None id (λ b, int_text b.1) (0, None) t w.
Definition Incr (r : Redis) (key : string) := int_call r "Incr" key CIncr.
Definition HSet (r : Redis) (key : string) (values : list V) := int_call r "HSet" key (λ k, CHSet k values).
Definition HDel (r : Redis) (key : string) (fields : list string) := int_call r "HDel" key (λ k, CHDel k fields).
Definition RPush (r : Redis) (key : string) (values : list V) := int_call r "RPush" key (λ k, CRPush k values).
Definition HIncrBy (r : Redis) (key field : string) (incr : Z) := int_call r "RPush" key (λ k, CHIncrBy k field incr).
Definition HGet (r : Redis) (key field : string) (t : clock) (w : world V S) : world V S * gores string :=
  if bool_decide (key = "") then (w, Ret "")
  else let key := full_key (prefix r) key in
       traced_call r "HGet" key (CHGet key field) None fst (λ _, TStr "") "" t w.
Definition HKeys (r : Redis) (key : string) (t : clock) (w : world V S) : world V S * gores (list string * option goerr) :=
  if bool_decide (key = "") then (w, Ret ([], Some empty_key))
  else let key := full_key (prefix r) key in
       traced_call r "HKeys" key (CHKeys key) None id (λ b, TStrs b.1) ([], None) t w.
(** The channel has no prefix. *)
Definition Publish (r : Redis) (channel : string) (value : V) (t : clock) (w : world V S) : world V S * gores (Z * option goerr) :=
  traced_call r "Publish" channel (CPublish channel value) None id (λ b, int_text b.1) (0, None) t w.
(** What [ReceiveMessage] gives on the one client and on the other; the callbacks made.  After
    a message on the single client the code goes on to the cluster client. *)
Definition Subscribe (r : Redis) (channel : string) (first second : goerr + string) (t : clock) (w : world V S)
    : world V S * (list string * gores unit) :=
  let on_cluster (seen : list string) :=
    if clusterClient r then
      match second with inl _ => (seen, Ret tt) | inr m => (seen ++ [m], Ret tt) end
    else (seen, Panic "nil cluster client") in
  let res := if client r then match first with inl _ => ([], Ret tt) | inr m => on_cluster [m] end
           else on_cluster [] in
  (emit r "Subscribe" channel None None t w, res).
Definition Close (r : Redis) (answer : option goerr) : gores (option goerr) :=
  if client r then Ret answer else Panic "nil client".
(** The text before the first occurrence of [sep] and after it. *)
Fixpoint cut (sep s : string) : option (string * string) :=
  if has_prefix s sep then Some ("", str_drop (String.length sep) s)
  else match s with
       | EmptyString => None
       | String c s => '(a, b) ← cut sep s; Some (String c a, b)
       end.
Definition before (sep s : string) : string := match cut sep s with Some (a, _) => a | None => s end.
(** [strings.Split(s, sep)[1]]: an index out of range panics. *)
Definition second_part (sep s : string) : gores string :=
  match cut sep s with Some (_, b) => Ret (before sep b) | None => Panic "index out of range" end.
Definition Version (info : string) : gores string :=
  match second_part "# Server" info with
  | Panic m => Panic m
  | Ret s => match second_part "redis_version:" s with
             | Panic m => Panic m
             | Ret s => Ret (before "redis_git_sha1:" s)
             end
  end.

(** ** One operation of a wrapper, and histories of them *)
Inductive op :=
  | OSet (k : string) (v : V) (ttl : Z) | OGet (k : string) | OGetStr (k : string) | OTTL (k : string)
  | OExpire (k : string) (ttl : Z) | OExpireAt (k : string) (at_ : Z) | ODelete (k : string) | OIncr (k : string)
  | OHGet (k f : string) | OHSet (k : string) (vs : list V) | OHKeys (k : string) | OHDel (k : string) (fs : list string)
  | ORPush (k : string) (vs : list V) | OHIncrBy (k f : string) (incr : Z) | OPublish (ch : string) (v : V).
Inductive answer :=
  | AErr (e : option goerr) | AOpt (s : option string) | AStr (s : string) | AStrE (a : string * option goerr)
  | AInt (a : Z * option goerr) | ABool (a : bool * option goerr) | AStrs (a : list string * option goerr).
Definition as_answer {B} (f : B → answer) (r : world V S * gores B) : world V S * gores answer :=
  (r.1, match r.2 with Ret b => Ret (f b) | Panic m => Panic m end).
Definition run_op (r : Redis) (o : op) (t : clock) (w : world V S) : world V S * gores answer :=
  match o with
  | OSet k v ttl => as_answer AErr (Set_ r k v ttl t w)
  | OGet k => as_answer AOpt (Get r k t w)
  | OGetStr k => as_answer AStrE (GetStr r k t w)
  | OTTL k => as_answer AInt (TTL r k t w)
  | OExpire k ttl => as_answer ABool (Expire r k ttl t w)
  | OExpireAt k a => as_answer ABool (ExpireAt r k a t w)
  | ODelete k => as_answer AErr (Delete r k t w)
  | OIncr k => as_answer AInt (Incr r k t w)
  | OHGet k f => as_answer AStr (HGet r k f t w)
  | OHSet k vs => as_answer AInt (HSet r k vs t w)
  | OHKeys k => as_answer AStrs (HKeys r k t w)
  | OHDel k fs => as_answer AInt (HDel r k fs t w)
  | ORPush k vs => as_answer AInt (RPush r k vs t w)
  | OHIncrBy k f z => as_answer AInt (HIncrBy r k f z t w)
  | OPublish ch v => as_answer AInt (Publish r ch v t w)
  end.
Definition keyed (o : op) : bool := match o with OPublish _ _ => false | _ => true end.

(** ** Isolation *)
Lemma full_key_prefix p q k l :
  without ":" p = true → without ":" q = true →
  full_key p k = full_key q l → p = q.
Proof.
  unfold full_key, without. revert q. induction p as [|c p IH]; intros [|d q] Hp Hq E; cbn [str_all String.append] in *; [done| | |].
  - injection E as E1 E2. rewrite <-E1 in Hq. done.
  - injection E as E1 E2. rewrite E1 in Hp. done.
  - injection E as E1 E2. apply andb_true_iff in Hp as [_ Hp]. apply andb_true_iff in Hq as [_ Hq].
    subst d. f_equal. by apply IH.
Qed.
(** What was logged of the record at [q]. *)
Definition logged (q : trace_ptr) (w : world V S) : list (trace_ptr * CacheTrace V) :=
  filter (λ e, e.1 = q) (traced w).
(** Two worlds that the wrapper [r] cannot tell apart: its keys are the same, and, when its record is
    its own ([mine]), so are the record and its log. *)
Definition same_for (mine : trace_ptr → Prop) (r : Redis) (w1 w2 : world V S) : Prop :=
  (∀ k, view (single w1) (full_key (prefix r) k) = view (single w2) (full_key (prefix r) k)) ∧
  (∀ q, trace r = Some q → mine q → heap w1 !! q = heap w2 !! q ∧ logged q w1 = logged q w2).
Context {HL : RedisServerLaws V S W}.
Lemma emit_single r n key v ttl t w : single (emit r n key v ttl t w) = single w.
Proof. unfold emit. destruct (trace r ≫= _) as [[p tr]|]; [|done]. destruct (negb _); [done|]. by destruct (_ && _). Qed.
(** The deferred function writes the wrapper's own record only. *)
Lemma emit_frame r n key v ttl t w q :
  trace r ≠ Some q →
  heap (emit r n key v ttl t w) !! q = heap w !! q ∧ logged q (emit r n key v ttl t w) = logged q w.
Proof.
  intros Hq. unfold emit. destruct (trace r) as [p|]; [|done]. cbn [mbind option_bind].
  destruct (heap w !! p) as [tr|]; [|done]. cbn [fmap option_fmap option_map].
  destruct (negb _); [done|]. destruct (_ && _); [done|]. unfold logged. cbn [heap traced].
  rewrite lookup_insert_ne by congruence. split; [done|]. rewrite filter_cons_False; [done|]. cbn. congruence.
Qed.
Lemma emit_same mine r n key v ttl t w1 w2 :
  same_for mine r w1 w2 → same_for mine r (emit r n key v ttl t w1) (emit r n key v ttl t w2).
Proof.
  intros [Hv Ht]. split; [intros k; by rewrite !emit_single|]. intros q Hq Hm.
  destruct (Ht q Hq Hm) as [Hh Hl]. unfold emit. rewrite Hq. cbn [mbind option_bind]. rewrite <-Hh.
  destruct (heap w1 !! q) as [tr|] eqn:E; cbn [fmap option_fmap option_map]; [|by rewrite E].
  destruct (negb _); [by rewrite E|]. destruct (_ && _); [by rewrite E|].
  unfold logged in *. cbn [heap traced]. rewrite !lookup_insert_eq. split; [done|].
  rewrite !filter_cons_True by done. by rewrite Hl.
Qed.
Lemma on_client_same {A} mine r k (c : cmd V A) now w1 w2 :
  client r = true → same_for mine r w1 w2 → cmd_key c = Some (full_key (prefix r) k) →
  (on_client r c now w1).2 = (on_client r c now w2).2 ∧ same_for mine r (on_client r c now w1).1 (on_client r c now w2).1.
Proof.
  intros Hc [Hv Ht] Hk. unfold on_client. rewrite Hc.
  destruct (exec_local c now (single w1) (single w2) _ Hk (Hv k)) as [Ha Hw].
  pose proof (exec_frame c now (single w1)) as F1. pose proof (exec_frame c now (single w2)) as F2.
  destruct (exec c now (single w1)) as [s1 a1], (exec c now (single w2)) as [s2 a2]. cbn in *. subst a2.
  split; [done|]. split; [|exact Ht]. intros l. cbn.
  destruct (decide (full_key (prefix r) l = full_key (prefix r) k)) as [E|Hne]; [by rewrite E|].
  rewrite F1, F2 by congruence. apply Hv.
Qed.
Lemma traced_call_same {A B} mine r k n key (c : cmd V A) ttl (fin : A * option goerr → B) vl z t w1 w2 :
  client r = true → same_for mine r w1 w2 → cmd_key c = Some (full_key (prefix r) k) →
  (traced_call r n key c ttl fin vl z t w1).2 = (traced_call r n key c ttl fin vl z t w2).2 ∧
  same_for mine r (traced_call r n key c ttl fin vl z t w1).1 (traced_call r n key c ttl fin vl z t w2).1.
Proof.
  intros Hc Hs Hk. destruct (on_client_same mine r k c (c_begin t) w1 w2 Hc Hs Hk) as [Ha Hw]. unfold traced_call.
  destruct (on_client r c (c_begin t) w1) as [w1' a], (on_client r c (c_begin t) w2) as [w2' a']. cbn in Ha, Hw. subst a'.
  destruct a; cbn; (split; [done|by apply emit_same]).
Qed.
Lemma run_op_same mine r o t w1 w2 :
  client r = true → same_for mine r w1 w2 → keyed o = true →
  (run_op r o t w1).2 = (run_op r o t w2).2 ∧ same_for mine r (run_op r o t w1).1 (run_op r o t w2).1.
Proof.
  intros Hc Hs Hk.
  destruct o; try done; cbn [run_op]; unfold Set_, Get, GetStr, TTL, Expire, ExpireAt, Delete, Incr, HGet, HSet, HKeys, HDel,
    RPush, HIncrBy, int_call; (case_bool_decide; [by split|]); unfold as_answer.
  all: try (match goal with |- context [traced_call ?r ?n ?key ?c ?ttl ?f ?vl ?z ?t ?w] =>
      destruct (traced_call_same _ _ _ n key c ttl f vl z t _ _ Hc Hs eq_refl) as [-> Hw] end; by split).
  all: match goal with |- context [on_client ?r ?c ?now ?w] =>
      destruct (on_client_same _ _ _ c now _ _ Hc Hs eq_refl) as [Ha Hw] end.
  all: match type of Ha with (on_client ?r ?c ?now ?x).2 = (on_client _ _ _ ?y).2 =>
      destruct (on_client r c now x) as [w1' a], (on_client r c now y) as [w2' a'] end; cbn in *; subst a'; by split.
Qed.
Lemma on_client_frame {A} r (c : cmd V A) now w k :
  client r = true → cmd_key c ≠ Some k →
  view (single (on_client r c now w).1) k = view (single w) k ∧
  heap (on_client r c now w).1 = heap w ∧ traced (on_client r c now w).1 = traced w.
Proof.
  intros Hc Hk. unfold on_client. rewrite Hc. pose proof (exec_frame c now (single w) k Hk) as F.
  destruct (exec c now (single w)) as [s a]. by split.
Qed.
(** What an operation of the wrapper [r] leaves alone: the key [k] and the records it does not
    point to. *)
Definition left_alone (r : Redis) (k : string) (w w' : world V S) : Prop :=
  view (single w') k = view (single w) k ∧
  ∀ q, trace r ≠ Some q → heap w' !! q = heap w !! q ∧ logged q w' = logged q w.
Lemma traced_call_frame {A B} r n key (c : cmd V A) ttl (fin : A * option goerr → B) vl z t w k :
  client r = true → cmd_key c ≠ Some k → left_alone r k w (traced_call r n key c ttl fin vl z t w).1.
Proof.
  intros Hc Hk. destruct (on_client_frame r c (c_begin t) w k Hc Hk) as (Hv & Hh & Ht). unfold traced_call.
  destruct (on_client r c (c_begin t) w) as [w1 a]. cbn in Hv, Hh, Ht.
  destruct a; cbn; (split; [by rewrite emit_single|]); intros q Hq;
    match goal with |- context [emit ?r ?a ?b ?c ?d ?e ?f] => destruct (emit_frame r a b c d e f q Hq) as [-> ->] end;
    unfold logged; by rewrite Hh, Ht.
Qed.
(** An operation leaves the keys that are not under its wrapper's prefix. *)
Lemma run_op_frame r o t w k :
  client r = true → (∀ l, full_key (prefix r) l ≠ k) → left_alone r k w (run_op r o t w).1.
Proof.
  intros Hc Hk. destruct o; cbn [run_op]; unfold Set_, Get, GetStr, TTL, Expire, ExpireAt, Delete, Incr, HGet, HSet, HKeys,
    HDel, RPush, HIncrBy, int_call, Publish; try (case_bool_decide; [by split|]); unfold as_answer.
  all: try (apply traced_call_frame; [done|cbn; (congruence || (intros [= E]; by eapply Hk))]).
  all: match goal with |- context [on_client ?r ?c ?now ?w] =>
      destruct (on_client_frame r c now w k Hc) as (Hv & Hh & Ht); [cbn; intros [= E]; by eapply Hk|];
      destruct (on_client r c now w) as [w1 a] end; cbn in *; unfold left_alone, logged; by rewrite Hh, Ht.
Qed.

(** Two wrappers of one server in one program: each event is an operation of the first or of the
    second.  The answers the first gets, and the world afterwards. *)
Fixpoint run_two (a b : Redis) (es : list (bool * op * clock)) (w : world V S) : list (gores answer) * world V S :=
  match es with
  | [] => ([], w)
  | (true, o, t) :: es =>
      let '(w, r) := run_op a o t w in
      let '(rs, w) := run_two a b es w in (r :: rs, w)
  | (false, o, t) :: es => run_two a b es (run_op b o t w).1
  end.
Definition first_only (es : list (bool * op * clock)) := filter (λ e, e.1.1 = true) es.

(** C20: Isolation by prefix. Two wrappers of the single client of one server, with different
    prefixes that contain no colon, do not see each other's data: whatever the second does in
    between, every keyed call of the first gets the answer, and leaves its keys in the state, that
    it would without the second. When the two do not hold the same trace record, the record of
    the first and all that is logged of it are those it would have alone as well. *)
Theorem prefixes_isolate (a b : Redis) (es : list (bool * op * clock)) (w : world V S) :
  client a = true → client b = true →
  without ":" (prefix a) = true → without ":" (prefix b) = true → prefix a ≠ prefix b →
  Forall (λ e, e.1.1 = true → keyed e.1.2 = true) es →
  let both := run_two a b es w in
  let alone := run_two a b (first_only es) w in
  both.1 = alone.1 ∧
  (∀ k, view (single both.2) (full_key (prefix a) k) = view (single alone.2) (full_key (prefix a) k)) ∧
  (∀ q, trace a = Some q → trace b ≠ Some q →
    heap both.2 !! q = heap alone.2 !! q ∧ logged q both.2 = logged q alone.2).
Proof.
  intros Ha Hb Hpa Hpb Hne Hes. cbv zeta. unfold first_only.
  set (mine := λ q, trace b ≠ Some q).
  assert (∀ w', same_for mine a w w' →
    (run_two a b es w).1 = (run_two a b (filter (λ e, e.1.1 = true) es) w').1 ∧
    same_for mine a (run_two a b es w).2 (run_two a b (filter (λ e, e.1.1 = true) es) w').2) as Hgen;
    [|destruct (Hgen w) as (E & Hk & Ht); [by split|by split_and!]].
  revert w. induction Hes as [|[[[] o] t] es Hk _ IH]; intros w w' Hs; [by split| |].
  - rewrite filter_cons_True by done. cbn [run_two].
    destruct (run_op_same mine a o t w w' Ha Hs (Hk eq_refl)) as [Hr Hw].
    destruct (run_op a o t w) as [w1 r], (run_op a o t w') as [w1' r']. cbn in Hr, Hw. subst r'.
    destruct (IH w1 w1' Hw) as [E1 E2].
    destruct (run_two a b es w1), (run_two a b (filter _ es) w1'). cbn in *. by subst.
  - rewrite filter_cons_False by done. cbn [run_two].
    assert (∀ k, left_alone b (full_key (prefix a) k) w (run_op b o t w).1) as F.
    { intros k. apply run_op_frame; [done|]. intros l E. apply full_key_prefix in E; [congruence|done|done]. }
    apply IH. destruct Hs as [Hv Ht]. split; [intros k; by rewrite (proj1 (F k)), Hv|].
    intros q Hq Hm. destruct (proj2 (F "") q Hm) as [-> ->]. by apply Ht.
Qed.
End cache.

(** ** Clients by name *)
(** The options of the single client that the code looks at; a pointer, so defaults are written
    into the caller's. *)
Record redis_Options := mkOpt {
  Addr : string; DialTimeout : Z; ReadTimeout : Z; WriteTimeout : Z; PoolTimeout : Z; IdleTimeout : Z }.
Definition or_default (d x : Z) : Z := if x =? 0 then d else x.
Definition setDefaultOptions (o : redis_Options) : redis_Options :=
  mkOpt (Addr o) (or_default (2 * Second) (DialTimeout o)) (or_default (3 * Second) (ReadTimeout o))
    (or_default (3 * Second) (WriteTimeout o)) (or_default (4 * Second) (PoolTimeout o))
    (or_default (5 * Second) (IdleTimeout o)).
(** For a cluster the read timeout is looked at twice. *)
Definition setDefaultClusterOptions (o : redis_Options) : redis_Options :=
  let read := or_default (2 * Second) (ReadTimeout o) in
  mkOpt (Addr o) (or_default (2 * Second) (DialTimeout o)) (or_default (2 * Second) read) (WriteTimeout o)
    (or_default (10 * Second) (PoolTimeout o)) (or_default (10 * Second) (IdleTimeout o)).
Lemma cluster_write_timeout_unset o : WriteTimeout o = 0 → WriteTimeout (setDefaultClusterOptions o) = 0.
Proof. done. Qed.

Record redisOptions := mkRedisOptions {
  clientName : string; opt_prefix : string; opt : option redis_Options; opt_trace : option trace_ptr }.
Definition defaultRedisOptions : redisOptions := mkRedisOptions "" "" None None.
Definition RedisOption := redisOptions → redisOptions.
Definition WithClientName (n : string) : RedisOption := λ o, mkRedisOptions n (opt_prefix o) (opt o) (opt_trace o).
Definition WithPrefix (p : string) : RedisOption := λ o, mkRedisOptions (clientName o) p (opt o) (opt_trace o).
Definition WithOptions (c : option redis_Options) : RedisOption := λ o, mkRedisOptions (clientName o) (opt_prefix o) c (opt_trace o).
(** The pointer is copied, not the record. *)
Definition WithTrace (t : option trace_ptr) : RedisOption := λ o, mkRedisOptions (clientName o) (opt_prefix o) (opt o) t.
Abbreviation clients := (gmap string Redis).
(** [ping] is what the server answers to a client with the options. *)
Definition NewRedis (ping : redis_Options → option goerr) (opts : list RedisOption) (reg : clients)
    : gores (option goerr) * clients :=
  let po := foldl (λ o f, f o) defaultRedisOptions opts in
  if bool_decide (clientName po = "") then (Ret (Some (ErrNew "empty client name")), reg)
  else match opt po with
       | None => (Panic "nil options", reg)
       | Some o =>
           if bool_decide (Addr o = "") then (Ret (Some (ErrNew "empty addr")), reg)
           else match ping (setDefaultOptions o) with
                | Some e => (Ret (Some e), reg)
                | None => (Ret None, <[clientName po := mkRedis true false (opt_trace po) (opt_prefix po)]> reg)
                end
       end.
Definition GetRedisClient (name : string) (reg : clients) : option Redis := reg !! name.
Definition GetRedisClusterClient (name : string) (reg : clients) : option Redis := reg !! name.
(** A client that could not be made leaves the names as they are; one that was made is found. *)
Lemma NewRedis_spec ping opts reg :
  let po := foldl (λ o f, f o) defaultRedisOptions opts in
  match (NewRedis ping opts reg).1 with
  | Ret None => ∃ r, client r = true ∧ prefix r = opt_prefix po ∧ trace r = opt_trace po ∧
      (NewRedis ping opts reg).2 = <[clientName po := r]> reg
  | _ => (NewRedis ping opts reg).2 = reg
  end.
Proof.
  cbv zeta. unfold NewRedis. case_bool_decide; [done|]. destruct (opt _) as [o|]; [|done].
  case_bool_decide; [done|]. destruct (ping _); [done|]. cbn. exists (mkRedis true false (opt_trace (foldl (λ o f, f o) defaultRedisOptions opts)) (opt_prefix (foldl (λ o f, f o) defaultRedisOptions opts))). done.
Qed.

(** ** A concrete server *)
(** Strings and hashes with an expiry; a key whose time is over is not there. *)
Inductive mval := MStr (s : string) | MHash (h : gmap string string) | MList (l : list string).
Abbreviation mentry := (option (mval * option Z)).
Definition live (now : Z) (e : mentry) : mentry :=
  match e with Some (v, Some t) => if now <? t then e else None | _ => e end.
Definition wrong_type : option goerr := Some (ErrExt "WRONGTYPE").
Definition as_hash (e : mentry) : option (gmap string string) :=
  match e with None => Some ∅ | Some (MHash h, _) => Some h | _ => None end.
Definition expiry (e : mentry) : option Z := match e with Some (_, t) => t | None => None end.
Definition mem_step {A} (c : cmd string A) (now : Z) (e : mentry) : mentry * (A * option goerr) :=
  let e := live now e in
  match c in cmd _ A return mentry * (A * option goerr) with
  | CSet _ v ttl => (Some (MStr v, if 0 <? ttl then Some (now + ttl) else None), (tt, None))
  | CGet _ => (e, match e with Some (MStr s, _) => (s, None) | Some _ => ("", wrong_type) | None => ("", Some redis_Nil) end)
  | CTTL _ => (e, match e with Some (_, Some t) => (t - now, None) | Some _ => (-1, None) | None => (-2, None) end)
  | CExpire _ ttl => match e with Some (v, _) => (Some (v, Some (now + ttl)), (true, None)) | None => (None, (false, None)) end
  | CExpireAt _ t => match e with Some (v, _) => (Some (v, Some t), (true, None)) | None => (None, (false, None)) end
  | CDel _ => (None, (match e with Some _ => 1 | None => 0 end, None))
  | CIncr _ =>
      match e with
      | None => (Some (MStr "1", None), (1, None))
      | Some (MStr s, t) => match ParseInt s with
                            | Some z => (Some (MStr (FormatInt (z + 1)), t), (z + 1, None))
                            | None => (e, (0, Some (ErrExt "ERR value is not an integer"))) end
      | _ => (e, (0, wrong_type))
      end
  | CHGet _ f => (e, match as_hash e with Some h => match h !! f with Some v => (v, None) | None => ("", Some redis_Nil) end
                                     | None => ("", wrong_type) end)
  | CHSet _ vs =>
      match as_hash e, vs with
      | Some h, [f; v] => (Some (MHash (<[f := v]> h), expiry e), (match h !! f with Some _ => 0 | None => 1 end, None))
      | _, _ => (e, (0, wrong_type))
      end
  | CHKeys _ => (e, match as_hash e with Some h => ((map_to_list h).*1, None) | None => ([], wrong_type) end)
  | CHDel _ fs => match as_hash e with
                  | Some h => (Some (MHash (foldr delete h fs), expiry e), (zlen (filter (λ f, is_Some (h !! f)) fs), None))
                  | None => (e, (0, wrong_type)) end
  | CRPush _ vs => match e with
                   | None => (Some (MList vs, None), (zlen vs, None))
                   | Some (MList l, t) => (Some (MList (l ++ vs), t), (zlen (l ++ vs), None))
                   | _ => (e, (0, wrong_type)) end
  | CHIncrBy _ f z => match as_hash e with
                      | Some h => let n := default 0 (h !! f ≫= ParseInt) + z in
                                  (Some (MHash (<[f := FormatInt n]> h), expiry e), (n, None))
                      | None => (e, (0, wrong_type)) end
  | CPublish _ _ => (e, (0, None))
  end.
Abbreviation mem_redis := (gmap string (mval * option Z)).
#[global] Instance mem_RedisServer : RedisServer string mem_redis mentry := {
  exec A c now s :=
    match cmd_key c with
    | Some k => let r := mem_step c now (s !! k) in (partial_alter (λ _, r.1) k s, r.2)
    | None => (s, (mem_step c now None).2)
    end;
  view s k := s !! k }.
#[global] Instance mem_RedisServerLaws : RedisServerLaws string mem_redis mentry.
Proof.
  split; cbn.
  - intros A c now s k Hk. destruct (cmd_key c) as [k'|]; [|done]. cbn. by rewrite lookup_partial_alter_ne by congruence.
  - intros A c now s1 s2 k Hk Hv. rewrite Hk, Hv. cbn. by rewrite !lookup_partial_alter_eq.
Qed.

Definition tracer : CacheTrace string := mkTrace "" "" "" "" TNil f0 0 100 true true.
Definition wrapper (p : string) (q : trace_ptr) : Redis := mkRedis true false (Some q) p.
(** Two records in memory. *)
Definition fresh_world : world string mem_redis := mkWorld ∅ ∅ {[0%nat := tracer; 1%nat := tracer]} [].
Definition at_ (t : Z) : clock := mkClock t t 1.
Definition two_users : list (bool * op * clock) :=
  [(true, OSet "n" "1" Hour, at_ 0); (false, OSet "n" "7" Hour, at_ 1); (true, OIncr "n", at_ 2);
   (false, OPublish "news" "x", at_ 3); (false, ODelete "n", at_ 4); (true, OGetStr "n", at_ 5)].
Lemma prefixes_isolate_witness :
  (run_two shanghai (wrapper "a" 0) (wrapper "b" 1) two_users fresh_world).1 =
    (run_two shanghai (wrapper "a" 0) (wrapper "b" 1) (first_only two_users) fresh_world).1 ∧
  logged 0 (run_two shanghai (wrapper "a" 0) (wrapper "b" 1) two_users fresh_world).2 =
    logged 0 (run_two shanghai (wrapper "a" 0) (wrapper "b" 1) (first_only two_users) fresh_world).2.
Proof.
  destruct (prefixes_isolate shanghai (wrapper "a" 0) (wrapper "b" 1) two_users fresh_world) as (H1 & _ & H3);
    [reflexivity..|vm_compute; congruence|repeat (apply Forall_cons_2; [done|]); apply Forall_nil_2|].
  split; [exact H1|]. apply (H3 0%nat); [reflexivity|vm_compute; congruence].
Defined.
(** The first user's answers. *)
Example isolated_answers :
  (run_two shanghai (wrapper "a" 0) (wrapper "b" 1) two_users fresh_world).1 =
    [Ret (AErr None); Ret (AInt (2, None)); Ret (AStrE ("2", None))].
Proof. vm_compute. reflexivity. Qed.
(** With a colon in a prefix two wrappers can share a key. *)
Example colon_shares : full_key "a:b" "c" = full_key "a" "b:c".
Proof. reflexivity. Qed.
(** The time to live of the last [Set] stays in the record, and is logged with other commands. *)
Example stale_ttl :
  map (λ e, (CMD e.2, f_trunc (TTL_ e.2)))
    (traced (run_two shanghai (wrapper "a" 0) (wrapper "b" 1)
       [(true, OSet "n" "1" Hour, at_ 0); (true, OGet "n", at_ 1)] fresh_world).2) = [("get", 60); ("set", 60)].
Proof. vm_compute. reflexivity. Qed.
(** Two wrappers that are given one record share it: the time to live of the second's [Set] is
    logged with the first's [Get], and the first alone would log none. *)
Example shared_trace :
  let run es := map (λ e, (CMD e.2, Key e.2, f_trunc (TTL_ e.2)))
    (traced (run_two shanghai (wrapper "a" 0) (wrapper "b" 0) es fresh_world).2) in
  run [(false, OSet "n" "7" Hour, at_ 0); (true, OGet "n", at_ 1)] = [("get", "a:n", 60); ("set", "b:n", 60)] ∧
  run [(true, OGet "n", at_ 1)] = [("get", "a:n", 0)].
Proof. vm_compute. by split. Qed.
(** A single client's subscriber panics after its first message. *)
Example subscribe_panics :
  (Subscribe shanghai (wrapper "a" 0) "c" (inr "m") (inr "x") (at_ 0) fresh_world).2
    = (["m"], Panic "nil cluster client").
Proof. vm_compute. reflexivity. Qed.
