(* ===== verification/Upload.v ===== *)
(** Uploads (pkg/upload, pkg/upload/impl, pkg/miniox): where a file is put in a bucket, the link
    that is returned, and the key that a link is turned back into. *)
From Stdlib Require Import Ascii.
From stdpp Require Import prelude gmap strings list.
From S2P Require Import Prelude GoStrings Digest OldHashes GoTime.

(** ** [strings.ReplaceAll(s, old, "")] *)
Fixpoint remove_from (old : string) (skip : nat) (s : string) : string :=
  match s with
  | EmptyString => ""
  | String c t =>
      match skip with
      | S skip => remove_from old skip t
      | O => if has_prefix s old then remove_from old (String.length old - 1) t
             else String c (remove_from old 0 t)
      end
  end.
Definition remove_all (s old : string) : string := if bool_decide (old = "") then s else remove_from old 0 s.
Lemma remove_from_none old s : Contains s old = false → remove_from old 0 s = s.
Proof.
  induction s as [|c s IH]; [done|]. cbn [Contains remove_from]. intros [-> Hs]%orb_false_iff. by rewrite IH.
Qed.
Lemma remove_from_skip old p s : remove_from old (String.length p) (p +++ s) = remove_from old 0 s.
Proof. induction p as [|c p IH]; [done|]. apply IH. Qed.
(** A link without its base is the key, when the base is not in the key once more. *)
Lemma remove_all_base base k : base ≠ "" → Contains k base = false → remove_all (base +++ k) base = k.
Proof.
  intros Hb Hk. unfold remove_all. rewrite bool_decide_eq_false_2 by done.
  destruct base as [|c base]; [done|]. pose proof (has_prefix_app (String c base) k) as Hp.
  cbn [String.append] in *. cbn [remove_from]. rewrite Hp. cbn [String.length]. rewrite Nat.sub_succ, Nat.sub_0_r.
  rewrite remove_from_skip. by apply remove_from_none.
Qed.

(** ** The vendors' clients *)
(** A bucket: [put] answers an error or the ETag.  What was put is got back, a deleted key is
    gone, and other keys are left alone; [set_acl], [set_tags], [copy] and [sign] are the other
    calls in use. *)
Class Bucket (S : Type) := {
  put : string → string → S → S * (goerr + string);
  get : string → S → goerr + string;
  del : string → S → S * option goerr;
  set_acl : string → S → S * option goerr;
  set_tags : string → gmap string string → S → S * option goerr;
  copy : string → string → string → S → S * option goerr;
  sign : string → Z → S → goerr + string }.
Class BucketLaws (S : Type) `{Bucket S} := {
  put_get k c s tag : (put k c s).2 = inr tag → get k (put k c s).1 = inr c;
  put_other k c s k' : k' ≠ k → get k' (put k c s).1 = get k' s;
  del_gone k s : (del k s).2 = None → ∃ e, get k (del k s).1 = inl e;
  del_other k s k' : k' ≠ k → get k' (del k s).1 = get k' s }.

(** ** The object of a platform *)
(** The fields the platforms' structs have between them; [Ready] says that the client is not nil. *)
Record oss := mkOss {
  ETag : string; FileSize : Z; Catalogue : string; IsTime : bool; Ready : bool;
  bucketName : string; endpoint : string; expires : Z; IsCustomStorage : bool }.
Definition empty_oss : oss := mkOss "" 0 "" false false "" "" 0 false.
Definition with_tag (t : string) (o : oss) : oss :=
  mkOss t (FileSize o) (Catalogue o) (IsTime o) (Ready o) (bucketName o) (endpoint o) (expires o) (IsCustomStorage o).
Definition with_size (n : Z) (o : oss) : oss :=
  mkOss (ETag o) n (Catalogue o) (IsTime o) (Ready o) (bucketName o) (endpoint o) (expires o) (IsCustomStorage o).
Definition SetCatalogue (c : string) (o : oss) : oss :=
  mkOss (ETag o) (FileSize o) c (IsTime o) (Ready o) (bucketName o) (endpoint o) (expires o) (IsCustomStorage o).
Definition SetIsTime (b : bool) (o : oss) : oss :=
  mkOss (ETag o) (FileSize o) (Catalogue o) b (Ready o) (bucketName o) (endpoint o) (expires o) (IsCustomStorage o).
Definition SetCustomStorage (b : bool) (o : oss) : oss :=
  mkOss (ETag o) (FileSize o) (Catalogue o) (IsTime o) (Ready o) (bucketName o) (endpoint o) (expires o) b.
Definition GetETag (o : oss) : string := ETag o.
Definition GetFileSize (o : oss) : Z := FileSize o.

(** ** options.go, upload.go *)
Record OssOptions := mkOpts {
  BucketName : string; Endpoint : string; Region : string; AccessKeyId : string; SecretAccessKey : string;
  Expires : Z; ObjectKey : string; Secure : bool }.
Definition DefaultOssOptions : OssOptions := mkOpts "" "" "" "" "" 0 "" false.
Definition OssOption := OssOptions → OssOptions.
Definition apply_options (opts : list OssOption) : OssOptions := foldl (λ o f, f o) DefaultOssOptions opts.
Definition WithBucketName (b : string) : OssOption := λ o, mkOpts b (Endpoint o) (Region o) (AccessKeyId o) (SecretAccessKey o) (Expires o) (ObjectKey o) (Secure o).
Definition WithEndpoint (e : string) : OssOption := λ o, mkOpts (BucketName o) e (Region o) (AccessKeyId o) (SecretAccessKey o) (Expires o) (ObjectKey o) (Secure o).
Definition WithRegion (r : string) : OssOption := λ o, mkOpts (BucketName o) (Endpoint o) r (AccessKeyId o) (SecretAccessKey o) (Expires o) (ObjectKey o) (Secure o).
Definition WithAccessKeyId (k : string) : OssOption := λ o, mkOpts (BucketName o) (Endpoint o) (Region o) k (SecretAccessKey o) (Expires o) (ObjectKey o) (Secure o).
Definition WithSecretAccessKey (k : string) : OssOption := λ o, mkOpts (BucketName o) (Endpoint o) (Region o) (AccessKeyId o) k (Expires o) (ObjectKey o) (Secure o).
Definition WithExpires (n : Z) : OssOption := λ o, mkOpts (BucketName o) (Endpoint o) (Region o) (AccessKeyId o) (SecretAccessKey o) n (ObjectKey o) (Secure o).
Definition WithObjectKey (k : string) : OssOption := λ o, mkOpts (BucketName o) (Endpoint o) (Region o) (AccessKeyId o) (SecretAccessKey o) (Expires o) k (Secure o).
Definition WithSecure (b : bool) : OssOption := λ o, mkOpts (BucketName o) (Endpoint o) (Region o) (AccessKeyId o) (SecretAccessKey o) (Expires o) (ObjectKey o) b.
(** The factories by platform type. *)
Definition RegisterOss {F} (platformType : string) (factory : F) (p : gmap string F) : gmap string F := <[platformType := factory]> p.
Definition GetPlatform {F A} (run : F → A) (platformType : string) (p : gmap string F) : option A := run <$> p !! platformType.

Definition https : string := "https://".
Definition http : string := "http://".
Definition stripScheme (e : string) : string :=
  if has_prefix e https then trim_prefix e https else if has_prefix e http then trim_prefix e http else e.
Definition parseRegionFromEndpoint (e : string) : string :=
  match Split "." e with
  | p0 :: p1 :: _ :: _ => if bool_decide (p0 = "s3") || bool_decide (p0 = "s3-internal") then p1 else ""
  | _ => ""
  end.
(** [NewClient] of the three platforms; [made] says whether the vendor's client was made. *)
Definition connected (po : OssOptions) (e : string) (o : oss) : oss :=
  mkOss (ETag o) (FileSize o) (Catalogue o) (IsTime o) true (BucketName po) e (Expires po) (IsCustomStorage o).
Definition Aliyun_NewClient (made : bool) (opts : list OssOption) (o : oss) : oss :=
  let po := apply_options opts in if made then connected po (Endpoint po) o else o.
Definition with_endpoint (e : string) (o : oss) : oss :=
  mkOss (ETag o) (FileSize o) (Catalogue o) (IsTime o) (Ready o) (bucketName o) e (expires o) (IsCustomStorage o).
Definition Huawei_NewClient (made : bool) (opts : list OssOption) (o : oss) : oss :=
  let po := apply_options opts in
  let e := stripScheme (Endpoint po) in
  if made then connected po e o else with_endpoint e o.
(** The endpoint the SDK is given, and the region for JD Cloud. *)
Definition sdk_endpoint (e : string) : string := if has_prefix e http || has_prefix e https then e else https +++ e.
Definition JDCloud_region (po : OssOptions) : string :=
  if bool_decide (Region po = "") then parseRegionFromEndpoint (stripScheme (Endpoint po)) else Region po.
Definition JDCloud_NewClient := Huawei_NewClient.

(** ** Keys and links *)
Definition base (o : oss) : string := https +++ bucketName o +++ "." +++ endpoint o +++ "/".
Definition default_catalogue (o : oss) : oss := if bool_decide (Catalogue o = "") then SetCatalogue "audio" o else o.
(** The date is [time.Now().Format] with the layout 2006/01/02. *)
Definition object_key (o : oss) (day fileName : string) : string :=
  if IsCustomStorage o then remove_all fileName (base o)
  else if IsTime o then Catalogue o +++ "/" +++ day +++ "/" +++ fileName
  else Catalogue o +++ "/" +++ fileName.
Definition layout_path : list layout_item := [Y4; Lit "/"; M2; Lit "/"; D2].
Definition today (loc : location) (now : Z) : string := Format loc layout_path now.

(** ** Uploading, downloading, deleting *)
(** The bucket, the local files, and the platform's object. *)
Record up_world (S : Type) := mkUp { store : S; files : gmap string string; obj : oss }.
#[global] Arguments mkUp {S}. #[global] Arguments store {S}. #[global] Arguments files {S}. #[global] Arguments obj {S}.
Definition no_file (path : string) : goerr := ErrExt ("open " +++ path).
Definition bufferSize : nat := 4096.
(** [util.CalculateMD5]: the file is hashed as it is read, buffer by buffer. *)
Definition CalculateMD5 (fs : gmap string string) (path : string) : goerr + (string * Z) :=
  match fs !! path with
  | None => inl (no_file path)
  | Some c => let b := to_bytes c in inr (hex_encode (md5 (concat (chunks (length b) bufferSize b))), zlen b)
  end.

Section platforms.
Context {S : Type} `{Bucket S} (loc : location).
Definition Answer : Type := string * option goerr.
Definition client_nil : goerr := ErrNew "client is nil".
(** After the put: the digest of the local file, if it can still be read. *)
Definition record_md5 (path : string) (w : up_world S) : up_world S :=
  match CalculateMD5 (files w) path with
  | inr (m, n) => mkUp (store w) (files w) (with_size n (with_tag m (obj w)))
  | inl _ => w
  end.
Definition link (o : oss) (key : string) : string := base o +++ key.
(** [UploadFileLocal] of Aliyun, Huawei and JD Cloud: each opens the file and puts it. *)
Definition upload_local (now : Z) (fileName path : string) (w : up_world S) : up_world S * Answer :=
  if negb (Ready (obj w)) then (w, ("", Some client_nil))
  else
    let o := default_catalogue (obj w) in
    let key := object_key o (today loc now) fileName in
    match files w !! path with
    | None => (mkUp (store w) (files w) o, ("", Some (no_file path)))
    | Some c =>
        let '(s, r) := put key c (store w) in
        match r with
        | inl e => (mkUp s (files w) o, ("", Some e))
        | inr _ => (record_md5 path (mkUp s (files w) o), (link o key, None))
        end
    end.
Definition Aliyun_UploadFileLocal := upload_local.
Definition Huawei_UploadFileLocal := upload_local.
Definition JDCloud_UploadFileLocal := upload_local.
(** [strings.Trim] with a double quote. *)
Fixpoint drop_quotes (l : list Z) : list Z :=
  match l with b :: l' => if b =? 34 then drop_quotes l' else l | [] => [] end.
Definition trim_quotes (s : string) : string := of_bytes (reverse (drop_quotes (reverse (drop_quotes (to_bytes s))))).
(** [UploadFileIo] up to the put; [finish] is what is kept of its answer. *)
Definition upload_io (finish : string → oss → oss) (on_error : goerr → option goerr)
    (now : Z) (fileName content : string) (w : up_world S) : up_world S * Answer :=
  if negb (Ready (obj w)) then (w, ("", Some client_nil))
  else
    let o := default_catalogue (obj w) in
    let key := object_key o (today loc now) fileName in
    let '(s, r) := put key content (store w) in
    match r with
    | inl e => (mkUp s (files w) o, ("", on_error e))
    | inr tag => (mkUp s (files w) (finish tag o), (link o key, None))
    end.
(** Aliyun answers no link and no error when the put fails; Huawei keeps the ETag without quotes,
    JD Cloud the size as well. *)
Definition Aliyun_UploadFileIo := upload_io (λ _ o, o) (λ _, None).
Definition Huawei_UploadFileIo := upload_io (λ t, with_tag (trim_quotes t)) Some.
Definition JDCloud_UploadFileIo (now : Z) (fileName content : string) :=
  upload_io (λ t o, with_size (slen content) (with_tag (trim_quotes t) o)) Some now fileName content.
(** [Download]: the folder is made if it is missing (a failure is only logged), then the object is
    written beside it; [write] is how the local file takes it. *)
Definition download (write : option goerr) (fileUrl fileName dataFolder : string) (w : up_world S) : up_world S * option goerr :=
  match get (remove_all fileUrl (base (obj w))) (store w) with
  | inl e => (w, Some e)
  | inr c => match write with
             | Some e => (w, Some e)
             | None => (mkUp (store w) (<[dataFolder +++ fileName := c]> (files w)) (obj w), None)
             end
  end.
Definition Aliyun_Download := download.
Definition Huawei_Download (write : option goerr) (fileUrl fileName dataFolder : string) (w : up_world S) : up_world S * option goerr :=
  if negb (Ready (obj w)) then (w, Some client_nil) else download write fileUrl fileName dataFolder w.
Definition JDCloud_Download := Huawei_Download.
Definition delete_link (path : string) (w : up_world S) : up_world S * option goerr :=
  if negb (Ready (obj w)) then (w, Some client_nil)
  else let '(s, e) := del (remove_all path (base (obj w))) (store w) in (mkUp s (files w) (obj w), e).
Definition Aliyun_Delete := delete_link.
Definition Huawei_Delete := delete_link.
Definition JDCloud_Delete := delete_link.
(** Aliyun hands the link itself on as the key. *)
Definition Aliyun_PutACL (path : string) (w : up_world S) : up_world S * option goerr :=
  let '(s, e) := set_acl path (store w) in (mkUp s (files w) (obj w), e).
Definition Aliyun_SetTagging (path : string) (tags : gmap string string) (w : up_world S) : up_world S * option goerr :=
  let '(s, e) := set_tags path tags (store w) in (mkUp s (files w) (obj w), e).
Definition signed (key : string) (expires : Z) (w : up_world S) : Answer :=
  match sign key expires (store w) with inl e => ("", Some e) | inr u => (u, None) end.
Definition Aliyun_GetPresignedURL (path : string) (w : up_world S) : Answer :=
  signed (remove_all path (base (obj w))) (expires (obj w)) w.
Definition Huawei_GetPresignedURL (path : string) (w : up_world S) : Answer :=
  if negb (Ready (obj w)) then ("", Some client_nil)
  else signed (remove_all path (base (obj w))) (if expires (obj w) <=? 0 then 3600 else expires (obj w)) w.
Definition JDCloud_GetPresignedURL := Huawei_GetPresignedURL.

(** *** Tencent: [endpoint] is the bucket's URL, keys have a slash in front *)
Definition Tencent_NewClient (opts : list OssOption) (o : oss) : oss := connected (apply_options opts) (Endpoint (apply_options opts)) o.
Definition cos_base (o : oss) : string := endpoint o +++ "/".
Definition cos_path (o : oss) (day fileName : string) : string :=
  if IsCustomStorage o then remove_all fileName (cos_base o)
  else if IsTime o then "/" +++ Catalogue o +++ "/" +++ day +++ "/" +++ fileName
  else "/" +++ Catalogue o +++ "/" +++ fileName.
Definition cos_put (key content : string) (o : oss) (w : up_world S) : up_world S * Answer :=
  let '(s, r) := put key content (store w) in
  match r with
  | inl e => (mkUp s (files w) o, ("", Some e))
  | inr tag => (mkUp s (files w) (with_size (slen content) (with_tag (of_bytes (filter (λ b, b ≠ 34) (to_bytes tag))) o)),
                (endpoint o +++ key, None))
  end.
Definition Tencent_UploadFileLocal (now : Z) (fileName path : string) (w : up_world S) : up_world S * Answer :=
  let o := default_catalogue (obj w) in
  match files w !! path with
  | None => (mkUp (store w) (files w) o, ("", Some (no_file path)))
  | Some c => cos_put (cos_path o (today loc now) fileName) c o w
  end.
(** No default catalogue here. *)
Definition Tencent_UploadFileIo (now : Z) (fileName content : string) (w : up_world S) : up_world S * Answer :=
  cos_put (cos_path (obj w) (today loc now) fileName) content (obj w) w.
Definition Tencent_Download (write : option goerr) (fileUrl fileName dataFolder : string) (w : up_world S) : up_world S * option goerr :=
  match get (remove_all fileUrl (cos_base (obj w))) (store w) with
  | inl e => (w, Some e)
  | inr c => match write with
             | Some e => (w, Some e)
             | None => (mkUp (store w) (<[dataFolder +++ fileName := c]> (files w)) (obj w), None)
             end
  end.
Definition on_store (f : S → S * option goerr) (w : up_world S) : up_world S * option goerr :=
  let '(s, e) := f (store w) in (mkUp s (files w) (obj w), e).
Definition Tencent_PutACL (path : string) (w : up_world S) := on_store (set_acl (remove_all path (cos_base (obj w)))) w.
Definition Tencent_SetTagging (path : string) (tags : gmap string string) (w : up_world S) :=
  on_store (set_tags (remove_all path (cos_base (obj w))) tags) w.
Definition Tencent_CopySelf (path storageClass : string) (w : up_world S) :=
  let key := remove_all path (cos_base (obj w)) in
  on_store (copy key (trim_prefix (trim_prefix (endpoint (obj w)) https) http +++ "/" +++ key) storageClass) w.
Definition Tencent_Delete (path : string) (w : up_world S) : up_world S * option goerr :=
  if negb (Ready (obj w)) then (w, Some client_nil) else on_store (del (remove_all path (cos_base (obj w)))) w.
Definition Tencent_GetPresignedURL (path : string) (w : up_world S) : Answer :=
  signed (remove_all path (cos_base (obj w))) (expires (obj w)) w.

(** *** VolcEngine: [endpoint] holds the configured object key *)
Definition Volc_NewClient (made : bool) (opts : list OssOption) (o : oss) : oss :=
  if made then connected (apply_options opts) (ObjectKey (apply_options opts)) o else o.
Definition tos_path (o : oss) (fileName : string) : string := endpoint o +++ "/" +++ Catalogue o +++ "/" +++ fileName.
Definition tos_base (o : oss) : string := "voldtos://" +++ bucketName o +++ "/".
(** The put's error is not looked at: its output is nil then, and reading its ETag panics. *)
Definition Volc_UploadFileLocal (fileName path : string) (w : up_world S) : up_world S * gores Answer :=
  if negb (Ready (obj w)) then (w, Ret ("", Some client_nil))
  else match files w !! path with
       | None => (w, Ret ("", Some (no_file path)))
       | Some c =>
           let '(s, r) := put (tos_path (obj w) fileName) c (store w) in
           match r with
           | inl _ => (mkUp s (files w) (obj w), Panic "nil output")
           | inr tag => (mkUp s (files w) (with_size (slen c) (with_tag tag (obj w))),
                         Ret (tos_base (obj w) +++ tos_path (obj w) fileName, None))
           end
       end.
Definition Volc_UploadFileIo (fileName content : string) (w : up_world S) : up_world S * Answer :=
  if negb (Ready (obj w)) then (w, ("", Some client_nil))
  else let '(s, r) := put (tos_path (obj w) fileName) content (store w) in
       (mkUp s (files w) (obj w),
        match r with inl e => ("", Some e) | inr _ => (tos_base (obj w) +++ tos_path (obj w) fileName, None) end).
Definition Volc_Delete (path : string) (w : up_world S) : up_world S * option goerr :=
  if negb (Ready (obj w)) then (w, Some client_nil) else on_store (del (trim_prefix path (tos_base (obj w)))) w.

(** *** What each platform promises: the link leads back to the object *)
Context {HL : BucketLaws S}.
(** A put under a key followed by a removal of it. *)
Lemma put_del k c (s0 s1 s2 : S) tag :
  put k c s0 = (s1, inr tag) → del k s1 = (s2, None) →
  get k s1 = inr c ∧ (∃ e, get k s2 = inl e) ∧ ∀ k', k' ≠ k → get k' s1 = get k' s0 ∧ get k' s2 = get k' s0.
Proof.
  intros Hp Hd. pose proof (put_get k c s0) as Hg. rewrite Hp in Hg. specialize (Hg tag eq_refl).
  pose proof (del_gone k s1) as Hx. rewrite Hd in Hx. split_and!; [done|by apply Hx|].
  intros k' Hk. pose proof (put_other k c s0 k' Hk) as Ho. rewrite Hp in Ho.
  pose proof (del_other k s1 k' Hk) as Hq. rewrite Hd in Hq. cbn in *. split; congruence.
Qed.
(** The platforms with links of the form https://bucket.endpoint/key. *)
Inductive platform := Aliyun | Huawei | JDCloud.
Inductive upload_call := FileLocal (path : string) | FileIo (content : string).
Definition Upload (p : platform) (now : Z) (fileName : string) (u : upload_call) : up_world S → up_world S * Answer :=
  match p, u with
  | Aliyun, FileLocal f => Aliyun_UploadFileLocal now fileName f
  | Huawei, FileLocal f => Huawei_UploadFileLocal now fileName f
  | JDCloud, FileLocal f => JDCloud_UploadFileLocal now fileName f
  | Aliyun, FileIo c => Aliyun_UploadFileIo now fileName c
  | Huawei, FileIo c => Huawei_UploadFileIo now fileName c
  | JDCloud, FileIo c => JDCloud_UploadFileIo now fileName c
  end.
Definition Download (p : platform) := match p with Aliyun => Aliyun_Download | Huawei => Huawei_Download | JDCloud => JDCloud_Download end.
Definition Delete (p : platform) := match p with Aliyun => Aliyun_Delete | Huawei => Huawei_Delete | JDCloud => JDCloud_Delete end.
Definition content_of (u : upload_call) (w : up_world S) : option string :=
  match u with FileLocal f => files w !! f | FileIo c => Some c end.
(** An upload that answers a link has put the content under the key the link is made of. *)
Lemma upload_put p now fileName u w w1 url :
  Upload p now fileName u w = (w1, (url, None)) → url ≠ "" →
  Ready (obj w) = true ∧ files w1 = files w ∧ base (obj w1) = base (obj w) ∧ Ready (obj w1) = true ∧
  let key := object_key (default_catalogue (obj w)) (today loc now) fileName in
  url = base (obj w) +++ key ∧ ∃ c tag, content_of u w = Some c ∧ put key c (store w) = (store w1, inr tag).
Proof.
  intros Hu Hne. assert (∀ o, base (default_catalogue o) = base o ∧ Ready (default_catalogue o) = Ready o) as Hd.
  { intros o. unfold default_catalogue. by case_bool_decide. }
  destruct (Hd (obj w)) as [Hb Hr].
  assert (∀ f g, (∀ t o, base (f t o) = base o ∧ Ready (f t o) = Ready o) → (∀ c, u = FileIo c →
    upload_io f g now fileName c w = (w1, (url, None)) → Ready (obj w) = true ∧ files w1 = files w ∧ base (obj w1) = base (obj w) ∧
    Ready (obj w1) = true ∧ let key := object_key (default_catalogue (obj w)) (today loc now) fileName in
    url = base (obj w) +++ key ∧ ∃ c tag, content_of u w = Some c ∧ put key c (store w) = (store w1, inr tag))) as Hio.
  { intros f g Hf c -> E. unfold upload_io in E. destruct (Ready (obj w)) eqn:Er; [|done]. cbn [negb] in E. cbv zeta in *.
    destruct (put _ c (store w)) as [s [e|tag]] eqn:Ep; injection E as <- <-; [done|]. cbn [files store obj content_of].
    destruct (Hf tag (default_catalogue (obj w))) as [-> ->]. rewrite Hb, Hr. unfold link. rewrite Hb. split_and!; try done. by exists c, tag. }
  destruct u as [path|c].
  - assert (upload_local now fileName path w = (w1, (url, None))) as E by (by destruct p). clear Hu Hio. unfold upload_local in E.
    destruct (Ready (obj w)) eqn:Er; [|done]. cbn [negb] in E. cbv zeta in *.
    destruct (files w !! path) as [c|] eqn:Ef; [|done].
    destruct (put _ c (store w)) as [s [e|tag]] eqn:Ep; [done|]. injection E as <- <-.
    unfold record_md5. cbn [files store obj]. unfold link. rewrite Hb.
    destruct (CalculateMD5 (files w) path) as [e|[m n]]; cbn [files store obj];
      rewrite ?Hb, ?Hr; (split_and!; [done|done|done|done|done|by exists c, tag]).
  - destruct p; (eapply Hio; [|done|exact Hu]); done.
Qed.

(** C32: Links. On Aliyun, Huawei and JD Cloud, if an upload answers a link, then the object is
    there with the content of the upload, a download of the link writes that content, and a
    successful deletion of the link removes that object and touches no other.  The base of the
    links must not occur in the object's key. *)
Theorem link_leads_back (p : platform) (now : Z) (fileName : string) (u : upload_call) (w w1 : up_world S) (url : string) :
  Upload p now fileName u w = (w1, (url, None)) → url ≠ "" →
  Contains (object_key (default_catalogue (obj w)) (today loc now) fileName) (base (obj w)) = false →
  ∃ key c, content_of u w = Some c ∧ get key (store w1) = inr c ∧
    (∀ file folder, files (Download p None url file folder w1).1 = <[folder +++ file := c]> (files w)) ∧
    ∀ w2, Delete p url w1 = (w2, None) →
      (∃ e, get key (store w2) = inl e) ∧ ∀ k, k ≠ key → get k (store w2) = get k (store w).
Proof.
  intros Hu Hne Hocc. destruct (upload_put p now fileName u w w1 url Hu Hne) as (Hr & Hf & Hb & Hr1 & -> & c & tag & Hc & Hp).
  set (key := object_key (default_catalogue (obj w)) (today loc now) fileName) in *.
  assert (remove_all (base (obj w) +++ key) (base (obj w1)) = key) as Hk.
  { rewrite Hb. by apply remove_all_base. }
  pose proof (put_get key c (store w)) as Hg. rewrite Hp in Hg. specialize (Hg tag eq_refl). cbn in Hg.
  exists key, c. split_and!; [done|done| |].
  - intros file folder. assert (Download p None (base (obj w) +++ key) file folder w1 = download None (base (obj w) +++ key) file folder w1) as ->.
    { destruct p; unfold Download, JDCloud_Download, Huawei_Download; [done|by rewrite Hr1..]. }
    unfold download. rewrite Hk, Hg. cbn. by rewrite Hf.
  - intros w2 Hd. assert (delete_link (base (obj w) +++ key) w1 = (w2, None)) as E by (by destruct p). unfold delete_link in E.
    rewrite Hr1, Hk in E. cbn [negb] in E. destruct (del key (store w1)) as [s e] eqn:Ed. injection E as <- ->. cbn.
    destruct (put_del key c _ _ _ tag Hp Ed) as (_ & He & Ho). split; [done|]. intros k Hne'. by apply Ho.
Qed.
End platforms.

(** ** miniox.go and impl/minio.go *)
(** The client is its scheme and host, or nil. *)
Record MinioX := mkMinioX {
  mx_client : option string; mx_bucket : string; Module_ : string; ObjectSize : Z; mx_Expires : Z; mx_ETag : string }.
Definition site (x : MinioX) : string := default "" (mx_client x).
Definition with_module (m : string) (x : MinioX) : MinioX := mkMinioX (mx_client x) (mx_bucket x) m (ObjectSize x) (mx_Expires x) (mx_ETag x).
Definition with_info (n : Z) (t : string) (x : MinioX) : MinioX := mkMinioX (mx_client x) (mx_bucket x) (Module_ x) n (mx_Expires x) t.
Definition mx_base (x : MinioX) : string := site x +++ "/" +++ mx_bucket x +++ "/".
Definition mx_nil : goerr := ErrNew "miniox client is nil".
(** A call that reads the client's URL without looking whether there is a client. *)
Definition on_site {A} (x : MinioX) (f : A) : gores A :=
  match mx_client x with None => Panic "nil pointer dereference" | Some _ => Ret f end.
Section minio.
Context {S : Type} `{Bucket S} (loc : location).
Definition UploadFile (objectName path : string) (fs : gmap string string) (x : MinioX) (s : S) : S * MinioX * Answer :=
  if bool_decide (mx_client x = None) then (s, x, ("", Some mx_nil))
  else match fs !! path with
  | None => (s, x, ("", Some (no_file path)))
  | Some c =>
      let '(s, r) := put (Module_ x +++ objectName) c s in
      match r with
      | inl e => (s, x, ("", Some e))
      | inr tag => (s, with_info (slen c) tag x, (mx_base x +++ Module_ x +++ objectName, None))
      end
  end.
(** The link of a stream has no slash after the bucket. *)
Definition MinioX_Upload (objectName content : string) (x : MinioX) (s : S) : S * MinioX * Answer :=
  if bool_decide (mx_client x = None) then (s, x, ("", Some mx_nil))
  else
  let '(s, r) := put (Module_ x +++ objectName) content s in
  match r with
  | inl e => (s, x, ("", Some e))
  | inr tag => (s, with_info (slen content) tag x, (site x +++ "/" +++ mx_bucket x +++ Module_ x +++ objectName, None))
  end.
Definition DownloadFile (fileUrl : string) (x : MinioX) (s : S) : gores (goerr + string) :=
  on_site x (get (remove_all fileUrl (mx_base x)) s).
(** [None] is the nil object; the bucket stays in the name. *)
Definition GetObject (fileUrl : string) (x : MinioX) (s : S) : gores (option string) :=
  on_site x match get (remove_all fileUrl (site x)) s with inl _ => None | inr c => Some c end.
(** [presign] answers the path of the signed link, which has its signature in the query. *)
Definition GetObjectUrl (presign : string → goerr + (string * string)) (objectName : string) (x : MinioX) : gores Answer :=
  on_site x match presign (Module_ x +++ objectName) with inl e => ("", Some e) | inr (path, _) => (site x +++ path, None) end.
Definition DeleteObject (fileUrl : string) (x : MinioX) (s : S) : S * option goerr :=
  if bool_decide (mx_client x = None) then (s, Some mx_nil) else del (remove_all fileUrl (mx_base x)) s.
Definition MinioX_GetPresignedURL (presign : string → goerr + (string * string)) (fileUrl : string) (x : MinioX) : gores Answer :=
  GetObjectUrl presign (remove_all fileUrl (mx_base x)) x.

(** The platform's object over it: [Catalogue] is written back with the date in it. *)
Record mworld := mkMw { m_store : S; m_files : gmap string string; m_obj : oss; m_client : option MinioX }.
Definition dated (front : string) (now : Z) (o : oss) : oss :=
  let o := default_catalogue o in
  if IsTime o then SetCatalogue (front +++ Catalogue o +++ "/" +++ today loc now +++ "/") o else o.
Definition finish_minio (w : mworld) (o : oss) (r : S * MinioX * Answer) : mworld * Answer :=
  let '(s, x, a) := r in
  match a.2 with
  | Some e => (mkMw s (m_files w) o (Some x), ("", Some e))
  | None => (mkMw s (m_files w) (with_size (ObjectSize x) (with_tag (mx_ETag x) o)) (Some x), a)
  end.
Definition Minio_UploadFileLocal (now : Z) (fileName path : string) (w : mworld) : mworld * Answer :=
  match m_client w with
  | None => (w, ("", Some client_nil))
  | Some x => let o := dated "" now (m_obj w) in
              finish_minio w o (UploadFile fileName path (m_files w) (with_module (Catalogue o) x) (m_store w))
  end.
Definition Minio_UploadFileIo (now : Z) (fileName content : string) (w : mworld) : mworld * Answer :=
  match m_client w with
  | None => (w, ("", Some client_nil))
  | Some x => let o := dated "/" now (m_obj w) in
              finish_minio w o (MinioX_Upload fileName content (with_module (Catalogue o) x) (m_store w))
  end.
Definition Minio_Delete (path : string) (w : mworld) : mworld * option goerr :=
  match m_client w with
  | None => (w, Some client_nil)
  | Some x => let '(s, e) := DeleteObject path x (m_store w) in (mkMw s (m_files w) (m_obj w) (m_client w), e)
  end.
(** The link of a local file leads back to its object. *)
Lemma minio_link (HL : BucketLaws S) objectName path fs x (s s1 : S) x1 url :
  UploadFile objectName path fs x s = (s1, x1, (url, None)) →
  Contains (Module_ x +++ objectName) (mx_base x) = false →
  ∃ c, fs !! path = Some c ∧ DownloadFile url x1 s1 = Ret (inr c).
Proof.
  unfold UploadFile, DownloadFile, on_site. case_bool_decide as Hn; [done|]. destruct (fs !! path) as [c|]; [|done].
  destruct (put _ c s) as [s' [e|tag]] eqn:Ep; [done|]. intros [= -> <- <-] Hocc. exists c. split; [done|].
  assert (mx_base x ≠ "") as Hne by (unfold mx_base; by destruct (site x)).
  change (mx_client (with_info (slen c) tag x)) with (mx_client x).
  destruct (mx_client x) eqn:Ec; [|done]. f_equal.
  change (mx_base (with_info (slen c) tag x)) with (mx_base x). rewrite remove_all_base by done.
  pose proof (put_get (Module_ x +++ objectName) c s tag) as Hg. rewrite Ep in Hg. by apply Hg.
Qed.
End minio.

(** ** A concrete bucket *)
Abbreviation mem_bucket := (gmap string string).
#[global] Instance mem_Bucket : Bucket mem_bucket := {
  put k c s := (<[k := c]> s, inr "tag");
  get k s := match s !! k with Some c => inr c | None => inl (ErrExt "NoSuchKey") end;
  del k s := (delete k s, None);
  set_acl _ s := (s, None);
  set_tags _ _ s := (s, None);
  copy _ _ _ s := (s, None);
  sign k _ _ := inr (k +++ "?signature") }.
#[global] Instance mem_BucketLaws : BucketLaws mem_bucket.
Proof.
  split; cbn.
  - intros k c s tag _. by rewrite lookup_insert_eq.
  - intros k c s k' Hk. by rewrite lookup_insert_ne by done.
  - intros k s _. exists (ErrExt "NoSuchKey"). by rewrite lookup_delete_eq.
  - intros k s k' Hk. by rewrite lookup_delete_ne by done.
Qed.
Definition utc : location := λ _, 0.
Definition some_bucket : oss := Aliyun_NewClient true [WithBucketName "b"; WithEndpoint "oss.example.com"] empty_oss.
Definition some_world : up_world mem_bucket := mkUp {["old" := "x"]} {["/tmp/f" := "data"]} some_bucket.
Lemma link_leads_back_witness :
  let w1 := (Upload utc Aliyun 0 "a.mp3" (FileLocal "/tmp/f") some_world).1 in
  let url := "https://b.oss.example.com/audio/a.mp3" in
  ∃ key c, content_of (FileLocal "/tmp/f") some_world = Some c ∧ get key (store w1) = inr c ∧
    (∀ file folder, files (Download Aliyun None url file folder w1).1 = <[folder +++ file := c]> (files some_world)) ∧
    ∀ w2, Delete Aliyun url w1 = (w2, None) →
      (∃ e, get key (store w2) = inl e) ∧ ∀ k, k ≠ key → get k (store w2) = get k (store some_world).
Proof. eapply (link_leads_back utc Aliyun 0 "a.mp3" (FileLocal "/tmp/f") some_world); [reflexivity|done|reflexivity]. Defined.

(** Deleting the link of a stream uploaded to MinIO deletes nothing. *)
Definition minio_world : mworld := mkMw (∅ : mem_bucket) ∅ empty_oss (Some (mkMinioX (Some "http://h") "b" "" 0 60 "")).
Example minio_stream_stays :
  let '(w1, (url, _)) := Minio_UploadFileIo utc 0 "a" "data" minio_world in
  (url, m_store (Minio_Delete url w1).1 !! "audioa") = ("http://h/baudioa", Some "data").
Proof. vm_compute. reflexivity. Qed.
(** The date is put into the catalogue again at every upload. *)
Example minio_dates_nest :
  let w := mkMw (∅ : mem_bucket) {["f" := "x"]} (SetIsTime true empty_oss) (Some (mkMinioX (Some "http://h") "b" "" 0 60 "")) in
  let '(w, _) := Minio_UploadFileLocal utc 0 "a" "f" w in
  (Minio_UploadFileLocal utc 0 "b" "f" w).2 = ("http://h/b/audio/1970/01/01//1970/01/01/b", None).
Proof. vm_compute. reflexivity. Qed.
(** A presigned link loses its signature, and has the catalogue twice. *)
Example minio_presigned :
  MinioX_GetPresignedURL (λ k, inr ("/b/" +++ k, "X-Amz-Signature=s")) "http://h/b/audio/a"
    (mkMinioX (Some "http://h") "b" "audio/" 0 60 "") = Ret ("http://h/b/audio/audio/a", None).
Proof. vm_compute. reflexivity. Qed.
(** With custom storage Tencent's link has no slash between the bucket's URL and the key. *)
Example tencent_custom_link :
  let o := SetCustomStorage true (Tencent_NewClient [WithEndpoint "https://c"] empty_oss) in
  (Tencent_UploadFileIo utc 0 "https://c/audio/a" "x" (mkUp (∅ : mem_bucket) ∅ o)).2 = ("https://caudio/a", None).
Proof. vm_compute. reflexivity. Qed.
(** A failed put: Aliyun's stream upload answers neither a link nor an error, VolcEngine's panics. *)
Lemma aliyun_swallows_error {S} `{Bucket S} loc now name content (w : up_world S) :
  (∀ k c s, ∃ e, (put k c s).2 = inl e) → Ready (obj w) = true →
  (Aliyun_UploadFileIo loc now name content w).2 = ("", None).
Proof.
  intros Hp Hr. unfold Aliyun_UploadFileIo, upload_io. rewrite Hr. cbn [negb]. cbv zeta.
  match goal with |- context [put ?k ?c ?s] => destruct (Hp k c s) as [e He]; destruct (put k c s) as [s' r] end.
  cbn in He. by subst r.
Qed.
Lemma volc_panics {S} `{Bucket S} name path c (w : up_world S) :
  (∀ k c s, ∃ e, (put k c s).2 = inl e) → Ready (obj w) = true → files w !! path = Some c →
  (Volc_UploadFileLocal name path w).2 = Panic "nil output".
Proof.
  intros Hp Hr Hf. unfold Volc_UploadFileLocal. rewrite Hr, Hf. cbn [negb].
  match goal with |- context [put ?k ?c ?s] => destruct (Hp k c s) as [e He]; destruct (put k c s) as [s' r] end.
  cbn in He. by subst r.
Qed.
