(* ===== verification/UploadPlatforms.v ===== *)
(** The interface of an object store and the platforms that implement it (pkg/upload/upload.go,
    pkg/upload/impl, pkg/miniox): how each makes its client, the registry by name, and every
    method of the six objects as an instance of [Oss], over the operations of Upload.v. *)
From Stdlib Require Import Ascii.
From stdpp Require Import prelude gmap strings list.
From S2P Require Import Prelude GoStrings GoTime Upload.

(** ** miniox/options.go *)
Record minioOptions := mkMinioOpts {
  mo_BucketName : string; mo_Endpoint : string; mo_AccessKeyId : string; mo_SecretAccessKey : string;
  mo_Module : string; mo_Expires : Z; mo_Secure : bool }.
Definition defaultS3Options : minioOptions := mkMinioOpts "" "" "" "" "" 0 false.
Definition MinioOption : Type := minioOptions → minioOptions.
Definition mo_WithBucketName (b : string) : MinioOption := λ o,
  mkMinioOpts b (mo_Endpoint o) (mo_AccessKeyId o) (mo_SecretAccessKey o) (mo_Module o) (mo_Expires o) (mo_Secure o).
Definition mo_WithEndpoint (e : string) : MinioOption := λ o,
  mkMinioOpts (mo_BucketName o) e (mo_AccessKeyId o) (mo_SecretAccessKey o) (mo_Module o) (mo_Expires o) (mo_Secure o).
Definition mo_WithAccessKeyId (k : string) : MinioOption := λ o,
  mkMinioOpts (mo_BucketName o) (mo_Endpoint o) k (mo_SecretAccessKey o) (mo_Module o) (mo_Expires o) (mo_Secure o).
Definition mo_WithSecretAccessKey (k : string) : MinioOption := λ o,
  mkMinioOpts (mo_BucketName o) (mo_Endpoint o) (mo_AccessKeyId o) k (mo_Module o) (mo_Expires o) (mo_Secure o).
Definition mo_WithModule (m : string) : MinioOption := λ o,
  mkMinioOpts (mo_BucketName o) (mo_Endpoint o) (mo_AccessKeyId o) (mo_SecretAccessKey o) m (mo_Expires o) (mo_Secure o).
Definition mo_WithExpires (n : Z) : MinioOption := λ o,
  mkMinioOpts (mo_BucketName o) (mo_Endpoint o) (mo_AccessKeyId o) (mo_SecretAccessKey o) (mo_Module o) n (mo_Secure o).
Definition mo_WithSecure (b : bool) : MinioOption := λ o,
  mkMinioOpts (mo_BucketName o) (mo_Endpoint o) (mo_AccessKeyId o) (mo_SecretAccessKey o) (mo_Module o) (mo_Expires o) b.

(** ** The vendors' constructors *)
(** What each SDK answers to its arguments, in their order; only MinIO's client is looked into. *)
Record sdks := mkSdks {
  oss_New : string → string → string → option goerr;
  client_Bucket : string → option goerr;
  obs_New : string → string → string → option goerr;
  credentials_Get : string → string → option goerr;
  session_New : string → string → option goerr;
  tos_NewClientV2 : string → string → string → string → option goerr;
  minio_New : string → string → string → bool → goerr + string }.
Section clients.
Context (sdk : sdks).
Definition NewBucket (endpoint accessKeyId accessKeySecret bucket : string) : option goerr :=
  match oss_New sdk endpoint accessKeyId accessKeySecret with
  | Some e => Some e
  | None => client_Bucket sdk bucket
  end.
Definition NewClientV2 (endpoint accessKey secretKey region : string) : option goerr :=
  tos_NewClientV2 sdk endpoint region accessKey secretKey.
Definition initMinioX (endpoint accessKeyId secretAccessKey : string) (secure : bool) : option string :=
  match minio_New sdk endpoint accessKeyId secretAccessKey secure with inl _ => None | inr site => Some site end.
Definition NewMinioX (opts : list MinioOption) : MinioX :=
  let po := foldl (λ o f, f o) defaultS3Options opts in
  mkMinioX (initMinioX (mo_Endpoint po) (mo_AccessKeyId po) (mo_SecretAccessKey po) (mo_Secure po))
    (mo_BucketName po) (mo_Module po) 0 (mo_Expires po) "".
Definition is_made (e : option goerr) : bool := match e with None => true | Some _ => false end.
Definition Aliyun_made (po : OssOptions) : bool :=
  is_made (NewBucket (Endpoint po) (AccessKeyId po) (SecretAccessKey po) (BucketName po)).
Definition Huawei_made (po : OssOptions) : bool :=
  is_made (obs_New sdk (AccessKeyId po) (SecretAccessKey po) (sdk_endpoint (Endpoint po))).
Definition JDCloud_made (po : OssOptions) : bool :=
  match credentials_Get sdk (AccessKeyId po) (SecretAccessKey po) with
  | Some _ => false
  | None => is_made (session_New sdk (JDCloud_region po) (stripScheme (Endpoint po)))
  end.
(** The bucket's name is passed for the region. *)
Definition Volc_made (po : OssOptions) : bool :=
  is_made (NewClientV2 (Endpoint po) (AccessKeyId po) (SecretAccessKey po) (BucketName po)).
Definition Minio_client (po : OssOptions) : MinioX :=
  NewMinioX [mo_WithBucketName (BucketName po); mo_WithAccessKeyId (AccessKeyId po);
             mo_WithSecretAccessKey (SecretAccessKey po); mo_WithEndpoint (Endpoint po);
             mo_WithSecure (Secure po); mo_WithExpires (Expires po)].
End clients.

(** ** The interface *)
Abbreviation Maybe := (gores (option goerr)).
Record Oss (W : Type) := mkPlatform {
  oss_NewClient : list OssOption → W → W;
  oss_UploadFileLocal : Z → string → string → W → W * gores Answer;
  oss_UploadFileIo : Z → string → string → W → W * gores Answer;
  oss_GetETag : W → string;
  oss_GetFileSize : W → Z;
  oss_Download : option goerr → string → string → string → W → W * Maybe;
  oss_PutACL : string → W → W * Maybe;
  oss_SetCatalogue : string → W → W;
  oss_SetIsTime : bool → W → W;
  oss_SetTagging : string → gmap string string → W → W * Maybe;
  oss_SetCustomStorage : bool → W → W;
  oss_GetPresignedURL : string → W → gores Answer;
  oss_CopySelf : string → string → W → W * Maybe;
  oss_Delete : string → W → W * Maybe }.
Arguments oss_NewClient {W} _.
Arguments oss_UploadFileLocal {W} _.
Arguments oss_Delete {W} _.
Arguments oss_Download {W} _.
Arguments oss_CopySelf {W} _.
Section platforms.
Context {S : Type} `{Bucket S} (sdk : sdks) (loc : location) (presign : string → goerr + (string * string)).
Abbreviation world := (mworld (S := S)).
Definition as_up (w : world) : up_world S := mkUp (m_store w) (m_files w) (m_obj w).
Definition from_up (w : world) (u : up_world S) : world := mkMw (store u) (files u) (obj u) (m_client w).
Definition on_obj (f : oss → oss) (w : world) : world := mkMw (m_store w) (m_files w) (f (m_obj w)) (m_client w).
(** A method of Upload.v, and one that uses the vendor's client without looking whether it is nil. *)
Definition via {A} (f : up_world S → up_world S * A) (w : world) : world * gores A :=
  let '(u, a) := f (as_up w) in (from_up w u, Ret a).
Definition via_client {A} (f : up_world S → up_world S * A) (w : world) : world * gores A :=
  if Ready (m_obj w) then via f w else (w, Panic "nil pointer dereference").
Definition read_client {A} (f : up_world S → A) (w : world) : gores A :=
  if Ready (m_obj w) then Ret (f (as_up w)) else Panic "nil pointer dereference".
(** A method that answers nil at once. *)
Definition no_op (w : world) : world * Maybe := (w, Ret None).
Definition Volc_local (fileName path : string) (w : world) : world * gores Answer :=
  let '(u, a) := Volc_UploadFileLocal fileName path (as_up w) in (from_up w u, a).
(** Tencent's local upload sets the catalogue before it uses the client. *)
Definition Tencent_local (now : Z) (fileName path : string) (w : world) : world * gores Answer :=
  if Ready (m_obj w) then via (Tencent_UploadFileLocal loc now fileName path) w
  else (on_obj default_catalogue w, Panic "nil pointer dereference").
Definition Minio_NewClient (opts : list OssOption) (w : world) : world :=
  mkMw (m_store w) (m_files w) (m_obj w) (Some (Minio_client sdk (apply_options opts))).
Definition plain {A} (r : world * A) : world * gores A := (r.1, Ret r.2).
Definition Minio_Download (write : option goerr) (fileUrl fileName dataFolder : string) (w : world) : world * Maybe :=
  match m_client w with
  | None => (w, Panic "nil pointer dereference")
  | Some x =>
      match DownloadFile fileUrl x (m_store w) with
      | Panic m => (w, Panic m)
      | Ret (inl e) => (w, Ret (Some e))
      | Ret (inr c) =>
          match write with
          | Some e => (w, Ret (Some e))
          | None => (mkMw (m_store w) (<[dataFolder +++ fileName := c]> (m_files w)) (m_obj w) (m_client w), Ret None)
          end
      end
  end.
Definition Minio_GetPresignedURL (path : string) (w : world) : gores Answer :=
  match m_client w with
  | None => Panic "nil pointer dereference"
  | Some x => MinioX_GetPresignedURL presign path x
  end.

(** ** The six objects *)
Definition AliyunOss : Oss world := {|
  oss_NewClient opts w := on_obj (Aliyun_NewClient (Aliyun_made sdk (apply_options opts)) opts) w;
  oss_UploadFileLocal now name path := via (Aliyun_UploadFileLocal loc now name path);
  oss_UploadFileIo now name content := via (Aliyun_UploadFileIo loc now name content);
  oss_GetETag w := GetETag (m_obj w);
  oss_GetFileSize w := GetFileSize (m_obj w);
  oss_Download write url name folder := via_client (Aliyun_Download write url name folder);
  oss_PutACL path := via_client (Aliyun_PutACL path);
  oss_SetCatalogue c := on_obj (SetCatalogue c);
  oss_SetIsTime b := on_obj (SetIsTime b);
  oss_SetTagging path tags := via_client (Aliyun_SetTagging path tags);
  oss_SetCustomStorage b := on_obj (SetCustomStorage b);
  oss_GetPresignedURL path := read_client (Aliyun_GetPresignedURL path);
  oss_CopySelf path storageClass := no_op;
  oss_Delete path := via (Aliyun_Delete path) |}.
Definition HuaweiObs : Oss world := {|
  oss_NewClient opts w := on_obj (Huawei_NewClient (Huawei_made sdk (apply_options opts)) opts) w;
  oss_UploadFileLocal now name path := via (Huawei_UploadFileLocal loc now name path);
  oss_UploadFileIo now name content := via (Huawei_UploadFileIo loc now name content);
  oss_GetETag w := GetETag (m_obj w);
  oss_GetFileSize w := GetFileSize (m_obj w);
  oss_Download write url name folder := via (Huawei_Download write url name folder);
  oss_PutACL path := no_op;
  oss_SetCatalogue c := on_obj (SetCatalogue c);
  oss_SetIsTime b := on_obj (SetIsTime b);
  oss_SetTagging path tags := no_op;
  oss_SetCustomStorage b := on_obj (SetCustomStorage b);
  oss_GetPresignedURL path w := Ret (Huawei_GetPresignedURL path (as_up w));
  oss_CopySelf path storageClass := no_op;
  oss_Delete path := via (Huawei_Delete path) |}.
Definition JDCloudOss : Oss world := {|
  oss_NewClient opts w := on_obj (JDCloud_NewClient (JDCloud_made sdk (apply_options opts)) opts) w;
  oss_UploadFileLocal now name path := via (JDCloud_UploadFileLocal loc now name path);
  oss_UploadFileIo now name content := via (JDCloud_UploadFileIo loc now name content);
  oss_GetETag w := GetETag (m_obj w);
  oss_GetFileSize w := GetFileSize (m_obj w);
  oss_Download write url name folder := via (JDCloud_Download write url name folder);
  oss_PutACL path := no_op;
  oss_SetCatalogue c := on_obj (SetCatalogue c);
  oss_SetIsTime b := on_obj (SetIsTime b);
  oss_SetTagging path tags := no_op;
  oss_SetCustomStorage b := on_obj (SetCustomStorage b);
  oss_GetPresignedURL path w := Ret (JDCloud_GetPresignedURL path (as_up w));
  oss_CopySelf path storageClass := no_op;
  oss_Delete path := via (JDCloud_Delete path) |}.
Definition TencentCos : Oss world := {|
  oss_NewClient opts w := on_obj (Tencent_NewClient opts) w;
  oss_UploadFileLocal now name path := Tencent_local now name path;
  oss_UploadFileIo now name content := via_client (Tencent_UploadFileIo loc now name content);
  oss_GetETag w := GetETag (m_obj w);
  oss_GetFileSize w := GetFileSize (m_obj w);
  oss_Download write url name folder := via_client (Tencent_Download write url name folder);
  oss_PutACL path := via_client (Tencent_PutACL path);
  oss_SetCatalogue c := on_obj (SetCatalogue c);
  oss_SetIsTime b := on_obj (SetIsTime b);
  oss_SetTagging path tags := via_client (Tencent_SetTagging path tags);
  oss_SetCustomStorage b := on_obj (SetCustomStorage b);
  oss_GetPresignedURL path := read_client (Tencent_GetPresignedURL path);
  oss_CopySelf path storageClass := via_client (Tencent_CopySelf path storageClass);
  oss_Delete path := via (Tencent_Delete path) |}.
Definition VolcEngineTos : Oss world := {|
  oss_NewClient opts w := on_obj (Volc_NewClient (Volc_made sdk (apply_options opts)) opts) w;
  oss_UploadFileLocal now name path := Volc_local name path;
  oss_UploadFileIo now name content := via (Volc_UploadFileIo name content);
  oss_GetETag w := GetETag (m_obj w);
  oss_GetFileSize w := GetFileSize (m_obj w);
  oss_Download write url name folder := no_op;
  oss_PutACL path := no_op;
  oss_SetCatalogue c := on_obj (SetCatalogue c);
  oss_SetIsTime b := on_obj (SetIsTime b);
  oss_SetTagging path tags := no_op;
  oss_SetCustomStorage b := on_obj (SetCustomStorage b);
  oss_GetPresignedURL path w := Ret ("", None);
  oss_CopySelf path storageClass := no_op;
  oss_Delete path := via (Volc_Delete path) |}.
Definition Minio : Oss world := {|
  oss_NewClient := Minio_NewClient;
  oss_UploadFileLocal now name path w := plain (Minio_UploadFileLocal loc now name path w);
  oss_UploadFileIo now name content w := plain (Minio_UploadFileIo loc now name content w);
  oss_GetETag w := GetETag (m_obj w);
  oss_GetFileSize w := GetFileSize (m_obj w);
  oss_Download := Minio_Download;
  oss_PutACL path := no_op;
  oss_SetCatalogue c := on_obj (SetCatalogue c);
  oss_SetIsTime b := on_obj (SetIsTime b);
  oss_SetTagging path tags := no_op;
  oss_SetCustomStorage b := on_obj (SetCustomStorage b);
  oss_GetPresignedURL := Minio_GetPresignedURL;
  oss_CopySelf path storageClass := no_op;
  oss_Delete path w := plain (Minio_Delete path w) |}.

(** The registry after the packages' [init]s; a platform's object starts empty. *)
Definition registrations : list (string * Oss world) :=
  [("aliyun-oss", AliyunOss); ("huawei-obs", HuaweiObs); ("jdcloud-oss", JDCloudOss); ("minio", Minio);
   ("s3", Minio); ("tencent-cos", TencentCos); ("volcengine-tos", VolcEngineTos)].
Definition registered : gmap string (Oss world) := foldl (λ p r, RegisterOss r.1 r.2 p) ∅ registrations.
Definition new_platform (s : S) (fs : gmap string string) : world := mkMw s fs empty_oss None.
Definition platform_of (name : string) : option (Oss world) := GetPlatform id name registered.
Lemma platform_of_name name p : platform_of name = Some p → (name, p) ∈ registrations.
Proof.
  unfold platform_of, GetPlatform, registered, registrations, RegisterOss. cbn [foldl fst snd].
  rewrite option_fmap_id. intros Hp.
  repeat (apply lookup_insert_Some in Hp as [[<- <-]|[_ Hp]]; [rewrite !elem_of_cons; tauto|]). done.
Qed.

(** *** A link of a local file leads to its deletion, whatever the platform *)
(** What the link has before the key. *)
Definition link_base (name : string) (w : world) : string :=
  if bool_decide (name = "volcengine-tos") then tos_base (m_obj w)
  else if bool_decide (name = "minio" ∨ name = "s3") then from_option mx_base "" (m_client w)
  else base (m_obj w).
Context {HL : BucketLaws S}.
Definition leads_back (key path : string) (del_url : world → world * Maybe) (w w1 : world) : Prop :=
  ∃ c, m_files w !! path = Some c ∧ get key (m_store w1) = inr c ∧
    ∀ w2, del_url w1 = (w2, Ret None) →
      (∃ e, get key (m_store w2) = inl e) ∧ ∀ k, k ≠ key → get k (m_store w2) = get k (m_store w).
(** Once the key was put and the deletion deletes it, the link leads back. *)
Lemma leads_back_put (key path c tag : string) del_url (w w1 : world) :
  m_files w !! path = Some c → put key c (m_store w) = (m_store w1, inr tag) →
  (∀ w2, del_url w1 = (w2, Ret None) → del key (m_store w1) = (m_store w2, None)) →
  leads_back key path del_url w w1.
Proof.
  intros Hf Hp Hd. exists c. pose proof (put_get key c (m_store w) tag) as Hg. rewrite Hp in Hg.
  split_and!; [done|by apply Hg|]. intros w2 E.
  destruct (put_del key c _ _ _ tag Hp (Hd w2 E)) as (_ & He & Ho). split; [done|]. intros k Hk. by apply Ho.
Qed.
Lemma bucket_link_deletes pl (name key path : string) (now : Z) (fileName : string) (w w1 : world) :
  via (Upload loc pl now fileName (FileLocal path)) w = (w1, Ret (base (m_obj w) +++ key, None)) →
  Contains key (base (m_obj w)) = false →
  leads_back key path (via (Delete pl (base (m_obj w) +++ key))) w w1.
Proof.
  remember (base (m_obj w) +++ key) as url eqn:Hurl.
  unfold via at 1. destruct (Upload loc pl now fileName (FileLocal path) (as_up w)) as [u a] eqn:Eu. intros [= <- ->] Hk.
  apply upload_put in Eu as (_ & _ & Hb & Hr & Hkey & c & tag & Hc & Hp); [|by rewrite Hurl].
  change (obj (as_up w)) with (m_obj w) in *. rewrite Hurl in Hkey |- *. apply app_str_inj_l in Hkey as ->.
  apply (leads_back_put _ _ c tag); [done|exact Hp|]. intros w2.
  assert (∀ url u, Delete pl url u = delete_link url u) as Hdel by by destruct pl.
  unfold via. rewrite Hdel. unfold delete_link. cbn [as_up from_up m_store m_files m_obj obj store]. rewrite Hr, Hb, remove_all_base by done. cbn [negb].
  destruct (del _ (store u)) as [s e]. by intros [= <- ->].
Qed.
Lemma volc_link_deletes (key path fileName : string) (w w1 : world) :
  Volc_local fileName path w = (w1, Ret (tos_base (m_obj w) +++ key, None)) →
  leads_back key path (via (Volc_Delete (tos_base (m_obj w) +++ key))) w w1.
Proof.
  unfold Volc_local, Volc_UploadFileLocal. cbn [as_up obj files store]. destruct (Ready (m_obj w)) eqn:Er; [|done]. cbn [negb].
  destruct (m_files w !! path) as [c|] eqn:Ef; [|done].
  destruct (put _ c (m_store w)) as [s [e|tag]] eqn:Ep; [done|]. intros [= <- Hkey%app_str_inj_l]. subst key.
  apply (leads_back_put _ _ c tag); [done|exact Ep|]. intros w2.
  unfold via, Volc_Delete, on_store. cbn [as_up from_up m_store m_files m_obj obj store with_size with_tag Ready]. rewrite Er. cbn [negb].
  change (tos_base (with_size (slen c) (with_tag tag (m_obj w)))) with (tos_base (m_obj w)). rewrite trim_prefix_app.
  destruct (del _ s) as [s' e]. by intros [= <- ->].
Qed.
Lemma minio_link_deletes (key path fileName link0 : string) (now : Z) (w w1 : world) :
  link0 = from_option mx_base "" (m_client w) →
  plain (Minio_UploadFileLocal loc now fileName path w) = (w1, Ret (link0 +++ key, None)) →
  Contains key link0 = false →
  leads_back key path (λ w, plain (Minio_Delete (link0 +++ key) w)) w w1.
Proof.
  unfold plain at 1, Minio_UploadFileLocal, UploadFile. destruct (m_client w) as [x|]; [|done]. cbn [from_option]. intros ->. cbv zeta.
  set (o := dated loc "" now (m_obj w)). cbn [with_module mx_client Module_].
  case_bool_decide as Hn; [done|]. destruct (m_files w !! path) as [c|] eqn:Ef; [|done].
  destruct (put _ c (m_store w)) as [s [e|tag]] eqn:Ep; [done|]. cbn [finish_minio fst snd].
  assert (mx_base (with_module (Catalogue o) x) = mx_base x) as Hb by done. rewrite Hb.
  intros [= <- Hkey%app_str_inj_l] Hk. subst key.
  apply (leads_back_put _ _ c tag); [done|exact Ep|]. intros w2.
  unfold plain, Minio_Delete, DeleteObject. cbn [m_client m_store with_info with_module mx_client].
  rewrite bool_decide_eq_false_2 by done.
  assert (mx_base (with_info (slen c) tag (with_module (Catalogue o) x)) = mx_base x) as -> by done.
  rewrite remove_all_base; [|by unfold mx_base; destruct (site x)|done].
  destruct (del _ s) as [s' e]. cbn. by intros [= <- ->].
Qed.

(** On every registered platform but Tencent's, when the upload of a local file
    answers a link, the object is there with the file's content under the part of the link after
    the platform's base, and a successful deletion of the link removes that object and touches no
    other.  The base must not occur in that part once more. *)
Lemma registered_link_deletes (name : string) (p : Oss world) (now : Z) (fileName path key : string) (w w1 : world) :
  platform_of name = Some p → name ≠ "tencent-cos" →
  oss_UploadFileLocal p now fileName path w = (w1, Ret (link_base name w +++ key, None)) →
  Contains key (link_base name w) = false →
  leads_back key path (oss_Delete p (link_base name w +++ key)) w w1.
Proof.
  intros Hp%platform_of_name Hn. unfold registrations in Hp. rewrite !elem_of_cons in Hp.
  destruct Hp as [[= -> ->]|[[= -> ->]|[[= -> ->]|[[= -> ->]|[[= -> ->]|[[= -> ->]|[[= -> ->]|[]%elem_of_nil]]]]]]].
  - exact (bucket_link_deletes Aliyun "aliyun-oss" key path now fileName w w1).
  - exact (bucket_link_deletes Huawei "huawei-obs" key path now fileName w w1).
  - exact (bucket_link_deletes JDCloud "jdcloud-oss" key path now fileName w w1).
  - exact (minio_link_deletes key path fileName _ now w w1 eq_refl).
  - exact (minio_link_deletes key path fileName _ now w w1 eq_refl).
  - done.
  - intros Hu _. exact (volc_link_deletes key path fileName w w1 Hu).
Qed.
End platforms.

(** ** On a bucket in memory *)
Definition willing : sdks := mkSdks (λ _ _ _, None) (λ _, None) (λ _ _ _, None) (λ _ _, None) (λ _ _, None) (λ _ _ _ _, None)
  (λ e _ _ secure, inr ((if secure then https else http) +++ e)).
Definition no_presign : string → goerr + (string * string) := λ k, inr (k, "").
Definition mem_platform (name : string) : option (Oss (mworld (S := mem_bucket))) := platform_of willing utc no_presign name.
Definition audio_files : gmap string string := {["f" := "data"]}.
(** What a platform answers to the upload of a file, and whether the object is there before and after the deletion of the link. *)
Definition upload_then_delete (name : string) : option (gores Answer * nat * nat) :=
  p ← mem_platform name;
  let w := oss_NewClient p [WithBucketName "b"; WithEndpoint "e.com"; WithObjectKey "k"] (new_platform ∅ audio_files) in
  let '(w1, a) := oss_UploadFileLocal p 0 "x" "f" w in
  let url := match a with Ret (u, _) => u | Panic _ => "" end in
  Some (a, size (m_store w1), size (m_store (oss_Delete p url w1).1)).
Example six_platforms :
  map upload_then_delete ["aliyun-oss"; "huawei-obs"; "jdcloud-oss"; "minio"; "s3"; "volcengine-tos"] =
    [Some (Ret ("https://b.e.com/audio/x", None), 1%nat, 0%nat); Some (Ret ("https://b.e.com/audio/x", None), 1%nat, 0%nat);
     Some (Ret ("https://b.e.com/audio/x", None), 1%nat, 0%nat); Some (Ret ("http://e.com/b/audiox", None), 1%nat, 0%nat);
     Some (Ret ("http://e.com/b/audiox", None), 1%nat, 0%nat); Some (Ret ("voldtos://b/k//x", None), 1%nat, 0%nat)] ∧
  upload_then_delete "gcs" = None.
Proof. vm_compute. done. Qed.
Lemma link_hypotheses_hold : ∃ p w w1,
  mem_platform "s3" = Some p ∧ oss_UploadFileLocal p 0 "x" "f" w = (w1, Ret (link_base "s3" w +++ "audiox", None)) ∧
  leads_back "audiox" "f" (oss_Delete p (link_base "s3" w +++ "audiox")) w w1.
Proof.
  pose (w := Minio_NewClient willing [WithBucketName "b"; WithEndpoint "e.com"] (new_platform (∅ : mem_bucket) audio_files)).
  exists (Minio willing utc no_presign), w, (plain (Minio_UploadFileLocal utc 0 "x" "f" w)).1.
  assert (oss_UploadFileLocal (Minio willing utc no_presign) 0 "x" "f" w
    = ((plain (Minio_UploadFileLocal utc 0 "x" "f" w)).1, Ret (link_base "s3" w +++ "audiox", None))) as Hu by (vm_compute; reflexivity).
  split_and!; [reflexivity|exact Hu|].
  eapply (registered_link_deletes willing utc no_presign "s3" _ 0 "x"); [reflexivity|done|exact Hu|reflexivity].
Qed.
(** Before its [NewClient] a platform refuses or panics; and whatever region is configured,
    VolcEngine's client is made with the bucket's name for it. *)
Example without_client :
  (λ p : Oss (mworld (S := mem_bucket)), (oss_Download p None "u" "n" "d" (new_platform ∅ ∅)).2) <$> mem_platform "aliyun-oss"
    = Some (Panic "nil pointer dereference") ∧
  (λ p : Oss (mworld (S := mem_bucket)), (oss_Delete p "u" (new_platform ∅ ∅)).2) <$> mem_platform "aliyun-oss"
    = Some (Ret (Some client_nil)).
Proof. vm_compute. done. Qed.
Lemma volc_ignores_region (sdk : sdks) (opts : list OssOption) (r : string) :
  Volc_made sdk (apply_options (opts ++ [WithRegion r])) = Volc_made sdk (apply_options opts) ∧
  Volc_made sdk (apply_options opts) =
    is_made (tos_NewClientV2 sdk (Endpoint (apply_options opts)) (BucketName (apply_options opts))
               (AccessKeyId (apply_options opts)) (SecretAccessKey (apply_options opts))).
Proof. split; [|done]. unfold apply_options. by rewrite foldl_app. Qed.
