(* ===== verification/Tracing.v ===== *)
(** Tracing (pkg/trace): the one-time start of the SDK and whether it is on, the names of spans,
    and the hook that wraps Redis commands. *)
From Stdlib Require Import Ascii.
From stdpp Require Import prelude gmap strings list.
From S2P Require Import Prelude GoStrings StringsX Attributes.

(** ** bootstrap.go *)
Record BootstrapOptions := mkBoot {
  ServiceName : string; ServiceVersion : string; Environment : string; CollectorEndpoint : string;
  Enabled_ : bool; Insecure : bool; ExportTimeout : Z; BatchTimeout : Z; MaxQueueSize : Z;
  MaxExportBatchSize : Z; Policy : option AttributePolicy; ExtraResourceAttrs : list (string * string) }.
Definition defaultExportTimeout : Z := 3 * Second.
Definition defaultBatchTimeout : Z := 5 * Second.
Definition defaultMaxQueueSize : Z := 2048.
Definition defaultMaxExportBatchSize : Z := 512.
Definition orDefaultDur (v def : Z) : Z := if v <=? 0 then def else v.
Definition orDefaultInt (v def : Z) : Z := if v <=? 0 then def else v.
Definition ErrAlreadyBootstrapped : goerr := ErrSentinel "trace: already bootstrapped".
(** [buildResource]'s attributes, and what [buildExporter] asks of the OTLP client. *)
Definition buildResource (o : BootstrapOptions) : list (string * string) :=
  ("service.name", ServiceName o)
    :: (if bool_decide (ServiceVersion o = "") then [] else [("service.version", ServiceVersion o)])
    ++ (if bool_decide (Environment o = "") then [] else [("deployment.environment", Environment o)])
    ++ ExtraResourceAttrs o.
Record exporter_opts := mkExporter { ex_endpoint : string; ex_compressor : string; ex_insecure : bool; ex_timeout : Z }.
Definition buildExporter (o : BootstrapOptions) : exporter_opts :=
  mkExporter (CollectorEndpoint o) "gzip" (Insecure o) (orDefaultDur (ExportTimeout o) defaultExportTimeout).
Record provider := mkProvider {
  resource : list (string * string); exporter : exporter_opts; batchTimeout : Z; exportTimeout : Z;
  maxQueueSize : Z; maxExportBatchSize : Z }.
Definition new_provider (o : BootstrapOptions) : provider :=
  mkProvider (buildResource o) (buildExporter o)
    (orDefaultDur (BatchTimeout o) defaultBatchTimeout) (orDefaultDur (ExportTimeout o) defaultExportTimeout)
    (orDefaultInt (MaxQueueSize o) defaultMaxQueueSize) (orDefaultInt (MaxExportBatchSize o) defaultMaxExportBatchSize).
(** The package's variables, the global propagator and provider ([None] is the no-op one), and
    whether the logger asks for trace ids. *)
Record tstate := mkState {
  enabled : bool; tracerProvider : option provider; currentPolicy : option AttributePolicy; bootstrapOnce : bool;
  propagator : bool; global : option provider; bridge : bool }.
Definition initial : tstate := mkState false None None false false None false.
(** A shutdown function: one that does nothing, or the provider's. *)
Inductive ShutdownFunc := NoShutdown | StopProvider.
Definition set_policy (p : AttributePolicy) (s : tstate) : tstate :=
  mkState (enabled s) (tracerProvider s) (Some p) true true (global s) true.
(** [env] is how the resource and the exporter can fail. *)
Definition Bootstrap (env : option goerr * option goerr) (o : BootstrapOptions) (s : tstate)
    : tstate * (ShutdownFunc * option goerr) :=
  if bootstrapOnce s then (s, (NoShutdown, Some ErrAlreadyBootstrapped))
  else
    let s := set_policy (default DefaultAttributePolicy (Policy o)) s in
    if negb (Enabled_ o) then
      (mkState false (tracerProvider s) (currentPolicy s) true true None true, (NoShutdown, None))
    else if bool_decide (ServiceName o = "") then (s, (NoShutdown, Some (ErrNew "trace: ServiceName is required")))
    else if bool_decide (CollectorEndpoint o = "") then (s, (NoShutdown, Some (ErrNew "trace: CollectorEndpoint is required")))
    else match env.1 with
         | Some e => (s, (NoShutdown, Some (ErrWrap "trace: build resource" e)))
         | None =>
             match env.2 with
             | Some e => (s, (NoShutdown, Some (ErrWrap "trace: build exporter" e)))
             | None =>
                 let tp := new_provider o in
                 (mkState true (Some tp) (currentPolicy s) true true (Some tp) true, (StopProvider, None))
             end
         end.
(** A call of a shutdown function; [stop] is how the provider's own shutdown ends. *)
Definition shutdown (f : ShutdownFunc) (stop : option goerr) (s : tstate) : tstate * option goerr :=
  match f with
  | NoShutdown => (s, None)
  | StopProvider =>
      (mkState false (tracerProvider s) (currentPolicy s) (bootstrapOnce s) (propagator s) (global s) (bridge s), stop)
  end.
Definition Enabled (s : tstate) : bool := enabled s.

(** *** Histories: starts, and calls of the shutdown functions they answered *)
Inductive tcall := TBoot (env : option goerr * option goerr) (o : BootstrapOptions) | TShut (i : nat) (stop : option goerr).
Definition tstep (c : tcall) (st : tstate * list ShutdownFunc) : tstate * list ShutdownFunc :=
  let '(s, fs) := st in
  match c with
  | TBoot env o => let '(s, (f, _)) := Bootstrap env o s in (s, fs ++ [f])
  | TShut i stop => match fs !! i with Some f => ((shutdown f stop s).1, fs) | None => (s, fs) end
  end.
Definition trun (cs : list tcall) : tstate * list ShutdownFunc := foldl (flip tstep) (initial, []) cs.
(** A start that would switch the SDK on. *)
Definition starts (env : option goerr * option goerr) (o : BootstrapOptions) : bool :=
  Enabled_ o && bool_decide (ServiceName o ≠ "") && bool_decide (CollectorEndpoint o ≠ "")
    && bool_decide (env = (None, None)).
(** The history's meaning: what the first start did, and whether its function was called since. *)
Fixpoint on_after (first : option bool) (cs : list tcall) : bool :=
  match cs with
  | [] => default false first
  | TBoot env o :: cs => on_after (Some (default (starts env o) first)) cs
  | TShut 0 _ :: cs => on_after (match first with Some _ => Some false | None => None end) cs
  | TShut _ _ :: cs => on_after first cs
  end.
Definition describes (first : option bool) (st : tstate * list ShutdownFunc) : Prop :=
  match first with
  | None => enabled st.1 = false ∧ bootstrapOnce st.1 = false ∧ st.2 = []
  | Some b => enabled st.1 = b ∧ bootstrapOnce st.1 = true ∧
      ∃ f rest, st.2 = f :: rest ∧ Forall (λ g, g = NoShutdown) rest ∧ (f = NoShutdown → b = false)
  end.
Lemma Bootstrap_first env o s :
  bootstrapOnce s = false → enabled s = false →
  let '(s', (f, e)) := Bootstrap env o s in
  enabled s' = starts env o ∧ bootstrapOnce s' = true ∧ propagator s' = true ∧ bridge s' = true ∧
  currentPolicy s' = Some (default DefaultAttributePolicy (Policy o)) ∧ (f = NoShutdown → starts env o = false) ∧
  global s' = (if starts env o then Some (new_provider o) else if Enabled_ o then global s else None).
Proof.
  intros Ho He. unfold Bootstrap, starts. rewrite Ho. destruct (Enabled_ o); cbn [negb andb]; [|by split_and!].
  destruct (decide (ServiceName o = "")) as [E1|E1].
  { rewrite (bool_decide_eq_true_2 (ServiceName o = "")), (bool_decide_eq_false_2 (ServiceName o ≠ "")) by (done || congruence).
    by split_and!. }
  rewrite (bool_decide_eq_false_2 (ServiceName o = "")), (bool_decide_eq_true_2 (ServiceName o ≠ "")) by done. cbn [andb].
  destruct (decide (CollectorEndpoint o = "")) as [E2|E2].
  { rewrite (bool_decide_eq_true_2 (CollectorEndpoint o = "")), (bool_decide_eq_false_2 (CollectorEndpoint o ≠ "")) by (done || congruence).
    by split_and!. }
  rewrite (bool_decide_eq_false_2 (CollectorEndpoint o = "")), (bool_decide_eq_true_2 (CollectorEndpoint o ≠ "")) by done. cbn [andb].
  destruct env as [[e|] [e'|]]; cbn [fst snd]; case_bool_decide; try congruence; by split_and!.
Qed.
Lemma on_after_spec cs first st :
  describes first st → enabled (foldl (flip tstep) st cs).1 = on_after first cs.
Proof.
  revert first st. induction cs as [|c cs IH]; intros first [s fs] Hd; cbn [foldl on_after flip tstep].
  { destruct first; apply Hd. }
  destruct c as [env o|i stop].
  - destruct first as [b|].
    + destruct Hd as (He & Ho & f & rest & Hf & Hr & Hn). cbn in He, Ho, Hf. subst fs.
      unfold Bootstrap. rewrite Ho. apply IH. cbn [default from_option]. unfold id.
      split_and!; [done|done|]. exists f, (rest ++ [NoShutdown]). split_and!; [done| |done].
      apply Forall_app. split; [done|]. by apply Forall_singleton.
    + destruct Hd as (He & Ho & Hf). cbn in He, Ho, Hf. subst fs.
      pose proof (Bootstrap_first env o s Ho He) as Hb. destruct (Bootstrap env o s) as [s' [f e]].
      destruct Hb as (Hb1 & Hb2 & _ & _ & _ & Hb3 & _). apply IH. cbn [default from_option].
      split_and!; [done|done|]. exists f, []. by split_and!.
  - destruct first as [b|].
    + destruct Hd as (He & Ho & f & rest & Hf & Hr & Hn). cbn in He, Ho, Hf. subst fs. destruct i as [|i]; cbn [lookup list_lookup].
      * apply IH. split_and!; [|by destruct f|exists f, rest; by split_and!].
        destruct f; cbn; [by rewrite He, Hn|done].
      * destruct (rest !! i) as [g|] eqn:Eg; [|apply IH; split_and!; [done|done|by exists f, rest]].
        rewrite Forall_lookup in Hr. assert (g = NoShutdown) as -> by (by eapply Hr). apply IH.
        split_and!; [done|done|exists f, rest]. split_and!; [done|by apply Forall_lookup|done].
    + destruct Hd as (He & Ho & Hf). cbn in He, Ho, Hf. subst fs. rewrite lookup_nil. destruct i; by apply IH.
Qed.
(** Whether tracing is on. After any history of starts and shutdowns, tracing is on exactly
    if the first start was enabled, named its service and collector and met no error, and its
    shutdown has not been called since; later starts change nothing. *)
Lemma tracing_enabled (cs : list tcall) : Enabled (trun cs).1 = on_after None cs.
Proof. by apply on_after_spec. Qed.
(** A start that failed cannot be made again. *)
Example failed_start_is_final :
  let o := mkBoot "" "" "" "c:4317" true true 0 0 0 0 None [] in
  let o' := mkBoot "svc" "" "" "c:4317" true true 0 0 0 0 None [] in
  let '(s, _) := Bootstrap (None, None) o initial in
  (Bootstrap (None, None) o' s).2 = (NoShutdown, Some ErrAlreadyBootstrapped).
Proof. reflexivity. Qed.

(** ** span.go, http.go, mq.go: names *)
Inductive SpanKind := Internal | Consumer | Producer | Client.
Definition server_span_name (method path : string) (route : option string) : string :=
  "http." +++ method +++ " " +++ match route with Some r => if bool_decide (r = "") then path else r | None => path end.
Definition client_span_name (method host : string) : string := "http.client." +++ method +++ " " +++ host.
(** [StartHTTPClientSpan]: the span's name, kind and attributes. *)
Definition StartHTTPClientSpan (method host : string) : string * SpanKind * list (string * string) :=
  (client_span_name method host, Client, [("http.request.method", method); ("server.address", host)]).

(** A request, with the route that its context holds; the formatters are what the middleware and the
    client's transport give OpenTelemetry, beside the handler and the transport they wrap. *)
Record http_request := mkHttpReq { hr_Method : string; hr_Path : string; hr_Host : string; hr_route : option string }.
Definition SetHTTPRoute (ctx : option string) (route : string) : option string := Some route.
Definition NewHTTPMiddleware {H} (serviceSpanPrefix : string) (next : H) : H * string * (http_request → string) :=
  (next, serviceSpanPrefix, λ r, server_span_name (hr_Method r) (hr_Path r) (hr_route r)).
Definition NewHTTPClient {T} (DefaultTransport : T) (transport : option T) : T * (http_request → string) :=
  (default DefaultTransport transport, λ r, client_span_name (hr_Method r) (hr_Host r)).
(** A route that was set before the middleware names the span, unless it is empty. *)
Lemma routed_span_name {H} prefix (next : H) method path host ctx route :
  (NewHTTPMiddleware prefix next).2 (mkHttpReq method path host (SetHTTPRoute ctx route))
    = "http." +++ method +++ " " +++ (if bool_decide (route = "") then path else route).
Proof. reflexivity. Qed.

(** ** redis.go *)
(** A digit is one byte, and no byte of a longer character is a digit. *)
Definition hasDigit (s : string) : bool := negb (str_all (λ c, negb (is_digit c)) s).
Definition collapse_part (p : string) : string := if hasDigit p then "{n}" else p.
Definition collapseKey (k : string) : string := Join (map collapse_part (Split ":" k)) ":".
(** A command: its name and arguments; those that are not strings are left open. *)
Inductive arg := ArgStr (s : string) | ArgOther.
Record Cmder := mkCmd { Name : string; Args : list arg; Err : option goerr }.
Definition commandKey (c : Cmder) : string :=
  match Args c with _ :: ArgStr k :: _ => collapseKey k | _ => "" end.
Record rspan := mkRspan { r_name : string; r_attrs : list (string * string); r_errors : list goerr; r_ended : nat }.
(** A context holds the number of its span. *)
Definition rctx := option nat.
Definition startRedisSpan (on : bool) (ctx : rctx) (command keyPattern : string) (spans : list rspan) : rctx * list rspan :=
  if negb on then (ctx, spans)
  else
    let name := "redis." +++ ToLower command in
    let name := if bool_decide (keyPattern = "") then name else name +++ " " +++ keyPattern in
    (Some (length spans), spans ++ [mkRspan name [("db.system", "redis"); ("db.statement", command)] [] 0]).
Definition redis_Nil : goerr := ErrSentinel "redis: nil".
Definition endRedisSpan (ctx : rctx) (err : option goerr) (spans : list rspan) : list rspan :=
  match ctx with
  | None => spans
  | Some i =>
      alter (λ s, mkRspan (r_name s) (r_attrs s)
               (match err with Some e => if bool_decide (e = redis_Nil) then r_errors s else r_errors s ++ [e] | None => r_errors s end)
               (S (r_ended s))) i spans
  end.
Definition BeforeProcess (on : bool) (ctx : rctx) (c : Cmder) := startRedisSpan on ctx (Name c) (commandKey c).
Definition AfterProcess (ctx : rctx) (c : Cmder) := endRedisSpan ctx (Err c).
Definition BeforeProcessPipeline (on : bool) (ctx : rctx) (cs : list Cmder) :=
  startRedisSpan on ctx "pipeline" (match cs with c :: _ => Name c +++ "+" +++ commandKey c | [] => "pipeline" end).
Definition AfterProcessPipeline (ctx : rctx) (cs : list Cmder) := endRedisSpan ctx (head (omap Err cs)).

(** *** The keys in span names *)
Definition colons (s : string) : list string := Split ":" s.
(** Span names. The key in a span's name has the parts of the command's key in their order,
    each that has a digit replaced by the placeholder and the others as they were: no digit is
    left, and keys that differ only in such parts give one name. *)
Lemma collapsed_key_parts (k : string) :
  colons (collapseKey k) = map collapse_part (colons k) ∧ hasDigit (collapseKey k) = false ∧
  ∀ k', Forall2 (λ p q, p = q ∨ (hasDigit p = true ∧ hasDigit q = true)) (colons k) (colons k') → collapseKey k' = collapseKey k.
Proof.
  assert (∀ p, without ":" p = true → without ":" (collapse_part p) = true) as Hc.
  { intros p Hp. unfold collapse_part. by destruct (hasDigit p). }
  split_and!.
  - unfold collapseKey. apply Split_Join.
    + intros E. apply map_eq_nil in E. by apply Split_nonempty in E.
    + apply Forall_map. eapply Forall_impl; [apply Split_without|]. apply Hc.
  - unfold collapseKey. generalize (Split ":" k) as ps. intros ps. unfold hasDigit. apply negb_false_iff.
    induction ps as [|p ps IH]; [done|].
    assert (str_all (λ c, negb (is_digit c)) (collapse_part p) = true) as Hp.
    { unfold collapse_part, hasDigit. by destruct (str_all _ p) eqn:E. }
    destruct ps as [|q ps]; [done|]. cbn [map] in *.
    change (Join (collapse_part p :: collapse_part q :: map collapse_part ps) ":")
      with (collapse_part p +++ String ":" (Join (collapse_part q :: map collapse_part ps) ":")).
    rewrite str_all_app, Hp. cbn [str_all andb]. done.
  - intros k' Hk. unfold collapseKey. f_equal. symmetry. unfold colons in Hk.
    induction Hk as [|p q ps qs Hpq _ IH]; [done|]. cbn [map]. f_equal; [|done].
    destruct Hpq as [->|[Hp Hq]]; [done|]. unfold collapse_part. by rewrite Hp, Hq.
Qed.
(** The hook: while tracing is on, a command's span begins and ends around it, with the
    command's error unless that is a missing key. *)
Lemma hook_wraps ctx c spans :
  let '(ctx', spans') := BeforeProcess true ctx c spans in
  AfterProcess ctx' c spans' = spans ++
    [mkRspan ("redis." +++ ToLower (Name c) +++ (if bool_decide (commandKey c = "") then "" else " " +++ commandKey c))
       [("db.system", "redis"); ("db.statement", Name c)]
       (match Err c with Some e => if bool_decide (e = redis_Nil) then [] else [e] | None => [] end) 1].
Proof.
  unfold BeforeProcess, startRedisSpan, AfterProcess, endRedisSpan. cbn [negb].
  rewrite alter_app_r_alt by lia. rewrite Nat.sub_diag. cbn [alter list_alter]. do 2 f_equal. f_equal.
  case_bool_decide; [by rewrite app_str_nil_r|]. by rewrite app_str_assoc.
Qed.

