(* ===== verification/Spans.v ===== *)
(** Spans and where they lead (pkg/trace/span.go, noop.go, logger_bridge.go, propagation.go,
    http.go): the helpers that start and close spans, the bridge that puts a span's ids into log
    lines, and a trace on its way through services, messages and TCP sessions into the log. *)
From Stdlib Require Import Ascii.
From stdpp Require Import prelude gmap strings list.
From S2P Require Import Prelude GoStrings Sanitize Logging Attributes Tracing TcpContext.

(** ** OpenTelemetry *)
(** Contexts of type [C] with their span contexts of type [SC].  A [Start] is told the tracer, the
    options, the span's name, and the numbers its generator draws. *)
Inductive SpanStartOption := WithSpanKind (k : SpanKind) | WithAttribute (k v : string).
Class Otel (C SC : Type) `{SpanContexts SC} := {
  otel_Background : C;
  SpanContextFromContext : C → SC;
  ContextWithSpanContext : C → SC → C;
  Start : string → list SpanStartOption → string → Z → C → C;
  TraceID_String : SC → string;
  SpanID_String : SC → string;
  otel_propagator :: Propagator C }.
Class OtelLaws (C SC : Type) `{Otel C SC} := {
  with_span_context c x : SpanContextFromContext (ContextWithSpanContext c x) = x;
  valid_trace x : IsValid x = true → TraceID_String x ≠ "";
  start_child tr os name n c : IsValid (SpanContextFromContext c) = true →
    IsValid (SpanContextFromContext (Start tr os name n c)) = true ∧
    TraceID_String (SpanContextFromContext (Start tr os name n c)) = TraceID_String (SpanContextFromContext c);
  inject_traceparent c : IsValid (SpanContextFromContext c) = true → ∃ tp, tp ≠ "" ∧ Inject c ∅ !! HeaderTraceparent = Some tp;
  extract_inject c c' m : IsValid (SpanContextFromContext c) = true →
    m !! HeaderTraceparent = Inject c ∅ !! HeaderTraceparent →
    IsValid (SpanContextFromContext (Extract c' m)) = true ∧
    TraceID_String (SpanContextFromContext (Extract c' m)) = TraceID_String (SpanContextFromContext c) }.

Section spans.
Context {C SC : Type} `{Otel C SC}.
(** ** span.go *)
Definition Tracer (name : string) : list SpanStartOption → string → Z → C → C := Start name.
Definition StartSpan (name : string) (opts : list SpanStartOption) : Z → C → C := Tracer "compkg/trace" opts name.
Definition StartConsumerSpan (name : string) (opts : list SpanStartOption) : Z → C → C :=
  Tracer "compkg/trace" (opts ++ [WithSpanKind Consumer]) name.
Definition StartProducerSpan (name : string) (opts : list SpanStartOption) : Z → C → C :=
  Tracer "compkg/trace" (opts ++ [WithSpanKind Producer]) name.
(** A span is its number in the records, or nil. *)
Definition RecordError (span : option nat) (err : option goerr) (spans : list rspan) : list rspan :=
  match span, err with
  | Some i, Some e => alter (λ s, mkRspan (r_name s) (r_attrs s) (r_errors s ++ [e]) (r_ended s)) i spans
  | _, _ => spans
  end.
(** ** noop.go: the context that is returned, and the span in it *)
Definition NoopSpan (enabled : bool) (ctx : option C) : C * SC :=
  if enabled then
    let ctx := default otel_Background ctx in (ctx, SpanContextFromContext ctx)
  else
    let ctx := default otel_Background ctx in (ctx, SpanContextFromContext ctx).
(** ** propagation.go *)
Definition TraceIDFromContext (c : C) : string :=
  let x := SpanContextFromContext c in if IsValid x then TraceID_String x else "".
Definition SpanIDFromContext (c : C) : string :=
  let x := SpanContextFromContext c in if IsValid x then SpanID_String x else "".
(** ** logger/ctx.go: the extractor in force, and logger_bridge.go *)
Definition TraceExtractor : Type := option C → string * string.
Definition no_extractor : TraceExtractor := λ _, ("", "").
Definition SetTraceExtractor (fn : option TraceExtractor) (cur : TraceExtractor) : TraceExtractor := default cur fn.
Definition trace_extractor (c : option C) : string * string :=
  match c with
  | None => ("", "")
  | Some c =>
      let x := SpanContextFromContext c in
      if negb (IsValid x) then ("", "") else (TraceID_String x, SpanID_String x)
  end.
Definition registerLoggerBridge : TraceExtractor → TraceExtractor := SetTraceExtractor (Some trace_extractor).
(** A context as the logger reads it by the extractor in force. *)
Definition read_by (ex : TraceExtractor) (b : option BizCtxKeys) (c : C) : context := mkCtx b (ex (Some c)).
(** ** tcp_context.go: the context that [Load] answers *)
Definition loaded_context (parent : C) (r : load_result (SC := SC)) : C :=
  match l_span r with Some x => ContextWithSpanContext parent x | None => parent end.

(** ** A trace under way *)
(** What carries it on: a span of any kind; the headers of a message; the envelope of a published
    payload; a TCP session, which saves it under a message id and loads it when the answer comes,
    whatever else the map sees in between. The receiver has a context of its own. *)
Inductive hop :=
  | HSpan (kind : SpanKind) (name : string) (opts : list SpanStartOption) (draw : Z)
  | HHeaders (receiver : C)
  | HEnvelope (receiver : C)
  | HTcp (m : TCPContextMap (SC := SC)) (now : Z) (msgID : string) (ttl : Z) (device ins : string) (es : list (event (SC := SC)))
      (then_ : Z) (receiver : C).
Definition other_message (msgID : string) (e : event (SC := SC)) : bool :=
  match e with ESave _ _ id _ _ _ => negb (bool_decide (id = msgID)) | _ => true end.
(** [None] when the TCP session does not find it any more. *)
Definition hop_step (h : hop) (c : C) : option C :=
  match h with
  | HSpan Consumer name opts n => Some (StartConsumerSpan name opts n c)
  | HSpan Producer name opts n => Some (StartProducerSpan name opts n c)
  | HSpan _ name opts n => Some (StartSpan name opts n c)
  | HHeaders r => Some (MQExtract r (MQInject c))
  | HEnvelope r => Some (ExtractEnvelope r (InjectEnvelope c))
  | HTcp m now msgID ttl device ins es t r =>
      let m := run_events es (Save now (SpanContextFromContext c) msgID ttl device ins m) in
      let a := (Load t msgID m).1 in
      if forallb (other_message msgID) es && l_ok a then Some (loaded_context r a) else None
  end.
Fixpoint hops (hs : list hop) (c : C) : option C :=
  match hs with [] => Some c | h :: hs => c ← hop_step h c; hops hs c end.

(** ** What stays the same *)
(** The last kind among the options is the span's. *)
Definition span_kind (opts : list SpanStartOption) : SpanKind :=
  foldl (λ k o, match o with WithSpanKind k' => k' | _ => k end) Internal opts.
Lemma appended_kind opts k : span_kind (opts ++ [WithSpanKind k]) = k.
Proof. unfold span_kind. by rewrite foldl_app. Qed.
Lemma noop_span_is_current (enabled : bool) (c : C) : NoopSpan enabled (Some c) = (c, SpanContextFromContext c).
Proof. by destruct enabled. Qed.
(** What the bridge writes are the ids of the other helpers. *)
Lemma extractor_ids (c : C) : trace_extractor (Some c) = (TraceIDFromContext c, SpanIDFromContext c).
Proof. unfold trace_extractor, TraceIDFromContext, SpanIDFromContext. by destruct (IsValid _). Qed.
(** A closed map answers nothing; otherwise what is found under the id was saved there. *)
Lemma quiet_entry msgID (es : list (event (SC := SC))) m t :
  forallb (other_message msgID) es = true → l_ok (Load t msgID (run_events es m)).1 = true →
  ∃ e, items m !! msgID = Some e ∧ (Load t msgID (run_events es m)).1 = mkLoad (Some (sc e)) (deviceNo e) (insType e) true ∧
       IsValid (sc e) = true ∧ closed m = false ∧ msgID ≠ "".
Proof.
  revert m. induction es as [|e es IH]; intros m Hq; cbn [run_events foldl flip].
  - unfold Load. destruct (closed m) eqn:Ec; [done|]. case_bool_decide as Hid; [done|]. cbn [orb fst].
    unfold answer. destruct (items m !! msgID) as [e|]; [|done]. intros Hok. exists e.
    destruct (expireAt e <? t); [done|]. destruct (IsValid (sc e)) eqn:Ev; done.
  - cbn [forallb] in Hq. apply andb_true_iff in Hq as [He Hq]. intros Hok.
    destruct (IH (step e m) Hq Hok) as (x & Hx & Hl & Hv & Hc & Hid). exists x.
    fold (run_events es (step e m)). rewrite Hl. destruct e as [t' c' id ttl dev ins|t' id|t'|t']; cbn [step] in *.
    + unfold Save in Hx, Hc. destruct (closed m || bool_decide (id = "")); [done|]. cbn [other_message] in He. apply negb_true_iff, bool_decide_eq_false in He.
      cbn [with_items items closed] in *. by rewrite lookup_insert_ne in Hx by done.
    + unfold Load in Hx, Hc. destruct (closed m || bool_decide (id = "")); [done|]. cbn [snd with_items items closed] in *.
      apply lookup_delete_Some in Hx as [_ Hx]. done.
    + unfold sweep in Hx, Hc. cbn [with_items items closed] in *. apply map_lookup_filter_Some in Hx as [Hx _]. done.
    + done.
Qed.
Context {OL : OtelLaws C SC}.
Definition carries (id : string) (c : C) : Prop := IsValid (SpanContextFromContext c) = true ∧ TraceID_String (SpanContextFromContext c) = id.
Lemma extract_carries tid (c r : C) m :
  carries tid c → m !! HeaderTraceparent = Inject c ∅ !! HeaderTraceparent → carries tid (Extract r m).
Proof. intros [Hv <-] Hm. by apply extract_inject. Qed.
Lemma hop_carries tid h (c c' : C) : carries tid c → hop_step h c = Some c' → carries tid c'.
Proof.
  intros Hc. pose proof Hc as [Hv Hi]. destruct (inject_traceparent c Hv) as (tp & Htp & Hin). destruct h as [kind name opts n|r|r|m now id' ttl dev ins es t r].
  - assert (∀ os, carries tid (Start "compkg/trace" os name n c)) as Hs by (intros os; destruct (start_child "compkg/trace" os name n c Hv) as [? Ht]; split; congruence).
    destruct kind; intros [= <-]; apply Hs.
  - intros [= <-]. unfold MQExtract, MQInject, InjectMap. rewrite bool_decide_eq_false_2 by (intros E; rewrite E in Hin; done).
    by apply extract_carries with c.
  - intros [= <-]. unfold ExtractEnvelope, InjectEnvelope, envelope_carrier, InjectMap. cbn [Traceparent Tracestate]. rewrite Hin. cbn [default].
    unfold id. rewrite bool_decide_eq_false_2 by done. apply extract_carries with c; [done|]. rewrite Hin.
    case_bool_decide; [by rewrite lookup_singleton_eq|]. rewrite lookup_insert_ne by done. by rewrite lookup_singleton_eq.
  - cbn [hop_step]. destruct (forallb _ es) eqn:Hq; [|done]. cbn [andb]. destruct (l_ok _) eqn:Hok; [|done]. intros [= <-].
    destruct (quiet_entry _ _ _ _ Hq Hok) as (e & He & -> & Hve & Hcl & Hid). unfold loaded_context. cbn [l_span].
    unfold Save in He, Hcl. destruct (closed m) eqn:Em; cbn [orb] in *; [congruence|]. rewrite bool_decide_eq_false_2 in He by done.
    cbn [with_items items] in He. rewrite lookup_insert_eq in He. injection He as <-. cbn [sc].
    unfold carries. by rewrite with_span_context.
Qed.

(** C30: A trace is one all the way. Once the bridge is registered, whatever extractor was before, a context with a valid span
    that goes on through spans of any kind, message headers, envelopes and TCP sessions that find
    it again, keeps its trace id, and every line logged under the context at the end begins with
    that id. *)
Theorem trace_follows (hs : list hop) (c c' : C) (ex : TraceExtractor) (b : option BizCtxKeys) (d d' : driver) (lvl : Z) (msg : string) (l : line) :
  IsValid (SpanContextFromContext c) = true → hops hs c = Some c' →
  TraceIDFromContext c' = TraceIDFromContext c ∧ TraceIDFromContext c ≠ "" ∧
  (log lvl msg (Ctx (Some d) (Some (read_by (registerLoggerBridge ex) b c'))) ∅ d = (Some l, d') →
   head (l_fields l) = Some ("trace_id", FStr (TraceIDFromContext c))).
Proof.
  intros Hv Hh. assert (carries (TraceIDFromContext c) c) as Hc by (unfold carries, TraceIDFromContext; by rewrite Hv).
  assert (TraceIDFromContext c ≠ "") as Hne by (unfold TraceIDFromContext; rewrite Hv; by apply valid_trace).
  assert (carries (TraceIDFromContext c) c') as [Hv' Hi'].
  { clear Hv Hne. generalize dependent (TraceIDFromContext c). intros tid Hc. revert c Hh Hc.
    induction hs as [|h hs IH]; intros c Hh Hc; cbn [hops] in Hh; [by injection Hh as <-|].
    apply bind_Some in Hh as (c1 & H1 & H2). eapply IH; [exact H2|]. by eapply hop_carries. }
  assert (TraceIDFromContext c' = TraceIDFromContext c) as Hid by (unfold TraceIDFromContext at 1; by rewrite Hv').
  split_and!; [done|done|]. unfold log, driver_log, buildFields, Ctx. cbn [e_ctx e_fields].
  unfold ctx_fields, read_by, registerLoggerBridge, SetTraceExtractor. cbn [extractTrace trace_ids default]. unfold id. rewrite extractor_ids, Hid, bool_decide_eq_false_2 by done.
  destruct (allow lvl (d_sampler d)) as [[] sm]; cbn [negb]; [|done]. destruct (lvl <? d_level d); [done|]. by intros [= <- _].
Qed.
End spans.

(** ** A concrete instance: two numbers, and the header of the W3C *)
Definition ids : Type := Z * Z.
#[global] Instance ids_SpanContexts : SpanContexts ids :=
  { IsValid x := (0 <? x.1) && (x.1 <? 2 ^ 63) && (0 <? x.2) && (x.2 <? 2 ^ 63) }.
Definition traceparent (x : ids) : string := Join ["00"; fmt_0d 32 x.1; fmt_0d 16 x.2; "01"] "-".
Definition parse_traceparent (s : string) : option ids :=
  match Split "-" s with
  | ["00"; t; s; "01"] => t ← ParseInt t; s ← ParseInt s; Some (t, s)
  | _ => None
  end.
#[global] Instance ids_Propagator : Propagator ids := {
  Inject c m := if IsValid c then <[HeaderTraceparent := traceparent c]> m else m;
  Extract c m := default c (m !! HeaderTraceparent ≫= parse_traceparent) }.
#[global] Instance ids_Otel : Otel ids ids := {
  otel_Background := (0, 0);
  SpanContextFromContext c := c;
  ContextWithSpanContext _ x := x;
  Start _ _ _ n c := (if IsValid c then c.1 else Z.max 1 (n mod 2 ^ 63), Z.max 1 (n mod 2 ^ 63));
  TraceID_String x := fmt_0d 32 x.1;
  SpanID_String x := fmt_0d 16 x.2 }.
Lemma traceparent_read x : IsValid x = true → parse_traceparent (traceparent x) = Some x.
Proof.
  destruct x as [t s]. cbn [IsValid ids_SpanContexts fst snd]. intros Hv.
  assert (0 < t < 2 ^ 63 ∧ 0 < s < 2 ^ 63) as [Ht Hs] by lia.
  assert (∀ w n, 0 <= n → without "-" (fmt_0d w n) = true) as Hw by (intros w n Hn; by apply digits_without, fmt_0d_digits).
  unfold parse_traceparent, traceparent. rewrite Split_Join; [|done|].
  - cbn [fst snd]. by rewrite !ParseInt_fmt_0d by lia.
  - cbn [fst snd]. repeat constructor; apply Hw; lia.
Qed.
#[global] Instance ids_OtelLaws : OtelLaws ids ids.
Proof.
  assert (∀ c, IsValid c = true → Inject c ∅ !! HeaderTraceparent = Some (traceparent c)) as Hin.
  { intros c Hc. cbn. cbn in Hc. rewrite Hc. by rewrite lookup_insert_eq. }
  split.
  - done.
  - intros [t s] Hv E. pose proof (ParseInt_fmt_0d 32 t) as Hp. cbn in Hv, E. rewrite E in Hp. by discriminate Hp; lia.
  - intros tr os name n [t s] Hv. cbn [SpanContextFromContext Start ids_Otel] in *. rewrite Hv. split; [|done].
    pose proof (Z.mod_pos_bound n (2 ^ 63) ltac:(lia)). cbn in Hv |- *. lia.
  - intros c Hc. exists (traceparent c). split; [done|by apply Hin].
  - intros c c' m Hc Hm0. assert (m !! HeaderTraceparent = Some (traceparent c)) as Hm by (rewrite <- (Hin c Hc); exact Hm0).
    cbn [SpanContextFromContext ids_Otel otel_propagator Extract ids_Propagator]. rewrite Hm.
    cbn [mbind option_bind]. rewrite traceparent_read by done. done.
Qed.
Definition some_hops : list (hop (C := ids) (SC := ids)) :=
  [HSpan Producer "dispatch" [] 7; HHeaders (0, 0); HSpan Consumer "waiter" [WithSpanKind Client] 8;
   HTcp (NewTCPContextMap 0) 0 "m1" Minute "dev" "play" [ESave 1 (9, 9) "m2" 0 "" ""; ESweep (2 * Second)] (3 * Second) (5, 5);
   HEnvelope (0, 0); HSpan Internal "ack" [] 11].
Definition plain_driver : driver := mkDriver InfoLevel [] None.
Definition traced_line : line :=
  mkLine InfoLevel "acked" [("trace_id", FStr (fmt_0d 32 42)); ("span_id", FStr (fmt_0d 16 11)); ("device_no", FStr "dev")].
Definition of_device : option BizCtxKeys := Some (mkBiz "dev" 0 "" 0 "").
Lemma trace_follows_witness :
  hops some_hops (42, 6) = Some (42, 11) ∧ l_fields traced_line = ctx_fields (Some (read_by (registerLoggerBridge (C := ids) (SC := ids) no_extractor) of_device (42, 11))) ∧
  (TraceIDFromContext (C := ids) (SC := ids) (42, 11) = TraceIDFromContext (42, 6) ∧ TraceIDFromContext (C := ids) (SC := ids) (42, 6) ≠ "" ∧
   (log InfoLevel "acked" (Ctx (Some plain_driver) (Some (read_by (registerLoggerBridge (C := ids) (SC := ids) no_extractor) of_device (42, 11)))) ∅ plain_driver = (Some traced_line, plain_driver) →
    head (l_fields traced_line) = Some ("trace_id", FStr (TraceIDFromContext (C := ids) (SC := ids) (42, 6))))).
Proof.
  split; [vm_compute; reflexivity|]. split; [vm_compute; reflexivity|].
  apply (trace_follows some_hops (42, 6) (42, 11) no_extractor of_device plain_driver plain_driver InfoLevel "acked" traced_line);
    vm_compute; reflexivity.
Defined.
