(* ===== verification/Util.v ===== *)
(** Small helpers (pkg/util, pkg/secret, pkg/trans): digits and bases, the charge of a battery,
    identifiers, and pointers. *)
From Stdlib Require Import Ascii SpecFloat.
From stdpp Require Import prelude gmap strings list.
From S2P Require Import Prelude GoStrings Digest Utf8 OldHashes GoFloat.

(** ** util.go *)
Definition Md5 (s : string) : string := hex_encode (md5 (to_bytes s)).
(** [math.Ceil]: the integer part, and one more for a positive rest. *)
Definition f_ceil (f : float64) : Z :=
  match f with
  | S754_finite s m e =>
      if 0 <=? e then (if s then - (Z.pos m * 2 ^ e) else Z.pos m * 2 ^ e)
      else if s then - (Z.pos m / 2 ^ (- e)) else - ((- Z.pos m) / 2 ^ (- e))
  | _ => 0
  end.
(** The quotient of a division by zero is not finite; converting it is up to the machine. *)
Definition DivideAndRoundUp (dividend divisor : Z) : option Z :=
  let q := fdiv (f_of_Z dividend) (f_of_Z divisor) in
  if is_finite q then Some (f_ceil q) else None.
(** [CountDigits]: twenty divisions are enough for an int64. *)
Fixpoint count_loop (fuel : nat) (n count : Z) : Z :=
  match fuel with
  | O => count
  | S fuel => if n =? 0 then count else count_loop fuel (Z.quot n 10) (count + 1)
  end.
Definition CountDigits (n : Z) : Z := count_loop 20 n 0.
Definition IsInArray {T} `{EqDecision T} (target : T) (arr : list T) : bool := existsb (λ x, bool_decide (x = target)) arr.
(** [os.Stat]'s and [os.Lstat]'s outcome: there, missing, or another error. *)
Inductive stat_result := Found | Missing | StatError.
Definition CheckFolder (r : stat_result) : bool := match r with Found => true | _ => false end.
Definition FileExist (r : stat_result) : bool := match r with Missing => false | _ => true end.
(** [GetTraceId]: sixteen letters at the places a random source answers. *)
Definition trace_letters : list Z := to_bytes "abcdefghijklmnopqrstuvwxyzABCDEFGHIJKLMNOPQRSTUVWXYZ".
Definition GetTraceId (intn : nat → nat) : string :=
  of_bytes (map (λ i, default 0 (trace_letters !! intn i)) (seq 0 16)).

Lemma count_loop_spec fuel n count :
  Z.abs n < 10 ^ Z.of_nat fuel → (∀ d, 0 < d → 10 ^ (d - 1) <= Z.abs n < 10 ^ d → count_loop fuel n count = count + d) ∧
  (n = 0 → count_loop fuel n count = count).
Proof.
  revert n count. induction fuel as [|fuel IH]; intros n count Hn.
  - change (Z.abs n < 1) in Hn. assert (n = 0) as -> by lia. split; [|done].
    intros d Hd [Hl _]. change (Z.abs 0) with 0 in Hl. pose proof (Z.pow_pos_nonneg 10 (d - 1)). lia.
  - cbn [count_loop]. split; [|by intros ->]. intros d Hd [Hl Hu].
    destruct (Z.eqb_spec n 0) as [->|Hne].
    { change (Z.abs 0) with 0 in Hl. pose proof (Z.pow_pos_nonneg 10 (d - 1)). lia. }
    assert (Z.abs (Z.quot n 10) = Z.abs n / 10) as Hq.
    { rewrite <-Z.quot_abs by lia. change (Z.abs 10) with 10. apply Z.quot_div_nonneg; lia. }
    destruct (IH (Z.quot n 10) (count + 1)) as [IH1 IH2].
    { rewrite Hq. rewrite Nat2Z.inj_succ, Z.pow_succ_r in Hn by lia. apply Z.div_lt_upper_bound; lia. }
    destruct (decide (d = 1)) as [->|Hd1].
    + rewrite IH2; [lia|]. change (10 ^ 1) with 10 in Hu.
      assert (Z.abs n / 10 = 0) as H0 by (apply Z.div_small; lia). lia.
    + rewrite (IH1 (d - 1)); [lia|lia|]. rewrite Hq. replace (10 ^ (d - 1)) with (10 * 10 ^ (d - 1 - 1)) in *
        by (rewrite <-Z.pow_succ_r by lia; f_equal; lia).
      replace (10 ^ d) with (10 * (10 * 10 ^ (d - 1 - 1))) in Hu by (rewrite <-!Z.pow_succ_r by lia; f_equal; lia).
      split; [apply Z.div_le_lower_bound; lia|apply Z.div_lt_upper_bound; lia].
Qed.
(** The digits of an int64 are counted whatever its sign; zero has none. *)
Lemma CountDigits_spec n d : in_i64 n → 0 < d → 10 ^ (d - 1) <= Z.abs n < 10 ^ d → CountDigits n = d.
Proof.
  intros Hn Hd Hr. unfold CountDigits. destruct (count_loop_spec 20 n 0) as [Hs _].
  { unfold in_i64 in Hn. change (10 ^ Z.of_nat 20) with 100000000000000000000. lia. }
  by rewrite (Hs d).
Qed.
Example CountDigits_zero : map CountDigits [0; 9; 10; -9223372036854775808] = [0; 1; 2; 19].
Proof. reflexivity. Qed.
(** Past 2^53 the number of pages is that of the nearest float. *)
Example pages_lost : map (uncurry DivideAndRoundUp) [(10, 3); (9, 3); (0, 5); (1, 0); (9007199254740993, 1)]
  = [Some 4; Some 3; Some 0; None; Some 9007199254740992].
Proof. vm_compute. reflexivity. Qed.

(** *** [StructToMap], by reflection *)
(** A field: its name, whether it is exported, whether its kind is struct, and its value. *)
Record struct_field (V : Type) := mkSField { sf_Name : string; sf_exported : bool; sf_struct : bool; sf_value : V }.
#[global] Arguments mkSField {V}. #[global] Arguments sf_Name {V}. #[global] Arguments sf_exported {V}.
#[global] Arguments sf_struct {V}. #[global] Arguments sf_value {V}.
Inductive reflected (V : Type) := RStruct (fields : list (struct_field V)) | RNotStruct.
#[global] Arguments RStruct {V}. #[global] Arguments RNotStruct {V}.
Fixpoint struct_loop {V} (fields : list (struct_field V)) (data : gmap string V) : gores (gmap string V) :=
  match fields with
  | [] => Ret data
  | fd :: fields =>
      if sf_struct fd then struct_loop fields data
      else if sf_exported fd then struct_loop fields (<[sf_Name fd := sf_value fd]> data)
      else Panic "reflect.Value.Interface: cannot return value obtained from unexported field or method"
  end.
Definition StructToMap {V} (obj : reflected V) : gores (gmap string V) :=
  match obj with RStruct fields => struct_loop fields ∅ | RNotStruct => Panic "reflect: NumField of non-struct type" end.
(** Without an unexported field among them, the map has the fields that are no structs; with one,
    the call panics. *)
Lemma struct_loop_spec {V} (fields : list (struct_field V)) (data : gmap string V) :
  struct_loop fields data =
    if forallb (λ fd, sf_struct fd || sf_exported fd) fields
    then Ret (foldl (λ m fd, <[sf_Name fd := sf_value fd]> m) data (filter (λ fd, sf_struct fd = false) fields))
    else Panic "reflect.Value.Interface: cannot return value obtained from unexported field or method".
Proof.
  revert data. induction fields as [|fd fields IH]; intros data; [done|]. cbn [struct_loop forallb].
  destruct (sf_struct fd) eqn:Es; [by rewrite filter_cons_False by congruence|]. rewrite filter_cons_True by done.
  destruct (sf_exported fd); [apply IH|done].
Qed.
Example struct_to_map_panics :
  StructToMap (RStruct [mkSField "Name" true false "x"; mkSField "Inner" true true "y"]) = Ret {["Name" := "x"]} ∧
  StructToMap (RStruct [mkSField "Name" true false "x"; mkSField "id" false false "7"]) =
    Panic "reflect.Value.Interface: cannot return value obtained from unexported field or method".
Proof. split; vm_compute; reflexivity. Qed.

(** *** The charge of a battery *)
Definition DefaultMaxVoltage : Z := 4150.
Definition DefaultMaxVoltageX : Z := 4050.
Definition DefaultMaxVoltageNX : Z := 4150.
Definition DefaultMinVoltage : Z := 3450.
Definition DefaultMinVoltageX : Z := 3350.
Record VoltageCalculate := mkVoltage { BatteryVoltage : Z; DeviceType : string }.
Definition voltage_range (deviceType : string) : Z * Z :=
  if has_suffix deviceType "X" then (DefaultMaxVoltageX, DefaultMinVoltageX)
  else if has_suffix deviceType "T" then (DefaultMaxVoltageNX, DefaultMinVoltageX)
  else (DefaultMaxVoltage, DefaultMinVoltage).
Definition charge (maxV minV v : Z) : Z :=
  if maxV <? v then 100
  else if v <=? minV then 1
  else
    let p := 100 - f_ceil (fmul (fdiv (f_of_Z (maxV - v)) (f_of_Z (maxV - minV))) (f_of_Z 10)) * 10 in
    if p =? 0 then 1 else p.
Definition DeviceVoltageCalculate (i : VoltageCalculate) : Z :=
  let '(maxV, minV) := voltage_range (DeviceType i) in charge maxV minV (BatteryVoltage i).
(** The same in integers: steps of ten per cent, rounded down, and one instead of none. *)
Definition charge_steps (maxV minV v : Z) : Z :=
  if maxV <? v then 100
  else if v <=? minV then 1
  else let p := 100 - (- (- (10 * (maxV - v)) / (maxV - minV))) * 10 in if p =? 0 then 1 else p.
Fixpoint charges_agree (n : nat) (maxV minV v : Z) : bool :=
  match n with
  | O => true
  | S n => (charge maxV minV v =? charge_steps maxV minV v) && charges_agree n maxV minV (v + 1)
  end.
Lemma charges_agree_spec n maxV minV v u :
  charges_agree n maxV minV v = true → v <= u < v + Z.of_nat n → charge maxV minV u = charge_steps maxV minV u.
Proof.
  revert v. induction n as [|n IH]; intros v Hc Hu; [lia|]. cbn [charges_agree] in Hc.
  apply andb_true_iff in Hc as [Hv Hc]. apply Z.eqb_eq in Hv.
  destruct (decide (u = v)) as [->|Hne]; [done|]. apply (IH (v + 1)); [done|lia].
Qed.
Lemma charges_checked :
  charges_agree 700 4150 3450 3451 && charges_agree 700 4050 3350 3351 && charges_agree 800 4150 3350 3351 = true.
Proof. vm_compute. reflexivity. Qed.
Lemma charge_exact deviceType v :
  let '(maxV, minV) := voltage_range deviceType in charge maxV minV v = charge_steps maxV minV v.
Proof.
  pose proof charges_checked as Hc. apply andb_true_iff in Hc as [[H1 H2]%andb_true_iff H3].
  assert (∀ n maxV minV lo, charges_agree n maxV minV lo = true → lo = minV + 1 → maxV = minV + Z.of_nat n →
    charge maxV minV v = charge_steps maxV minV v) as Hg.
  { intros n maxV minV lo Ha Hlo Hm. destruct (Z.ltb_spec maxV v) as [Hlt|Hge].
    { unfold charge, charge_steps. by replace (maxV <? v) with true by lia. }
    destruct (Z.leb_spec v minV) as [Hle|Hgt].
    { unfold charge, charge_steps. replace (maxV <? v) with false by lia. by replace (v <=? minV) with true by lia. }
    eapply charges_agree_spec; [exact Ha|lia]. }
  unfold voltage_range. destruct (has_suffix deviceType "X"); [exact (Hg _ _ _ _ H2 eq_refl eq_refl)|].
  destruct (has_suffix deviceType "T"); [exact (Hg _ _ _ _ H3 eq_refl eq_refl)|exact (Hg _ _ _ _ H1 eq_refl eq_refl)].
Qed.

(** The charge. The floating-point percentage is, at every voltage and for every device type,
    the exact integer one: between 1 and 100, and never lower at a higher voltage. *)
Lemma charge_in_steps (i : VoltageCalculate) :
  let '(maxV, minV) := voltage_range (DeviceType i) in
  DeviceVoltageCalculate i = charge_steps maxV minV (BatteryVoltage i) ∧
  1 <= DeviceVoltageCalculate i <= 100 ∧
  ∀ j, DeviceType j = DeviceType i → BatteryVoltage i <= BatteryVoltage j → DeviceVoltageCalculate i <= DeviceVoltageCalculate j.
Proof.
  assert (∀ j, let '(maxV, minV) := voltage_range (DeviceType j) in
    DeviceVoltageCalculate j = charge_steps maxV minV (BatteryVoltage j)) as He.
  { intros j. unfold DeviceVoltageCalculate. pose proof (charge_exact (DeviceType j) (BatteryVoltage j)) as Hx.
    by destruct (voltage_range (DeviceType j)). }
  pose proof (He i) as Hi. destruct (voltage_range (DeviceType i)) as [maxV minV] eqn:Er.
  assert (minV < maxV) as Hr.
  { revert Er. unfold voltage_range. repeat case_match; intros [= <- <-]; done. }
  assert (∀ v, minV < v <= maxV → 0 <= 100 - - (- (10 * (maxV - v)) / (maxV - minV)) * 10 <= 100) as Hp.
  { intros v Hv. assert (-10 <= - (10 * (maxV - v)) / (maxV - minV)) by (apply Z.div_le_lower_bound; nia).
    assert (- (10 * (maxV - v)) / (maxV - minV) <= 0) by (apply Z.div_le_upper_bound; lia). lia. }
  split_and!; [done|rewrite Hi; unfold charge_steps|rewrite Hi; unfold charge_steps|].
  - specialize (Hp (BatteryVoltage i)). repeat case_bool; lia.
  - specialize (Hp (BatteryVoltage i)). repeat case_bool; lia.
  - intros j Hj Hle. pose proof (He j) as Hje. rewrite Hj, Er in Hje. rewrite Hi, Hje. unfold charge_steps.
    pose proof (Hp (BatteryVoltage i)) as Hp1. pose proof (Hp (BatteryVoltage j)) as Hp2.
    assert (- (10 * (maxV - BatteryVoltage i)) / (maxV - minV) <= - (10 * (maxV - BatteryVoltage j)) / (maxV - minV)) as Hm
      by (apply Z.div_le_mono; lia).
    repeat case_bool; lia.
Qed.
Example charge_example : map (λ v, DeviceVoltageCalculate (mkVoltage v "BX")) [3350; 3351; 3420; 3421; 4049; 4050; 4051] =
  [1; 1; 10; 10; 90; 100; 100].
Proof. vm_compute. reflexivity. Qed.
(** A converted ratio; a storage of zero is left to the machine. *)
Definition DeviceStorageCalculate (fullStorage storage : Z) : option Z :=
  let q := fmul (fdiv (f_of_Z fullStorage) (f_of_Z storage)) f100 in if is_finite q then Some (f_trunc q) else None.

(** ** Identifiers and addresses, over their libraries *)
(** [uuid.NewUUID]: on an error the zero UUID is printed. *)
Definition GetUUID {U} (NewUUID : U * option goerr) (uuid_String : U → string) : string := uuid_String NewUUID.1.
(** The public address: the answer to the request, and the reading of its body. *)
Definition GetOurBoundIP (Get : goerr + (goerr + string)) : string * option goerr :=
  match Get with
  | inl err => ("", Some err)
  | inr (inl err) => ("", Some err)
  | inr (inr body) => (body, None)
  end.
(** Package net/url: parsing, with the text of the error; the field [Host]; and printing. *)
Class Urls (U : Type) := { url_Parse : string → string + U; set_Host : string → U → U; url_String : U → string }.
Definition ReplaceHost `{Urls U} (rawUrl newHost : string) : gores string :=
  if bool_decide (rawUrl = "") then Ret ""
  else match url_Parse rawUrl with
       | inl err => Panic err
       | inr parsedURL => Ret (url_String (set_Host newHost parsedURL))
       end.

(** ** secret.go *)
(** Digits, small and capital letters: 62 of them; there is none for a negative remainder. *)
Definition digits62 : string := "0123456789abcdefghijklmnopqrstuvwxyzABCDEFGHIJKLMNOPQRSTUVWXYZ".
Definition tenToAny (r : Z) : string :=
  if r <? 0 then "" else match to_bytes digits62 !! Z.to_nat r with Some b => of_bytes [b] | None => "" end.
(** An int of 64 bits is zero after at most 64 divisions. *)
Fixpoint any_loop (fuel : nat) (num n : Z) (newNumStr : string) : string :=
  match fuel with
  | O => newNumStr
  | S fuel => if num =? 0 then newNumStr else any_loop fuel (Z.quot num n) n (tenToAny (Z.rem num n) +++ newNumStr)
  end.
Definition decimalToAny (num n : Z) : string := any_loop 64 num n "".
(** The position of a digit; 62 of one that is none. *)
Fixpoint position (b : Z) (l : list Z) : Z := match l with [] => 0 | x :: l => if x =? b then 0 else 1 + position b l end.
Definition findKey (b : Z) : Z := let p := position b (to_bytes digits62) in if p =? 62 then -1 else p.
(** [anyToDecimal], over [math.Pow]: in floating point, up to the first character that is no
    digit; a result outside of int is up to the machine. *)
Fixpoint decimal_loop (Pow : float64 → float64 → float64) (l : list Z) (n nNum : Z) (newNum : float64) : float64 :=
  match l with
  | [] => newNum
  | value :: l =>
      let tmp := findKey value in
      if tmp =? -1 then newNum
      else decimal_loop Pow l n (nNum - 1) (fadd newNum (fmul (f_of_Z tmp) (Pow (f_of_Z n) (f_of_Z nNum))))
  end.
Definition anyToDecimal (Pow : float64 → float64 → float64) (num : string) (n : Z) : option Z :=
  let newNum := decimal_loop Pow (runes num) n (zlen (runes num) - 1) f0 in
  if is_finite newNum && (- 2 ^ 63 <=? f_trunc newNum) && (f_trunc newNum <? 2 ^ 63) then Some (f_trunc newNum) else None.
(** The digits are given back below [2^53]; above, the float rounds. *)
Definition exact_Pow (x y : float64) : float64 := f_of_Z (f_trunc x ^ f_trunc y).
Example any_to_decimal_examples :
  map (λ x, anyToDecimal exact_Pow (decimalToAny x 62) 62) [0; 61; 1000000; 2 ^ 53 - 1; 2 ^ 53 + 1] =
    [Some 0; Some 61; Some 1000000; Some (2 ^ 53 - 1); Some (2 ^ 53)] ∧
  anyToDecimal exact_Pow "1-2" 10 = Some 100.
Proof. vm_compute. split; reflexivity. Qed.
(** [id] is what the snowflake node gave. *)
Definition GetAppId (id : string) : string := decimalToAny (default 0 (ParseInt id)) 62.
Definition GetAppKey (id : string) : string := decimalToAny (default 0 (ParseInt id)) 32.
Definition GetAppSecret (appId : string) (nowMilli : Z) : string := hex_encode (sha1 (to_bytes (appId +++ FormatInt nowMilli))).

(** The number that digits of a base stand for. *)
Definition any_value (n : Z) (s : string) : Z := foldl (λ v b, v * n + findKey b) 0 (to_bytes s).
Fixpoint digits_found (n : nat) (r : Z) : bool :=
  match n with O => true | S n => bool_decide (map findKey (to_bytes (tenToAny r)) = [r]) && digits_found n (r + 1) end.
Lemma digits_checked : digits_found 62 0 = true.
Proof. vm_compute. reflexivity. Qed.
Lemma tenToAny_digit r : 0 <= r < 62 → ∃ b, to_bytes (tenToAny r) = [b] ∧ findKey b = r.
Proof.
  assert (∀ n a, digits_found n a = true → ∀ r, a <= r < a + Z.of_nat n → map findKey (to_bytes (tenToAny r)) = [r]) as Hd.
  { induction n as [|n IH]; intros a Ha r' Hr; [lia|]. cbn [digits_found] in Ha. apply andb_true_iff in Ha as [H1 H2].
    apply bool_decide_eq_true in H1. destruct (decide (r' = a)) as [->|]; [done|]. apply (IH (a + 1)); [done|lia]. }
  intros Hr. specialize (Hd 62%nat 0 digits_checked r Hr). destruct (to_bytes (tenToAny r)) as [|b [|c l]]; try done.
  exists b. by injection Hd as ->.
Qed.
Lemma any_loop_value fuel num n acc :
  2 <= n <= 62 → 0 <= num < 2 ^ Z.of_nat fuel →
  foldl (λ v b, v * n + findKey b) 0 (to_bytes (any_loop fuel num n acc)) =
    foldl (λ v b, v * n + findKey b) num (to_bytes acc).
Proof.
  intros Hn. revert num acc. induction fuel as [|fuel IH]; intros num acc Hnum; cbn [any_loop].
  - change (2 ^ Z.of_nat 0) with 1 in Hnum. by assert (num = 0) as -> by lia.
  - destruct (Z.eqb_spec num 0) as [->|Hne]; [done|].
    rewrite Z.quot_div_nonneg, Z.rem_mod_nonneg by lia.
    destruct (tenToAny_digit (num mod n)) as (b & Hb & Hf); [pose proof (Z.mod_pos_bound num n); lia|].
    rewrite IH.
    + rewrite to_bytes_app, Hb. cbn [app foldl]. f_equal. rewrite Hf, Z.mul_comm, <-Z.div_mod; lia.
    + split; [apply Z.div_pos; lia|]. rewrite Nat2Z.inj_succ, Z.pow_succ_r in Hnum by lia.
      apply Z.div_lt_upper_bound; nia.
Qed.
(** Bases. The text of a number in a base of up to 62 stands for the number, so that numbers
    that differ have texts that differ, and application ids made of distinct ids are distinct. *)
Lemma decimalToAny_value (num n : Z) :
  2 <= n <= 62 → 0 <= num < 2 ^ 63 →
  any_value n (decimalToAny num n) = num ∧
  ∀ m, 0 <= m < 2 ^ 63 → decimalToAny m n = decimalToAny num n → m = num.
Proof.
  intros Hn Hnum. assert (∀ m, 0 <= m < 2 ^ 63 → any_value n (decimalToAny m n) = m) as Hv.
  { intros m Hm. unfold any_value, decimalToAny. rewrite any_loop_value by (change (2 ^ Z.of_nat 64) with (2 ^ 64); lia). done. }
  split; [by apply Hv|]. intros m Hm E. rewrite <-(Hv m Hm), E. by apply Hv.
Qed.
Lemma decimalToAny_value_witness :
  any_value 62 (decimalToAny 1541815603606036480 62) = 1541815603606036480 ∧
  ∀ m, 0 <= m < 2 ^ 63 → decimalToAny m 62 = decimalToAny 1541815603606036480 62 → m = 1541815603606036480.
Proof. apply (decimalToAny_value 1541815603606036480 62); lia. Defined.
Example app_id_example : (GetAppId "1541815603606036480", GetAppKey "35", GetAppSecret "a" 1) =
  ("1PTwYk4wGzu", "13", "f29bc91bbdab169fc0c0a326965953d11c7dff83").
Proof. vm_compute. reflexivity. Qed.
