(* ===== verification/Trans.v ===== *)
(** Pointers (pkg/trans): a pointer to a copy of a value, the value of a pointer that may be nil,
    and slices of pointers to the elements of a slice, for every basic type. *)
From Stdlib Require Import SpecFloat.
From stdpp Require Import prelude gmap strings list.
From S2P Require Import Prelude GoFloat.

(** ** The four helpers *)
(** Memory of values of one type; a pointer may be nil; a slice that is not nil is the places of
    its elements. *)
Abbreviation memory T := (gmap positive T).
Abbreviation pointer := (option positive).
Abbreviation slice := (option (list positive)).
Section trans.
Context {T : Type} (zero : T).
(** [&a] of a parameter: a place of its own. *)
Definition new (a : T) (m : memory T) : pointer * memory T :=
  let l := fresh (dom m) in (Some l, <[l := a]> m).
Definition deref (m : memory T) (p : pointer) : T := match p with None => zero | Some l => default zero (m !! l) end.
(** [res[i] = &a[i]]: no element is copied. *)
Definition addresses (a : slice) : option (list pointer) := match a with None => None | Some ls => Some (map Some ls) end.
(** A new slice, in its order; nil pointers give the zero value. *)
Definition values (m : memory T) (a : option (list pointer)) : option (list T) :=
  match a with None => None | Some ps => Some (map (deref m) ps) end.
(** What a slice holds. *)
Definition contents (m : memory T) (a : slice) : option (list T) :=
  match a with None => None | Some ls => Some (map (λ l, default zero (m !! l)) ls) end.

Lemma new_deref a m : let '(p, m') := new a m in deref m' p = a ∧ ∀ l, l ∈ dom m → m' !! l = m !! l.
Proof.
  unfold new. cbv zeta. split; cbn.
  - by rewrite lookup_insert_eq.
  - intros l Hl. rewrite lookup_insert_ne; [done|]. intros <-. by apply is_fresh in Hl.
Qed.
(** The pointers of a slice read what it holds, also after a write through one of them, and the
    slice sees that write. *)
Lemma addresses_alias m a : values m (addresses a) = contents m a.
Proof. destruct a as [ls|]; [|done]. cbn. by rewrite map_map. Qed.
Lemma addresses_write m ls i l x :
  NoDup ls → ls !! i = Some l →
  values (<[l := x]> m) (addresses (Some ls)) = contents (<[l := x]> m) (Some ls) ∧
  contents (<[l := x]> m) (Some ls) = (λ vs, <[i := x]> vs) <$> contents m (Some ls).
Proof.
  intros Hnd Hi. split; [apply addresses_alias|]. cbn. f_equal. apply list_eq. intros j.
  change (@map positive T) with (@fmap list _ positive T).
  destruct (decide (j = i)) as [->|Hne].
  - rewrite list_lookup_insert_eq by (rewrite length_fmap; by eapply lookup_lt_Some).
    rewrite list_lookup_fmap, Hi. cbn. by rewrite lookup_insert_eq.
  - rewrite list_lookup_insert_ne by done. rewrite !list_lookup_fmap. destruct (ls !! j) as [l'|] eqn:Hj; [|done].
    cbn. rewrite lookup_insert_ne; [done|]. intros <-. by apply Hne, (NoDup_lookup ls j i l).
Qed.
End trans.

(** ** The types of the package *)
Definition String_ptr := @new string.
Definition StringValue := @deref string "".
Definition StringSlice := addresses.
Definition StringSliceValue := @values string "".
Definition Int_ptr := @new Z.
Definition IntValue := @deref Z 0.
Definition IntSlice := addresses.
Definition IntValueSlice := @values Z 0.
Definition Int8_ptr := @new Z.
Definition Int8Value := @deref Z 0.
Definition Int8Slice := addresses.
Definition Int8ValueSlice := @values Z 0.
Definition Int16_ptr := @new Z.
Definition Int16Value := @deref Z 0.
Definition Int16Slice := addresses.
Definition Int16ValueSlice := @values Z 0.
Definition Int32_ptr := @new Z.
Definition Int32Value := @deref Z 0.
Definition Int32Slice := addresses.
Definition Int32ValueSlice := @values Z 0.
Definition Int64_ptr := @new Z.
Definition Int64Value := @deref Z 0.
Definition Int64Slice := addresses.
Definition Int64ValueSlice := @values Z 0.
Definition Bool_ptr := @new bool.
Definition BoolValue := @deref bool false.
Definition BoolSlice := addresses.
Definition BoolSliceValue := @values bool false.
Definition Uint_ptr := @new Z.
Definition UintValue := @deref Z 0.
Definition UintSlice := addresses.
Definition UintValueSlice := @values Z 0.
Definition Uint8_ptr := @new Z.
Definition Uint8Value := @deref Z 0.
Definition Uint8Slice := addresses.
Definition Uint8ValueSlice := @values Z 0.
Definition Uint16_ptr := @new Z.
Definition Uint16Value := @deref Z 0.
Definition Uint16Slice := addresses.
Definition Uint16ValueSlice := @values Z 0.
Definition Uint32_ptr := @new Z.
Definition Uint32Value := @deref Z 0.
Definition Uint32Slice := addresses.
Definition Uint32ValueSlice := @values Z 0.
Definition Uint64_ptr := @new Z.
Definition Uint64Value := @deref Z 0.
Definition Uint64Slice := addresses.
Definition Uint64ValueSlice := @values Z 0.
Definition Float32_ptr := @new spec_float.
Definition Float32Value := @deref spec_float f0.
Definition Float32Slice := addresses.
Definition Float32ValueSlice := @values spec_float f0.
Definition Float64_ptr := @new spec_float.
Definition Float64Value := @deref spec_float f0.
Definition Float64Slice := addresses.
Definition Float64ValueSlice := @values spec_float f0.
