(* ===== verification/Cdn.v ===== *)
(** The CDN client (pkg/cdn): its options, the one function that posts, and how a response's
    status becomes an error. *)
From Stdlib Require Import Ascii.
From stdpp Require Import prelude strings list.
From S2P Require Import Prelude GoStrings Digest.

(** ** Errors and options *)
Definition ErrFileNotFound : goerr := ErrSentinel "cdn: file not found".
Definition ErrQueueFull : goerr := ErrSentinel "cdn: download queue full".
Definition ErrDiskFull : goerr := ErrSentinel "cdn: disk space insufficient".
Definition ErrUnauthorized : goerr := ErrSentinel "cdn: unauthorized".
Definition ErrForbidden : goerr := ErrSentinel "cdn: forbidden".
Definition ErrBadRequest : goerr := ErrSentinel "cdn: bad request".
Record Options := mkOptions { ApiUrl : string; FileUrl : string; ApiKey : string; CallbackUrl : string; Timeout : Z }.
Definition Option := Options → Options.
Definition WithApiUrl (u : string) : Option := λ o, mkOptions u (FileUrl o) (ApiKey o) (CallbackUrl o) (Timeout o).
Definition WithFileUrl (u : string) : Option := λ o, mkOptions (ApiUrl o) u (ApiKey o) (CallbackUrl o) (Timeout o).
Definition WithApiKey (k : string) : Option := λ o, mkOptions (ApiUrl o) (FileUrl o) k (CallbackUrl o) (Timeout o).
Definition WithCallbackUrl (u : string) : Option := λ o, mkOptions (ApiUrl o) (FileUrl o) (ApiKey o) u (Timeout o).
Definition WithTimeout (t : Z) : Option := λ o, mkOptions (ApiUrl o) (FileUrl o) (ApiKey o) (CallbackUrl o) t.
Definition NewClient (opts : list Option) : Options := foldl (λ o f, f o) (mkOptions "" "" "" "" (10 * Second)) opts.

(** ** Requests and responses *)
Record DownloadRequest := mkDownloadRequest { dr_Url : string; dr_CallbackUrl : string; dr_ExpiryMinutes : Z }.
Record DownloadResponse := mkDownloadResponse { TaskId : string; d_Status : string; d_AccessUrl : string; d_Message : string }.
Record SignRequest := mkSignRequest { Path : string; sr_ExpiryMinutes : Z }.
Record SignResponse := mkSignResponse { s_Status : string; s_AccessUrl : string; s_ExpiryMinutes : Z; s_Message : string }.
(** What is sent: method, address, body, and the headers of a post. *)
Record request := mkRequest { method : string; address : string; content : string; headers : list (string * string) }.
(** How an exchange ends: the request cannot be made or sent, its body cannot be read, or the
    status and the body. *)
Inductive exchange := NotMade (tag : string) | NotSent (tag : string) | NotRead (tag : string) | Response (status : Z) (text : string).

(** [strings.TrimRight(s, slash)]. *)
Fixpoint drop_slashes (l : list Z) : list Z :=
  match l with b :: l' => if b =? 47 then drop_slashes l' else l | [] => [] end.
Definition TrimRight_slash (s : string) : string := of_bytes (reverse (drop_slashes (reverse (to_bytes s)))).

(** What an answer that is not 2xx means. *)
Definition status_error (status : Z) (text : string) : goerr :=
  if status =? 404 then ErrFileNotFound
  else if status =? 400 then ErrWrap text ErrBadRequest
  else if status =? 401 then ErrUnauthorized
  else if status =? 403 then ErrForbidden
  else if status =? 429 then ErrQueueFull
  else if status =? 507 then ErrDiskFull
  else ErrNew ("unexpected status " +++ FormatInt status +++ ": " +++ text).

Section client.
(** [encoding/json] on the structs, and the network. *)
Context {HealthResponse : Type} (marshal_download : DownloadRequest → string) (marshal_sign : SignRequest → string)
  (unmarshal_download : string → option DownloadResponse) (unmarshal_sign : string → option SignResponse)
  (unmarshal_health : string → option HealthResponse) (net : request → exchange).
(** [doPost] with the body and how the response is read. *)
Definition doPost {A} (c : Options) (path reqBody : string) (unmarshal : string → option A) : goerr + A :=
  let req := mkRequest "POST" (TrimRight_slash (ApiUrl c) +++ path) reqBody
               [("Content-Type", "application/json"); ("X-API-Key", ApiKey c)] in
  match net req with
  | NotMade t => inl (ErrWrap "new request" (ErrExt t))
  | NotSent t => inl (ErrWrap "do request" (ErrExt t))
  | NotRead t => inl (ErrWrap "read response" (ErrExt t))
  | Response status text =>
      if (200 <=? status) && (status <? 300) then
        match unmarshal text with Some a => inr a | None => inl (ErrWrap "unmarshal response" (ErrExt "json")) end
      else inl (status_error status text)
  end.
Definition wrap {A} (msg : string) (r : goerr + A) : goerr + A := match r with inl e => inl (ErrWrap msg e) | inr a => inr a end.
Definition Download (c : Options) (cosUrl : string) (expiryMinutes : Z) : goerr + DownloadResponse :=
  wrap "cdn download" (doPost c "/api/download" (marshal_download (mkDownloadRequest cosUrl (CallbackUrl c) expiryMinutes)) unmarshal_download).
Definition Sign (c : Options) (cdnPath : string) (expiryMinutes : Z) : goerr + SignResponse :=
  wrap "cdn sign" (doPost c "/api/sign" (marshal_sign (mkSignRequest cdnPath expiryMinutes)) unmarshal_sign).
(** Only 200 is healthy here. *)
Definition Health (c : Options) : goerr + HealthResponse :=
  match net (mkRequest "GET" (TrimRight_slash (ApiUrl c) +++ "/health") "" []) with
  | NotMade t => inl (ErrWrap "cdn health new request" (ErrExt t))
  | NotSent t => inl (ErrWrap "cdn health request" (ErrExt t))
  | NotRead t => inl (ErrWrap "cdn health read body" (ErrExt t))
  | Response status text =>
      if negb (status =? 200) then inl (ErrNew ("cdn health status " +++ FormatInt status +++ ": " +++ text))
      else match unmarshal_health text with Some a => inr a | None => inl (ErrWrap "cdn health unmarshal" (ErrExt "json")) end
  end.
(** [url.Parse]'s path, if the text is a URL. *)
Definition ExtractCdnPath (url_path : string → option string) (cosUrl : string) : string :=
  match url_path cosUrl with None => "" | Some p => trim_prefix p "/" end.
Definition ExpiryHoursToMinutes (hours : Z) : Z := if hours <=? 0 then 0 else i64 (hours * 60).

(** The request a signature is asked with. *)
Definition sign_request (c : Options) (cdnPath : string) (expiryMinutes : Z) : request :=
  mkRequest "POST" (TrimRight_slash (ApiUrl c) +++ "/api/sign") (marshal_sign (mkSignRequest cdnPath expiryMinutes))
    [("Content-Type", "application/json"); ("X-API-Key", ApiKey c)].
(** The sentinel of a status. *)
Definition sentinel (status : Z) : option goerr :=
  match status with
  | 404 => Some ErrFileNotFound | 400 => Some ErrBadRequest | 401 => Some ErrUnauthorized
  | 403 => Some ErrForbidden | 429 => Some ErrQueueFull | 507 => Some ErrDiskFull | _ => None
  end.
Definition sentinels : list goerr := [ErrFileNotFound; ErrBadRequest; ErrUnauthorized; ErrForbidden; ErrQueueFull; ErrDiskFull].
Lemma status_error_is status text e : e ∈ sentinels → errors_Is (status_error status text) e = true ↔ sentinel status = Some e.
Proof.
  intros He. unfold status_error.
  assert (∀ st, st ∉ [404; 400; 401; 403; 429; 507] → sentinel st = None) as Hn.
  { intros st Hst. unfold sentinel. repeat case_match; try done; exfalso; apply Hst; set_solver. }
  unfold sentinels in He. rewrite !elem_of_cons, elem_of_nil in He.
  destruct (Z.eqb_spec status 404) as [->|?]; [by destruct_or! He; subst e|].
  destruct (Z.eqb_spec status 400) as [->|?]; [by destruct_or! He; subst e|].
  destruct (Z.eqb_spec status 401) as [->|?]; [by destruct_or! He; subst e|].
  destruct (Z.eqb_spec status 403) as [->|?]; [by destruct_or! He; subst e|].
  destruct (Z.eqb_spec status 429) as [->|?]; [by destruct_or! He; subst e|].
  destruct (Z.eqb_spec status 507) as [->|?]; [by destruct_or! He; subst e|].
  rewrite Hn by set_solver. cbn. destruct_or! He; subst e; done.
Qed.
(** Errors of the CDN. A signature is answered exactly if the response is 2xx and decodes; and
    [errors.Is] finds a sentinel in the error exactly if the response has that sentinel's status. *)
Lemma sign_errors (c : Options) (cdnPath : string) (expiryMinutes : Z) :
  (∀ r, Sign c cdnPath expiryMinutes = inr r ↔
     ∃ status text, net (sign_request c cdnPath expiryMinutes) = Response status text ∧
       200 <= status < 300 ∧ unmarshal_sign text = Some r) ∧
  (∀ s, s ∈ sentinels →
     (∃ e, Sign c cdnPath expiryMinutes = inl e ∧ errors_Is e s = true) ↔
     ∃ status text, net (sign_request c cdnPath expiryMinutes) = Response status text ∧ sentinel status = Some s).
Proof.
  unfold Sign, doPost. fold (sign_request c cdnPath expiryMinutes).
  destruct (net (sign_request c cdnPath expiryMinutes)) as [t|t|t|status text]; cbn [wrap].
  1-3: split; [intros r; split; [done|by intros (? & ? & ? & _)]|];
    intros s Hs; split; [intros (e & [= <-] & He)|by intros (? & ? & ? & _)];
    unfold sentinels in Hs; rewrite !elem_of_cons, elem_of_nil in Hs; destruct_or! Hs; by subst s.
  destruct ((200 <=? status) && (status <? 300)) eqn:Er.
  - split.
    + intros r. destruct (unmarshal_sign text) as [a|] eqn:Eu; cbn [wrap].
      * split; [intros [= <-]; exists status, text; split_and!; [done|lia|lia|done]|intros (? & ? & [= <- <-] & _ & ?); congruence].
      * split; [done|intros (? & ? & [= <- <-] & _ & ?); congruence].
    + intros s Hs. split.
      * destruct (unmarshal_sign text) as [a|]; cbn [wrap]; [by intros (e & ? & _)|]. intros (e & [= <-] & He).
        unfold sentinels in Hs. rewrite !elem_of_cons, elem_of_nil in Hs. destruct_or! Hs; by subst s.
      * intros (? & ? & [= <- <-] & Hst). exfalso. revert Hst. unfold sentinel. repeat case_match; try done; subst; lia.
  - split.
    + intros r. split; [done|]. intros (? & ? & [= <- <-] & Hst & _). lia.
    + intros s Hs. pose proof (status_error_is status text s Hs) as Hi. split.
      * intros (e & [= <-] & He). exists status, text. split; [done|]. apply Hi. cbn [errors_Is] in He.
        apply orb_true_iff in He as [He|He]; [|done]. apply bool_decide_eq_true in He.
        unfold sentinels in Hs. rewrite !elem_of_cons, elem_of_nil in Hs. destruct_or! Hs; by subst s.
      * intros (? & ? & [= <- <-] & Hst). eexists. split; [done|]. cbn [errors_Is]. apply orb_true_iff. right. by apply Hi.
Qed.
End client.
