(* ===== verification/ConfigSource.v ===== *)
(** The parts around the configuration loader (pkg/config): the Nacos source, the counters, and
    how a schema's verdict is printed. *)
From Stdlib Require Import Ascii.
From stdpp Require Import prelude gmap strings list.
From S2P Require Import Prelude GoStrings GoFloat.

(** ** source/nacos/nacos.go *)
Record NacosOptions := mkNacos {
  Servers : list string; NamespaceId : string; Group : string; DataIds : list string; Username : string;
  Password : string; AccessKey : string; SecretKey : string; LogDir : string; CacheDir : string; LogLevel : string;
  TimeoutMs : Z; NotLoadCacheAtStart : bool }.
Definition New (o : NacosOptions) : goerr + NacosOptions :=
  match Servers o, DataIds o with
  | [], _ => inl (ErrNew "nacos: servers required")
  | _, [] => inl (ErrNew "nacos: dataIds required")
  | _, _ =>
      inr (mkNacos (Servers o) (NamespaceId o) (if bool_decide (Group o = "") then "DEFAULT_GROUP" else Group o) (DataIds o)
             (Username o) (Password o) (AccessKey o) (SecretKey o) (LogDir o) (CacheDir o) (if bool_decide (LogLevel o = "") then "warn" else LogLevel o)
             (if TimeoutMs o =? 0 then 5000 else TimeoutMs o) (NotLoadCacheAtStart o))
  end.
Definition u64 (x : Z) : Z := x mod 2 ^ 64.
(** The text before the last colon and after it. *)
Fixpoint cut_last_colon (s : string) : option (string * string) :=
  match s with
  | EmptyString => None
  | String c t =>
      match cut_last_colon t with
      | Some (a, b) => Some (String c a, b)
      | None => if Ascii.eqb c ":"%char then Some ("", t) else None
      end
  end.
(** The loop over the digits, with the port's wrap-around. *)
Fixpoint port_loop (s : string) (port : Z) : option Z :=
  match s with
  | EmptyString => Some port
  | String c s => if is_digit c then port_loop s (u64 (u64 (port * 10) + digit_val c)) else None
  end.
Definition splitHostPort (addr : string) : goerr + (string * Z) :=
  match cut_last_colon addr with
  | None => inl (ErrNew ("missing port in " +++ addr))
  | Some (host, portStr) =>
      match port_loop portStr 0 with
      | None => inl (ErrNew ("invalid port " +++ portStr))
      | Some port => if bool_decide (host = "") || (port =? 0) then inl (ErrNew ("invalid addr " +++ addr)) else inr (host, port)
      end
  end.
(** The source's state: the client, and what to cancel. *)
Record Source := mkSource { opts : NacosOptions; cli : bool; cancelers : list string }.
Fixpoint server_configs (addrs : list string) : goerr + list (string * Z) :=
  match addrs with
  | [] => inr []
  | a :: addrs =>
      match splitHostPort a with
      | inl e => inl (ErrWrap ("nacos: invalid server " +++ a) e)
      | inr hp => match server_configs addrs with inl e => inl e | inr l => inr (hp :: l) end
      end
  end.
(** [make] is how the SDK answers the servers. *)
Definition ensureClient (make : list (string * Z) → option goerr) (s : Source) : Source * option goerr :=
  if cli s then (s, None)
  else match server_configs (Servers (opts s)) with
       | inl e => (s, Some e)
       | inr l => match make l with
                  | Some e => (s, Some (ErrWrap "nacos: new client" e))
                  | None => (mkSource (opts s) true (cancelers s), None)
                  end
       end.
(** The loop of [Fetch]: [done] says of each data id whether the context is over before it. *)
Fixpoint fetch_loop (group : string) (ids : list string) (done_ : list bool) (ctxErr : goerr)
    (answer : string → goerr + string) (out : gmap string string) (firstErr : option goerr)
    : gmap string string * option goerr :=
  match ids with
  | [] => (out, firstErr)
  | d :: ids =>
      if default false (head done_) then (out, Some ctxErr)
      else match answer d with
           | inl e =>
               fetch_loop group ids (tail done_) ctxErr answer out
                 (match firstErr with
                  | None => Some (ErrWrap ("nacos: get " +++ group +++ "/" +++ d) e) | Some _ => firstErr end)
           | inr raw =>
               fetch_loop group ids (tail done_) ctxErr answer
                 (if bool_decide (raw = "") then out else <[d := raw]> out) firstErr
           end
  end.
(** [None]: the nil map. *)
Definition Fetch (make : list (string * Z) → option goerr) (done_ : list bool) (ctxErr : goerr)
    (answer : string → goerr + string) (s : Source) : Source * (option (gmap string string) * option goerr) :=
  let '(s, e) := ensureClient make s in
  match e with
  | Some e => (s, (None, Some e))
  | None => let '(out, e) := fetch_loop (Group (opts s)) (DataIds (opts s)) done_ ctxErr answer ∅ None in (s, (Some out, e))
  end.
(** [Listen]: the subscriptions of the server and the source, and an error that leaves those made
    so far. *)
Fixpoint listen_loop (group : string) (ids : list string) (answer : string → option goerr) (subs : list string) (s : Source)
    : list string * Source * option goerr :=
  match ids with
  | [] => (subs, s, None)
  | d :: ids =>
      match answer d with
      | Some e => (subs, s, Some (ErrWrap ("nacos: listen " +++ group +++ "/" +++ d) e))
      | None => listen_loop group ids answer (subs ++ [d]) (mkSource (opts s) (cli s) (cancelers s ++ [d]))
      end
  end.
(** The boolean: whether the function that cancels was returned. *)
Definition Listen (make : list (string * Z) → option goerr) (answer : string → option goerr) (subs : list string) (s : Source)
    : list string * Source * (bool * option goerr) :=
  let '(s, e) := ensureClient make s in
  match e with
  | Some e => (subs, s, (false, Some e))
  | None => let '(subs, s, e) := listen_loop (Group (opts s)) (DataIds (opts s)) answer subs s in (subs, s, (true, e))
  end.
Definition remove_one (d : string) (l : list string) : list string :=
  match list_find (d =.) l with Some (i, _) => delete i l | None => l end.
(** Every subscription is cancelled once, and the first error is kept; one that fails stays. *)
Fixpoint cancel_loop (ids : list string) (answer : string → option goerr) (subs : list string) (firstErr : option goerr)
    : list string * option goerr :=
  match ids with
  | [] => (subs, firstErr)
  | d :: ids =>
      match answer d with
      | Some e => cancel_loop ids answer subs (match firstErr with None => Some e | Some _ => firstErr end)
      | None => cancel_loop ids answer (remove_one d subs) firstErr
      end
  end.
Definition cancelAll (answer : string → option goerr) (subs : list string) (s : Source) : list string * Source * option goerr :=
  let '(subs, e) := cancel_loop (cancelers s) answer subs None in (subs, mkSource (opts s) (cli s) [], e).

(** *** Addresses *)
Lemma cut_last_colon_none s : without ":" s = true → cut_last_colon s = None.
Proof.
  unfold without. induction s as [|c s IH]; [done|]. cbn [str_all cut_last_colon]. intros [Hc Hs]%andb_true_iff.
  rewrite IH by done. apply negb_true_iff in Hc. by rewrite Hc.
Qed.
Lemma cut_last_colon_app a b : without ":" b = true → cut_last_colon (a +++ String ":" b) = Some (a, b).
Proof.
  intros Hb. induction a as [|c a IH]; cbn [String.append cut_last_colon].
  - by rewrite cut_last_colon_none.
  - by rewrite IH.
Qed.
Lemma port_loop_digits s acc n : parse_digits s acc = Some n → 0 <= acc → n < 2 ^ 64 → port_loop s acc = Some n.
Proof.
  assert (∀ s acc n, parse_digits s acc = Some n → 0 <= acc → acc <= n) as Hge.
  { clear. induction s as [|c s IH]; intros acc n; cbn [parse_digits]; [intros [= ->]; lia|].
    destruct (is_digit c) eqn:Ed; [|done]. intros Hp Ha. unfold is_digit in Ed. apply IH in Hp; unfold digit_val in *; lia. }
  revert acc. induction s as [|c s IH]; intros acc; cbn [parse_digits port_loop]; [done|].
  destruct (is_digit c) eqn:Ed; [|done]. intros Hp Ha Hn. unfold is_digit in Ed.
  assert (0 <= acc * 10 + digit_val c) as H0 by (unfold digit_val; lia).
  pose proof (Hge _ _ _ Hp H0) as Hle. unfold u64.
  rewrite (Z.mod_small (acc * 10)) by (unfold digit_val in *; lia). rewrite Z.mod_small by lia. by apply IH.
Qed.
Lemma splitHostPort_join host port :
  host ≠ "" → 0 < port < 2 ^ 64 → splitHostPort (host +++ ":" +++ utoa port) = inr (host, port).
Proof.
  intros Hh Hp. unfold splitHostPort. change (":" +++ ?x) with (String ":" x).
  rewrite cut_last_colon_app by (apply digits_without; [done|apply utoa_digits; lia]).
  rewrite (port_loop_digits _ _ port) by (done || lia || (apply parse_utoa; lia)).
  rewrite bool_decide_eq_false_2 by done. by replace (port =? 0) with false by lia.
Qed.
(** A port past 2^64 comes round to a small one. *)
Example port_wraps : map splitHostPort ["h:8848"; "h:70000"; "h:18446744073709551617"] = [inr ("h", 8848); inr ("h", 70000); inr ("h", 1)].
Proof. vm_compute. reflexivity. Qed.

(** *** Fetching *)
Lemma fetch_loop_spec group ids answer out firstErr ctxErr :
  let '(out', e) := fetch_loop group ids [] ctxErr answer out firstErr in
  (∀ d c, out' !! d = Some c ↔ (d ∈ ids ∧ answer d = inr c ∧ c ≠ "") ∨ (out !! d = Some c ∧ (d ∉ ids ∨ (∀ c', answer d = inr c' → c' = "")))) ∧
  (e = None ↔ firstErr = None ∧ ∀ d, d ∈ ids → ∃ c, answer d = inr c).
Proof.
  revert out firstErr. induction ids as [|d ids IH]; intros out firstErr; cbn [fetch_loop head default from_option tail].
  { split; [|split; [intros ->; split; [done|by intros ? ?%elem_of_nil]|by intros [-> _]]].
    intros d c. rewrite elem_of_nil. split; [intros H; right; split; [done|by left; intros []]|intros [[[] _]|[H _]]; done]. }
  unfold id. destruct (answer d) as [e|raw] eqn:Ea.
  - specialize (IH out (match firstErr with None => Some (ErrWrap ("nacos: get " +++ group +++ "/" +++ d) e) | Some _ => firstErr end)).
    destruct (fetch_loop _ ids _ _ _ _ _) as [out' e']. destruct IH as [IH1 IH2]. split.
    + intros k c. rewrite IH1, elem_of_cons. destruct (decide (k = d)) as [->|Hne]; [|naive_solver].
      rewrite Ea. naive_solver.
    + rewrite IH2. split; [by destruct firstErr; intros []|]. intros [_ Hall]. destruct (Hall d) as [c Hc]; [by left|]. congruence.
  - specialize (IH (if bool_decide (raw = "") then out else <[d := raw]> out) firstErr).
    destruct (fetch_loop _ ids _ _ _ _ _) as [out' e']. destruct IH as [IH1 IH2]. split.
    + intros k c. rewrite IH1, elem_of_cons. destruct (decide (k = d)) as [->|Hne].
      * rewrite Ea. case_bool_decide as Hr.
        -- subst raw. naive_solver.
        -- rewrite lookup_insert_eq. destruct (decide (d ∈ ids)); naive_solver.
      * case_bool_decide; [naive_solver|]. rewrite lookup_insert_ne by done. naive_solver.
    + rewrite IH2. setoid_rewrite elem_of_cons. naive_solver.
Qed.
(** A partial fetch. A fetch whose context is not cancelled answers exactly the data ids that
    the server has and whose content is not empty, whichever others fail; and it answers an
    error exactly if some data id failed, or there was no client. *)
Lemma fetch_partial (make : list (string * Z) → option goerr) (ctxErr : goerr) (answer : string → goerr + string) (s : Source) :
  let '(s', (out, e)) := Fetch make [] ctxErr answer s in
  match out with
  | None => cli s' = false ∧ e ≠ None
  | Some out =>
      cli s' = true ∧
      (∀ d c, out !! d = Some c ↔ d ∈ DataIds (opts s) ∧ answer d = inr c ∧ c ≠ "") ∧
      (e = None ↔ ∀ d, d ∈ DataIds (opts s) → ∃ c, answer d = inr c)
  end.
Proof.
  unfold Fetch. assert (let '(s', e) := ensureClient make s in opts s' = opts s ∧ (e = None ↔ cli s' = true)) as He.
  { unfold ensureClient. destruct (cli s) eqn:Ec; [by rewrite Ec|]. destruct (server_configs _); [by rewrite Ec|].
    destruct (make _); [by rewrite Ec|done]. }
  destruct (ensureClient make s) as [s' [e|]]; destruct He as [Ho He].
  - split; [|done]. destruct (cli s'); [|done]. by destruct He as [_ He]; specialize (He eq_refl).
  - pose proof (fetch_loop_spec (Group (opts s')) (DataIds (opts s')) answer ∅ None ctxErr) as Hl.
    destruct (fetch_loop _ _ _ _ _ _ _) as [out e]. rewrite Ho in Hl. destruct Hl as [Hl1 Hl2].
    split_and!; [by apply He| |].
    + intros d c. rewrite Hl1, lookup_empty. naive_solver.
    + rewrite Hl2. naive_solver.
Qed.

(** *** Listening *)
Lemma remove_one_perm d l : d ∈ l → d :: remove_one d l ≡ₚ l.
Proof.
  intros Hd. unfold remove_one. destruct (list_find_elem_of (d =.) l d Hd eq_refl) as [[i x] Hf]. rewrite Hf.
  apply list_find_Some in Hf as (Hi & -> & _). symmetry. by apply delete_Permutation.
Qed.
Lemma cancel_loop_all ids subs rest e :
  subs ≡ₚ ids ++ rest → let '(subs', e') := cancel_loop ids (λ _, None) subs e in subs' ≡ₚ rest ∧ e' = e.
Proof.
  revert subs. induction ids as [|d ids IH]; intros subs Hp; cbn [cancel_loop]; [done|]. apply IH.
  apply (Permutation_cons_inv (a := d)). rewrite remove_one_perm; [done|]. rewrite Hp. by left.
Qed.
Lemma listen_loop_subs group ids answer subs s :
  let '(subs', s', _) := listen_loop group ids answer subs s in
  ∃ l, subs' = subs ++ l ∧ cancelers s' = cancelers s ++ l.
Proof.
  revert subs s. induction ids as [|d ids IH]; intros subs s; cbn [listen_loop]; [exists []; by rewrite !app_nil_r|].
  destruct (answer d); [exists []; by rewrite !app_nil_r|].
  specialize (IH (subs ++ [d]) (mkSource (opts s) (cli s) (cancelers s ++ [d]))).
  destruct (listen_loop _ ids _ _ _) as [[subs' s'] e]. destruct IH as (l & -> & Hc). cbn in Hc.
  exists (d :: l). by rewrite Hc, <-!app_assoc.
Qed.
(** Cancelling ends what was listened to, also after a listen that failed half-way. *)
Lemma listen_cancel make answer subs s :
  cancelers s = [] →
  let '(subs1, s1, _) := Listen make answer subs s in
  let '(subs2, s2, e) := cancelAll (λ _, None) subs1 s1 in
  subs2 ≡ₚ subs ∧ cancelers s2 = [] ∧ e = None.
Proof.
  intros Hc. unfold Listen. assert (cancelers (ensureClient make s).1 = []) as He.
  { unfold ensureClient. destruct (cli s); [done|]. destruct (server_configs _); [done|]. by destruct (make _). }
  destruct (ensureClient make s) as [s' [e|]]; cbn in He.
  - unfold cancelAll. by rewrite He.
  - pose proof (listen_loop_subs (Group (opts s')) (DataIds (opts s')) answer subs s') as Hl.
    destruct (listen_loop _ _ _ _ _) as [[subs1 s1] e]. destruct Hl as (l & -> & Hl). rewrite He in Hl. cbn in Hl.
    unfold cancelAll. rewrite Hl. pose proof (cancel_loop_all l (subs ++ l) subs None) as Hx.
    destruct (cancel_loop _ _ _ _) as [subs2 e2]. destruct Hx as [Hp ->]; [apply Permutation_app_comm|]. done.
Qed.

(** ** metrics.go *)
(** The registry of names, and the counters by their labels. *)
Record metrics := mkMetrics {
  registry : gset string; metricsOnce : bool; fetchTotal : gmap (string * string * string) Z;
  listenTotal : gmap (string * string) Z; validationFailure : gmap string Z; nacosDisconnect : Z;
  localFallbackUsed : gmap string Z;
  (** what was observed, by the histogram's labels *)
  fetchDurationMs : gmap (string * string) (list float64) }.
Definition metric_names : list string :=
  ["config_fetch_total"; "config_fetch_duration_ms"; "config_listen_total"; "config_validation_failure_total";
   "config_nacos_disconnect_total"; "config_local_fallback_used_total"].
(** [MustRegister]: it panics at the first name that is taken; [Once] has run then, too. *)
Fixpoint must_register (names : list string) (r : gset string) : gset string * bool :=
  match names with
  | [] => (r, true)
  | n :: names => if bool_decide (n ∈ r) then (r, false) else must_register names ({[n]} ∪ r)
  end.
Definition with_registry (r : gset string) (m : metrics) : metrics :=
  mkMetrics r true (fetchTotal m) (listenTotal m) (validationFailure m) (nacosDisconnect m) (localFallbackUsed m) (fetchDurationMs m).
Definition initMetrics (m : metrics) : gores metrics * metrics :=
  if metricsOnce m then (Ret m, m)
  else let '(r, ok) := must_register metric_names (registry m) in
       let m := with_registry r m in (if ok then Ret m else Panic "duplicate metrics collector registration", m).
Definition counted (f : metrics → metrics) (m : metrics) : gores unit * metrics :=
  let '(r, m) := initMetrics m in match r with Ret _ => (Ret tt, f m) | Panic p => (Panic p, m) end.
Definition labelOrEmpty (s : string) : string := if bool_decide (s = "") then "unknown" else s.
Definition inc {K} `{Countable K} (k : K) (m : gmap K Z) : gmap K Z := <[k := default 0 (m !! k) + 1]> m.
Definition metricsFetchTotalInc (service source result : string) : metrics → gores unit * metrics :=
  counted (λ m, mkMetrics (registry m) (metricsOnce m) (inc (labelOrEmpty service, labelOrEmpty source, result) (fetchTotal m)) (listenTotal m)
    (validationFailure m) (nacosDisconnect m) (localFallbackUsed m) (fetchDurationMs m)).
Definition metricsListenTotalInc (service dataId : string) : metrics → gores unit * metrics :=
  counted (λ m, mkMetrics (registry m) (metricsOnce m) (fetchTotal m) (inc (labelOrEmpty service, labelOrEmpty dataId) (listenTotal m))
    (validationFailure m) (nacosDisconnect m) (localFallbackUsed m) (fetchDurationMs m)).
Definition metricsValidationFailureInc (service : string) : metrics → gores unit * metrics :=
  counted (λ m, mkMetrics (registry m) (metricsOnce m) (fetchTotal m) (listenTotal m) (inc (labelOrEmpty service) (validationFailure m))
    (nacosDisconnect m) (localFallbackUsed m) (fetchDurationMs m)).
Definition metricsNacosDisconnectInc : metrics → gores unit * metrics :=
  counted (λ m, mkMetrics (registry m) (metricsOnce m) (fetchTotal m) (listenTotal m) (validationFailure m) (nacosDisconnect m + 1) (localFallbackUsed m) (fetchDurationMs m)).
Definition metricsLocalFallbackUsedInc (service : string) : metrics → gores unit * metrics :=
  counted (λ m, mkMetrics (registry m) (metricsOnce m) (fetchTotal m) (listenTotal m) (validationFailure m) (nacosDisconnect m)
    (inc (labelOrEmpty service) (localFallbackUsed m)) (fetchDurationMs m)).
Definition metricsFetchDurationObserve (service source : string) (ms : float64) : metrics → gores unit * metrics :=
  counted (λ m, let k := (labelOrEmpty service, labelOrEmpty source) in
    mkMetrics (registry m) (metricsOnce m) (fetchTotal m) (listenTotal m) (validationFailure m) (nacosDisconnect m) (localFallbackUsed m)
      (<[k := default [] (fetchDurationMs m !! k) ++ [ms]]> (fetchDurationMs m))).
(** The default gatherer: the names that are registered. *)
Definition MetricsGatherer (m : metrics) : gores (gset string) * metrics :=
  let '(r, m) := initMetrics m in (match r with Ret _ => Ret (registry m) | Panic p => Panic p end, m).

(** ** schema.go *)
(** The validator's error: where, what, and the errors it is due to. *)
Inductive ValidationError := VError (InstanceLocation Message : string) (Causes : list ValidationError).
Fixpoint collectLeafErrs (ve : ValidationError) : list string :=
  match ve with
  | VError loc msg [] => [(if bool_decide (loc = "") then "/" else loc) +++ ": " +++ msg]
  | VError _ _ causes => flat_map collectLeafErrs causes
  end.
Definition prettifySchemaErr (ve : ValidationError) : goerr := ErrNew (Join (collectLeafErrs ve) "; ").
(** [None]: no schema, so everything is valid. *)
Definition validateAgainstSchema {A} (schema : option (A → option ValidationError)) (settings : A) : option goerr :=
  match schema with
  | None => None
  | Some validate => ErrWrap "config: schema validation failed" <$> (prettifySchemaErr <$> validate settings)
  end.
(** [compileSchema], over the compiler's two calls: blank text is no schema. *)
Section compile.
Context {A : Type} (AddResource : string → option goerr) (Compile : string → goerr + (A → option ValidationError)).
Definition compileSchema (raw : string) : goerr + option (A → option ValidationError) :=
  let raw := TrimSpace raw in
  if bool_decide (raw = "") then inr None
  else match AddResource raw with
       | Some e => inl (ErrWrap "config: add schema resource" e)
       | None => match Compile raw with
                 | inl e => inl (ErrWrap "config: compile schema" e)
                 | inr s => inr (Some s)
                 end
       end.
Lemma compiled_schema (raw : string) (schema : option (A → option ValidationError)) :
  compileSchema raw = inr schema →
  (schema = None ↔ TrimSpace raw = "") ∧
  ∀ settings, validateAgainstSchema schema settings = None ↔ from_option (λ validate, validate settings = None) True schema.
Proof.
  unfold compileSchema, validateAgainstSchema. case_bool_decide as Hb; [by intros [= <-]|].
  destruct (AddResource _); [done|]. destruct (Compile _) as [e|s]; [done|]. intros [= <-]. split; [done|].
  intros settings. cbn. by destruct (s settings).
Qed.
End compile.
(** Every error has a leaf, so that something is printed. *)
Lemma collectLeafErrs_nonempty : ∀ ve, collectLeafErrs ve ≠ [].
Proof.
  fix IH 1. intros [loc msg [|c causes]]; [cbn; clear IH; discriminate|]. cbn [collectLeafErrs flat_map].
  intros E. apply app_eq_nil in E as [E _]. by apply (IH c).
Qed.
(** The metrics are registered once, whichever function comes first; a name that is taken panics
    once, and afterwards the counters count without being registered. *)
Example registered_once :
  let m0 := mkMetrics {["config_listen_total"]} false ∅ ∅ ∅ 0 ∅ ∅ in
  let '(r1, m1) := metricsNacosDisconnectInc m0 in
  let '(r2, m2) := metricsNacosDisconnectInc m1 in
  (r1, r2, nacosDisconnect m2) = (Panic "duplicate metrics collector registration", Ret tt, 1).
Proof. vm_compute. reflexivity. Qed.
