(* ===== verification/Smoke.v ===== *)
(** The smoke program of the Nacos source (pkg/config/source/nacos/smoke): it publishes a
    document, starts a loader on it, publishes another and waits for the listener.  The program
    is the composition of the source (ConfigSource) and the loader (ConfigLoader) with a
    server. *)
From Stdlib Require Import Ascii.
From stdpp Require Import prelude gmap strings list.
From S2P Require Import Prelude GoStrings Encrypt ConfigLoader ConfigProofs ConfigSource.

(** ** The server, and what the program asks of Viper *)
Class NacosServer (S : Type) := {
  PublishConfig : string → string → string → S → (bool * option goerr) * S;
  DeleteConfig : string → string → S → S;
  GetConfig : string → string → S → goerr + string }.
Class ViperGetters (V : Type) := { GetString : string → V → string; GetInt : string → V → Z }.

Definition nacosAddr : string := "127.0.0.1:8848".
Definition group : string := "DEFAULT_GROUP".
Definition dataId : string := "compkg.smoke.yaml".
Definition newline : string := String (Ascii.ascii_of_nat 10) "".
Definition quote : string := String (Ascii.ascii_of_nat 34) "".
Definition yaml (greeting : string) (threshold : Z) : string :=
  "feature:" +++ newline +++ "  greeting: " +++ quote +++ greeting +++ quote +++ newline +++
  "  threshold: " +++ FormatInt threshold +++ newline.
Definition initialYaml : string := yaml "hello-v1" 100.
Definition updatedYaml : string := yaml "hello-v2" 999.

Definition credsFromEnv (getenv : string → string) : string * string :=
  let u := getenv "NACOS_USERNAME" in
  let p := getenv "NACOS_PASSWORD" in
  (if bool_decide (u = "") then "nacos" else u, if bool_decide (p = "") then "nacos" else p).

(** How the program ends: [log.Fatalf] inside a helper skips the deferred calls. *)
Inductive ending := Fatal (msg : string) | Returned (e : option goerr).
(** What it leaves behind: the server, the subscriptions, the temporary file. *)
Record leftover (S : Type) := mkLeftover { server : S; subs : list string; temp_file : bool }.
Arguments mkLeftover {S}. Arguments server {S}. Arguments subs {S}. Arguments temp_file {S}.

Section smoke.
Context {V S : Type} `{Viper V} `{ViperGetters V} `{Gcm} `{NacosServer S}.
(** The verbs %q of a string and %v of an error. *)
Context (quoted : string → string) (shown : option goerr → string).

(** What surrounds a run: the environment, the answers of the system and of the SDK, and the
    pushes of the server, as the loader receives them before the listener is registered, while
    the program waits for it, and after it was called. *)
Record lab := mkLab {
  getenv : string → string; tempDir : string; create_temp : option goerr; read_local : goerr + V;
  new_client : list (string * Z) → option goerr; raw_client : option goerr;
  listen_answer : string → option goerr; cancel_answer : string → option goerr;
  early : list string; waiting : list string; late : list string;
  iter : gmap string string → list (string * string);
  iter_changes : gmap string (any * any) → string → list (string * (any * any)) }.

Definition source_options (lb : lab) : NacosOptions :=
  let '(u, p) := credsFromEnv (getenv lb) in
  mkNacos [nacosAddr] "" group [dataId] u p "" "" (tempDir lb +++ "/compkg-smoke-log")
    (tempDir lb +++ "/compkg-smoke-cache") "warn" 5000 false.
Definition boot_options : BootstrapOptions :=
  mkOptions "compkg-smoke.yaml" "" true "" [] ["feature"] (5 * Second).

(** The loader's callback on a push of the document; there is no schema. *)
Definition push (lb : lab) (raw : string) (l : Loader V) : list (nat * (any * any)) * Loader V :=
  onRemoteChange (getenv lb) (λ _, None) dataId raw (read_local lb) (iter lb)
    (map_to_list (listeners l)) (iter_changes lb) l.
Definition pushes (lb : lab) (raws : list string) (l : Loader V) : Loader V :=
  foldl (λ l raw, (push lb raw l).2) l raws.
(** The wait for the listener: the pushes up to the one that calls it; [None]: ten seconds pass. *)
Fixpoint await (lb : lab) (raws : list string) (l : Loader V) : option (Loader V) :=
  match raws with
  | [] => None
  | raw :: raws =>
      let '(calls, l) := push lb raw l in
      match calls with [] => await lb raws l | _ => Some l end
  end.

(** [config.Bootstrap] with the source as its remote: the fetch, then the subscription. *)
Definition bootstrap (lb : lab) (srv : S) (src : Source) : goerr + (Loader V * Source * list string) :=
  let '(src, (out, ferr)) := Fetch (new_client lb) [] context_Canceled (λ d, GetConfig group d srv) src in
  let '(sb, src', (_, lerr)) := Listen (new_client lb) (listen_answer lb) [] src in
  let fetched := match ferr with Some e => inl e | None => inr (iter lb (default ∅ out)) end in
  match Bootstrap (getenv lb) (λ _, None) boot_options (read_local lb) fetched
          (match lerr with None => true | Some _ => false end) with
  | inl e => inl e
  | inr l => inr (l, src', sb)
  end.
(** The two assertions on the values, with the text that names the moment. *)
Definition check_values (greetingText thresholdText greeting : string) (threshold : Z) (l : Loader V)
    : option goerr :=
  let got := GetString "feature.greeting" (vp l) in
  if negb (bool_decide (got = greeting)) then
    Some (ErrNew (greetingText +++ " want=" +++ greeting +++ " got=" +++ quoted got))
  else
    let got := GetInt "feature.threshold" (vp l) in
    if negb (got =? threshold) then
      Some (ErrNew (thresholdText +++ " want=" +++ FormatInt threshold +++ " got=" +++ FormatInt got))
    else None.
Definition publish_error (what : string) (r : bool * option goerr) : option goerr :=
  match r with
  | (true, None) => None
  | (ok, err) => Some (ErrNew (what +++ ": ok=" +++ (if ok : bool then "true" else "false") +++ " err=" +++ shown err))
  end.

(** [run] from the loader on; the last component is what stays subscribed once it is closed. *)
Definition run_loader (lb : lab) (l : Loader V) (src : Source) (sb : list string) (srv : S)
    : option goerr * S * list string :=
  let closed := if subscribed l then (cancelAll (cancel_answer lb) sb src).1.1 else sb in
  let l := pushes lb (early lb) l in
  match check_values "feature.greeting" "feature.threshold" "hello-v1" 100 l with
  | Some e => (Some e, srv, closed)
  | None =>
      let l := OnChange "feature" 0%nat l in
      let '(r, srv) := PublishConfig group dataId updatedYaml srv in
      match publish_error "publish update" r with
      | Some e => (Some e, srv, closed)
      | None =>
          match await lb (waiting lb) l with
          | None => (Some (ErrNew "OnChange listener not fired within 10s"), srv, closed)
          | Some l =>
              (check_values "after update: greeting" "after update: threshold" "hello-v2" 999
                 (pushes lb (late lb) l), srv, closed)
          end
      end
  end.
Definition run (lb : lab) (srv : S) : ending * leftover S :=
  match New (source_options lb) with
  | inl e => (Returned (Some (ErrWrap "new source" e)), mkLeftover srv [] false)
  | inr o =>
      match raw_client lb with
      | Some e => (Returned (Some (ErrWrap "new raw client" e)), mkLeftover srv [] false)
      | None =>
          let '(r, srv) := PublishConfig group dataId initialYaml srv in
          match publish_error "publish initial" r with
          | Some e => (Returned (Some e), mkLeftover srv [] false)
          | None =>
              let clean srv :=
                if bool_decide (getenv lb "KEEP_CONFIG" = "1") then srv
                else DeleteConfig group dataId srv in
              match create_temp lb with
              | Some e => (Fatal ("temp file: " +++ shown (Some e)), mkLeftover srv [] false)
              | None =>
                  match bootstrap lb srv (mkSource o false []) with
                  | inl e => (Returned (Some (ErrWrap "bootstrap" e)), mkLeftover (clean srv) [] false)
                  | inr (l, src, sb) =>
                      let '(e, srv, sb) := run_loader lb l src sb srv in
                      (Returned e, mkLeftover (clean srv) sb false)
                  end
              end
          end
      end
  end.
(** The exit status of [main]. *)
Definition main_status (e : ending) : Z := match e with Returned None => 0 | _ => 1 end.
End smoke.
Arguments lab V : clear implicits.

(** ** A run on a sound lab passes *)
(** Viper keeps what it is given; a fresh map is merged in whole; a dotted path reads its leaf. *)
Class ViperLaws (V : Type) `{Viper V} `{ViperGetters V} := {
  AllSettings_SetAll m : AllSettings (SetAll m) ≡ₚ m;
  MergeConfigMap_fresh m v : (∀ k, k ∈ m.*1 → k ∉ (AllSettings v).*1) →
    (MergeConfigMap m v).1 = None ∧ AllSettings (MergeConfigMap m v).2 ≡ₚ AllSettings v ++ m;
  GetString_leaf k v s : flatten (AllSettings v) !! k = Some (AStr s) → GetString k v = s;
  GetInt_leaf k v n : in_i64 n → flatten (AllSettings v) !! k = Some (AOther (FormatInt n)) → GetInt k v = n }.
(** A server that keeps what is published until it is deleted. *)
Class NacosLaws (S : Type) `{NacosServer S} := {
  Publish_ok g d c srv : (PublishConfig g d c srv).1 = (true, None);
  Get_published g d c srv : GetConfig g d (PublishConfig g d c srv).2 = inr c;
  Get_deleted g d srv : GetConfig g d (DeleteConfig g d srv) = inr "" }.

(** The document as the parser gives it, and the settings it makes with the local file. *)
Definition doc (g : string) (t : Z) : settings :=
  [("feature", AMap [("greeting", AStr g); ("threshold", AOther (FormatInt t))])].
Definition local_settings : settings := [("placeholder", AOther "true")].
Definition flat (g : string) (t : Z) : gmap string any :=
  <["placeholder" := AOther "true"]>
    (<["feature.greeting" := AStr g]> {["feature.threshold" := AOther (FormatInt t)]}).
Lemma flat_of g t m : m ≡ₚ local_settings ++ doc g t → flatten m = flat g t.
Proof.
  intros Hm. symmetry in Hm. apply Permutation_length_2_inv in Hm as [->| ->].
  - apply map_eq. intros k. vm_compute. reflexivity.
  - apply map_eq. intros k. vm_compute. reflexivity.
Qed.

Section sound.
Context {V S : Type} `{ViperLaws V} `{Gcm} `{NacosLaws S}.
Context (quoted : string → string) (shown : option goerr → string) (lb : lab V) (v0 : V).
Definition text (u : bool) : string := if u then updatedYaml else initialYaml.
Definition doc_of (u : bool) : settings := if u then doc "hello-v2" 999 else doc "hello-v1" 100.
Definition flat_for (u : bool) : gmap string any := if u then flat "hello-v2" 999 else flat "hello-v1" 100.

(** The parser reads the two documents, the file, and iterations visit what there is. *)
Hypothesis parses : ∀ u, parse_yaml (text u) = inr (doc_of u).
Hypothesis local_read : read_local lb = inr v0.
Hypothesis local_is : AllSettings v0 = local_settings.
Hypothesis iterates : ∀ m, iter lb m ≡ₚ map_to_list m.
Hypothesis iterates_changes : ∀ ch p, iter_changes lb ch p ≡ₚ map_to_list ch.

Definition holds (u : bool) (v : V) : Prop := AllSettings v ≡ₚ local_settings ++ doc_of u.
Lemma holds_flat u v : holds u v → flatten (AllSettings v) = flat_for u.
Proof. destruct u; apply flat_of. Qed.

Lemma expand_doc env wl u m :
  m ≡ₚ local_settings ++ doc_of u →
  expandEnvInPlace env wl m ≡ₚ local_settings ++ doc_of u ∧ hasEncrypted (expandEnvInPlace env wl m) = false.
Proof.
  intros Hm. symmetry in Hm. destruct u; apply Permutation_length_2_inv in Hm as [->| ->];
    (split; [|vm_compute; reflexivity]); vm_compute; first [done | apply perm_swap].
Qed.
Lemma normalize_doc env path wl u v :
  holds u v → ∃ v', normalize env path wl v = inr v' ∧ holds u v'.
Proof.
  intros Hv. destruct (expand_doc env wl u _ Hv) as [Hp He].
  exists (SetAll (expandEnvInPlace env wl (AllSettings v))). unfold normalize. cbn zeta.
  rewrite He. split; [done|]. unfold holds. by rewrite AllSettings_SetAll.
Qed.
Lemma merge_doc u : holds u (merge_all [(dataId, text u)] v0).
Proof.
  unfold merge_all, mergeYamlInto. cbn [foldl fst snd].
  rewrite bool_decide_eq_false_2 by (destruct u; vm_compute; discriminate).
  rewrite parses. destruct (MergeConfigMap_fresh (doc_of u) v0) as [_ Hm].
  - intros k Hk. rewrite local_is. destruct u; apply list_elem_of_singleton in Hk as ->;
      apply not_elem_of_cons; (split; [done|apply not_elem_of_nil]).
  - unfold holds. by rewrite Hm, local_is.
Qed.
Lemma rebuild env path wl u m :
  m = {[dataId := text u]} →
  ∃ v', normalize env path wl (merge_all (iter lb m) v0) = inr v' ∧ holds u v'.
Proof.
  intros ->. pose proof (iterates {[dataId := text u]}) as Hi.
  rewrite map_to_list_singleton in Hi. apply Permutation_singleton_r in Hi. rewrite Hi.
  apply normalize_doc, merge_doc.
Qed.

(** *** A push *)
Definition state (u : bool) (l : Loader V) : Prop :=
  holds u (vp l) ∧ (∃ x, remoteRaw l = {[dataId := x]}) ∧ hotReload l = Some {["feature"]}.
Lemma push_spec u u' l :
  state u l →
  let '(calls, l') := push lb (text u') l in
  state u' l' ∧ listeners l' = listeners l ∧ subscribed l' = subscribed l ∧
  (u = u' → calls = []) ∧
  (u ≠ u' → listeners l = {["feature" := [0%nat]]} → calls ≠ []).
Proof.
  intros (Hh & [x Hx] & Hhot). unfold push, onRemoteChange. rewrite local_read, Hx, insert_singleton_eq.
  destruct (rebuild (getenv lb) (EncryptKeyPath (ConfigLoader.opts l)) (envWhitelist l) u' _ eq_refl) as (v' & Hn & Hh').
  rewrite Hn. rewrite (holds_flat u _ Hh), (holds_flat u' _ Hh').
  split_and!; [split_and!; [done|by eexists|done]|done|done| |].
  - intros <-. assert (changed_keys (flat_for u) (flat_for u) = ∅) as ->.
    { apply map_eq. intros k. unfold changed_keys. rewrite lookup_merge, lookup_empty.
      destruct (flat_for u !! k); [|done]. cbn. unfold equalScalar. by rewrite bool_decide_eq_true_2. }
    unfold fireDiff. induction (map_to_list (listeners l)) as [|[p fns] ls IH]; [done|]. cbn [flat_map fst snd].
    rewrite IH, app_nil_r. pose proof (iterates_changes ∅ p) as Hi. rewrite map_to_list_empty in Hi.
    apply Permutation_nil_r in Hi. by rewrite Hi.
  - intros Hne Hl. rewrite Hl, map_to_list_singleton, Hhot. unfold fireDiff. cbn [flat_map fst snd].
    rewrite app_nil_r. set (ch := changed_keys _ _).
    assert (is_Some (ch !! "feature.greeting")) as [ov Hov] by (destruct u, u'; [done|by eexists|by eexists|done]).
    destruct (fire_prefix_spec (Some {["feature"]}) "feature" [0%nat] (iter_changes lb ch "feature"))
      as [(_ & k & ov' & _ & _ & _ & ->)|[Hno _]]; [done|]. exfalso. apply Hno.
    apply Exists_exists. exists ("feature.greeting", ov). split; [|split; vm_compute; reflexivity].
    rewrite iterates_changes. by apply elem_of_map_to_list.
Qed.
Lemma pushes_spec u raws l :
  Forall (λ r, r = text u) raws → state u l →
  state u (pushes lb raws l) ∧ listeners (pushes lb raws l) = listeners l ∧
  subscribed (pushes lb raws l) = subscribed l.
Proof.
  intros Hr. revert l. induction Hr as [|r raws -> Hr IH]; intros l Hs; [done|].
  unfold pushes in *. cbn [foldl]. pose proof (push_spec u u l Hs) as Hp.
  destruct (push lb (text u) l) as [calls l']. destruct Hp as (Hs' & Hl & Hsub & _).
  destruct (IH l' Hs') as (H1' & H2' & H3'). cbn [snd]. split_and!; [done|congruence|congruence].
Qed.
Lemma await_spec pre post l :
  Forall (λ r, r = initialYaml) pre → state false l → listeners l = {["feature" := [0%nat]]} →
  ∃ l', await lb (pre ++ updatedYaml :: post) l = Some l' ∧ state true l'.
Proof.
  intros Hr. revert l. induction Hr as [|r pre -> Hr IH]; intros l Hs Hl; cbn [app await].
  - pose proof (push_spec false true l Hs) as Hp. change (text true) with updatedYaml in Hp.
    destruct (push lb updatedYaml l) as [[|c calls] l']; destruct Hp as (Hs' & _ & _ & _ & Hc).
    + by destruct (Hc ltac:(done) Hl).
    + by exists l'.
  - pose proof (push_spec false false l Hs) as Hp. change (text false) with initialYaml in Hp.
    destruct (push lb initialYaml l) as [calls l']. destruct Hp as (Hs' & Hl' & _ & Hc & _).
    rewrite (Hc eq_refl). apply IH; [done|congruence].
Qed.
Lemma check_spec u gt tt l :
  state u l →
  check_values quoted gt tt (if u then "hello-v2" else "hello-v1") (if u then 999 else 100) l = None.
Proof.
  intros (Hh & _ & _). pose proof (holds_flat u _ Hh) as Hf. unfold check_values.
  rewrite (GetString_leaf "feature.greeting" _ (if u then "hello-v2" else "hello-v1")) by (rewrite Hf; by destruct u).
  rewrite bool_decide_eq_true_2 by done. cbn [negb].
  rewrite (GetInt_leaf "feature.threshold" _ (if u then 999 else 100))
    by (rewrite ?Hf; destruct u; done).
  by destruct u.
Qed.
Lemma await_never n l :
  state false l → await lb (replicate n initialYaml) l = None.
Proof.
  revert l. induction n as [|n IH]; intros l Hs; cbn [replicate await]; [done|].
  pose proof (push_spec false false l Hs) as Hp. change (text false) with initialYaml in Hp.
  destruct (push lb initialYaml l) as [calls l']. destruct Hp as (Hs' & _ & _ & Hc & _).
  rewrite (Hc eq_refl). by apply IH.
Qed.

(** *** The run *)
Hypothesis client_made : ∀ l, new_client lb l = None.
Hypothesis listening : listen_answer lb dataId = None.
Hypothesis cancelling : cancel_answer lb dataId = None.

Lemma bootstrap_spec (srv : S) o :
  New (source_options lb) = inr o → GetConfig group dataId srv = inr initialYaml →
  ∃ l src, bootstrap lb srv (mkSource o false []) = inr (l, src, [dataId]) ∧
    state false l ∧ listeners l = ∅ ∧ subscribed l = true ∧ cancelers src = [dataId].
Proof.
  intros Ho Hget.
  assert (Servers o = [nacosAddr] ∧ Group o = group ∧ DataIds o = [dataId]) as (Ho1 & Ho2 & Ho3).
  { unfold source_options in Ho. destruct (credsFromEnv (getenv lb)). cbn in Ho. by injection Ho as <-. }
  assert (ensureClient (new_client lb) (mkSource o false []) = (mkSource o true [], None)) as He.
  { unfold ensureClient. cbn [cli ConfigSource.opts cancelers]. rewrite Ho1.
    assert (server_configs [nacosAddr] = inr [("127.0.0.1", 8848)]) as -> by (vm_compute; reflexivity).
    by rewrite client_made. }
  unfold bootstrap, Fetch. rewrite He. cbn [ConfigSource.opts]. rewrite Ho2, Ho3.
  cbn [fetch_loop head default from_option tail id]. rewrite Hget.
  rewrite bool_decide_eq_false_2 by (vm_compute; discriminate).
  unfold Listen, ensureClient. cbn [cli ConfigSource.opts cancelers]. rewrite Ho2, Ho3.
  cbn [listen_loop]. rewrite listening. cbn [default from_option id app cancelers cli ConfigSource.opts].
  unfold Bootstrap. rewrite bool_decide_eq_false_2 by (vm_compute; discriminate).
  rewrite local_read. cbn [HasRemote with_defaults boot_options andb].
  change (<[dataId := initialYaml]> ∅) with ({[dataId := text false]} : gmap string string).
  set (path := EncryptKeyPath _). set (wl := toSet _ _).
  destruct (rebuild (getenv lb) path wl false _ eq_refl) as (v' & Hn & Hh). rewrite Hn.
  eexists _, _. split; [reflexivity|]. split; [|by split_and!].
  split; [exact Hh|]. split; [|vm_compute; reflexivity]. exists initialYaml.
  pose proof (iterates {[dataId := text false]}) as Hi. rewrite map_to_list_singleton in Hi.
  apply Permutation_singleton_r in Hi. cbn [remoteRaw]. by rewrite Hi.
Qed.

(** What a run does once the loader stands: it passes exactly if one of the pushes it waits for
    is the update, and it is no longer subscribed. *)
Lemma run_loader_spec (us : list bool) l src srv :
  Forall (λ r, r = initialYaml) (early lb) → waiting lb = text <$> us →
  Forall (λ r, r = updatedYaml) (late lb) →
  state false l → listeners l = ∅ → subscribed l = true → cancelers src = [dataId] →
  ∃ e, run_loader quoted shown lb l src [dataId] srv
    = (e, (PublishConfig group dataId updatedYaml srv).2, []) ∧ (e = None ↔ true ∈ us).
Proof.
  intros Hearly Hwait Hlate Hs Hl Hsub Hc. unfold run_loader. rewrite Hsub.
  assert ((cancelAll (cancel_answer lb) [dataId] src).1.1 = []) as ->.
  { unfold cancelAll. rewrite Hc. cbn [cancel_loop]. rewrite cancelling. vm_compute. reflexivity. }
  destruct (pushes_spec false (early lb) l Hearly Hs) as (Hs1 & Hl1 & _).
  rewrite (check_spec false _ _ _ Hs1). set (l1 := OnChange _ _ _).
  assert (state false l1) as Hs2 by (destruct Hs1 as (? & ? & ?); by split_and!).
  assert (listeners l1 = {["feature" := [0%nat]]}) as Hl2.
  { unfold l1, OnChange. cbn [listeners]. rewrite Hl1, Hl. by rewrite lookup_empty. }
  pose proof (Publish_ok group dataId updatedYaml srv) as Hp.
  destruct (PublishConfig group dataId updatedYaml srv) as [r srv']. cbn [fst snd] in *. subst r.
  cbn [publish_error]. rewrite Hwait. destruct (decide (true ∈ us)) as [Hin|Hno].
  - apply list_elem_of_split_l in Hin as (us1 & us2 & -> & Hno). rewrite fmap_app. cbn [fmap list_fmap].
    change (text true) with updatedYaml.
    destruct (await_spec (text <$> us1) (text <$> us2) l1) as (l' & Ha & Hs'); [|done|done|].
    { apply Forall_forall. intros r (u & -> & Hu)%list_elem_of_fmap. destruct u; [by destruct (Hno Hu)|done]. }
    cbn [fmap list_fmap] in Ha. rewrite Ha. destruct (pushes_spec true (late lb) l' Hlate Hs') as (Hs3 & _ & _).
    rewrite (check_spec true _ _ _ Hs3). eexists. split; [reflexivity|]. split; [|done].
    intros _. apply elem_of_app. right. by left.
  - assert (text <$> us = replicate (length us) initialYaml) as ->.
    { clear -Hno. induction us as [|[] us IH]; [done|by destruct Hno; left|].
      cbn. f_equal. apply IH. intros ?. apply Hno. by right. }
    rewrite await_never by done. eexists. split; [reflexivity|]. done.
Qed.

(** The smoke program tells. Against a server that keeps what is published, and when the
    pushes are the two documents, the program ends with success exactly if the update is pushed
    while it waits, however many times the documents are pushed before and after; and in either
    case it leaves no temporary file and no subscription, and the document deleted unless asked
    to keep it. *)
Lemma smoke_tells (us : list bool) (srv : S) :
  raw_client lb = None → create_temp lb = None →
  Forall (λ r, r = initialYaml) (early lb) → waiting lb = text <$> us →
  Forall (λ r, r = updatedYaml) (late lb) →
  ∃ e srv', run quoted shown lb srv = (Returned e, mkLeftover srv' [] false) ∧
    (main_status (Returned e) = 0 ↔ true ∈ us) ∧
    GetConfig group dataId srv'
      = inr (if bool_decide (getenv lb "KEEP_CONFIG" = "1") then updatedYaml else "").
Proof.
  intros Hraw Htmp Hearly Hwait Hlate. unfold run.
  assert (∃ o, New (source_options lb) = inr o) as [o Ho].
  { unfold source_options. destruct (credsFromEnv _). by eexists. }
  rewrite Ho, Hraw. pose proof (Publish_ok group dataId initialYaml srv) as Hp.
  pose proof (Get_published group dataId initialYaml srv) as Hg.
  destruct (PublishConfig group dataId initialYaml srv) as [r srv1]. cbn [fst snd] in *. subst r.
  cbn [publish_error]. rewrite Htmp.
  destruct (bootstrap_spec srv1 o Ho Hg) as (l & src & Hb & Hs & Hl & Hsub & Hc). rewrite Hb.
  destruct (run_loader_spec us l src srv1 Hearly Hwait Hlate Hs Hl Hsub Hc) as (e & Hr & He).
  rewrite Hr. eexists e, _. split; [reflexivity|]. split.
  - rewrite <- He. destruct e; done.
  - case_bool_decide; [apply Get_published|apply Get_deleted].
Qed.
End sound.

(** ** A lab *)
Inductive smoke_viper := SV (m : settings).
#[global] Instance smoke_Viper : Viper smoke_viper := {
  AllSettings v := match v with SV m => m end;
  SetAll m := SV m;
  MergeConfigMap m v := (None, match v with SV s => SV (filter (λ kv, kv.1 ∉ m.*1) s ++ m) end);
  ViperGet path v := match v with SV m => flatten m !! path end;
  ViperSet k x v := match v with SV m => SV (filter (λ kv, kv.1 ≠ k) m ++ [(k, x)]) end;
  shared_after f v := v;
  parse_yaml raw :=
    if bool_decide (raw = updatedYaml) then inr (doc "hello-v2" 999)
    else if bool_decide (raw = initialYaml) then inr (doc "hello-v1" 100)
    else inl (ErrExt "yaml: syntax error") }.
#[global] Instance smoke_getters : ViperGetters smoke_viper := {
  GetString k v := match v with SV m => match flatten m !! k with Some (AStr s) => s | _ => "" end end;
  GetInt k v := match v with SV m => match flatten m !! k with Some (AOther t) => default 0 (ParseInt t) | _ => 0 end end }.
#[global] Instance smoke_laws : ViperLaws smoke_viper.
Proof.
  split; [done| | |].
  - intros m [s] Hf. split; [done|]. cbn [MergeConfigMap AllSettings smoke_Viper snd] in *.
    apply Permutation_refl'. f_equal. apply list_filter_all. apply Forall_forall. intros [k x] Hk Hm. apply (Hf k Hm). by apply (list_elem_of_fmap_2 fst) in Hk.
  - intros k [m] s Hk. change (AllSettings (SV m)) with m in Hk.
    cbn [GetString smoke_getters]. by rewrite Hk.
  - intros k [m] n Hn Hk. change (AllSettings (SV m)) with m in Hk.
    cbn [GetInt smoke_getters]. by rewrite Hk, ParseInt_FormatInt.
Qed.
Abbreviation mem_nacos := (gmap (string * string) string).
#[global] Instance mem_Nacos : NacosServer mem_nacos := {
  PublishConfig g d c s := ((true, None), <[(g, d) := c]> s);
  DeleteConfig g d s := delete (g, d) s;
  GetConfig g d s := inr (default "" (s !! (g, d))) }.
#[global] Instance mem_NacosLaws : NacosLaws mem_nacos.
Proof.
  split; cbn; [done| |]; intros; [by rewrite lookup_insert_eq|by rewrite lookup_delete_eq].
Qed.
Definition demo_lab (us : list bool) : lab smoke_viper :=
  mkLab (λ _, "") "/tmp" None (inr (SV local_settings)) (λ _, None) None (λ _, None) (λ _, None)
    [initialYaml] (text <$> us) [updatedYaml] map_to_list (λ ch _, map_to_list ch).
Lemma smoke_tells_witness :
  let srv : mem_nacos := ∅ in
  let ran := run (λ s, s) (λ _, "") (demo_lab [false; true; true]) srv in
  (∃ e srv', ran = (Returned e, mkLeftover srv' [] false) ∧
    (main_status (Returned e) = 0 ↔ true ∈ [false; true; true]) ∧
    GetConfig group dataId srv' = inr "") ∧
  main_status ran.1 = 0 ∧ main_status (run (λ s, s) (λ _, "") (demo_lab [false]) srv).1 = 1.
Proof.
  intros srv ran. split; [|split; vm_compute; reflexivity].
  apply (smoke_tells (λ s, s) (λ _, "") (demo_lab [false; true; true]) (SV local_settings)
           ltac:(intros []; vm_compute; reflexivity) eq_refl eq_refl (λ m, reflexivity _) (λ ch p, reflexivity _)
           (λ l, eq_refl) eq_refl eq_refl [false; true; true] srv).
  - reflexivity.
  - reflexivity.
  - by repeat constructor.
  - reflexivity.
  - by repeat constructor.
Defined.
