(* ===== verification/Hlog.v ===== *)
(** The two bridges from Hertz's logging interface: the adapter of the unified logger
    (pkg/logger/hlog_adapter.go) and the zap logger with several cores (pkg/zap). *)
From Stdlib Require Import Ascii.
From stdpp Require Import prelude gmap strings list.
From S2P Require Import Prelude GoStrings Sanitize Logging.

(** ** The interface *)
(** Hertz's levels have the numbers of ours.  A method: a level's plain or formatting one, or the
    one with a context. *)
Inductive hmethod := Trace | Debug | Info | Notice | Warn | Error_ | Fatal.
Inductive hform := Plain | Format_ | WithCtx.
#[global] Instance hmethod_eq_dec : EqDecision hmethod.
Proof. solve_decision. Defined.
Definition level_of (m : hmethod) : Z :=
  match m with
  | Trace => LevelTrace | Debug => LevelDebug | Info => LevelInfo | Notice => LevelNotice
  | Warn => LevelWarn | Error_ => LevelError | Fatal => LevelFatal
  end.

(** ** hlog_adapter.go *)
Definition adapter_level (m : hmethod) : Z :=
  match m with
  | Trace | Debug => DebugLevel | Info => InfoLevel | Notice | Warn => WarnLevel
  | Error_ => ErrorLevel | Fatal => FatalLevel
  end.
(** [hlogAdapter.log]: without a driver nothing happens. *)
Definition adapter_log (ctx : option context) (lvl : Z) (msg : string) (d : option driver) : option line * option driver :=
  match d with
  | None => (None, None)
  | Some d => let '(out, d) := driver_log lvl msg (buildFields (mkEntry (Some d) ctx nil_slice None) ∅) d in (out, Some d)
  end.
(** Only the methods with a context pass it on. *)
Definition adapter_call (m : hmethod) (f : hform) (ctx : option context) (msg : string) :=
  adapter_log (match f with WithCtx => ctx | _ => None end) (adapter_level m) msg.
Definition hlogLevelToLevel (lv : Z) : Z := if (LevelTrace <=? lv) && (lv <=? LevelFatal) then lv else LevelInfo.
Definition adapter_SetLevel (lv : Z) : option driver → option driver := SetLevelDynamic (hlogLevelToLevel lv).

(** ** pkg/zap: option.go, utils.go, logger.go *)
Definition InArray (key : string) (arr : list string) : bool := existsb (λ k, bool_decide (k = key)) arr.
(** A core: where it writes, and its least level. *)
Record CoreConfig := mkCore { c_out : string; Lvl : Z }.
Record zconfig := mkZc {
  extraKeys : list string; coreConfigs : list CoreConfig; extraKeyAsStr : bool; esIndex : string;
  application : string; hostIp : string; logFilePath : string }.
Definition defaultConfig : zconfig := mkZc [] [mkCore "stdout" InfoLevel] false "" "" "" "".
Definition put_keys (keys : list string) (l : list string) : list string :=
  foldl (λ l k, if InArray k l then l else l ++ [k]) l keys.
(** An option may write to the first core, which is not there after [WithCores] without cores. *)
Definition zoption := zconfig → option zconfig.
Definition on_first (f : CoreConfig → CoreConfig) : zoption := λ c,
  match coreConfigs c with
  | [] => None
  | k :: ks => Some (mkZc (extraKeys c) (f k :: ks) (extraKeyAsStr c) (esIndex c) (application c) (hostIp c) (logFilePath c))
  end.
Definition WithCoreWs (w : string) : zoption := on_first (λ k, mkCore w (Lvl k)).
Definition WithCoreLevel (l : Z) : zoption := on_first (λ k, mkCore (c_out k) l).
Definition WithCores (cores : list CoreConfig) : zoption := λ c,
  Some (mkZc (extraKeys c) cores (extraKeyAsStr c) (esIndex c) (application c) (hostIp c) (logFilePath c)).
Definition with_keys (f : list string → list string) (c : zconfig) : zconfig :=
  mkZc (f (extraKeys c)) (coreConfigs c) (extraKeyAsStr c) (esIndex c) (application c) (hostIp c) (logFilePath c).
Definition WithExtraKeys (keys : list string) : zoption := λ c, Some (with_keys (put_keys keys) c).
Definition WithExtraKeyAsStr : zoption := λ c,
  Some (mkZc (extraKeys c) (coreConfigs c) true (esIndex c) (application c) (hostIp c) (logFilePath c)).
Definition WithEsIndex (i : string) : zoption := λ c,
  Some (mkZc (extraKeys c) (coreConfigs c) (extraKeyAsStr c) i (application c) (hostIp c) (logFilePath c)).
Definition WithApplication (a : string) : zoption := λ c,
  Some (mkZc (extraKeys c) (coreConfigs c) (extraKeyAsStr c) (esIndex c) a (hostIp c) (logFilePath c)).
Definition WithHostIp (h : string) : zoption := λ c,
  Some (mkZc (extraKeys c) (coreConfigs c) (extraKeyAsStr c) (esIndex c) (application c) h (logFilePath c)).
Definition WithLogFilePath (p : string) : zoption := λ c,
  Some (mkZc (extraKeys c) (coreConfigs c) (extraKeyAsStr c) (esIndex c) (application c) (hostIp c) p).
(** The logger: the cores it writes to now, and the configuration. *)
Record Logger := mkLogger { l_cores : list CoreConfig; config : zconfig }.
Definition NewLogger (opts : list zoption) : option Logger :=
  (λ c, mkLogger (coreConfigs c) c) <$> foldl (λ c f, c ≫= f) (Some defaultConfig) opts.
Definition GetExtraKeys (l : Logger) : list string := extraKeys (config l).
Definition PutExtraKeys (keys : list string) (l : Logger) : Logger := mkLogger (l_cores l) (with_keys (put_keys keys) (config l)).
Definition zap_level (lv : Z) : Z :=
  if (lv =? LevelTrace) || (lv =? LevelDebug) then DebugLevel
  else if lv =? LevelInfo then InfoLevel
  else if (lv =? LevelNotice) || (lv =? LevelWarn) then WarnLevel
  else if lv =? LevelError then ErrorLevel
  else if lv =? LevelFatal then FatalLevel else WarnLevel.
(** What the cores write: each that is enabled, with the fields. *)
Definition zlog (lvl : Z) (msg : string) (fields : list (string * option string)) (l : Logger)
    : list (string * Z * string * list (string * option string)) :=
  flat_map (λ k, if Lvl k <=? lvl then [(c_out k, lvl, msg, fields)] else []) (l_cores l).
Definition Log (level : Z) (msg : string) := zlog (zap_level level) msg [].
(** A context answers keys of type string and keys of the package's own type. *)
Definition zcontext := bool → string → option string.
Definition CtxLogf (level : Z) (ctx : zcontext) (msg : string) (l : Logger) :=
  zlog (zap_level level) msg (map (λ k, (k, ctx (extraKeyAsStr (config l)) k)) (extraKeys (config l))) l.
(** The level each method passes on: formatting ones and those with a context round some. *)
Definition method_level (m : hmethod) (f : hform) : Z :=
  match f, m with
  | Plain, _ => level_of m
  | Format_, Notice => LevelWarn
  | WithCtx, Trace => LevelDebug
  | WithCtx, Notice => LevelWarn
  | _, _ => level_of m
  end.
Definition zap_call (m : hmethod) (f : hform) (ctx : zcontext) (msg : string) :=
  match f with WithCtx => CtxLogf (method_level m f) ctx msg | _ => Log (method_level m f) msg end.
(** The level of the first core, and the cores made again from the configuration. *)
Definition rebuild (f : CoreConfig → CoreConfig) (l : Logger) : gores Logger :=
  match on_first f (config l) with Some c => Ret (mkLogger (coreConfigs c) c) | None => Panic "index out of range" end.
Definition Zap_SetLevel (level : Z) : Logger → gores Logger := rebuild (λ k, mkCore (c_out k) (zap_level level)).
Definition SetOutput (w : string) : Logger → gores Logger := rebuild (λ k, mkCore w (Lvl k)).
(** [getMessage] with how the arguments print. *)
Definition getMessage (template : string) (sprintf : string → list arg → string) (args : list arg) : string :=
  match args with
  | [] => template
  | _ => if bool_decide (template = "") then match args with [AStr s] => s | _ => Sprint args end else sprintf template args
  end.

(** ** The bridges agree *)
Lemma method_level_zap m f : zap_level (method_level m f) = adapter_level m.
Proof. by destruct m, f. Qed.
(** One meaning of a level. For every method of the interface, both bridges log at the same
    zap level, which is the one the unified logger gives the method's level; and after
    [SetLevel] to a method's level, a driver without a sampler, and the zap logger's first core,
    write a later method's line exactly if that method's zap level is not lower. *)
Lemma bridges_agree (m m' : hmethod) (f : hform) (ctx : option context) (zctx : zcontext) (msg : string)
    (rules : list SanitizeRule) (lvl : Z) (k : CoreConfig) (c : zconfig) :
  zap_level (method_level m f) = toZapLevel (level_of m) ∧
  (let '(out, _) := adapter_call m f ctx msg (adapter_SetLevel (level_of m') (Some (mkDriver lvl rules None))) in
   is_Some out ↔ adapter_level m' <= adapter_level m) ∧
  match Zap_SetLevel (level_of m') (mkLogger [k] (mkZc (extraKeys c) [k] (extraKeyAsStr c) (esIndex c) (application c) (hostIp c) (logFilePath c))) with
  | Ret l => zap_call m f zctx msg l ≠ [] ↔ adapter_level m' <= adapter_level m
  | Panic _ => False
  end.
Proof.
  split_and!.
  - by destruct m, f.
  - unfold adapter_call, adapter_SetLevel, SetLevelDynamic, adapter_log, driver_log. cbn [fmap option_fmap option_map d_sampler allow d_level].
    assert (toZapLevel (hlogLevelToLevel (level_of m')) = adapter_level m') as -> by (by destruct m').
    cbn [fst snd negb]. destruct (Z.ltb_spec (adapter_level m) (adapter_level m')); cbn; split; try done; try lia; by (intros [] || eexists).
  - unfold Zap_SetLevel, rebuild, on_first. cbn [config coreConfigs].
    assert (zap_level (level_of m') = adapter_level m') as -> by (by destruct m').
    unfold zap_call, CtxLogf, Log, zlog. rewrite method_level_zap. cbn [l_cores flat_map Lvl c_out].
    destruct f; cbn [l_cores flat_map Lvl c_out]; destruct (Z.leb_spec (adapter_level m') (adapter_level m)); cbn [app]; split; intros; first [done|lia|exfalso; lia].
Qed.
(** The keys of a logger stay without repetition, and none is lost. *)
Lemma put_keys_spec keys l : NoDup l → NoDup (put_keys keys l) ∧ ∀ k, k ∈ put_keys keys l ↔ k ∈ l ∨ k ∈ keys.
Proof.
  unfold put_keys. revert l. induction keys as [|k keys IH]; intros l Hl; cbn [foldl].
  { split; [done|]. intros k. rewrite elem_of_nil. naive_solver. }
  assert (InArray k l = true ↔ k ∈ l) as Hin.
  { unfold InArray. rewrite existsb_exists. setoid_rewrite bool_decide_eq_true. setoid_rewrite <-list_elem_of_In. naive_solver. }
  destruct (InArray k l) eqn:E.
  - destruct (IH l Hl) as [IH1 IH2]. split; [done|]. intros x. rewrite IH2, elem_of_cons.
    assert (k ∈ l) by by apply Hin. naive_solver.
  - assert (k ∉ l) as Hn by (intros H; apply Hin in H; congruence).
    destruct (IH (l ++ [k])) as [IH1 IH2].
    { apply NoDup_app. split_and!; [done| |by apply NoDup_singleton]. intros x Hx ->%list_elem_of_singleton. done. }
    split; [done|]. intros x. rewrite IH2, elem_of_app, list_elem_of_singleton, elem_of_cons. naive_solver.
Qed.
(** Unknown levels: the adapter takes them for info, the zap logger for warnings. *)
Example unknown_level : (toZapLevel (hlogLevelToLevel 9), zap_level 9) = (InfoLevel, WarnLevel).
Proof. reflexivity. Qed.
