(* ===== verification/DefaultLogger.v ===== *)
(** The default logger and the package's functions that go through it (pkg/logger/default.go,
    logger.go): the interface of twenty-one methods, its local implementation, and what a program
    that logs by the package writes before it ends. *)
From Stdlib Require Import Ascii.
From stdpp Require Import prelude gmap strings list.
From S2P Require Import Prelude GoStrings Sanitize Logging Hlog.

(** ** The process a logger writes for *)
(** The threshold is a variable of the package; a fatal call ends the process.  The lines are
    without the date and the file that package log puts in front. *)
Record process := mkProc { p_level : Z; p_stderr : list string; p_exit : option Z }.
Definition log_Output (msg : string) (p : process) : process := mkProc (p_level p) (p_stderr p ++ [msg]) (p_exit p).
Definition os_Exit (code : Z) (p : process) : process := mkProc (p_level p) (p_stderr p) (Some code).

(** ** The interface (logger.go): the text of a call with a format is given formatted. *)
Record Logger := mkLogger {
  l_Trace : list arg → process → process; l_Debug : list arg → process → process;
  l_Info : list arg → process → process; l_Notice : list arg → process → process;
  l_Warn : list arg → process → process; l_Error : list arg → process → process;
  l_Fatal : list arg → process → process;
  l_Tracef : string → process → process; l_Debugf : string → process → process;
  l_Infof : string → process → process; l_Noticef : string → process → process;
  l_Warnf : string → process → process; l_Errorf : string → process → process;
  l_Fatalf : string → process → process;
  l_CtxTracef : option context → string → process → process; l_CtxDebugf : option context → string → process → process;
  l_CtxInfof : option context → string → process → process; l_CtxNoticef : option context → string → process → process;
  l_CtxWarnf : option context → string → process → process; l_CtxErrorf : option context → string → process → process;
  l_CtxFatalf : option context → string → process → process }.

(** ** default.go *)
Definition local_logf (lv : Z) (formatted : option string) (v : list arg) (p : process) : process :=
  if lv <? p_level p then p
  else
    let msg := level_toString lv +++ match formatted with Some s => s | None => Sprint v end in
    let p := log_Output msg p in
    if lv =? LevelFatal then os_Exit 1 p else p.
Definition localLogger : Logger := {|
  l_Fatal v := local_logf LevelFatal None v;
  l_Error v := local_logf LevelError None v;
  l_Warn v := local_logf LevelWarn None v;
  l_Notice v := local_logf LevelNotice None v;
  l_Info v := local_logf LevelInfo None v;
  l_Debug v := local_logf LevelDebug None v;
  l_Trace v := local_logf LevelTrace None v;
  l_Fatalf s := local_logf LevelFatal (Some s) [];
  l_Errorf s := local_logf LevelError (Some s) [];
  l_Warnf s := local_logf LevelWarn (Some s) [];
  l_Noticef s := local_logf LevelNotice (Some s) [];
  l_Infof s := local_logf LevelInfo (Some s) [];
  l_Debugf s := local_logf LevelDebug (Some s) [];
  l_Tracef s := local_logf LevelTrace (Some s) [];
  l_CtxFatalf ctx s := local_logf LevelFatal (Some s) [];
  l_CtxErrorf ctx s := local_logf LevelError (Some s) [];
  l_CtxWarnf ctx s := local_logf LevelWarn (Some s) [];
  l_CtxNoticef ctx s := local_logf LevelNotice (Some s) [];
  l_CtxInfof ctx s := local_logf LevelInfo (Some s) [];
  l_CtxDebugf ctx s := local_logf LevelDebug (Some s) [];
  l_CtxTracef ctx s := local_logf LevelTrace (Some s) [] |}.
Definition SetDefaultLogger (l : option Logger) : gores Logger :=
  match l with None => Panic "logger must not be nil" | Some l => Ret l end.

(** ** logger.go: the functions of the package, over the default logger *)
Definition unless_below (lv : Z) (call : process → process) (p : process) : process :=
  if lv <? p_level p then p else call p.
Definition package_functions (d : Logger) : Logger := {|
  l_Fatal v := l_Fatal d [ASlice v];
  l_Error v := unless_below LevelError (l_Error d [ASlice v]);
  l_Warn v := unless_below LevelWarn (l_Warn d [ASlice v]);
  l_Notice v := unless_below LevelNotice (l_Notice d [ASlice v]);
  l_Info v := unless_below LevelInfo (l_Info d [ASlice v]);
  l_Debug v := unless_below LevelDebug (l_Debug d [ASlice v]);
  l_Trace v := unless_below LevelTrace (l_Trace d [ASlice v]);
  l_Fatalf s := l_Fatalf d s;
  l_Errorf s := unless_below LevelError (l_Errorf d s);
  l_Warnf s := unless_below LevelWarn (l_Warnf d s);
  l_Noticef s := unless_below LevelNotice (l_Noticef d s);
  l_Infof s := unless_below LevelInfo (l_Infof d s);
  l_Debugf s := unless_below LevelDebug (l_Debugf d s);
  l_Tracef s := unless_below LevelTrace (l_Tracef d s);
  l_CtxFatalf c s := l_CtxFatalf d c s;
  l_CtxErrorf c s := unless_below LevelError (l_CtxErrorf d c s);
  l_CtxWarnf c s := unless_below LevelWarn (l_CtxWarnf d c s);
  l_CtxNoticef c s := unless_below LevelNotice (l_CtxNoticef d c s);
  l_CtxInfof c s := unless_below LevelInfo (l_CtxInfof d c s);
  l_CtxDebugf c s := unless_below LevelDebug (l_CtxDebugf d c s);
  l_CtxTracef c s := unless_below LevelTrace (l_CtxTracef d c s) |}.

(** ** A program that logs *)
Inductive log_call := CallPlain (m : hmethod) (v : list arg) | CallFormat (m : hmethod) (s : string)
  | CallCtx (m : hmethod) (c : option context) (s : string).
Definition call_level (c : log_call) : Z :=
  level_of match c with CallPlain m _ | CallFormat m _ | CallCtx m _ _ => m end.
Definition method (l : Logger) (c : log_call) : process → process :=
  match c with
  | CallPlain m v => match m with
      | Trace => l_Trace l v | Debug => l_Debug l v | Info => l_Info l v | Notice => l_Notice l v
      | Warn => l_Warn l v | Error_ => l_Error l v | Fatal => l_Fatal l v end
  | CallFormat m s => match m with
      | Trace => l_Tracef l s | Debug => l_Debugf l s | Info => l_Infof l s | Notice => l_Noticef l s
      | Warn => l_Warnf l s | Error_ => l_Errorf l s | Fatal => l_Fatalf l s end
  | CallCtx m c s => match m with
      | Trace => l_CtxTracef l c s | Debug => l_CtxDebugf l c s | Info => l_CtxInfof l c s | Notice => l_CtxNoticef l c s
      | Warn => l_CtxWarnf l c s | Error_ => l_CtxErrorf l c s | Fatal => l_CtxFatalf l c s end
  end.
(** The calls of a program, until one ends it. *)
Fixpoint run_program (l : Logger) (cs : list log_call) (p : process) : process :=
  match cs with
  | [] => p
  | c :: cs => match p_exit p with Some _ => p | None => run_program l cs (method l c p) end
  end.
(** The text of a call by the package, and the calls that are made: those up to the first fatal one. *)
Definition call_text (c : log_call) : string :=
  level_toString (call_level c) +++ match c with CallPlain _ v => Sprint [ASlice v] | CallFormat _ s | CallCtx _ _ s => s end.
Fixpoint calls_made (cs : list log_call) : list log_call :=
  match cs with
  | [] => []
  | c :: cs => if call_level c =? LevelFatal then [c] else c :: calls_made cs
  end.

(** A function of the package reaches the logger behind it exactly when its level is not below
    the threshold; a fatal one always. *)
Lemma package_reaches (d : Logger) (c : log_call) (p : process) :
  method (package_functions d) c p =
    if negb (call_level c =? LevelFatal) && (call_level c <? p_level p) then p
    else method d match c with CallPlain m v => CallPlain m [ASlice v] | c => c end p.
Proof. destruct c as [[] v|[] s|[] ctx s]; reflexivity. Qed.
Lemma local_method (c : log_call) (p : process) :
  method localLogger c p =
    local_logf (call_level c) match c with CallPlain _ _ => None | CallFormat _ s | CallCtx _ _ s => Some s end
      match c with CallPlain _ v => v | _ => [] end p.
Proof. destruct c as [[] v|[] s|[] ctx s]; reflexivity. Qed.
(** One call: the line that [pkg_log] and [pkg_logf] say, and the end of the process. *)
Lemma package_call (c : log_call) (p : process) :
  p_level p <= LevelFatal →
  method (package_functions localLogger) c p =
    if call_level c <? p_level p then p
    else mkProc (p_level p) (p_stderr p ++ [call_text c]) (if call_level c =? LevelFatal then Some 1 else p_exit p).
Proof.
  intros Hl. rewrite package_reaches, local_method.
  assert (call_level match c with CallPlain m v => CallPlain m [ASlice v] | c => c end = call_level c) as -> by by destruct c.
  unfold local_logf, call_text. destruct (Z.ltb_spec (call_level c) (p_level p)).
  - by destruct (negb _).
  - rewrite andb_false_r. by destruct (call_level c =? LevelFatal) eqn:E, c.
Qed.

(** A program that logs by the package's functions over the local logger writes exactly the
    lines of the calls it makes whose level reaches the threshold, in their order: all its calls,
    or those up to the first fatal one, which is written whatever the threshold and ends the
    process with the code 1. *)
Theorem program_log (cs : list log_call) (p : process) :
  p_level p <= LevelFatal → p_exit p = None →
  let p' := run_program (package_functions localLogger) cs p in
  p_stderr p' = p_stderr p ++ map call_text (filter (λ c, p_level p <= call_level c) (calls_made cs)) ∧
  p_exit p' = (if existsb (λ c, call_level c =? LevelFatal) cs then Some 1 else None) ∧
  p_level p' = p_level p.
Proof.
  cbn zeta. revert p. induction cs as [|c cs IH]; intros p Hl He; cbn [run_program calls_made existsb].
  { cbn. by rewrite app_nil_r. }
  rewrite He, package_call by done.
  destruct (Z.eqb_spec (call_level c) LevelFatal) as [Hf|Hf].
  - replace (call_level c <? p_level p) with false by lia. rewrite filter_cons_True by lia.
    destruct cs; cbn; by rewrite ?app_nil_r.
  - destruct (Z.ltb_spec (call_level c) (p_level p)).
    + rewrite filter_cons_False by lia. by apply IH.
    + rewrite filter_cons_True by lia.
      destruct (IH (mkProc (p_level p) (p_stderr p ++ [call_text c]) (p_exit p))) as (-> & -> & ->); [done..|].
      cbn. by rewrite <- app_assoc.
Qed.
Definition program : list log_call :=
  [CallPlain Debug [AStr "x"]; CallFormat Warn "low disk"; CallPlain Error_ [AStr "a"; AInt 3];
   CallCtx Fatal None "stop"; CallFormat Error_ "never"].
Lemma program_log_witness :
  let p := mkProc LevelInfo [] None in
  let p' := run_program (package_functions localLogger) program p in
  p_stderr p' = ["[Warn] low disk"; "[Error] [a 3]"; "[Fatal] stop"] ∧ p_exit p' = Some 1 ∧
  (p_stderr p' = p_stderr p ++ map call_text (filter (λ c, p_level p <= call_level c) (calls_made program)) ∧
   p_exit p' = (if existsb (λ c, call_level c =? LevelFatal) program then Some 1 else None) ∧
   p_level p' = p_level p).
Proof.
  split; [vm_compute; reflexivity|]. split; [vm_compute; reflexivity|].
  apply (program_log program (mkProc LevelInfo [] None)); [vm_compute; discriminate|reflexivity].
Defined.
