(* ===== verification/DingTalk.v ===== *)
(** The DingTalk notifier (pkg/alert/notifier): the webhook's signature, the Markdown message and
    the outcome of sending it. *)
From Stdlib Require Import Ascii SpecFloat.
From stdpp Require Import prelude gmap strings list.
From S2P Require Import Prelude GoStrings Digest Base64 GoFloat Metrics Alert GoTime.

(** ** Text of numbers and of query parameters *)
(** ["%.2f"]: hundredths, the exact value rounded half to even. *)
Definition round_div (n d : Z) : Z :=
  let q := n / d in let r := n mod d in
  if 2 * r <? d then q else if d <? 2 * r then q + 1 else if Z.even q then q else q + 1.
Definition hundredths (m : positive) (e : Z) : Z :=
  if 0 <=? e then Z.pos m * 100 * 2 ^ e else round_div (Z.pos m * 100) (2 ^ (- e)).
Definition fixed2 (n : Z) : string := utoa (n / 100) +++ "." +++ fmt_0d 2 (n mod 100).
Definition fmt_2f (f : float64) : string :=
  match f with
  | S754_nan => "NaN"
  | S754_infinity s => if s then "-Inf" else "+Inf"
  | S754_zero s => if s then "-0.00" else "0.00"
  | S754_finite s m e => (if s then "-" else "") +++ fixed2 (hundredths m e)
  end.
Example fmt_2f_examples : map fmt_2f [f_percent 95; fdiv f1 (f_of_Z 3); f_of_Z 12; fdiv f1 (f_of_Z 8); fsub f0 (f_percent 1)]
  = ["0.95"; "0.33"; "12.00"; "0.12"; "-0.01"].
Proof. vm_compute. reflexivity. Qed.
(** [url.QueryEscape]. *)
Definition unreserved (c : ascii) : bool :=
  let n := byte_of c in
  ((97 <=? n) && (n <=? 122)) || ((65 <=? n) && (n <=? 90)) || is_digit c || bool_decide (n ∈ [45; 95; 46; 126]).
Definition upper_hex (n : Z) : ascii := if n <? 10 then byte_char (48 + n) else byte_char (55 + n).
Fixpoint QueryEscape (s : string) : string :=
  match s with
  | EmptyString => ""
  | String c s =>
      if unreserved c then String c (QueryEscape s)
      else if byte_of c =? 32 then String "+" (QueryEscape s)
      else String "%" (String (upper_hex (byte_of c / 16)) (String (upper_hex (byte_of c mod 16)) (QueryEscape s)))
  end.
(** What a server reads from it. *)
Definition hex_val (c : ascii) : Z := let n := byte_of c in if n <? 58 then n - 48 else n - 55.
Fixpoint query_unescape (s : string) : string :=
  match s with
  | EmptyString => ""
  | String c t =>
      if Ascii.eqb c "%"%char then
        match t with String a (String b t) => String (byte_char (16 * hex_val a + hex_val b)) (query_unescape t) | _ => "" end
      else String (if Ascii.eqb c "+"%char then " "%char else c) (query_unescape t)
  end.
Lemma query_roundtrip s : query_unescape (QueryEscape s) = s.
Proof.
  assert (∀ c s, query_unescape (QueryEscape (String c s)) = String c (query_unescape (QueryEscape s))) as Hc.
  { clear. intros c s. destruct c as [[] [] [] [] [] [] [] []]; reflexivity. }
  induction s as [|c s IH]; [done|]. by rewrite Hc, IH.
Qed.

(** ** dingtalk.go *)
Definition LF1 : string := String (ascii_of_nat 10) EmptyString.
Record DingTalkNotifier := mkDing { webhookURL : string; secret : string; timeout : Z; hasProvider : bool }.
Definition DingTalkOption := DingTalkNotifier → DingTalkNotifier.
Definition WithSecret (s : string) : DingTalkOption := λ d, mkDing (webhookURL d) s (timeout d) (hasProvider d).
Definition WithTimeout (t : Z) : DingTalkOption := λ d, mkDing (webhookURL d) (secret d) t (hasProvider d).
Definition WithConfigProvider (p : bool) : DingTalkOption := λ d, mkDing (webhookURL d) (secret d) (timeout d) p.
Definition NewDingTalk (url : string) (opts : list DingTalkOption) : DingTalkNotifier :=
  foldl (λ d o, o d) (mkDing url "" (10 * Second) false) opts.
(** The provider's answer is used when it names a webhook. *)
Definition getConfig (answer : goerr + option NotifierConfig) (d : DingTalkNotifier) : string * string :=
  if hasProvider d then
    match answer with
    | inr (Some c) => if bool_decide (DingTalkWebhook c = "") then (webhookURL d, secret d) else (DingTalkWebhook c, DingTalkSecret c)
    | _ => (webhookURL d, secret d)
    end
  else (webhookURL d, secret d).
Definition signature (timestamp : Z) (secret : string) : string :=
  EncodeToString (of_bytes (hmac_sha256 (to_bytes secret) (to_bytes (FormatInt timestamp +++ LF1 +++ secret)))).
Definition signURL (timestamp : Z) (url secret : string) : string :=
  url +++ "&timestamp=" +++ FormatInt timestamp +++ "&sign=" +++ QueryEscape (signature timestamp secret).

Section send.
(** How a value other than a float is printed, the zone of times, the body's JSON, and the
    server: its status, and the body if it decodes. *)
Context (show : gval → string) (loc : location) (json : string → string → string)
  (post : string → string → goerr + (Z * string * option (Z * string))).
Definition formatAlertValue (v : gval) : string := match v with GFloat f => fmt_2f f | _ => show v end.
Definition bullet (name value : string) : string := "- **" +++ name +++ "**: " +++ value +++ LF1.
(** [tags] is the order in which the map's entries come. *)
Definition markdown_title (ev : AlertEvent) : string :=
  Level_Emoji (ev_Level ev) +++ " " +++ Level_Text (ev_Level ev) +++ "告警 - " +++ ev_ServiceName ev.
Definition markdown_text (tags : list (string * string)) (ev : AlertEvent) : string :=
  "### " +++ Level_Emoji (ev_Level ev) +++ " " +++ Level_Text (ev_Level ev) +++ "告警：" +++ ev_Title ev +++ LF1 +++ LF1
  +++ bullet "服务" (ev_ServiceName ev) +++ bullet "指标" (ev_MetricName ev)
  +++ bullet "当前值" (formatAlertValue (ev_Value ev)) +++ bullet "阈值" (formatAlertValue (ev_Threshold ev))
  +++ bullet "时间" (Format loc layout_second (ev_Timestamp ev))
  +++ (if bool_decide (show (ev_Message ev) = "") then "" else bullet "详情" (show (ev_Message ev)))
  +++ (match tags with
       | [] => ""
       | _ => "- **标签**: " +++ foldr (λ kv s, kv.1 +++ "=" +++ kv.2 +++ " " +++ s) "" tags +++ LF1
       end)
  +++ LF1 +++ "> 请及时处理".
(** The address posted to, if any, and the error. *)
Definition DingTalk_Send (answer : goerr + option NotifierConfig) (now : Z) (tags : list (string * string)) (ev : AlertEvent)
    (d : DingTalkNotifier) : option string * option goerr :=
  let '(url, key) := getConfig answer d in
  if bool_decide (url = "") then (None, Some (ErrNew "dingtalk webhook url is empty"))
  else
    let url := if bool_decide (key = "") then url else signURL (now / Millisecond) url key in
    (Some url,
     match post url (json (markdown_title ev) (markdown_text tags ev)) with
     | inl e => Some (ErrWrap "send dingtalk request failed" e)
     | inr (status, text, decoded) =>
         if negb (status =? 200) then Some (ErrNew ("dingtalk response status: " +++ FormatInt status +++ ", body: " +++ text))
         else match decoded with
              | Some (code, msg) =>
                  if negb (code =? 0) then Some (ErrNew ("dingtalk error: code=" +++ FormatInt code +++ ", msg=" +++ msg)) else None
              | None => None
              end
     end).

(** Sending. An alert is posted exactly if a webhook is known, from the provider before the
    static one and with the secret that belongs to it; no error is answered exactly if the
    server answered 200 with no error code; and if there is a secret, what a server reads from
    the posted address is the time and the signature of that time under the secret. *)
Lemma dingtalk_send (answer : goerr + option NotifierConfig) (now : Z) (tags : list (string * string)) (ev : AlertEvent)
    (d : DingTalkNotifier) :
  let '(url, key) := getConfig answer d in
  let '(posted, e) := DingTalk_Send answer now tags ev d in
  (posted = None ↔ url = "") ∧
  (e = None ↔ ∃ u text decoded, posted = Some u ∧
     post u (json (markdown_title ev) (markdown_text tags ev)) = inr (200, text, decoded) ∧
     ∀ code msg, decoded = Some (code, msg) → code = 0) ∧
  (url ≠ "" → key = "" → posted = Some url) ∧
  (url ≠ "" → key ≠ "" → ∃ sign,
     posted = Some (url +++ "&timestamp=" +++ FormatInt (now / Millisecond) +++ "&sign=" +++ sign) ∧
     query_unescape sign = signature (now / Millisecond) key).
Proof.
  unfold DingTalk_Send. destruct (getConfig answer d) as [url key]. case_bool_decide as Hu.
  { split_and!; [done| |done|done]. split; [done|]. by intros (? & ? & ? & ? & _). }
  set (u := if bool_decide (key = "") then url else signURL (now / Millisecond) url key). split_and!.
  - done.
  - destruct (post u _) as [er|[[status text] decoded]] eqn:Ep.
    { split; [done|]. intros (? & ? & ? & [= <-] & Hp & _). congruence. }
    destruct (Z.eqb_spec status 200) as [->|Hs]; cbn [negb].
    + destruct decoded as [[code msg]|].
      * destruct (Z.eqb_spec code 0) as [->|Hc]; cbn [negb].
        -- split; [intros _|done]. exists u, text, (Some (0, msg)). split_and!; [done|done|]. by intros ? ? [= <- _].
        -- split; [done|]. intros (? & ? & ? & [= <-] & Hp & Hz). rewrite Ep in Hp. injection Hp as <- <-. exfalso. by eapply Hc, Hz.
      * split; [intros _|done]. by exists u, text, None.
    + split; [done|]. intros (? & ? & ? & [= <-] & Hp & _). rewrite Ep in Hp. by injection Hp.
  - intros _ ->. unfold u. by rewrite bool_decide_eq_true_2.
  - intros _ Hk. exists (QueryEscape (signature (now / Millisecond) key)). split; [|apply query_roundtrip].
    unfold u. by rewrite bool_decide_eq_false_2.
Qed.
End send.
