(* ===== verification/Rollout.v ===== *)
(** Build fingerprints and their way to the release check: pkg/buildinfo, the one-line start of
    pkg/health/redishealth, and both ends together (pkg/health, cmd/release_check). *)
From Stdlib Require Import Ascii.
From stdpp Require Import prelude gmap strings list.
From S2P Require Import Prelude GoStrings Health Release.

(** ** buildinfo.go: the variables the linker sets *)
Record build_vars := mkBuild { GitCommit : string; BuildTime : string; Version : string }.
Definition default_build : build_vars := mkBuild "unknown" "unknown" "dev".
Definition BuildID (b : build_vars) : string := GitCommit b +++ "@" +++ BuildTime b.
Definition BuildSummary (b : build_vars) : string :=
  "version=" +++ Version b +++ " commit=" +++ GitCommit b +++ " buildTime=" +++ BuildTime b.

(** ** redishealth/start.go *)
Record RedisHealthOptions := mkRh { Interval : Z; rh_StaleCleanup : Z; rh_Prefix : string; ExtraMeta : gmap string string }.
(** The process: host name, number, path, and the first eight characters of a new UUID. *)
Record process := mkProcess { hostname : string; pid : Z; binPath : string; uuid8 : string }.
Definition instanceID (p : process) : string := hostname p +++ "-" +++ FormatInt (pid p) +++ "-" +++ uuid8 p.
Definition BuildMeta (b : build_vars) (p : process) (now : Z) (extra : gmap string string) : string * gmap string string :=
  (instanceID p,
   extra ∪ list_to_map
     [("buildID", BuildID b); ("commit", GitCommit b); ("buildTime", BuildTime b); ("version", Version b);
      ("startTime", FormatInt now); ("pid", FormatInt (pid p)); ("host", hostname p); ("binPath", binPath p)]).
Section start.
Context {R : Type} `{HealthStore R} (marshal : gmap string string → string).
Definition RedisHealth_Start (has_client : bool) (b : build_vars) (p : process) (service : string) (o : RedisHealthOptions)
    (now : Z) (a : beat_answers) (r : R) : (goerr + Reporter) * R :=
  if negb has_client then (inl (ErrNew "redishealth: nil redis client"), r)
  else if bool_decide (service = "") then (inl (ErrNew "redishealth: empty service name"), r)
  else
    let '(inst, meta) := BuildMeta b p now (ExtraMeta o) in
    let rp := mkReporter (rh_Prefix o) service inst (if Interval o <=? 0 then 10 * Second else Interval o)
                (if rh_StaleCleanup o <=? 0 then 5 * Minute else rh_StaleCleanup o) (Some (inr (marshal meta))) in
    match Health.Start rp now a r with
    | (inl e, r) => (inl (ErrWrap "redishealth: start reporter" e), r)
    | (inr rp, r) => (inr rp, r)
    end.
Definition NewReader (prefix : string) (aliveWindow : Z) : Reader := mkReader prefix aliveWindow.
End start.

(** ** A release, end to end *)
(** The hashes of the store. *)
Class HealthHashLaws (R : Type) `{HealthStore R} := {
  HSet_hash k f v r : hash k (HSet k f v r) = <[f := v]> (hash k r) }.
Section rollout.
Context {R : Type} `{HealthStoreLaws R} {HH : HealthHashLaws R}.
(** [encoding/json] on a map of strings: what it wrote it reads. *)
Context (marshal : gmap string string → string) (parse : string → option (gmap string string)).
Context (Hjson : ∀ m, marshal m ≠ "" ∧ parse (marshal m) = Some m).
Lemma BuildMeta_get b p now extra k v :
  extra !! k = None → list_to_map (M := gmap string string)
     [("buildID", BuildID b); ("commit", GitCommit b); ("buildTime", BuildTime b); ("version", Version b);
      ("startTime", FormatInt now); ("pid", FormatInt (pid p)); ("host", hostname p); ("binPath", binPath p)] !! k = Some v →
  (BuildMeta b p now extra).2 !! k = Some v.
Proof. intros He Hv. unfold BuildMeta. cbn [snd]. by rewrite lookup_union_r. Qed.

(** What the store holds after a start without errors. *)
Lemma start_stored (b : build_vars) (p : process) (service : string) (o : RedisHealthOptions) (now : Z) (r : R) :
  service ≠ "" → Second <= (if rh_StaleCleanup o <=? 0 then 5 * Minute else rh_StaleCleanup o) →
  let '(inst, meta) := BuildMeta b p now (ExtraMeta o) in
  ∃ rp r' mx, RedisHealth_Start marshal true b p service o now (mkAnswers None None None) r = (inr rp, r') ∧
    mx < now ∧ (∀ i, zset (keyFor (rh_Prefix o) service) r' !! i
      = match <[inst := now]> (zset (keyFor (rh_Prefix o) service) r) !! i with
        | Some s => if s <=? mx then None else Some s
        | None => None
        end) ∧
    hash (metaKeyFor (rh_Prefix o) service) r' !! inst = Some (marshal meta).
Proof.
  intros Hs Hstale. unfold RedisHealth_Start. cbn [negb]. rewrite (bool_decide_eq_false_2 (service = "")) by done.
  destruct (BuildMeta b p now (ExtraMeta o)) as [inst meta] eqn:Em.
  assert (inst = instanceID p) as -> by (unfold BuildMeta in Em; by injection Em as <- _).
  unfold Health.Start. cbn [r_Service r_Instance]. rewrite (bool_decide_eq_false_2 (service = "")) by done.
  rewrite (bool_decide_eq_false_2 (instanceID p = "")).
  2:{ unfold instanceID. by destruct (hostname p). }
  cbn [orb]. unfold with_defaults, beat, reportMeta. cbn [r_Prefix r_Service r_Instance r_Interval StaleCleanup meta_json zadd_err zrem_err hset_err answered].
  set (stale := if (if rh_StaleCleanup o <=? 0 then 5 * Minute else rh_StaleCleanup o) <=? 0 then _ else _).
  assert (1 <= seconds stale) as Hst.
  { assert (Second <= stale) as Hle.
    { unfold stale. set (d := if rh_StaleCleanup o <=? 0 then 5 * Minute else rh_StaleCleanup o) in *.
      destruct (Z.leb_spec d 0); [unfold Second, Millisecond in *; lia|done]. }
    unfold seconds. rewrite Z.quot_div_nonneg by (unfold Second, Millisecond in *; lia).
    apply Z.div_le_lower_bound; [done|lia]. }
  eexists _, _, (now - seconds stale). split_and!; [done|lia|..].
  - intros i. by rewrite HSet_zset, ZRemRange_zset, ZAdd_zset.
  - by rewrite HSet_hash, lookup_insert_eq.
Qed.
(** How the check reads one instance of the new process. *)
Lemma check_started expect since p start meta b :
  0 < start < 2 ^ 33 → meta !! "commit" = Some (GitCommit b) → meta !! "startTime" = Some (FormatInt start) →
  let ir := check_instance expect since (mkInstanceMeta (instanceID p) start true (Some meta)) in
  ir_Instance ir = instanceID p ∧ Alive ir = true ∧ Commit ir = GitCommit b ∧ StartTime ir = time_Unix start ∧
  (CommitMatch ir = true ↔ expect = "" ∨ GitCommit b = expect) ∧
  (RestartedNew ir = true ↔ since = zero_time ∨ since < time_Unix start).
Proof.
  intros Hstart Hc Ht. unfold check_instance, meta_get. cbn [Meta]. rewrite Hc, Ht. cbn.
  assert (parseStartTime (FormatInt start) = time_Unix start) as ->.
  { unfold parseStartTime. rewrite bool_decide_eq_false_2.
    - by rewrite ParseInt_FormatInt by (unfold in_i64; lia).
    - intros E. pose proof (ParseInt_FormatInt start ltac:(unfold in_i64; lia)) as HP. by rewrite E in HP. }
  assert (IsZero (time_Unix start) = false) as ->.
  { apply Z.eqb_neq. unfold time_Unix, unixToInternal, zero_time.
    rewrite i64_id by (unfold in_i64; lia). unfold Second, Millisecond. lia. }
  split_and!; try done.
  - by rewrite orb_true_iff, !bool_decide_eq_true.
  - unfold IsZero. cbn. by rewrite orb_true_iff, Z.eqb_eq, Z.ltb_lt.
Qed.

(** The instances the reader then lists: the new one, alive, among them. *)
Lemma started_listed b p service prefix o start look window (r : R) :
  service ≠ "" → rh_Prefix o = prefix → alive_from (NewReader prefix window) look <= start →
  Second <= (if rh_StaleCleanup o <=? 0 then 5 * Minute else rh_StaleCleanup o) →
  let im := mkInstanceMeta (instanceID p) start true (Some (BuildMeta b p start (ExtraMeta o)).2) in
  ∃ l, Instances parse (NewReader prefix window) service look None true
         (RedisHealth_Start marshal true b p service o start (mkAnswers None None None) r).2 = inr l ∧
    im ∈ l ∧ (zset (keyFor prefix service) r = ∅ → l = [im]).
Proof.
  intros Hs Hp Hwin Hstale. pose proof (start_stored b p service o start r Hs Hstale) as Hst.
  destruct (BuildMeta b p start (ExtraMeta o)) as [inst meta] eqn:Em. cbn [snd].
  assert (inst = instanceID p) as -> by (unfold BuildMeta in Em; by injection Em as <- _).
  destruct Hst as (rp & r' & mx & -> & Hmx & Hz & Hh). cbn [snd]. rewrite Hp in *.
  set (im := mkInstanceMeta _ _ _ _). set (k := keyFor prefix service) in *.
  unfold Instances. cbn [rd_Prefix NewReader]. fold k. eexists. split; [reflexivity|].
  set (f := λ m : string * Z, mkInstanceMeta m.1 m.2 _ _).
  assert (f (instanceID p, start) = im) as Hf.
  { destruct (Hjson meta) as [Hne Hparse]. unfold f, im. cbn [fst snd]. rewrite Hh.
    rewrite (bool_decide_eq_false_2 (marshal meta = "")) by done. rewrite Hparse. f_equal. by apply Z.leb_le. }
  assert (zset k r' !! instanceID p = Some start) as Hin.
  { rewrite Hz, lookup_insert_eq. by replace (start <=? mx) with false by lia. }
  split.
  - rewrite <-Hf. apply list_elem_of_In, in_map, list_elem_of_In. by apply elem_of_map_to_list.
  - intros Hemp. assert (zset k r' = {[instanceID p := start]}) as ->.
    { apply map_eq. intros i. destruct (decide (i = instanceID p)) as [->|Hne].
      - by rewrite lookup_singleton_eq.
      - rewrite lookup_singleton_ne by done. by rewrite Hz, Hemp, lookup_insert_ne, lookup_empty by done. }
    rewrite map_to_list_singleton. cbn [map]. by rewrite Hf.
Qed.

(** C29: A rollout is seen. After a process has started its heartbeat without errors, with no extra
    meta in place of its commit and start time, the check of its service within the reader's window
    lists the instance as alive with the commit it was built from and the second it started: with
    the commit matching exactly if it is the expected one, or none is expected, and restarted
    exactly if it started after the release, or no time is given. The service passes only if both
    hold; and if it is the only instance there and one is enough, exactly if both hold. *)
Theorem rollout_detected (b : build_vars) (p : process) (target : ServiceTarget) (prefix : string) (o : RedisHealthOptions)
    (start look since : Z) (expect : string) (window : Z) (r : R) (Format : Z → string) (Error : goerr → string) :
  Name target ≠ "" → rh_Prefix o = prefix → ExtraMeta o !! "commit" = None → ExtraMeta o !! "startTime" = None →
  0 < start < 2 ^ 33 → alive_from (NewReader prefix window) look <= start →
  Second <= (if rh_StaleCleanup o <=? 0 then 5 * Minute else rh_StaleCleanup o) →
  let r' := (RedisHealth_Start marshal true b p (Name target) o start (mkAnswers None None None) r).2 in
  let res := checkService Format Error (Instances parse (NewReader prefix window) (Name target) look None true r')
               target expect since in
  let new_commit := expect = "" ∨ GitCommit b = expect in
  let new_start := since = zero_time ∨ since < time_Unix start in
  (∃ ir, ir ∈ res_Instances res ∧ ir_Instance ir = instanceID p ∧ Alive ir = true ∧
     Commit ir = GitCommit b ∧ StartTime ir = time_Unix start ∧
     (CommitMatch ir = true ↔ new_commit) ∧ (RestartedNew ir = true ↔ new_start)) ∧
  (Pass res = true → new_commit ∧ new_start) ∧
  (zset (keyFor prefix (Name target)) r = ∅ → MinInstances target <= 1 → new_commit ∧ new_start → Pass res = true).
Proof.
  intros Hs Hp Hc Ht Hstart Hwin Hstale r' res nc ns.
  pose proof (BuildMeta_get b p start (ExtraMeta o) _ _ Hc eq_refl) as Hcommit.
  pose proof (BuildMeta_get b p start (ExtraMeta o) _ _ Ht eq_refl) as Htime.
  destruct (started_listed b p (Name target) prefix o start look window r Hs Hp Hwin Hstale) as (l & Hl & Hin & Honly).
  fold r' in Hl. set (im := mkInstanceMeta _ _ _ _) in *.
  destruct (check_started expect since p start _ b Hstart Hcommit Htime) as (C1 & C2 & C3 & C4 & C5 & C6). fold im in C1, C2, C3, C4, C5, C6.
  pose proof (check_instance_spec Format expect since im) as Hrel. rewrite C5, C6 in Hrel.
  pose proof (release_verdict Format Error (inr l) target expect since) as Hv.
  unfold res. rewrite Hl. split_and!.
  - exists (check_instance expect since im). split; [|by split_and!].
    unfold checkService. destruct (judgeService _ _ _) as [pass summary]. cbn [res_Instances].
    by apply list_elem_of_In, in_map, list_elem_of_In.
  - intros (l' & [= <-] & _ & Hall)%Hv. by apply Hrel, Hall.
  - intros Hemp Hmin Hboth. apply Hv. exists l. rewrite (Honly Hemp). split_and!; [done| |].
    + rewrite filter_cons_True by done. unfold zlen. cbn. lia.
    + intros im' ->%list_elem_of_singleton _. by apply Hrel.
Qed.
End rollout.

(** ** A witness: maps as the numbers that encode them *)
Definition num_marshal (m : gmap string string) : string := utoa (Z.pos (encode m)).
Definition num_parse (s : string) : option (gmap string string) :=
  match parse_uint s with Some (Z.pos n) => decode n | _ => None end.
Lemma num_json m : num_marshal m ≠ "" ∧ num_parse (num_marshal m) = Some m.
Proof.
  unfold num_marshal, num_parse. split; [apply utoa_nonempty|]. rewrite parse_uint_utoa by lia. apply decode_encode.
Qed.
#[global] Instance mem_HealthHashLaws : HealthHashLaws mem_health.
Proof. split. intros k f v r. cbn. unfold mh_hash. cbn. by rewrite lookup_insert_eq. Qed.
Definition some_build : build_vars := mkBuild "0123abcd" "20260520T090000Z" "v1".
Definition some_process : process := mkProcess "h1" 42 "/srv/app" "deadbeef".
Lemma rollout_detected_witness :
  let r' := (RedisHealth_Start num_marshal true some_build some_process "svc" (mkRh 0 0 "" ∅) 1000
               (mkAnswers None None None) (mkMemHealth ∅ ∅)).2 in
  Pass (checkService FormatInt (λ _, "") (Instances num_parse (NewReader "" 0) "svc" 1020 None true r')
          (mkTarget "svc" "" true "" 1) "0123abcd" (time_Unix 900)) = true.
Proof.
  apply (rollout_detected num_marshal num_parse num_json some_build some_process (mkTarget "svc" "" true "" 1) ""
           (mkRh 0 0 "" ∅) 1000 1020 (time_Unix 900) "0123abcd" 0 (mkMemHealth ∅ ∅) FormatInt (λ _, ""));
    first [done|reflexivity|vm_compute; congruence|split; reflexivity|idtac].
  split; right; reflexivity.
Defined.
