(* ===== verification/RedisHealth.v ===== *)
(** The Redis store of heartbeats (pkg/health/redishealth/store.go): [Store] hands the methods of
    [health.Store] and [health.MetaStore] to a go-redis client.  The ranges cross that boundary
    as texts; what they select is what the registry of Health.v asked for. *)
From Stdlib Require Import Ascii.
From stdpp Require Import prelude gmap strings list sorting.
From S2P Require Import Prelude GoStrings Health Rollout.

(** ** The client *)
(** The two ends of a range of scores, as Redis documents them: infinite, inclusive, or
    exclusive after an opening parenthesis. *)
Inductive bound := NegInf | PosInf | Incl (z : Z) | Excl (z : Z).
Definition parse_bound (s : string) : option bound :=
  if bool_decide (s = "-inf") then Some NegInf
  else if bool_decide (s = "+inf") then Some PosInf
  else match s with
       | String c t => if Ascii.eqb c "("%char then Excl <$> decimal t else Incl <$> decimal s
       | EmptyString => None
       end.
Definition above (b : bound) (z : Z) : bool :=
  match b with NegInf => true | PosInf => false | Incl m => m <=? z | Excl m => m <? z end.
Definition below (b : bound) (z : Z) : bool :=
  match b with NegInf => false | PosInf => true | Incl m => z <=? m | Excl m => z <? m end.
Definition in_range (mn mx : string) (z : Z) : bool :=
  match parse_bound mn, parse_bound mx with Some a, Some b => above a z && below b z | _, _ => false end.
Lemma FormatInt_head z : ∃ c t, FormatInt z = String c t ∧ (c = "-"%char ∨ is_digit c = true) ∧ (c = "-"%char → ∀ u, t ≠ String "i"%char u).
Proof.
  unfold FormatInt. destruct (Z.ltb_spec z 0).
  - exists "-"%char, (utoa (- z)). split_and!; [done|by left|]. intros _ u Hu.
    pose proof (utoa_digits (- z) ltac:(lia)) as Hd. rewrite Hu in Hd. discriminate Hd.
  - pose proof (utoa_digits z ltac:(lia)) as Hd. pose proof (utoa_nonempty z).
    destruct (utoa z) as [|c t]; [done|]. cbn [str_all] in Hd. apply andb_true_iff in Hd as [Hc _].
    exists c, t. split_and!; [done|by right|]. intros ->. discriminate Hc.
Qed.
Lemma parse_bound_FormatInt z : parse_bound (FormatInt z) = Some (Incl z).
Proof.
  destruct (FormatInt_head z) as (c & t & E & Hc & Hi). unfold parse_bound.
  pose proof (decimal_FormatInt z) as Hz. rewrite E in *.
  rewrite bool_decide_eq_false_2.
  2:{ intros [= -> ->]. by eapply (Hi eq_refl). }
  rewrite bool_decide_eq_false_2.
  2:{ intros [= -> ->]. by destruct Hc. }
  destruct (Ascii.eqb_spec c "("%char) as [->|]; [by destruct Hc|]. by rewrite Hz.
Qed.

(** A member of a reply: go-redis has it as an [interface{}]. *)
Inductive zmember := MemberStr (s : string) | MemberOther.
Record redis_Z := mkRedisZ { Score : Z; Member : zmember }.
Class RedisClient (C : Type) := {
  zmembers : string → C → gmap string Z;
  hfields : string → C → gmap string string;
  cl_ZAdd : string → Z → string → C → C;
  cl_ZRemRangeByScore : string → string → string → C → C;
  cl_ZRem : string → string → C → C;
  cl_ZCount : string → string → string → C → Z;
  cl_ZCard : string → C → Z;
  cl_ZRangeByScoreWithScores : string → string → string → C → list redis_Z;
  cl_HSet : string → string → string → C → C;
  cl_HGetAll : string → C → gmap string string;
  cl_HDel : string → list string → C → C }.
Definition to_redis_Z (kv : string * Z) : redis_Z := mkRedisZ kv.2 (MemberStr kv.1).
(** What Redis documents of these commands. *)
Class RedisClientLaws (C : Type) `{RedisClient C} := {
  cl_ZAdd_z k s m c : zmembers k (cl_ZAdd k s m c) = <[m := s]> (zmembers k c);
  cl_ZRemRange_z k mn mx c : zmembers k (cl_ZRemRangeByScore k mn mx c) = filter (λ kv, in_range mn mx kv.2 = false) (zmembers k c);
  cl_ZRem_z k m c : zmembers k (cl_ZRem k m c) = delete m (zmembers k c);
  cl_ZCount_z k mn mx c : cl_ZCount k mn mx c = zlen (filter (λ kv, in_range mn mx kv.2 = true) (map_to_list (zmembers k c)));
  cl_ZCard_z k c : cl_ZCard k c = zlen (map_to_list (zmembers k c));
  cl_ZRange_z k mn mx c : cl_ZRangeByScoreWithScores k mn mx c ≡ₚ
    map to_redis_Z (filter (λ kv, in_range mn mx kv.2 = true) (map_to_list (zmembers k c)));
  cl_ZRange_sorted k mn mx c : StronglySorted Z.le (map Score (cl_ZRangeByScoreWithScores k mn mx c));
  cl_HSet_z k k' f v c : zmembers k (cl_HSet k' f v c) = zmembers k c;
  cl_HSet_h k f v c : hfields k (cl_HSet k f v c) = <[f := v]> (hfields k c);
  cl_HGetAll_h k c : cl_HGetAll k c = hfields k c;
  cl_HDel_z k k' fs c : zmembers k (cl_HDel k' fs c) = zmembers k c }.

(** ** store.go *)
(** What a call does to the server, or reads from it; whether it was answered, or with an error,
    is an argument of the registry's operations in Health.v. *)
Record Store (C : Type) := NewStore { client : C }.
Arguments NewStore {C} _.
Arguments client {C} _.
Record ScoredMember := mkScored { sm_Member : string; sm_Score : Z }.
Section store.
Context {C : Type} `{RedisClient C}.
Definition Store_ZAdd (k : string) (score : Z) (member : string) (s : Store C) : Store C :=
  NewStore (cl_ZAdd k score member (client s)).
Definition Store_ZRemRangeByScore (k mn mx : string) (s : Store C) : Store C :=
  NewStore (cl_ZRemRangeByScore k mn mx (client s)).
Definition Store_ZRem (k member : string) (s : Store C) : Store C := NewStore (cl_ZRem k member (client s)).
Definition Store_ZCount (k mn mx : string) (s : Store C) : Z := cl_ZCount k mn mx (client s).
Definition Store_ZCard (k : string) (s : Store C) : Z := cl_ZCard k (client s).
Definition Store_HSet (k field value : string) (s : Store C) : Store C := NewStore (cl_HSet k field value (client s)).
Definition Store_HGetAll (k : string) (s : Store C) : gmap string string := cl_HGetAll k (client s).
Definition Store_HDel (k : string) (fields : list string) (s : Store C) : Store C := NewStore (cl_HDel k fields (client s)).
(** A member that is no string becomes the empty one. *)
Definition member_text (m : zmember) : string := match m with MemberStr t => t | MemberOther => "" end.
Definition Store_ZRangeByScoreWithScores (k mn mx : string) (s : Store C) : list ScoredMember :=
  map (λ z, mkScored (member_text (Member z)) (Score z)) (cl_ZRangeByScoreWithScores k mn mx (client s)).

(** The registry's interface, by the calls it makes (health.go): a sweep up to a second, a field
    at a time. *)
#[global] Instance Store_HealthStore : HealthStore (Store C) := {
  zset k s := zmembers k (client s);
  hash k s := hfields k (client s);
  ZAdd := Store_ZAdd;
  ZRemRangeUpTo k mx := Store_ZRemRangeByScore k "-inf" (FormatInt mx);
  ZRem := Store_ZRem;
  HSet := Store_HSet;
  HDel k f := Store_HDel k [f] }.
End store.

Section refine.
Context {C : Type} `{RedisClientLaws C}.
Lemma in_range_upto mx z : in_range "-inf" (FormatInt mx) z = (z <=? mx).
Proof. unfold in_range. by rewrite parse_bound_FormatInt. Qed.
Lemma in_range_from mn z : in_range (FormatInt mn) "+inf" z = (mn <=? z).
Proof. unfold in_range. rewrite parse_bound_FormatInt. apply andb_true_r. Qed.
#[global] Instance Store_HealthStoreLaws : HealthStoreLaws (Store C).
Proof.
  split; cbn; intros.
  - apply cl_ZAdd_z.
  - apply cl_ZRem_z.
  - rewrite cl_ZRemRange_z, map_lookup_filter. destruct (zmembers k (client r) !! m) as [s|]; [|done]. cbn.
    rewrite in_range_upto. by destruct (s <=? mx).
  - apply cl_HSet_z.
  - apply cl_HDel_z.
Qed.
#[global] Instance Store_HealthHashLaws : HealthHashLaws (Store C).
Proof. split. cbn. intros. apply cl_HSet_h. Qed.

(** The store's reads are the registry's: the count from a second on, the size, the meta hash, and
    the members, which come with their beats in the order of these. *)
Lemma store_reads_registry (s : Store C) (k : string) (from : Z) :
  Store_ZCount k (FormatInt from) "+inf" s = Health.ZCount k from s ∧
  Store_ZCard k s = Health.ZCard k s ∧
  Store_HGetAll k s = hash k s ∧
  map (λ m, (sm_Member m, sm_Score m)) (Store_ZRangeByScoreWithScores k "-inf" "+inf" s) ≡ₚ map_to_list (zset k s) ∧
  StronglySorted Z.le (map sm_Score (Store_ZRangeByScoreWithScores k "-inf" "+inf" s)).
Proof.
  split_and!.
  - unfold Store_ZCount, Health.ZCount. cbn. rewrite cl_ZCount_z. f_equal. apply list_filter_iff.
    intros x. rewrite in_range_from. lia.
  - apply cl_ZCard_z.
  - apply cl_HGetAll_h.
  - unfold Store_ZRangeByScoreWithScores. rewrite map_map, cl_ZRange_z, map_map. cbn.
    rewrite list_filter_all by (by apply Forall_true). erewrite map_ext; [by rewrite map_id|]. by intros [].
  - unfold Store_ZRangeByScoreWithScores. rewrite map_map. cbn. apply cl_ZRange_sorted.
Qed.
End refine.

(** ** A server in memory *)
Record mem_redis := mkMemRedis { mr_sets : gmap string (gmap string Z); mr_hashes : gmap string (gmap string string) }.
Definition mr_set (k : string) (c : mem_redis) : gmap string Z := default ∅ (mr_sets c !! k).
Definition mr_hash (k : string) (c : mem_redis) : gmap string string := default ∅ (mr_hashes c !! k).
Definition mr_put (k : string) (s : gmap string Z) (c : mem_redis) : mem_redis :=
  mkMemRedis (<[k := s]> (mr_sets c)) (mr_hashes c).
Definition mr_puth (k : string) (h : gmap string string) (c : mem_redis) : mem_redis :=
  mkMemRedis (mr_sets c) (<[k := h]> (mr_hashes c)).
Definition by_score (x y : string * Z) : Prop := x.2 <= y.2.
#[local] Instance by_score_dec x y : Decision (by_score x y) := decide (x.2 <= y.2).
#[local] Instance by_score_total : base.Total by_score.
Proof. intros x y. unfold by_score. lia. Qed.
#[local] Instance by_score_trans : Transitive by_score.
Proof. intros x y z. unfold by_score. lia. Qed.
Definition mr_range (mn mx : string) (k : string) (c : mem_redis) : list (string * Z) :=
  filter (λ kv, in_range mn mx kv.2 = true) (map_to_list (mr_set k c)).
#[global] Instance mem_RedisClient : RedisClient mem_redis := {
  zmembers := mr_set;
  hfields := mr_hash;
  cl_ZAdd k z m c := mr_put k (<[m := z]> (mr_set k c)) c;
  cl_ZRemRangeByScore k mn mx c := mr_put k (filter (λ kv, in_range mn mx kv.2 = false) (mr_set k c)) c;
  cl_ZRem k m c := mr_put k (delete m (mr_set k c)) c;
  cl_ZCount k mn mx c := zlen (mr_range mn mx k c);
  cl_ZCard k c := zlen (map_to_list (mr_set k c));
  cl_ZRangeByScoreWithScores k mn mx c := map to_redis_Z (merge_sort by_score (mr_range mn mx k c));
  cl_HSet k f v c := mr_puth k (<[f := v]> (mr_hash k c)) c;
  cl_HGetAll := mr_hash;
  cl_HDel k fs c := mr_puth k (foldr delete (mr_hash k c) fs) c }.
#[global] Instance mem_RedisClientLaws : RedisClientLaws mem_redis.
Proof.
  assert (∀ k s c, mr_set k (mr_put k s c) = s) as Hput
    by (intros k s c; unfold mr_set, mr_put; cbn; by rewrite lookup_insert_eq).
  split; cbn; try done.
  - intros k mn mx c. by rewrite merge_sort_Permutation.
  - intros k mn mx c. rewrite map_map. cbn.
    pose proof (StronglySorted_merge_sort by_score (mr_range mn mx k c)) as Hs.
    induction Hs as [|x l Hl IH Hx]; constructor; [done|]. by apply Forall_map.
  - intros k f v c. unfold mr_hash, mr_puth. cbn. by rewrite lookup_insert_eq.
Qed.

(** A service started on it is found again, with its build, through the texts of the ranges. *)
Definition no_redis : Store mem_redis := NewStore (mkMemRedis ∅ ∅).
Definition beats_seen : Store mem_redis :=
  Store_HSet "h" "a" "{}" (Store_ZAdd "z" 990 "b" (Store_ZAdd "z" 1000 "a" (Store_ZAdd "z" 500 "c" no_redis))).
Example store_texts :
  Store_ZCount "z" (FormatInt 970) "+inf" beats_seen = 2 ∧
  map sm_Member (Store_ZRangeByScoreWithScores "z" "-inf" "+inf" beats_seen) = ["c"; "b"; "a"] ∧
  Store_ZCard "z" (Store_ZRemRangeByScore "z" "-inf" (FormatInt 700) beats_seen) = 2 ∧
  Store_ZCard "z" (Store_ZRemRangeByScore "z" "-inf" "(500" beats_seen) = 3.
Proof. vm_compute. done. Qed.
