(* ===== verification/SecretTools.v ===== *)
(** The rest of pkg/encrypt: the digests of hash.go, the decryption of structs by reflection
    (config.go), and the command that encrypts and decrypts values (cmd/config_encrypt.go). *)
From Stdlib Require Import Ascii.
From stdpp Require Import prelude list strings.
From S2P Require Import Prelude GoStrings Digest Base64 OldHashes StringsX Encrypt EncryptProofs.

(** ** hash.go *)
Definition hmac_sha1 (key msg : list Z) : list Z :=
  let k := if (64 <? length key)%nat then sha1 key else key in
  let k := k ++ repeat 0 (64 - length k) in
  sha1 (map (Z.lxor 0x5c) k ++ sha1 (map (Z.lxor 0x36) k ++ msg)).
Example hmac_sha1_vector :
  hex_encode (hmac_sha1 (to_bytes "key") (to_bytes "The quick brown fox jumps over the lazy dog"))
  = "de7c9b85b8b78aa6bc8a7a36f70a90701c9db4d9".
Proof. vm_compute. reflexivity. Qed.
(** [base64.URLEncoding] has two other letters. *)
Definition url_char (c : ascii) : ascii :=
  if Ascii.eqb c "+"%char then "-"%char else if Ascii.eqb c "/"%char then "_"%char else c.
Fixpoint str_map (f : ascii → ascii) (s : string) : string :=
  match s with EmptyString => EmptyString | String c s => String (f c) (str_map f s) end.
Definition UrlEncodeToString (s : string) : string := str_map url_char (EncodeToString s).
Definition Sha256_ToUrlBase64 (key message : string) : string := UrlEncodeToString (Sha256_encrypt key message).
Definition Sha1_encrypt (key message : string) : string := of_bytes (hmac_sha1 (to_bytes key) (to_bytes message)).
Definition Sha1_ToHex (key message : string) : string := hex_encode (hmac_sha1 (to_bytes key) (to_bytes message)).
Definition Sha1_ToStdBase64 (key message : string) : string := EncodeToString (ToUpper message).
Definition Sha1_ToUrlBase64 (key message : string) : string := UrlEncodeToString (Sha1_encrypt key message).
(** The letters of the other alphabet are told apart as well. *)
Definition unurl_char (c : ascii) : ascii :=
  if Ascii.eqb c "-"%char then "+"%char else if Ascii.eqb c "_"%char then "/"%char else c.
Definition url_digit_ok (n : Z) : bool := bool_decide (unurl_char (url_char (b64_char n)) = b64_char n).
Lemma url_digits_ok : forallb (λ k, url_digit_ok (Z.of_nat k)) (seq 0 64) = true.
Proof. vm_compute. reflexivity. Qed.
Lemma url_sextet k v : unurl_char (url_char (sextet k v)) = sextet k v.
Proof.
  pose proof (proj1 (forallb_forall _ _) url_digits_ok (Z.to_nat (v / 64 ^ k mod 64))) as H.
  assert (0 <= v / 64 ^ k mod 64 < 64) as Hr by (apply Z.mod_pos_bound; lia).
  specialize (H ltac:(apply in_seq; lia)). cbn beta in H. rewrite Z2Nat.id in H by lia.
  by apply bool_decide_eq_true in H.
Qed.
Lemma url_roundtrip s : DecodeString (str_map unurl_char (UrlEncodeToString s)) = (s, true).
Proof.
  assert (str_map unurl_char (UrlEncodeToString s) = EncodeToString s) as ->; [|apply decode_encode].
  unfold UrlEncodeToString. induction s as [|a|a b|a b c s IH] using string_ind3; [done| | |];
    cbn [EncodeToString str_map]; rewrite !url_sextet; [done..|by rewrite IH].
Qed.
(** The standard text of the SHA-1 digest is not a digest, and has nothing of the key. *)
Example sha1_std_is_plain :
  Sha1_ToStdBase64 "secret" "GET /v1" = Sha1_ToStdBase64 "other" "GET /v1" ∧
  DecodeString (Sha1_ToStdBase64 "secret" "GET /v1") = ("GET /V1", true).
Proof. by vm_compute. Qed.

(** ** config.go: [DecryptStruct] *)
(** Values as reflection sees them: a struct's fields with whether each is exported, strings of
    type string or of a named type, maps in the order of an iteration (their keys by a name), and
    interfaces of type interface{}. Pointers form a tree. *)
Inductive rval :=
  | RNil
  | RPtr (v : rval)
  | RStruct (fs : list (bool * rval))
  | RStr (named : bool) (s : string)
  | RSlice (l : list rval)
  | RMap (m : list (string * rval))
  | RIface (v : rval)
  | ROther (tag : string).
(** A walk in place that stops at the first error or panic. *)
Definition walked (A : Type) : Type := A * gores (option goerr).
Section walk.
Context {A : Type} (f : A → walked A).
Fixpoint walk (l : list A) : walked (list A) :=
  match l with
  | [] => ([], Ret None)
  | x :: l =>
      match f x with
      | (x', Ret None) => let '(l', r) := walk l in (x' :: l', r)
      | (x', r) => (x' :: l, r)
      end
  end.
End walk.
Section structs.
Context `{Gcm} (key : string).
(** [SetString], on a string that can be set. *)
Definition decrypt_string (named : bool) (s : string) : walked rval :=
  if IsEncrypted s then
    match DecryptConfigValue key s with inl e => (RStr named s, Ret (Some e)) | inr d => (RStr named d, Ret None) end
  else (RStr named s, Ret None).
(** The value of a map: strings, and strings in an interface; [SetMapIndex] is given a plain
    string. *)
Definition decrypt_entry (kv : string * rval) : walked (string * rval) :=
  match kv.2 with
  | RStr named s =>
      if IsEncrypted s then
        match DecryptConfigValue key s with
        | inl e => (kv, Ret (Some e))
        | inr d => if named then (kv, Panic "reflect.Value.SetMapIndex: value of type string is not assignable")
                   else ((kv.1, RStr false d), Ret None)
        end
      else (kv, Ret None)
  | RIface (RStr _ s) =>
      if IsEncrypted s then
        match DecryptConfigValue key s with
        | inl e => (kv, Ret (Some e))
        | inr d => ((kv.1, RIface (RStr false d)), Ret None)
        end
      else (kv, Ret None)
  | _ => (kv, Ret None)
  end.
(** [decryptValue]; [set] is [v.CanSet()]. *)
Fixpoint decryptValue (set : bool) (v : rval) : walked rval :=
  match v with
  | RPtr x => let '(x', r) := decryptValue true x in (RPtr x', r)
  | RStruct fs =>
      let '(fs', r) :=
        walk (λ bx, match bx with
                    | (exported, x) =>
                        if set && exported then let '(x', r) := decryptValue true x in ((exported, x'), r)
                        else ((exported, x), Ret None)
                    end) fs in (RStruct fs', r)
  | RStr named s => if set then decrypt_string named s else (v, Ret None)
  | RSlice l => let '(l', r) := walk (decryptValue true) l in (RSlice l', r)
  | RMap m => let '(m', r) := walk decrypt_entry m in (RMap m', r)
  | RNil | RIface _ | ROther _ => (v, Ret None)
  end.
Definition DecryptStruct (v : rval) : walked rval := decryptValue false v.

(** *** Where it does what it says *)
(** Every string, decrypted. *)
Fixpoint rmap (f : string → string) (v : rval) : rval :=
  match v with
  | RPtr x => RPtr (rmap f x)
  | RStruct fs => RStruct (map (λ bx, (bx.1, rmap f bx.2)) fs)
  | RStr n s => RStr n (f s)
  | RSlice l => RSlice (map (rmap f) l)
  | RMap m => RMap (map (λ kv, (kv.1, rmap f kv.2)) m)
  | RIface x => RIface (rmap f x)
  | RNil | ROther _ => v
  end.
Fixpoint rall (p : string → bool) (v : rval) : bool :=
  match v with
  | RPtr x | RIface x => rall p x
  | RStruct fs => forallb (λ bx, rall p bx.2) fs
  | RStr _ s => p s
  | RSlice l => forallb (rall p) l
  | RMap m => forallb (λ kv, rall p kv.2) m
  | RNil | ROther _ => true
  end.
(** Exported fields, at any depth of structs, pointers and slices, and maps of strings. *)
Definition leaf (v : rval) : bool :=
  match v with RStr named _ => negb named | RIface (RStr named _) => negb named | RIface RNil | RIface (ROther _) | RNil | ROther _ => true | _ => false end.
Fixpoint supported (v : rval) : bool :=
  match v with
  | RPtr x => supported x
  | RStruct fs => forallb (λ bx, bx.1 && supported bx.2) fs
  | RSlice l => forallb supported l
  | RMap m => forallb (λ kv, leaf kv.2) m
  | RIface _ => false
  | RNil | RStr _ _ | ROther _ => true
  end.
End structs.

Section rval_ind.
Context (P : rval → Prop) (Hnil : P RNil) (Hptr : ∀ v, P v → P (RPtr v)) (Hstr : ∀ n s, P (RStr n s)).
Context (Hstruct : ∀ fs, Forall (λ bx, P bx.2) fs → P (RStruct fs)) (Hslice : ∀ l, Forall P l → P (RSlice l)).
Context (Hmap : ∀ m, P (RMap m)) (Hiface : ∀ v, P (RIface v)) (Hother : ∀ t, P (ROther t)).
Fixpoint rval_ind' (v : rval) : P v :=
  match v with
  | RNil => Hnil
  | RPtr v => Hptr v (rval_ind' v)
  | RStruct fs => Hstruct fs ((fix go fs : Forall (λ bx : bool * rval, P bx.2) fs := match fs with
                     | [] => @List.Forall_nil _ _ | (b, x) :: fs => @List.Forall_cons _ (λ bx : bool * rval, P bx.2) (b, x) fs (rval_ind' x) (go fs) end) fs)
  | RStr n s => Hstr n s
  | RSlice l => Hslice l ((fix go l : Forall P l := match l with
                     | [] => @List.Forall_nil _ _ | x :: l => @List.Forall_cons _ P x l (rval_ind' x) (go l) end) l)
  | RMap m => Hmap m
  | RIface v => Hiface v
  | ROther t => Hother t
  end.
End rval_ind.

(** What a step in place does to a value that a test and a function describe. *)
Definition does {A} (ok : A → bool) (g : A → A) (x : A) (w : walked A) : Prop :=
  match w with
  | (x', Ret None) => ok x = true ∧ x' = g x
  | (_, Ret (Some _)) => ok x = false
  | (_, Panic _) => False
  end.
Lemma walk_does {A} (f : A → walked A) ok g l :
  Forall (λ x, does ok g x (f x)) l → does (forallb ok) (map g) l (walk f l).
Proof.
  induction 1 as [|x l Hx _ IH]; [done|]. cbn [walk forallb map]. unfold does in Hx.
  destruct (f x) as [x' [[e|]|p]]; [by unfold does; cbn; rewrite Hx| |done]. destruct Hx as [Hx ->].
  destruct (walk f l) as [l' [[e|]|p]]; cbn in *; [by rewrite Hx| |done]. rewrite Hx. by destruct IH as [-> ->].
Qed.
(** A value wrapped in a constructor. *)
Lemma does_wrap {A B} (c : A → B) ok g okB gB x (w : walked A) :
  okB (c x) = ok x → gB (c x) = c (g x) → does ok g x w → does okB gB (c x) (let '(x', r) := w in (c x', r)).
Proof. intros Ho Hg. destruct w as [x' [[e|]|p]]; unfold does; [by rewrite Ho| |done]. intros [Hx ->]. by rewrite Ho, Hg. Qed.
Section structs_proofs.
Context `{Gcm} (key : string).
Lemma decrypt_string_does n s : does (rall (dec_ok key)) (rmap (dec_str key)) (RStr n s) (decrypt_string key n s).
Proof.
  unfold decrypt_string, does. cbn [rall rmap]. destruct (IsEncrypted s) eqn:E.
  - unfold dec_ok, dec_str. by destruct (DecryptConfigValue key s).
  - destruct (dec_plain key s E) as [-> ->]. done.
Qed.
Lemma decrypt_entry_does kv :
  leaf kv.2 = true → does (λ kv, rall (dec_ok key) kv.2) (λ kv, (kv.1, rmap (dec_str key) kv.2)) kv (decrypt_entry key kv).
Proof.
  destruct kv as [k v]. intros Hl. unfold decrypt_entry. cbn [fst snd] in *.
  destruct v as [| | |[] s| | |[| | |[] s| | | |]|]; try discriminate Hl; try done.
  all: pose proof (decrypt_string_does false s) as Hs; unfold decrypt_string, does in *; cbn [rall rmap fst snd] in *.
  all: destruct (IsEncrypted s); [destruct (DecryptConfigValue key s)|]; [done| |]; destruct Hs as [-> Hs]; injection Hs as Hs; by rewrite <-Hs.
Qed.
Lemma decryptValue_does v :
  supported v = true → does (rall (dec_ok key)) (rmap (dec_str key)) v (decryptValue key true v).
Proof.
  induction v as [|v IH|n s|fs IH|l IH|m|v|t] using rval_ind'; cbn [supported]; intros Hs; [done| | | | | |done|done].
  - cbn [decryptValue]. apply (does_wrap RPtr (rall (dec_ok key)) (rmap (dec_str key))); [done|done|by apply IH].
  - apply decrypt_string_does.
  - cbn [decryptValue andb]. apply (does_wrap RStruct (forallb (λ bx, rall (dec_ok key) bx.2)) (map (λ bx, (bx.1, rmap (dec_str key) bx.2)))
      (rall (dec_ok key)) (rmap (dec_str key))); [done|done|]. apply walk_does.
    apply Forall_forall. intros [b x] Hx. rewrite Forall_forall in IH. specialize (IH _ Hx).
    rewrite forallb_forall in Hs. apply list_elem_of_In in Hx. apply Hs in Hx. cbn [fst snd] in *. apply andb_true_iff in Hx as [-> Hx].
    by apply (does_wrap (λ x, (true, x)) (rall (dec_ok key)) (rmap (dec_str key))); [| |apply IH].
  - cbn [decryptValue]. apply (does_wrap RSlice (forallb (rall (dec_ok key))) (map (rmap (dec_str key))) (rall (dec_ok key)) (rmap (dec_str key))); [done|done|].
    apply walk_does.
    apply Forall_forall. intros x Hx. rewrite Forall_forall in IH. apply IH; [done|].
    rewrite forallb_forall in Hs. apply Hs. by apply list_elem_of_In.
  - cbn [decryptValue]. apply (does_wrap RMap (forallb (λ kv, rall (dec_ok key) kv.2)) (map (λ kv, (kv.1, rmap (dec_str key) kv.2)))
      (rall (dec_ok key)) (rmap (dec_str key))); [done|done|]. apply walk_does.
    apply Forall_forall. intros kv Hkv. apply decrypt_entry_does. rewrite forallb_forall in Hs. apply (Hs kv). by apply list_elem_of_In.
Qed.

(** C35: Structs. On a pointer to a value of exported fields, slices, pointers and maps of strings,
    at any depth, the decryption of structs replaces every encrypted string by its plaintext and
    changes nothing else, and fails exactly if one of them does not decrypt; it does not panic. *)
Theorem decrypt_struct_all (v : rval) :
  supported v = true →
  match DecryptStruct key (RPtr v) with
  | (v', Ret None) => rall (dec_ok key) v = true ∧ v' = RPtr (rmap (dec_str key) v)
  | (_, Ret (Some _)) => rall (dec_ok key) v = false
  | (_, Panic _) => False
  end.
Proof. intros Hs. apply (decryptValue_does (RPtr v)). done. Qed.
End structs_proofs.
Definition sealed : string := match EncryptConfigValue key16 (inr "nonce-nonce-") "db-password" with inr c => c | inl _ => "" end.
Definition some_settings : rval :=
  RStruct [(true, RStr false sealed); (true, RSlice [RPtr (RStruct [(true, RStr true sealed); (true, ROther "8848")])]);
           (true, RMap [("password", RIface (RStr false sealed)); ("user", RIface (RStr false "root"))])].
Lemma decrypt_struct_all_witness :
  rall (dec_ok key16) some_settings = true ∧
  match DecryptStruct key16 (RPtr some_settings) with
  | (v', Ret None) => rall (dec_ok key16) some_settings = true ∧ v' = RPtr (rmap (dec_str key16) some_settings)
  | (_, Ret (Some _)) => rall (dec_ok key16) some_settings = false
  | (_, Panic _) => False
  end.
Proof. split; [vm_compute; reflexivity|]. apply (decrypt_struct_all key16 some_settings). reflexivity. Defined.
(** Elsewhere values stay as they are, without an error: in maps of maps, of slices or of structs,
    in interfaces, in a struct passed by value. A named string in a map panics. *)
Definition skipped_settings : rval :=
  RStruct [(true, RMap [("redis", RIface (RMap [("password", RIface (RStr false sealed))]))]);
           (true, RMap [("hosts", RSlice [RStr false sealed])]); (true, RIface (RStr false sealed))].
Example structs_skipped :
  DecryptStruct key16 (RPtr skipped_settings) = (RPtr skipped_settings, Ret None) ∧
  DecryptStruct key16 some_settings = (some_settings, Ret None) ∧
  (DecryptStruct key16 (RPtr (RMap [("password", RStr true sealed)]))).2
    = Panic "reflect.Value.SetMapIndex: value of type string is not assignable".
Proof. vm_compute. done. Qed.

(** ** cmd/config_encrypt.go *)
Inductive out := Usage | Line (s : string).
Definition keyPrefix : string := "--key=".
Section command.
(** How an error prints, and the nonce that each encryption gets. *)
Context `{Gcm} (show : goerr → string) (nonce : nat → goerr + string).
Definition result_line (value result : string) : out := Line (value +++ ": " +++ result).
(** The loop over the values: what is printed, and the exit code. *)
Fixpoint each (verb : string) (act : nat → string → goerr + string) (i : nat) (values : list string) : list out * Z :=
  match values with
  | [] => ([], 0)
  | v :: values =>
      match act i v with
      | inl e => ([Line (verb +++ " [" +++ v +++ "]: " +++ show e)], 1)
      | inr r => let '(o, c) := each verb act (S i) values in (result_line v r :: o, c)
      end
  end.
(** [os.Args] with the program's name. *)
Definition main (args : list string) : list out * Z :=
  match args with
  | _ :: action :: keyFlag :: (_ :: _) as values =>
      let values := drop 3 args in
      if (String.length keyFlag <? 7)%nat || bool_decide (str_take 6 keyFlag ≠ keyPrefix)
      then ([Line "错误: 缺少 --key 参数"; Usage], 1)
      else match ParseEncryptKey (str_drop 6 keyFlag) with
           | inl e => ([Line ("错误: " +++ show e)], 1)
           | inr key =>
               if bool_decide (action = "encrypt") then each "加密失败" (λ i, EncryptConfigValue key (nonce i)) 0 values
               else if bool_decide (action = "decrypt") then each "解密失败" (λ _, DecryptConfigValue key) 0 values
               else ([Line ("未知操作: " +++ action); Usage], 1)
           end
  | _ => ([Usage], 1)
  end.
Lemma main_runs prog action keyStr key v values :
  ParseEncryptKey keyStr = inr key →
  main (prog :: action :: (keyPrefix +++ keyStr) :: v :: values) =
    if bool_decide (action = "encrypt") then each "加密失败" (λ i, EncryptConfigValue key (nonce i)) 0 (v :: values)
    else if bool_decide (action = "decrypt") then each "解密失败" (λ _, DecryptConfigValue key) 0 (v :: values)
    else ([Line ("未知操作: " +++ action); Usage], 1).
Proof.
  intros Hk. unfold main. cbn [drop].
  assert (keyStr ≠ "") as Hne. { intros ->. discriminate Hk. }
  change (String.length (keyPrefix +++ keyStr)) with (6 + String.length keyStr)%nat.
  destruct (Nat.ltb_spec (6 + String.length keyStr) 7) as [Hl|Hl]; [destruct keyStr; [done|cbn in Hl; lia]|].
  rewrite (str_take_len keyPrefix keyStr 6) by done. rewrite (bool_decide_eq_false_2 (keyPrefix ≠ keyPrefix)) by tauto. cbn [orb].
  rewrite (str_drop_len keyPrefix keyStr 6) by done. by rewrite Hk.
Qed.
Lemma each_all verb act i values rs :
  Forall2 (λ iv r, act iv.1 iv.2 = inr r) (zip (seq i (length values)) values) rs →
  each verb act i values = (zip_with result_line values rs, 0).
Proof.
  revert i rs. induction values as [|v values IH]; intros i rs Hf; cbn [length seq zip zip_with] in Hf; inversion Hf as [|? r ? rs' Ha Hf']; subst; [done|].
  cbn [each]. cbn [fst snd] in Ha. rewrite Ha. by rewrite (IH (S i) rs').
Qed.
Lemma ParseEncryptKey_length keyStr key : ParseEncryptKey keyStr = inr key → slen key = 16.
Proof.
  unfold ParseEncryptKey. case_bool_decide; [done|]. destruct (DecodeString keyStr) as [k []]; cbn [negb]; [|done].
  destruct (Z.eqb_spec (slen k) 16); cbn [negb]; [by intros [= <-]|done].
Qed.
(** A value, encrypted and decrypted; an empty one is left alone. *)
Lemma value_there_and_back key n v :
  slen key = 16 → slen n = 12 → ∃ r, EncryptConfigValue key (inr n) v = inr r ∧ DecryptConfigValue key r = inr v.
Proof.
  intros Hk Hn. destruct (decide (v = "")) as [->|Hv]; [by exists ""|].
  destruct (config_value_roundtrip key n v Hv) as (c & Hc & _ & Hd); [unfold aes_key_ok; by rewrite Hk|done|].
  exists c. split; [done|]. by rewrite Hd, Hk.
Qed.
(** The command. Under a key that parses, values of any content are encrypted, one line each;
    and the decryption of what was printed prints the values again, in their order. *)
Lemma command_roundtrip (prog keyStr key : string) (values : list string) :
  values ≠ [] → ParseEncryptKey keyStr = inr key → (∀ i, ∃ n, nonce i = inr n ∧ slen n = 12) →
  ∃ rs, length rs = length values ∧
    main (prog :: "encrypt" :: (keyPrefix +++ keyStr) :: values) = (zip_with result_line values rs, 0) ∧
    main (prog :: "decrypt" :: (keyPrefix +++ keyStr) :: rs) = (zip_with result_line rs values, 0).
Proof.
  intros Hne Hk Hnonce. pose proof (ParseEncryptKey_length _ _ Hk) as Hl.
  assert (∀ i, ∃ rs, length rs = length values ∧
    Forall2 (λ iv r, EncryptConfigValue key (nonce iv.1) iv.2 = inr r) (zip (seq i (length values)) values) rs ∧
    ∀ j, Forall2 (λ iv r, DecryptConfigValue key iv.2 = inr r) (zip (seq j (length rs)) rs) values) as Hrs.
  { clear Hne. induction values as [|v values IH]; intros i; [by exists []|].
    destruct (Hnonce i) as (n & Hn & Hn12). destruct (value_there_and_back key n v Hl Hn12) as (r & Hr & Hd).
    destruct (IH (S i)) as (rs & Hlen & He & Hdec). exists (r :: rs). cbn [length seq zip zip_with].
    split_and!; [by f_equal|constructor; [cbn [fst snd]; by rewrite Hn|done]|intros j; by constructor]. }
  destruct (Hrs 0%nat) as (rs & Hlen & He & Hd). exists rs. split; [done|].
  destruct values as [|v values]; [done|]. destruct rs as [|r rs]; [done|].
  rewrite !(main_runs prog _ keyStr key) by done. cbn [bool_decide decide_rel]. split.
  - change (bool_decide ("encrypt" = "encrypt")) with true. by apply each_all.
  - change (bool_decide ("decrypt" = "encrypt")) with false. change (bool_decide ("decrypt" = "decrypt")) with true.
    by apply each_all.
Qed.
End command.
Lemma command_roundtrip_witness :
  ∃ rs, length rs = 2%nat ∧
    main (λ _, "") (λ _, inr "nonce-nonce-") ["config-encrypt"; "encrypt"; keyPrefix +++ EncodeToString key16; "root"; ""]
      = (zip_with result_line ["root"; ""] rs, 0) ∧
    main (λ _, "") (λ _, inr "nonce-nonce-") ("config-encrypt" :: "decrypt" :: (keyPrefix +++ EncodeToString key16) :: rs)
      = (zip_with result_line rs ["root"; ""], 0).
Proof.
  apply (command_roundtrip (λ _, "") (λ _, inr "nonce-nonce-") "config-encrypt" (EncodeToString key16) key16 ["root"; ""]);
    [done|vm_compute; reflexivity|intros _; by exists "nonce-nonce-"].
Defined.
