(* ===== verification/AlertStore.v ===== *)
(** The history of alerts (pkg/alertstore): what [Save] puts into the table and what the three
    queries answer, over the interface of a table ([AlertTable]), and the history that a run of
    the alert engine leaves behind. *)
From Stdlib Require Import Ascii SpecFloat.
From stdpp Require Import prelude gmap strings list sorting.
From S2P Require Import Prelude GoStrings Digest Utf8 GoFloat Metrics Alert AlertProofs.

(** ** [json.Marshal] of a map of strings *)
Definition json_byte (b : Z) : string :=
  if (b =? 0x22) || (b =? 0x5C) then of_bytes [0x5C; b]
  else if b =? 8 then "\b" else if b =? 9 then "\t" else if b =? 10 then "\n"
  else if b =? 12 then "\f" else if b =? 13 then "\r"
  else if (b <? 0x20) || (b =? 0x26) || (b =? 0x3C) || (b =? 0x3E) then "\u00" +++ hex_encode [b]
  else of_bytes [b].
(** The bytes of a string; [skip] of them belong to a rune already written. *)
Fixpoint json_bytes (skip : nat) (l : list Z) : string :=
  match l with
  | [] => ""
  | b :: l =>
      match skip with
      | S skip => json_bytes skip l
      | O =>
          if b <? 0x80 then json_byte b +++ json_bytes 0 l
          else
            let '(r, n) := decode_rune b l in
            (if bool_decide (n = 0%nat) then "\ufffd"
             else if r =? 0x2028 then "\u2028" else if r =? 0x2029 then "\u2029"
             else of_bytes (b :: take n l)) +++ json_bytes n l
      end
  end.
Definition quote : string := of_bytes [0x22].
Definition json_string (s : string) : string := quote +++ json_bytes 0 (to_bytes s) +++ quote.
Definition key_le (a b : string * string) : Prop := String.leb a.1 b.1 = true.
#[global] Instance key_le_dec : RelDecision key_le.
Proof. intros a b. apply bool_eq_dec. Defined.
Definition json_tags (tags : tagmap) : string :=
  "{" +++ Join (map (λ kv, json_string kv.1 +++ ":" +++ json_string kv.2)
                  (merge_sort key_le (map_to_list tags))) "," +++ "}".
Example json_tags_example :
  json_tags {["b" := "x<y"; "a" := of_bytes [0x22; 0x0A; 0xE4; 0xBD; 0xA0; 0xFF]]}
  = "{" +++ quote +++ "a" +++ quote +++ ":" +++ quote +++ of_bytes [0x5C; 0x22] +++ "\n"
      +++ of_bytes [0xE4; 0xBD; 0xA0] +++ "\ufffd" +++ quote +++ ","
      +++ quote +++ "b" +++ quote +++ ":" +++ quote +++ "x\u003cy" +++ quote +++ "}".
Proof. vm_compute. reflexivity. Qed.

(** ** store.go *)
Record AlertLog := mkAlertLog {
  ID : Z; l_ServiceName : string; l_MetricName : string; l_Level : Z; l_Title : string;
  l_Message : gval; l_Value : gval; l_Threshold : gval; l_Tags : string; CreatedAt : Z }.
Definition TableName : string := "iot_alert_log".
(** The conditions of the queries, in a collation that tells texts apart. *)
Inductive where_clause := WhereService (s : string) | WhereLevel (l : Z) | WhereBetween (a b : Z).
Definition holds (w : where_clause) (r : AlertLog) : Prop :=
  match w with
  | WhereService s => l_ServiceName r = s
  | WhereLevel l => l_Level r = l
  | WhereBetween a b => a <= CreatedAt r <= b
  end.
#[global] Instance holds_dec w r : Decision (holds w r).
Proof. destruct w; unfold holds; apply _. Defined.
Definition newer (r1 r2 : AlertLog) : Prop := CreatedAt r2 <= CreatedAt r1.
#[global] Instance newer_dec : RelDecision newer.
Proof. intros a b. apply Z_le_dec. Defined.
(** LIMIT; a negative one asks for all rows. *)
Definition limited {A} (n : Z) (l : list A) : list A := if n <? 0 then l else take (Z.to_nat n) l.

(** The table behind GORM.  [rows] are its rows in the order of insertion, [keep] the time that
    the column keeps of one. *)
Class AlertTable (T : Type) := {
  rows : T → list AlertLog;
  keep : Z → Z;
  prec : Z;
  Create : AlertLog → T → option goerr * T;
  Find : where_clause → Z → T → goerr + list AlertLog }.
Definition stored `{AlertTable T} (id : Z) (r : AlertLog) : AlertLog :=
  mkAlertLog id (l_ServiceName r) (l_MetricName r) (l_Level r) (l_Title r) (l_Message r)
    (l_Value r) (l_Threshold r) (l_Tags r) (keep (CreatedAt r)).
Class AlertTableLaws (T : Type) `{AlertTable T} := {
  keep_mono a b : a <= b → keep a <= keep b;
  keep_near a : Z.abs (keep a - a) <= prec;
  create_rows r t :
    match Create r t with
    | (None, t') => ∃ id, (id ∉ map ID (rows t)) ∧ rows t' = rows t ++ [stored id r]
    | (Some _, t') => rows t' = rows t
    end;
  find_rows w n t l :
    Find w n t = inr l →
    ∃ l', (l' ≡ₚ filter (holds w) (rows t)) ∧ StronglySorted newer l' ∧ l = limited n l' }.

Section store.
Context `{AlertTable T}.
Definition tagsJSON (tags : tagmap) : string := if (0 <? size tags)%nat then json_tags tags else "".
Definition log_of (event : AlertEvent) : AlertLog :=
  mkAlertLog 0 (ev_ServiceName event) (ev_MetricName event) (ev_Level event) (ev_Title event)
    (ev_Message event) (Sprintf "%v" [ev_Value event]) (Sprintf "%v" [ev_Threshold event])
    (tagsJSON (ev_Tags event)) (ev_Timestamp event).
Definition Save_event (event : AlertEvent) (t : T) : option goerr * T := Create (log_of event) t.
Definition QueryByService (serviceName : string) (limit : Z) (t : T) : goerr + list AlertLog :=
  Find (WhereService serviceName) limit t.
Definition QueryByLevel (level limit : Z) (t : T) : goerr + list AlertLog := Find (WhereLevel level) limit t.
Definition QueryByTimeRange (start end_ limit : Z) (t : T) : goerr + list AlertLog :=
  Find (WhereBetween start end_) limit t.
(** The engine's store: an error is logged, and the engine goes on. *)
Definition save_emission (t : T) (em : emission) : T :=
  match em with Send _ _ => t | Save ev => (Save_event ev t).2 end.
End store.

(** ** Lists *)
Lemma StronglySorted_perm {A} (R : A → A → Prop) `{!Symmetric R} l1 l2 :
  l1 ≡ₚ l2 → StronglySorted R l1 → StronglySorted R l2.
Proof.
  induction 1 as [|x l1 l2 Hp IH|x y l|l1 l2 l3 _ IH1 _ IH2]; intros Hs; [done| | |auto].
  - apply StronglySorted_inv in Hs as [Hs Hx]. constructor; [by apply IH|]. by rewrite <-Hp.
  - apply StronglySorted_inv in Hs as [Hs Hy]. apply StronglySorted_inv in Hs as [Hs Hx].
    apply Forall_cons in Hy as [Hyx Hy]. constructor; [by constructor|]. constructor; [by symmetry|done].
Qed.
Lemma StronglySorted_both {A} (R S : A → A → Prop) l :
  StronglySorted R l → StronglySorted S l → StronglySorted (λ a b, R a b ∧ S a b) l.
Proof.
  induction 1 as [|x l _ IH Hx]; intros Hs; [constructor|]. apply StronglySorted_inv in Hs as [Hs Hy].
  constructor; [by apply IH|]. by apply Forall_and.
Qed.
Lemma StronglySorted_limited {A} (R : A → A → Prop) n l : StronglySorted R l → StronglySorted R (limited n l).
Proof.
  unfold limited. intros Hs. destruct (n <? 0); [done|].
  rewrite <-(take_drop (Z.to_nat n) l) in Hs. by apply StronglySorted_app in Hs as (_ & ? & _).
Qed.
Lemma limited_split {A} n (l : list A) : ∃ l', l = limited n l ++ l'.
Proof.
  unfold limited. destruct (n <? 0); [exists []; by rewrite app_nil_r|].
  exists (drop (Z.to_nat n) l). by rewrite take_drop.
Qed.
(** What holds of the values under each key holds of all pairs under one key. *)
Lemma StronglySorted_by_key {A K B} `{EqDecision K} (key : A → K) (f : A → B) (R : B → B → Prop) l :
  (∀ k, StronglySorted R (map f (filter (λ a, key a = k) l))) →
  StronglySorted (λ a b, key a = key b → R (f a) (f b)) l.
Proof.
  induction l as [|a l IH]; intros Hs; constructor.
  - apply IH. intros k. specialize (Hs k). rewrite filter_cons in Hs.
    case_decide; [by apply StronglySorted_inv in Hs as [? _]|done].
  - specialize (Hs (key a)). rewrite filter_cons_True in Hs by done. cbn [map] in Hs.
    apply StronglySorted_inv in Hs as [_ Hs]. apply Forall_forall. intros b Hb Hk.
    rewrite Forall_forall in Hs. apply Hs. apply list_elem_of_fmap. exists b.
    split; [done|]. by apply list_elem_of_filter.
Qed.
Lemma StronglySorted_sublist {A} (R : A → A → Prop) l1 l2 :
  l1 `sublist_of` l2 → StronglySorted R l2 → StronglySorted R l1.
Proof.
  induction 1 as [|x l1 l2 Hs IH|x l1 l2 _ IH]; intros H2; [done| |]; apply StronglySorted_inv in H2 as [H2 Hx]; [|by apply IH].
  constructor; [by apply IH|]. rewrite Forall_forall in *. intros y Hy. apply Hx. by eapply elem_of_sublist.
Qed.

(** ** The events of a run *)
Definition saves (out : list emission) : list AlertEvent :=
  omap (λ em, match em with Save ev => Some ev | Send _ _ => None end) out.
Lemma alert_times_saves m out :
  alert_times m out = map ev_Timestamp (filter (λ ev, ev_MetricName ev = m) (saves out)).
Proof.
  change (alert_times m out) with (event_times m (saves out)). generalize (saves out) as evs. intros evs.
  induction evs as [|ev evs IH]; [done|]. unfold event_times in *. cbn [omap list_omap]. rewrite filter_cons.
  case_bool_decide as E; [rewrite decide_True by done; cbn [map]; by f_equal|by rewrite decide_False by done].
Qed.
(** An event names the engine's service and has the tags of a snapshot. *)
Definition told (service : string) (snaps : gmap string Snapshot) (em : emission) : Prop :=
  ev_ServiceName (emitted em) = service ∧ ∃ k snap, snaps !! k = Some snap ∧ ev_Tags (emitted em) = s_Tags snap.
Lemma savePrevValues_service name snap e : e_serviceName (savePrevValues name snap e) = e_serviceName e.
Proof. unfold savePrevValues. by destruct (s_Value snap). Qed.
Lemma eval_rule_told snaps now cfg r e :
  e_serviceName (eval_rule snaps now cfg r e).2 = e_serviceName e ∧
  Forall (told (e_serviceName e) snaps) (eval_rule snaps now cfg r e).1.
Proof.
  unfold eval_rule. destruct (snaps !! MetricName r) as [snap|] eqn:Hs; [|done].
  assert (e_serviceName (checkRule r snap e).2 = e_serviceName e) as He.
  { unfold checkRule, checkConsecutive. by repeat case_match. }
  destruct (checkRule r snap e) as [v e1]. cbn [snd] in He. rewrite <-He. clear He.
  assert (∀ value threshold,
    e_serviceName (handleTriggered r value threshold now snap cfg e1).2 = e_serviceName e1 ∧
    Forall (told (e_serviceName e1) snaps) (handleTriggered r value threshold now snap cfg e1).1) as Hh.
  { intros value threshold. unfold handleTriggered. destruct (match cooldowns e1 !! _ with Some _ => _ | None => _ end); [done|].
    destruct (configProvider e1 && _); [done|]. split; [done|]. cbn [fst].
    apply Forall_app. split.
    - apply Forall_forall. intros em (n & -> & _)%list_elem_of_fmap. split; [done|]. by eexists _, snap.
    - destruct (store e1); constructor; [|constructor]. split; [done|]. by eexists _, snap. }
  destruct v as [[value threshold]|].
  - destruct (Hh value threshold) as [Hh1 Hh2]. destruct (handleTriggered _ _ _ _ _ _ _) as [out e2]. cbn [fst snd] in *.
    by rewrite savePrevValues_service.
  - cbn [fst snd]. rewrite savePrevValues_service. by destruct (rule_Type r =? RuleTypeConsecutive).
Qed.
Lemma eval_rules_told rs snaps now cfg e :
  e_serviceName (eval_rules rs snaps now cfg e).2 = e_serviceName e ∧
  Forall (told (e_serviceName e) snaps) (eval_rules rs snaps now cfg e).1.
Proof.
  revert e. induction rs as [|r rs IH]; intros e; [done|]. cbn [eval_rules].
  destruct (eval_rule_told snaps now (cfg (length rs)) r e) as [H1 H2]. destruct (eval_rule _ _ _ _ _) as [o1 e1].
  destruct (IH e1) as [H3 H4]. destruct (eval_rules rs _ _ _ e1) as [o2 e2]. cbn [fst snd] in *.
  rewrite H1 in H3, H4. split; [done|]. by apply Forall_app.
Qed.
Lemma erun_told rds e :
  Forall (λ em, ∃ rd, rd ∈ rds ∧ told (e_serviceName e) (rd_snaps rd) em) (erun rds e).1.
Proof.
  revert e. induction rds as [|rd rds IH]; intros e; [constructor|]. cbn [erun]. unfold Evaluate.
  destruct (eval_rules_told (rules e) (rd_snaps rd) (rd_now rd) (rd_cfg rd) e) as [H1 H2].
  destruct (eval_rules _ _ _ _ _) as [o1 e1]. specialize (IH e1). destruct (erun rds e1) as [o2 e2]. cbn [fst snd] in *.
  apply Forall_app. split.
  - eapply Forall_impl; [exact H2|]. intros em Hem. exists rd. split; [by left|done].
  - eapply Forall_impl; [exact IH|]. intros em (rd' & Hin & Hem). exists rd'. rewrite <-H1. split; [by right|done].
Qed.

(** ** The history *)
Section history.
Context `{AlertTableLaws T}.
Definition is_row_of (ev : AlertEvent) (r : AlertLog) : Prop := ∃ id, r = stored id (log_of ev).
(** The rows that a run adds are those of the saved events, less those the table refused. *)
Lemma saved_rows out t :
  ∃ kept new, kept `sublist_of` saves out ∧ Forall2 is_row_of kept new ∧
    rows (foldl save_emission t out) = rows t ++ new.
Proof.
  revert t. induction out as [|[k ev|ev] out IH]; intros t.
  - exists [], []. by rewrite app_nil_r.
  - apply IH.
  - cbn [foldl save_emission]. unfold Save_event. pose proof (create_rows (log_of ev) t) as Hc.
    destruct (Create (log_of ev) t) as [[err|] t']; cbn [snd]; destruct (IH t') as (kept & new & Hs & Hf & Hr).
    + exists kept, new. rewrite Hr, Hc. split_and!; [by apply sublist_cons|done|done].
    + destruct Hc as (id & _ & Hc). exists (ev :: kept), (stored id (log_of ev) :: new).
      rewrite Hr, Hc, <-app_assoc. split_and!; [by apply sublist_skip|constructor; [by exists id|done]|done].
Qed.
(** Rows of one metric are apart. *)
Definition apart (D : Z) (r1 r2 : AlertLog) : Prop :=
  l_MetricName r1 = l_MetricName r2 → D <= Z.abs (CreatedAt r1 - CreatedAt r2).
#[local] Instance apart_symmetric D : Symmetric (apart D).
Proof. intros r1 r2 Hr Hm. symmetry in Hm. specialize (Hr Hm). lia. Qed.
Lemma rows_apart C evs rs :
  Forall2 is_row_of evs rs →
  StronglySorted (λ a b, ev_MetricName a = ev_MetricName b → spaced C (ev_Timestamp a) (ev_Timestamp b)) evs →
  StronglySorted (apart (C - 2 * prec)) rs.
Proof.
  induction 1 as [|ev r evs rs [id ->] Hf IH]; intros Hs; constructor;
    apply StronglySorted_inv in Hs as [Hs Hev]; [by apply IH|].
  apply Forall_forall. intros r Hr Hm. cbn [stored log_of l_MetricName CreatedAt] in *.
  apply list_elem_of_lookup in Hr as [i Hi]. destruct (Forall2_lookup_r _ _ _ _ _ Hf Hi) as (ev' & Hi' & id' & ->).
  rewrite Forall_forall in Hev. specialize (Hev ev' (list_elem_of_lookup_2 _ _ _ Hi') Hm).
  cbn [stored log_of CreatedAt]. unfold spaced in Hev.
  pose proof (keep_near (ev_Timestamp ev)). pose proof (keep_near (ev_Timestamp ev')). lia.
Qed.

Lemma rows_from kept new r : Forall2 is_row_of kept new → r ∈ new → ∃ ev id, ev ∈ kept ∧ r = stored id (log_of ev).
Proof.
  intros Hf [i Hi]%list_elem_of_lookup. destruct (Forall2_lookup_r _ _ _ _ _ Hf Hi) as (ev & He & id & ->).
  exists ev, id. split; [|done]. by eapply list_elem_of_lookup_2.
Qed.
Lemma saved_told rds e kept ev :
  kept `sublist_of` saves (erun rds e).1 → ev ∈ kept →
  Save ev ∈ (erun rds e).1 ∧ ev_ServiceName ev = e_serviceName e.
Proof.
  intros Hsub Hev. apply (elem_of_sublist _ _ _ Hev) in Hsub.
  apply list_elem_of_omap in Hsub as ([|ev'] & Hin & Heq); [done|]. injection Heq as ->. split; [done|].
  pose proof (erun_told rds e) as Ht. rewrite Forall_forall in Ht. by destruct (Ht _ Hin) as (rd & _ & ? & _).
Qed.
(** C28: Alert history. After any run of an engine with a store over an empty table, whatever
    writes the table refused, the newest [n] alerts of the service are rows of alerts that the
    engine raised, newest first, no other row is newer than one of them, they are [n] unless
    there are fewer rows, and two of one metric are as far apart as the cooldown says, up to the
    precision of the time column. *)
Theorem alert_history (C n : Z) (rds : list round) (e : Engine) (t0 : Z) (t : T) (l : list AlertLog) :
  0 <= C → store e = true → cooldowns e = ∅ → rows t = [] →
  Forall (λ r, C <= CooldownPeriod r) (rules e) →
  Forall (λ rd, in_time (rd_now rd)) rds → StronglySorted Z.le (t0 :: map rd_now rds) →
  let t' := foldl save_emission t (erun rds e).1 in
  QueryByService (e_serviceName e) n t' = inr l →
  Forall (λ r, r ∈ rows t' ∧ ∃ ev, Save ev ∈ (erun rds e).1 ∧ is_row_of ev r) l ∧
  length l = length (limited n (rows t')) ∧
  (∃ rest, (rows t' ≡ₚ l ++ rest) ∧ ∀ r1 r2, r1 ∈ l → r2 ∈ rest → newer r1 r2) ∧
  StronglySorted (λ r1 r2, newer r1 r2 ∧
    (l_MetricName r1 = l_MetricName r2 → CreatedAt r2 + (C - 2 * prec) <= CreatedAt r1)) l.
Proof.
  intros HC Hst Hcd Ht Hrs Htimes Hsort t' Hq.
  destruct (saved_rows (erun rds e).1 t) as (kept & new & Hsub & Hrow & Hr). fold t' in Hr. rewrite Ht in Hr. cbn [app] in Hr.
  rewrite Hr. apply find_rows in Hq as (l' & Hp & Hnew & ->). rewrite Hr, list_filter_all in Hp.
  2: { apply Forall_forall. intros r (ev & id & Hev & ->)%(rows_from _ _ _ Hrow).
       by apply (saved_told _ _ _ _ Hsub) in Hev as [_ ?]. }
  pose proof (limited_split n l') as [rest Hl'].
  split_and!.
  - apply Forall_forall. intros r Hin.
    assert (r ∈ new) as Hnewr by (rewrite <-Hp, Hl'; apply elem_of_app; by left). split; [done|].
    destruct (rows_from _ _ _ Hrow Hnewr) as (ev & id & Hev & ->). exists ev.
    split; [by apply (saved_told _ _ _ _ Hsub) in Hev as [? _]|by exists id].
  - unfold limited. by destruct (n <? 0); rewrite ?length_take, Hp.
  - exists rest. rewrite <-Hp, <-Hl'. split; [done|]. rewrite Hl' in Hnew. by apply StronglySorted_app in Hnew as (? & _ & _).
  - apply StronglySorted_limited. eapply StronglySorted_impl; [|apply (StronglySorted_both newer (apart (C - 2 * prec))); [done|]].
    + unfold newer, apart. intros r1 r2 [Hn Ha]. split; [done|]. intros Hm. specialize (Ha Hm). lia.
    + eapply StronglySorted_perm; [apply _|symmetry; exact Hp|]. eapply rows_apart; [exact Hrow|].
      eapply StronglySorted_sublist; [exact Hsub|]. apply StronglySorted_by_key. intros m. rewrite <-alert_times_saves.
      eapply (erun_times m C rds e t0); try done; [intros last; by rewrite Hcd|]. eapply Forall_impl; [exact Hrs|done].
Qed.
End history.

(** A JSON column takes no empty text, and an event without tags has one: it is never stored. *)
Section untagged.
Context `{AlertTable T} (strict : ∀ r t, l_Tags r = "" → ∃ err, Create r t = (Some err, t)).
Lemma untagged_never_stored (rds : list round) (e : Engine) (t : T) :
  Forall (λ rd, ∀ k snap, rd_snaps rd !! k = Some snap → s_Tags snap = ∅) rds →
  foldl save_emission t (erun rds e).1 = t.
Proof.
  intros Hrds. assert (Forall (λ em, ev_Tags (emitted em) = ∅) (erun rds e).1) as Hall.
  { eapply Forall_impl; [apply erun_told|]. intros em (rd & Hin & _ & k & snap & Hk & ->).
    rewrite Forall_forall in Hrds. by eapply Hrds. }
  induction Hall as [|[k ev|ev] out Hev _ IH]; [done|exact IH|]. cbn [foldl save_emission emitted] in *. unfold Save_event.
  destruct (strict (log_of ev) t) as [err ->]; [|exact IH]. unfold log_of, tagsJSON. cbn [l_Tags]. by rewrite Hev.
Qed.
End untagged.

(** ** A table *)
(** Its times have milliseconds, and its JSON column refuses an empty text. *)
Definition ms_round (t : Z) : Z := (t + 500000) / 1000000 * 1000000.
#[global] Instance list_table : AlertTable (list AlertLog) := {
  rows t := t;
  keep := ms_round;
  prec := 500000;
  Create r t :=
    if bool_decide (l_Tags r = "") then (Some (ErrExt "Error 3140: Invalid JSON text"), t)
    else (None, t ++ [mkAlertLog (1 + foldr Z.max 0 (map ID t)) (l_ServiceName r) (l_MetricName r) (l_Level r)
                        (l_Title r) (l_Message r) (l_Value r) (l_Threshold r) (l_Tags r) (ms_round (CreatedAt r))]);
  Find w n t := inr (limited n (merge_sort newer (filter (holds w) t))) }.
Lemma newer_total : Total newer.
Proof. intros a b. unfold newer. lia. Qed.
Lemma newer_trans : Transitive newer.
Proof. intros a b c. unfold newer. lia. Qed.
Lemma max_ge (l : list Z) x : x ∈ l → x <= foldr Z.max 0 l.
Proof. induction l as [|y l IH]; [by intros ?%not_elem_of_nil|]. cbn. intros [->|Hx]%elem_of_cons; [lia|]. specialize (IH Hx). lia. Qed.
#[global] Instance list_table_laws : AlertTableLaws (list AlertLog).
Proof.
  split.
  - cbn. unfold ms_round. intros a b Hab. apply Z.mul_le_mono_nonneg_r; [lia|]. apply Z.div_le_mono; lia.
  - cbn. unfold ms_round. intros a. pose proof (Z.div_mod (a + 500000) 1000000). pose proof (Z.mod_pos_bound (a + 500000) 1000000). lia.
  - intros r t. cbn. case_bool_decide; [done|]. eexists. split; [|done]. intros Hin%max_ge. lia.
  - intros w n t l. cbn. intros [= <-]. exists (merge_sort newer (filter (holds w) t)). split_and!; [apply merge_sort_Permutation| |done].
    apply (@StronglySorted_merge_sort _ newer _ newer_trans newer_total).
Qed.
Definition tagged (v : Z) : Snapshot := mkSnapshot "errors" (SnapCounter v) {["region" := "cn"]} "svc" 0.
Definition history_rounds : list round :=
  [mkRound {["errors" := tagged 3]} 0 (λ _, inr None);
   mkRound {["errors" := tagged 4]} Minute (λ _, inr None);
   mkRound {["errors" := tagged 5]} (10 * Minute) (λ _, inr None)].
Definition history_engine : Engine :=
  NewEngine "svc" [mkRule "errors" RuleTypeImmediate 1 "errors" f0 0 0 (5 * Minute)] [WithStore].
Definition history_table : list AlertLog := foldl save_emission [] (erun history_rounds history_engine).1.
Definition newest (n : Z) : list AlertLog := match QueryByService "svc" n history_table with inr l => l | inl _ => [] end.
Example history_example : map (λ r, (ID r, l_Value r, l_Tags r, CreatedAt r)) (newest 1)
  = [(2, Sprintf "%v" [GInt 5], "{" +++ quote +++ "region" +++ quote +++ ":" +++ quote +++ "cn" +++ quote +++ "}", 10 * Minute)].
Proof. vm_compute. reflexivity. Qed.
Lemma alert_history_witness :
  Forall (λ r, r ∈ rows history_table ∧ ∃ ev, Save ev ∈ (erun history_rounds history_engine).1 ∧ is_row_of ev r) (newest (-1)) ∧
  length (newest (-1)) = length (limited (-1) (rows history_table)) ∧
  (∃ rest, (rows history_table ≡ₚ newest (-1) ++ rest) ∧ ∀ r1 r2, r1 ∈ newest (-1) → r2 ∈ rest → newer r1 r2) ∧
  StronglySorted (λ r1 r2, newer r1 r2 ∧
    (l_MetricName r1 = l_MetricName r2 → CreatedAt r2 + (5 * Minute - 2 * @prec (list AlertLog) _) <= CreatedAt r1)) (newest (-1)).
Proof.
  apply (alert_history (5 * Minute) (-1) history_rounds history_engine 0 [] (newest (-1)));
    [vm_compute; congruence|reflexivity|reflexivity|reflexivity| | | |reflexivity]; repeat constructor; vm_compute; congruence.
Defined.
Example untagged_example :
  foldl save_emission [] (erun [mkRound {["errors" := mkSnapshot "errors" (SnapCounter 3) ∅ "svc" 0]} 0 (λ _, inr None)] history_engine).1 = [].
Proof. vm_compute. reflexivity. Qed.
