(* ===== verification/HttpTool.v ===== *)
(** The HTTP client (pkg/httptool): options, headers, the four requests and what they log, over a
    network that answers a request sent through a transport. *)
From Stdlib Require Import Ascii.
From stdpp Require Import prelude gmap strings list.
From S2P Require Import Prelude GoStrings.

(** ** Options *)
Record requestOption := mkRequestOption { timeout : Z; data : string; headers : gmap string string }.
Definition DefaultHeaders : gmap string string := {["Content-Type" := "application/json"]}.
Definition defaultRequestOptions : requestOption := mkRequestOption (5 * Second) "" ∅.
(** [WithData] has the answer of [json.Marshal], whose error it drops. *)
Inductive ROption :=
  | WithTimeout (timeout : Z)
  | WithHeaders (headers : gmap string string)
  | WithData (marshal : goerr + string)
  | WithJsonData (data : string).
Definition apply_opt (opts : requestOption) (o : ROption) : requestOption :=
  match o with
  | WithTimeout t => mkRequestOption t (data opts) (headers opts)
  | WithHeaders h => mkRequestOption (timeout opts) (data opts) (h ∪ headers opts)
  | WithData m => mkRequestOption (timeout opts) (match m with inr s => s | inl _ => "" end) (headers opts)
  | WithJsonData s => mkRequestOption (timeout opts) s (headers opts)
  end.
Definition request_options (options : list ROption) : requestOption := foldl apply_opt defaultRequestOptions options.

(** ** [http.Header] *)
(** [textproto.CanonicalMIMEHeaderKey]: capitals at the start and after hyphens, unless a byte
    is not one of a header's name. *)
Definition upper_byte (c : ascii) : bool := (65 <=? byte_of c) && (byte_of c <=? 90).
Definition lower_byte (c : ascii) : bool := (97 <=? byte_of c) && (byte_of c <=? 122).
Definition token_byte (c : ascii) : bool :=
  upper_byte c || lower_byte c || is_digit c || existsb (Ascii.eqb c) (String.list_ascii_of_string "!#$%&'*+-.^_`|~").
Definition up_byte (c : ascii) : ascii := if lower_byte c then ascii_of_nat (nat_of_ascii c - 32) else c.
Definition low_byte (c : ascii) : ascii := if upper_byte c then ascii_of_nat (nat_of_ascii c + 32) else c.
Fixpoint canonical_from (upper : bool) (s : string) : string :=
  match s with
  | EmptyString => EmptyString
  | String c s => String (if upper then up_byte c else low_byte c) (canonical_from (Ascii.eqb c "-"%char) s)
  end.
Definition canonical_key (s : string) : string := if str_all token_byte s then canonical_from true s else s.
Abbreviation http_header := (gmap string (list string)).
Definition Header_Add (h : http_header) (kv : string * string) : http_header :=
  <[canonical_key kv.1 := default [] (h !! canonical_key kv.1) ++ [kv.2]]> h.
Example canonical_examples :
  map canonical_key ["content-type"; "X-REQUEST-id"; "bad key"; ""] = ["Content-Type"; "X-Request-Id"; "bad key"; ""].
Proof. vm_compute. reflexivity. Qed.

(** ** The network *)
Record request := mkRequest { r_method : string; r_url : string; r_body : string; r_header : http_header }.
(** The body is what [io.ReadAll] makes of it. *)
Record response := mkResponse { StatusCode : Z; resp_header : http_header; resp_body : goerr + string }.
Record transport := mkTransport { InsecureSkipVerify : bool; DisableKeepAlives : bool; otel : bool }.
Definition otelTransport : transport := mkTransport true false true.
Definition DefaultTransport : transport := mkTransport false false false.
(** [http.NewRequest]'s objection to a method or a URL, and [client.Do]. *)
Class Network := {
  new_request : string → string → option goerr;
  Do : transport → Z → request → goerr + response }.

(** What is logged: the formats differ, and [HttpRequest] formats its line a second time. *)
Inductive log_call := PrintfSprintf | Printf | CtxErrorf | CtxInfof.
Record log_line := mkLogLine {
  lg_call : log_call; lg_headers : option (gmap string string); lg_in : string; lg_out : option string;
  lg_response : http_header; lg_err : option goerr }.

Section client.
Context `{Network}.
(** [order] lists the entries of the options' headers as the iteration meets them. *)
Definition send (tr : transport) (method url : string) (opts : requestOption) (order : list (string * string)) : goerr + response :=
  match new_request method url with
  | Some e => inl e
  | None => Do tr (timeout opts) (mkRequest method url (data opts) (foldl Header_Add ∅ order))
  end.
Definition err_of {A} (r : goerr + A) : option goerr := match r with inl e => Some e | inr _ => None end.
(** The body of the answer, and the headers that were there to log. *)
Definition read_answer (r : goerr + response) : string * option goerr * http_header :=
  match r with
  | inl e => ("", Some e, ∅)
  | inr resp => match resp_body resp with inl e => ("", Some e, resp_header resp) | inr s => (s, None, resp_header resp) end
  end.
Definition HttpRequest (method url : string) (options : list ROption) (order : list (string * string))
    : string * option goerr * log_line :=
  let opts := request_options options in
  let '(result, err, rh) := read_answer (send (mkTransport true true false) method url opts order) in
  (result, err, mkLogLine PrintfSprintf (Some (headers opts)) (data opts) (Some result) rh err).
Definition HttpRequestCtx (method url : string) (options : list ROption) (order : list (string * string))
    : string * option goerr * log_line :=
  let opts := request_options options in
  let '(result, err, rh) := read_answer (send otelTransport method url opts order) in
  (result, err, mkLogLine (match err with Some _ => CtxErrorf | None => CtxInfof end) (Some (headers opts)) (data opts) (Some result) rh err).
Definition HTTPRequest (method url : string) (options : list ROption) (order : list (string * string))
    : (goerr + response) * log_line :=
  let opts := request_options options in
  let r := send DefaultTransport method url opts order in
  (r, mkLogLine Printf None (data opts) None (match r with inr resp => resp_header resp | inl _ => ∅ end) (err_of r)).
Definition HTTPRequestCtx (method url : string) (options : list ROption) (order : list (string * string))
    : (goerr + response) * log_line :=
  let opts := request_options options in
  let r := send otelTransport method url opts order in
  (r, mkLogLine (match r with inl _ => CtxErrorf | inr _ => CtxInfof end) None (data opts) None
        (match r with inr resp => resp_header resp | inl _ => ∅ end) (err_of r)).
End client.

(** ** What is sent *)
Lemma header_values order k h :
  default [] (foldl Header_Add h order !! k)
    = default [] (h !! k) ++ map snd (filter (λ kv, canonical_key kv.1 = k) order).
Proof.
  revert h. induction order as [|[a v] order IH]; intros h; [by rewrite app_nil_r|].
  cbn [foldl]. rewrite IH, filter_cons. unfold Header_Add. cbn [fst snd]. case_decide as E.
  - rewrite E, lookup_insert_eq. cbn [default map snd]. unfold id. by rewrite <-app_assoc.
  - by rewrite lookup_insert_ne.
Qed.
(** The last option of a kind counts, and for each header the last that names it. *)
Lemma option_headers options k :
  headers (request_options options) !! k = last (omap (λ o, match o with WithHeaders h => h !! k | _ => None end) options).
Proof.
  unfold request_options. induction options as [|o options IH] using rev_ind; [done|].
  rewrite foldl_app, omap_app. cbn [foldl omap list_omap]. destruct o as [t|h|m|s]; cbn [apply_opt headers].
  - by rewrite app_nil_r.
  - rewrite lookup_union, IH. destruct (h !! k) as [v|]; [rewrite last_snoc; by destruct (last _)|].
    rewrite app_nil_r. by destruct (last _).
  - by rewrite app_nil_r.
  - by rewrite app_nil_r.
Qed.
Section client_proofs.
Context `{Network}.
(** One request for all four; they differ in the transport, in what they give back and in what
    they log. A network that does not look at the transport answers them alike. *)
Lemma requests_agree (method url : string) (options : list ROption) (order : list (string * string)) :
  (∀ tr1 tr2 t r, Do tr1 t r = Do tr2 t r) →
  let '(result, err, _) := HttpRequest method url options order in
  (HttpRequestCtx method url options order).1 = (result, err) ∧
  (HTTPRequestCtx method url options order).1 = (HTTPRequest method url options order).1 ∧
  match (HTTPRequest method url options order).1 with
  | inl e => result = "" ∧ err = Some e
  | inr resp => match resp_body resp with inl e => result = "" ∧ err = Some e | inr s => result = s ∧ err = None end
  end.
Proof.
  intros Htr. unfold HttpRequest, HttpRequestCtx, HTTPRequest, HTTPRequestCtx. cbn [fst].
  assert (∀ tr, send tr method url (request_options options) order = send DefaultTransport method url (request_options options) order) as Hs.
  { intros tr. unfold send. destruct (new_request method url); [done|apply Htr]. }
  rewrite (Hs (mkTransport true true false)), (Hs otelTransport).
  destruct (send _ _ _ _ _) as [e|resp]; cbn [read_answer]; [done|]. by destruct (resp_body resp).
Qed.
End client_proofs.
(** A network in which the server at the URL has a certificate or not: the variants with a
    context, and the one that reads the body, ask for none. *)
Definition certified_net (valid : bool) : Network := {|
  new_request _ _ := None;
  Do tr _ _ := if InsecureSkipVerify tr || valid then inr (mkResponse 200 ∅ (inr "ok")) else inl (ErrExt "x509") |}.
Example certificates_unchecked :
  (@HTTPRequest (certified_net false) "GET" "https://a" [] []).1 = inl (ErrExt "x509") ∧
  (@HTTPRequestCtx (certified_net false) "GET" "https://a" [] []).1 = inr (mkResponse 200 ∅ (inr "ok")) ∧
  (@HttpRequest (certified_net false) "GET" "https://a" [] []).1 = ("ok", None) ∧
  (@HttpRequestCtx (certified_net false) "GET" "https://a" [] []).1 = ("ok", None).
Proof. done. Qed.
(** Two headers whose names differ in case are both sent, in the order of the iteration. *)
Example headers_twice :
  map (λ order, foldl Header_Add ∅ order !! "Content-Type")
    [[("Content-Type", "a"); ("content-type", "b")]; [("content-type", "b"); ("Content-Type", "a")]]
  = [Some ["a"; "b"]; Some ["b"; "a"]].
Proof. vm_compute. reflexivity. Qed.
