(* ===== verification/Codecs.v ===== *)
(** The registries of codecs (pkg/compression, pkg/serialization) and their gzip, JSON and Sonic
    entries, over the libraries as interfaces. *)
From stdpp Require Import prelude gmap strings.
From S2P Require Import Prelude GoStrings.

(** ** compression *)
Record Compression := mkCompression {
  Compress : string → goerr + string;
  Decompress : string → goerr + string }.
(** The two registries are [sync.Map]s. *)
Definition RegisterCompression (compressionType : string) (c : Compression) (m : gmap string Compression) : gmap string Compression :=
  <[compressionType := c]> m.
Definition GetCompression (compressionType : string) (m : gmap string Compression) : option Compression := m !! compressionType.

(** compress/gzip on a buffer: [gz_close] gives the buffer's bytes once what was written is
    flushed, [gz_read] what a reader made of them. *)
Class Gzip := {
  gz_write : string → option goerr;
  gz_close : string → goerr + string;
  gz_open : string → option goerr;
  gz_read : string → goerr + string }.
Class GzipLaws `{Gzip} := {
  gz_back data packed : gz_close data = inr packed → gz_open packed = None ∧ gz_read packed = inr data }.
Section gzip.
Context `{Gzip}.
Definition GzipX_Compress (data : string) : goerr + string :=
  match gz_write data with Some e => inl e | None => gz_close data end.
Definition GzipX_Decompress (data : string) : goerr + string :=
  match gz_open data with Some e => inl e | None => gz_read data end.
Definition GzipX : Compression := mkCompression GzipX_Compress GzipX_Decompress.
(** What importing compression/impl does. *)
Definition impl_init (m : gmap string Compression) : gmap string Compression := RegisterCompression "gzip" GzipX m.
End gzip.

(** ** serialization *)
(** The two entries differ in their library and in the name in their error. *)
Record Serialization (T : Type) := mkSerialization {
  Marshal : T → goerr + string;
  Unmarshal : string → T → option goerr * T;
  MarshalAndCompression : gmap string Compression → T → goerr + string;
  UnmarshalAndCompression : gmap string Compression → string → T → option goerr * T }.
Arguments mkSerialization {T}.
Arguments Marshal {T}.
Arguments Unmarshal {T}.
Arguments MarshalAndCompression {T}.
Arguments UnmarshalAndCompression {T}.
Definition RegisterSerialization {T} (serializationType : string) (s : Serialization T) (m : gmap string (Serialization T)) :=
  <[serializationType := s]> m.
Definition GetSerialization {T} (serializationType : string) (m : gmap string (Serialization T)) : option (Serialization T) :=
  m !! serializationType.
Section codec.
(** A library's [Marshal] and [Unmarshal], the latter into a value that is there. *)
Context {T : Type} (marshal : T → goerr + string) (unmarshal : string → T → option goerr * T) (name : string).
Definition no_compression : goerr := ErrNew (name +++ " no compression found").
Definition codec_MarshalAndCompression (m : gmap string Compression) (v : T) : goerr + string :=
  match marshal v with
  | inl e => inl e
  | inr data => match GetCompression "gzip" m with Some c => Compress c data | None => inl no_compression end
  end.
(** The error of [Decompress] is dropped, and its nil bytes are parsed. *)
Definition codec_UnmarshalAndCompression (m : gmap string Compression) (data : string) (v : T) : option goerr * T :=
  match GetCompression "gzip" m with
  | None => (Some no_compression, v)
  | Some c => unmarshal (match Decompress c data with inr d => d | inl _ => "" end) v
  end.
Definition codec : Serialization T :=
  mkSerialization marshal unmarshal codec_MarshalAndCompression codec_UnmarshalAndCompression.

(** Where the library's texts read back, so do the compressed ones, whatever else is
    registered; without the registration both ways fail, and name their codec. *)
Lemma codec_roundtrip `{GzipLaws} (m : gmap string Compression) (v v0 : T) (packed : string) :
  (∀ v v0 data, marshal v = inr data → unmarshal data v0 = (None, v)) →
  MarshalAndCompression codec (impl_init m) v = inr packed →
  UnmarshalAndCompression codec (impl_init m) packed v0 = (None, v).
Proof.
  intros Hback. cbn. unfold codec_MarshalAndCompression, codec_UnmarshalAndCompression, GetCompression, impl_init, RegisterCompression.
  rewrite lookup_insert_eq. destruct (marshal v) as [e|data] eqn:Hm; [done|]. cbn. unfold GzipX_Compress, GzipX_Decompress.
  destruct (gz_write data); [done|]. intros Hp. destruct (gz_back _ _ Hp) as [-> ->]. by apply Hback.
Qed.
Lemma codec_unregistered (m : gmap string Compression) (data : string) (v : T) :
  m !! "gzip" = None →
  UnmarshalAndCompression codec m data v = (Some no_compression, v) ∧
  ∃ e, MarshalAndCompression codec m v = inl e ∧ (∀ d, marshal v = inr d → e = no_compression).
Proof.
  intros Hm. cbn. unfold codec_MarshalAndCompression, codec_UnmarshalAndCompression, GetCompression. rewrite Hm.
  split; [done|]. destruct (marshal v) as [e|d]; eexists; by split.
Qed.
(** Damaged data give the parser's complaint about an empty text. *)
Lemma codec_damaged `{Gzip} (m : gmap string Compression) (data : string) (v : T) e :
  gz_open data = Some e → UnmarshalAndCompression codec (impl_init m) data v = unmarshal "" v.
Proof.
  intros Ho. cbn. unfold codec_UnmarshalAndCompression, GetCompression, impl_init, RegisterCompression.
  rewrite lookup_insert_eq. cbn. unfold GzipX_Decompress. by rewrite Ho.
Qed.
End codec.
(** What importing serialization/impl does, on the values of one type. *)
Section init.
Context {T : Type} (json_marshal sonic_marshal : T → goerr + string) (json_unmarshal sonic_unmarshal : string → T → option goerr * T).
Definition JsonX : Serialization T := codec json_marshal json_unmarshal "JsonX".
Definition SonicX : Serialization T := codec sonic_marshal sonic_unmarshal "SonicX".
Definition serialization_init (m : gmap string (Serialization T)) : gmap string (Serialization T) :=
  RegisterSerialization "sonic" SonicX (RegisterSerialization "json" JsonX m).
Lemma registered : GetSerialization "json" (serialization_init ∅) = Some JsonX ∧ GetSerialization "sonic" (serialization_init ∅) = Some SonicX.
Proof. done. Qed.
End init.
(** Serialization does not import gzip: its compressed forms fail until the program does. *)
#[global] Instance toy_gzip : Gzip := {
  gz_write _ := None; gz_close d := inr ("gz" +++ d);
  gz_open s := if has_prefix s "gz" then None else Some (ErrExt "gzip: invalid header");
  gz_read s := inr (str_drop 2 s) }.
#[global] Instance toy_gzip_laws : GzipLaws.
Proof. split. intros data packed [= <-]. done. Qed.
Example compressed_example :
  let json := JsonX (T := string) inr (λ d v, if bool_decide (d = "") then (Some (ErrExt "unexpected end"), v) else (None, d))  in
  let c := impl_init ∅ in
  MarshalAndCompression json c "{}" = inr "gz{}" ∧ UnmarshalAndCompression json c "gz{}" "" = (None, "{}") ∧
  UnmarshalAndCompression json c "{}" "" = (Some (ErrExt "unexpected end"), "") ∧
  MarshalAndCompression json ∅ "{}" = inl (ErrNew "JsonX no compression found").
Proof. vm_compute. done. Qed.
