(* ===== verification/TraceLegacy.v ===== *)
(** The records of a request from before OpenTelemetry (pkg/tracelegacy): a trace, what is
    appended to it under its lock, and dialogs that callers and traces share. *)
From stdpp Require Import prelude gmap strings list.
From S2P Require Import Prelude GoStrings Digest GoFloat.

(** Requests, responses, queries and the like are known by the pointer that is stored; a nil
    pointer is [None]. *)
Abbreviation ptr := nat.
Record Trace := mkTrace {
  Identifier : string; Request : option ptr; Response : option ptr; ThirdPartyRequests : list ptr;
  Debugs : list ptr; SQLs : list ptr; Cache : list ptr;
  Success : bool; CostMillisecond : float64; Logger : option ptr; AlwaysTrace : bool }.
(** [rnd] are the ten random bytes. *)
Definition New (id : string) (rnd : list Z) : Trace :=
  mkTrace (if bool_decide (id = "") then hex_encode rnd else id) None None [] [] [] [] false f0 None false.
Definition trace_ID (t : Trace) : string := Identifier t.
Definition WithRequest (r : option ptr) (t : Trace) : Trace :=
  mkTrace (Identifier t) r (Response t) (ThirdPartyRequests t) (Debugs t) (SQLs t) (Cache t) (Success t) (CostMillisecond t) (Logger t) (AlwaysTrace t).
Definition WithResponse (r : option ptr) (t : Trace) : Trace :=
  mkTrace (Identifier t) (Request t) r (ThirdPartyRequests t) (Debugs t) (SQLs t) (Cache t) (Success t) (CostMillisecond t) (Logger t) (AlwaysTrace t).
(** A nil pointer is not appended. *)
Definition appended (l : list ptr) (x : option ptr) : list ptr := match x with Some x => l ++ [x] | None => l end.
Definition AppendDialog (d : option ptr) (t : Trace) : Trace :=
  mkTrace (Identifier t) (Request t) (Response t) (appended (ThirdPartyRequests t) d) (Debugs t) (SQLs t) (Cache t) (Success t) (CostMillisecond t) (Logger t) (AlwaysTrace t).
Definition AppendDebug (d : option ptr) (t : Trace) : Trace :=
  mkTrace (Identifier t) (Request t) (Response t) (ThirdPartyRequests t) (appended (Debugs t) d) (SQLs t) (Cache t) (Success t) (CostMillisecond t) (Logger t) (AlwaysTrace t).
Definition AppendSQL (s : option ptr) (t : Trace) : Trace :=
  mkTrace (Identifier t) (Request t) (Response t) (ThirdPartyRequests t) (Debugs t) (appended (SQLs t) s) (Cache t) (Success t) (CostMillisecond t) (Logger t) (AlwaysTrace t).
Definition AppendCache (c : option ptr) (t : Trace) : Trace :=
  mkTrace (Identifier t) (Request t) (Response t) (ThirdPartyRequests t) (Debugs t) (SQLs t) (appended (Cache t) c) (Success t) (CostMillisecond t) (Logger t) (AlwaysTrace t).
Definition SetLogger (l : option ptr) (t : Trace) : Trace :=
  mkTrace (Identifier t) (Request t) (Response t) (ThirdPartyRequests t) (Debugs t) (SQLs t) (Cache t) (Success t) (CostMillisecond t) l (AlwaysTrace t).
Definition SetAlwaysTrace (b : bool) (t : Trace) : Trace :=
  mkTrace (Identifier t) (Request t) (Response t) (ThirdPartyRequests t) (Debugs t) (SQLs t) (Cache t) (Success t) (CostMillisecond t) (Logger t) b.

(** ** Calls in the order of the lock, on a trace and on the dialogs it may share *)
Inductive tcall :=
  | CRequest (r : option ptr) | CResponse (r : option ptr) | CDialog (d : option ptr) | CDebug (d : option ptr)
  | CSQL (s : option ptr) | CCache (c : option ptr) | CLogger (l : option ptr) | CAlways (b : bool)
  | CDialogResponse (d : ptr) (r : option ptr).
(** The responses of each dialog. *)
Abbreviation dialogs := (gmap ptr (list ptr)).
Definition responses (d : ptr) (m : dialogs) : list ptr := default [] (m !! d).
Definition AppendResponse (d : ptr) (r : option ptr) (m : dialogs) : dialogs := <[d := appended (responses d m) r]> m.
Definition tstep (tm : Trace * dialogs) (c : tcall) : Trace * dialogs :=
  let '(t, m) := tm in
  match c with
  | CRequest r => (WithRequest r t, m) | CResponse r => (WithResponse r t, m)
  | CDialog d => (AppendDialog d t, m) | CDebug d => (AppendDebug d t, m)
  | CSQL s => (AppendSQL s t, m) | CCache c => (AppendCache c t, m)
  | CLogger l => (SetLogger l t, m) | CAlways b => (SetAlwaysTrace b t, m)
  | CDialogResponse d r => (t, AppendResponse d r m)
  end.
Lemma appended_app l x : appended l x = l ++ match x with Some x => [x] | None => [] end.
Proof. destruct x; [done|by rewrite app_nil_r]. Qed.
(** The records of a run are what was appended, in order; a dialog's responses may be appended
    before and after the dialog itself. *)
Lemma trace_records (cs : list tcall) (t : Trace) (m : dialogs) :
  let '(t', m') := foldl tstep (t, m) cs in
  Identifier t' = Identifier t ∧
  ThirdPartyRequests t' = ThirdPartyRequests t ++ omap (λ c, match c with CDialog d => d | _ => None end) cs ∧
  Debugs t' = Debugs t ++ omap (λ c, match c with CDebug d => d | _ => None end) cs ∧
  SQLs t' = SQLs t ++ omap (λ c, match c with CSQL s => s | _ => None end) cs ∧
  Cache t' = Cache t ++ omap (λ c, match c with CCache c => c | _ => None end) cs ∧
  ∀ d, responses d m' = responses d m ++
    omap (λ c, match c with CDialogResponse d' r => if decide (d' = d) then r else None | _ => None end) cs.
Proof.
  revert t m. induction cs as [|c cs IH]; intros t m; cbn [foldl omap list_omap].
  { rewrite !app_nil_r. split_and!; try done. intros d. by rewrite app_nil_r. }
  destruct (tstep (t, m) c) as [t1 m1] eqn:E. specialize (IH t1 m1). destruct (foldl tstep (t1, m1) cs) as [t' m'].
  destruct IH as (-> & -> & -> & -> & -> & Hr). destruct c as [r|r|[x|]|[x|]|[x|]|[x|]|l|b|d0 r]; cbn in E; injection E as <- <-; cbn;
    rewrite <-?app_assoc; split_and!; try done; intros d; rewrite Hr; try done.
  unfold responses, AppendResponse. case_decide as Ed.
  - subst. rewrite lookup_insert_eq. cbn. rewrite appended_app, <-app_assoc. by destruct r.
  - by rewrite lookup_insert_ne.
Qed.
Example new_identifier : Identifier (New "" [0; 1; 171; 255; 16; 32; 48; 64; 80; 96]) = "0001abff102030405060" ∧ Identifier (New "t" []) = "t".
Proof. done. Qed.
