(* ===== verification/AlertPipeline.v ===== *)
(** Alerting end to end: the engine (pkg/alert) with its configuration provider (pkg/alert/provider),
    its DingTalk notifiers (pkg/alert/notifier) and its store (pkg/alertstore), sharing one provider
    and one clock.  The engine here asks the provider when [handleTriggered] does, and every
    notifier asks it again before it posts; what the engine does is an [Evaluate] of Alert.v
    whose oracle the provider has answered. *)
From stdpp Require Import prelude gmap strings list sorting.
From S2P Require Import Prelude GoStrings GoFloat Metrics Alert AlertProofs DingTalk AlertStore GoTime.

(** The outside, by the number of the observation: the clock, the key-value store and what its
    text decodes to, the servers; and what is fixed, the notifiers by their identity. *)
Class Outside := {
  o_clock : nat → Z;
  o_Get : nat → string → goerr + string;
  o_decode : string → goerr + NotifierConfig;
  o_post : nat → string → string → goerr + (Z * string * option (Z * string));
  o_tags : nat → tagmap → list (string * string);
  o_show : gval → string;
  o_loc : location;
  o_json : string → string → string;
  o_ding : nat → DingTalkNotifier }.

(** A call of a notifier's [Send]: whose, for which event, the address posted to, the error. *)
Record sending := mkSending { by_notifier : nat; of_event : AlertEvent; posted_to : option string; failed : option goerr }.

Section pipeline.
Context `{Outside} `{AlertTable T}.
Record Alerting := mkAlerting {
  p_engine : Engine; p_provider : KVConfigProvider; p_tick : nat; p_sent : list sending; p_table : T }.
Definition observe : State Alerting nat :=
  λ s, (p_tick s, mkAlerting (p_engine s) (p_provider s) (S (p_tick s)) (p_sent s) (p_table s)).
Definition set_engine (e : Engine) : State Alerting unit :=
  modify (λ s, mkAlerting e (p_provider s) (p_tick s) (p_sent s) (p_table s)).
Definition set_provider (p : KVConfigProvider) : State Alerting unit :=
  modify (λ s, mkAlerting (p_engine s) p (p_tick s) (p_sent s) (p_table s)).
Definition log_sending (r : sending) : State Alerting unit :=
  modify (λ s, mkAlerting (p_engine s) (p_provider s) (p_tick s) (p_sent s ++ [r]) (p_table s)).
Definition set_table (f : T → T) : State Alerting unit :=
  modify (λ s, mkAlerting (p_engine s) (p_provider s) (p_tick s) (p_sent s) (f (p_table s))).

(** The provider, asked: a reading of the clock, one of the store if the cache is too old, and
    the time of the new cache. *)
Definition ask_provider : State Alerting (goerr + option NotifierConfig) :=
  p ← gets p_provider;
  n1 ← observe; n2 ← observe; n3 ← observe;
  let '(r, p) := GetNotifierConfig (o_Get n2) o_decode (o_clock n1) (o_clock n3) p in
  _ ← set_provider p;
  mret (match r with inl err => inl err | inr c => inr (Some c) end).
Definition ask_if (b : bool) : State Alerting (goerr + option NotifierConfig) :=
  if b then ask_provider else mret (inr None).

(** [Send] of a notifier. *)
Definition notify (k : nat) (ev : AlertEvent) : State Alerting unit :=
  let d := o_ding k in
  answer ← ask_if (hasProvider d);
  n ← observe;
  let '(url, err) := DingTalk_Send o_show o_loc o_json (o_post n) answer (o_clock n) (o_tags n (ev_Tags ev)) ev d in
  log_sending (mkSending k ev url err).
(** The last part of [handleTriggered]: the notifiers in turn, then the store. *)
Fixpoint perform (out : list emission) : State Alerting unit :=
  match out with
  | [] => mret tt
  | Send k ev :: out => _ ← notify k ev; perform out
  | Save ev :: out => _ ← set_table (λ t, (Save_event ev t).2); perform out
  end.
Definition cooling (rule : Rule) (now : Z) (e : Engine) : bool :=
  match cooldowns e !! MetricName rule with
  | Some last => time_Sub now last <? CooldownPeriod rule
  | None => false
  end.
Definition p_handleTriggered (rule : Rule) (value threshold : gval) (now : Z) (snap : Snapshot)
    : State Alerting unit :=
  e ← gets p_engine;
  if cooling rule now e then mret tt
  else
    cfg ← ask_if (configProvider e);
    let '(out, e) := handleTriggered rule value threshold now snap cfg e in
    _ ← set_engine e; perform out.
Definition p_rule (snapshots : gmap string Snapshot) (now : Z) (rule : Rule) : State Alerting unit :=
  match snapshots !! MetricName rule with
  | None => mret tt
  | Some snap =>
      e ← gets p_engine;
      let '(v, e) := checkRule rule snap e in
      _ ← set_engine e;
      _ ← match v with
          | Some (value, threshold) => p_handleTriggered rule value threshold now snap
          | None => if rule_Type rule =? RuleTypeConsecutive
                    then set_engine (set_consecutive (MetricName rule) 0 e) else mret tt
          end;
      e ← gets p_engine;
      set_engine (savePrevValues (MetricName rule) snap e)
  end.
Fixpoint p_rules (rs : list Rule) (snapshots : gmap string Snapshot) (now : Z) : State Alerting unit :=
  match rs with
  | [] => mret tt
  | r :: rs => _ ← p_rule snapshots now r; p_rules rs snapshots now
  end.
Definition p_Evaluate (snapshots : gmap string Snapshot) : State Alerting unit :=
  e ← gets p_engine; n ← observe; p_rules (rules e) snapshots (o_clock n).

(** A running service: snapshots, rules replaced, the cache invalidated, and time that passes. *)
Inductive aop :=
  | ASnapshot (snapshots : gmap string Snapshot)
  | AUpdateRules (rs : list Rule)
  | AInvalidateCache
  | AWait.
Definition astep (o : aop) : State Alerting unit :=
  match o with
  | ASnapshot snaps => p_Evaluate snaps
  | AUpdateRules rs => e ← gets p_engine; set_engine (UpdateRules rs e)
  | AInvalidateCache => p ← gets p_provider; set_provider (InvalidateCache p)
  | AWait => _ ← observe; mret tt
  end.
Fixpoint arun (os : list aop) : State Alerting unit :=
  match os with [] => mret tt | o :: os => _ ← astep o; arun os end.
End pipeline.
#[global] Arguments Alerting T : clear implicits.

(** ** Triples over the state *)
Section triples.
Context {S : Type}.
Definition triple {A} (P : S → Prop) (m : State S A) (Q : A → S → Prop) : Prop :=
  ∀ s, P s → Q (m s).1 (m s).2.
Lemma triple_bind {A B} P (m : State S A) R (f : A → State S B) Q :
  triple P m R → (∀ a, triple (R a) (f a) Q) → triple P (m ≫= f) Q.
Proof. intros Hm Hf s Hs. by apply Hf, Hm. Qed.
Lemma triple_ret {A} P (a : A) : triple P (mret a) (λ b s, b = a ∧ P s).
Proof. intros s Hs. by split. Qed.
Lemma triple_gets {A} P (f : S → A) : triple P (gets f) (λ a s, a = f s ∧ P s).
Proof. intros s Hs. by split. Qed.
Lemma triple_modify (P Q : S → Prop) (f : S → S) : (∀ s, P s → Q (f s)) → triple P (modify f) (λ _, Q).
Proof. intros Hf s Hs. by apply Hf. Qed.
Lemma triple_weaken {A} P P' (m : State S A) Q Q' :
  triple P' m Q' → (∀ s, P s → P' s) → (∀ a s, Q' a s → Q a s) → triple P m Q.
Proof. intros Hm HP HQ s Hs. by apply HQ, Hm, HP. Qed.
End triples.

(** ** The engine is Alert.v's *)
Definition sends (out : list emission) : list (nat * AlertEvent) :=
  omap (λ em, match em with Send k ev => Some (k, ev) | Save _ => None end) out.
Lemma sends_app o1 o2 : sends (o1 ++ o2) = sends o1 ++ sends o2.
Proof. apply omap_app. Qed.
(** An evaluation reads its oracle below the number of rules. *)
Lemma eval_rules_oracle rs snaps now cfg cfg' e :
  (∀ k, (k < length rs)%nat → cfg k = cfg' k) → eval_rules rs snaps now cfg e = eval_rules rs snaps now cfg' e.
Proof.
  revert e. induction rs as [|r rs IH]; intros e Hk; [done|]. cbn [eval_rules]. rewrite Hk by (cbn; lia).
  destruct (eval_rule _ _ _ _ _) as [o1 e1]. rewrite IH; [done|]. intros k Hl. apply Hk. cbn. lia.
Qed.
(** Work for the engine: a round of evaluation, or new rules. *)
Inductive work := WRound (rd : round) | WRules (rs : list Rule).
Definition do_work (w : work) (e : Engine) : list emission * Engine :=
  match w with
  | WRound rd => Evaluate (rd_snaps rd) (rd_now rd) (rd_cfg rd) e
  | WRules rs => ([], UpdateRules rs e)
  end.
Fixpoint do_all (ws : list work) (e : Engine) : list emission * Engine :=
  match ws with
  | [] => ([], e)
  | w :: ws => let '(o1, e) := do_work w e in let '(o2, e) := do_all ws e in (o1 ++ o2, e)
  end.
Lemma do_all_app w1 w2 e :
  do_all (w1 ++ w2) e = let '(o1, e) := do_all w1 e in let '(o2, e) := do_all w2 e in (o1 ++ o2, e).
Proof.
  revert e. induction w1 as [|w w1 IH]; intros e; cbn [app do_all]; [by destruct (do_all w2 e)|].
  destruct (do_work w e) as [o e1]. rewrite IH. destruct (do_all w1 e1) as [o1 e2]. destruct (do_all w2 e2) as [o2 e3].
  by rewrite app_assoc.
Qed.
(** The alert comes of a snapshot of the round, and, when the engine has a provider, of an answer
    that does not disable alerting. *)
Definition raised_in (b : bool) (rd : round) (ev : AlertEvent) : Prop :=
  is_Some (rd_snaps rd !! ev_MetricName ev) ∧ ev_Timestamp ev = rd_now rd ∧
  ∃ k, b = true → ∀ c, rd_cfg rd k = inr (Some c) → Enabled c = true.
Lemma eval_rule_raised snaps now cfg r e :
  let '(out, e') := eval_rule snaps now cfg r e in
  configProvider e' = configProvider e ∧ deliver e' = deliver e ∧
  ∃ evs, out = flat_map (deliver e) evs ∧
    Forall (λ ev, is_Some (snaps !! ev_MetricName ev) ∧ ev_Timestamp ev = now ∧
                  (configProvider e = true → ∀ c, cfg = inr (Some c) → Enabled c = true)) evs.
Proof.
  destruct (eval_rule snaps now cfg r e) as [out e'] eqn:E. pose proof (eval_rule_spec _ _ _ _ _ _ _ E) as (_ & Hn & Hs & Hout).
  split_and!; [|by apply deliver_ext|].
  - unfold eval_rule in E. destruct (snaps !! MetricName r) as [snap|]; [|by injection E as _ <-].
    pose proof (checkRule_provider r snap e) as H1. destruct (checkRule r snap e) as [v e1]. cbn [snd] in H1.
    destruct v as [[val thr]|].
    + pose proof (handleTriggered_provider r val thr now snap cfg e1) as H2.
      destruct (handleTriggered _ _ _ _ _ _ _) as [o e2]. cbn [snd] in H2. injection E as _ <-. by rewrite savePrevValues_provider, H2.
    + injection E as _ <-. rewrite savePrevValues_provider. by destruct (rule_Type r =? RuleTypeConsecutive).
  - destruct Hout as [[-> _]|(ev & Hm & Ht & Ho & _)]; [by exists []|].
    destruct (decide (out = [])) as [->|Hne]; [by exists []|]. exists [ev]. split; [cbn; by rewrite app_nil_r|].
    constructor; [|constructor]. rewrite Hm. unfold eval_rule in E.
    destruct (snaps !! MetricName r) as [snap|]; [|by injection E as <- _]. split_and!; [done|done|]. intros Hp c ->.
    pose proof (checkRule_provider r snap e) as H1. destruct (checkRule r snap e) as [[[val thr]|] e1]; [|by injection E as <- _].
    cbn [snd] in H1. unfold handleTriggered in E. rewrite H1, Hp in E. cbn [andb] in E.
    destruct (match cooldowns e1 !! _ with Some _ => _ | None => _ end); [by injection E as <- _|].
    destruct (Enabled c); [done|]. by injection E as <- _.
Qed.
Lemma eval_rules_raised snaps now cfg rs e :
  let '(out, e') := eval_rules rs snaps now cfg e in
  configProvider e' = configProvider e ∧ deliver e' = deliver e ∧
  ∃ evs, out = flat_map (deliver e) evs ∧ Forall (raised_in (configProvider e) (mkRound snaps now cfg)) evs.
Proof.
  revert e. induction rs as [|r rs IH]; intros e; [by split_and!; [..|exists []]|]. cbn [eval_rules].
  pose proof (eval_rule_raised snaps now (cfg (length rs)) r e) as H1.
  destruct (eval_rule _ _ _ r e) as [o1 e1]. specialize (IH e1).
  destruct (eval_rules rs _ _ _ e1) as [o2 e2]. destruct H1 as (P1 & D1 & l1 & -> & F1), IH as (P2 & D2 & l2 & -> & F2).
  rewrite P1, D1 in *. split_and!; [done|done|]. exists (l1 ++ l2). rewrite flat_map_app. split; [done|].
  apply Forall_app. split; [|done]. eapply Forall_impl; [exact F1|]. intros ev (Hs & Ht & Hc). by split_and!; [..|exists (length rs)].
Qed.
(** All that goes out is alerts, each raised in one of the rounds and delivered as the engine
    delivers. *)
Lemma do_all_raised ws e :
  ∃ evs, (do_all ws e).1 = flat_map (deliver e) evs ∧
    Forall (λ ev, ∃ rd, WRound rd ∈ ws ∧ raised_in (configProvider e) rd ev) evs.
Proof.
  revert e. induction ws as [|w ws IH]; intros e; [by exists []|]. cbn [do_all].
  assert (let '(o, e') := do_work w e in configProvider e' = configProvider e ∧ deliver e' = deliver e ∧
    ∃ evs, o = flat_map (deliver e) evs ∧ Forall (λ ev, ∃ rd, w = WRound rd ∧ raised_in (configProvider e) rd ev) evs) as Hw.
  { destruct w as [rd|rs]; [|by split_and!; [..|exists []]]. unfold do_work, Evaluate.
    pose proof (eval_rules_raised (rd_snaps rd) (rd_now rd) (rd_cfg rd) (rules e) e) as H1.
    destruct (eval_rules _ _ _ _ e) as [o e']. destruct H1 as (P & D & l & -> & F). split_and!; [done|done|].
    exists l. split; [done|]. eapply Forall_impl; [exact F|]. intros ev Hev. exists rd. by destruct rd. }
  destruct (do_work w e) as [o1 e1]. destruct Hw as (P1 & D1 & l1 & -> & F1). destruct (IH e1) as (l2 & E2 & F2).
  destruct (do_all ws e1) as [o2 e2]. cbn [fst] in *. rewrite P1, D1 in *. exists (l1 ++ l2). rewrite E2, flat_map_app. split; [done|].
  apply Forall_app. split; eapply Forall_impl; [exact F1| |exact F2|].
  - intros ev (rd & -> & Hr). exists rd. split; [by left|done].
  - intros ev (rd & Hin & Hr). exists rd. split; [by right|done].
Qed.

Section refines.
Context `{Outside} `{AlertTable T}.
(** ** What the provider may answer *)
(** The provider started as [p0], at observation [lo]. *)
Context (p0 : KVConfigProvider) (lo : nat).
Definition stored_at (m : nat) (c : NotifierConfig) : Prop := ∃ v, o_Get m (kv_key p0) = inr v ∧ o_decode v = inr c.
(** A configuration that may be in the cache before observation [n], and since when: the initial
    one, or one read from the store since. *)
Definition cached_at (n : nat) (c : NotifierConfig) (since : Z) : Prop :=
  (kv_cache p0 = Some c ∧ kv_cacheAt p0 = since) ∨
  ∃ m, (lo ≤ m < n)%nat ∧ stored_at m c ∧ since = o_clock (S m).
(** An answer at observation [n]: a cached configuration whose lifetime is not over; or the one the
    store holds now; or, when that cannot be read or decoded, the fallback, or the error without one. *)
Definition provided (n : nat) (a : goerr + option NotifierConfig) : Prop :=
  (∃ c since, a = inr (Some c) ∧ cached_at n c since ∧ time_Sub (o_clock n) since < kv_cacheTTL p0) ∨
  (∃ c, a = inr (Some c) ∧ stored_at (S n) c) ∨
  (∃ err, (o_Get (S n) (kv_key p0) = inl err ∨ ∃ v, o_Get (S n) (kv_key p0) = inr v ∧ o_decode v = inl err) ∧
     a = match kv_fallback p0 with Some f => inr (Some f) | None => inl err end).
Record good (s : Alerting T) : Prop := {
  gd_lo : (lo ≤ p_tick s)%nat;
  gd_key : kv_key (p_provider s) = kv_key p0;
  gd_ttl : kv_cacheTTL (p_provider s) = kv_cacheTTL p0;
  gd_fallback : kv_fallback (p_provider s) = kv_fallback p0;
  gd_cache c : kv_cache (p_provider s) = Some c → cached_at (p_tick s) c (kv_cacheAt (p_provider s)) }.
Lemma cached_later n n' c since : (n ≤ n')%nat → cached_at n c since → cached_at n' c since.
Proof. intros Hn [?|(m & ? & ?)]; [by left|]. right. exists m. split; [lia|done]. Qed.
(** Time alone changes nothing. *)
Lemma good_later s s' : p_provider s' = p_provider s → (p_tick s ≤ p_tick s')%nat → good s → good s'.
Proof.
  intros Hp Ht [G1 G2 G3 G4 G5]. split; rewrite ?Hp; try done; [lia|]. intros c Hc. eapply cached_later; [exact Ht|by apply G5].
Qed.
(** The provider's answer if it is asked in the state [s]. *)
Definition oracle_at (s : Alerting T) : goerr + option NotifierConfig :=
  match (GetNotifierConfig (o_Get (S (p_tick s))) o_decode (o_clock (p_tick s)) (o_clock (S (S (p_tick s)))) (p_provider s)).1 with
  | inl err => inl err
  | inr c => inr (Some c)
  end.
Lemma oracle_provided s : good s → provided (p_tick s) (oracle_at s).
Proof.
  intros [G1 G2 G3 G4 G5]. unfold oracle_at, GetNotifierConfig, provided, stored_at.
  rewrite G2, G3, G4.
  assert (∀ x : (goerr + NotifierConfig) * KVConfigProvider,
    x = match o_Get (S (p_tick s)) (kv_key p0) with
        | inl e => match kv_fallback p0 with Some f => (inr f, p_provider s) | None => (inl e, p_provider s) end
        | inr val => match o_decode val with
                     | inl e => match kv_fallback p0 with Some f => (inr f, p_provider s) | None => (inl e, p_provider s) end
                     | inr cfg => (inr cfg, mkKV (kv_key p0) (Some cfg) (o_clock (S (S (p_tick s)))) (kv_cacheTTL p0) (kv_fallback p0))
                     end
        end →
    provided (p_tick s) (match x.1 with inl err => inl err | inr c => inr (Some c) end)) as Hread.
  { intros x ->. unfold provided, stored_at. right. destruct (o_Get _ _) as [err|v] eqn:Eg.
    - right. exists err. split; [by left|]. by destruct (kv_fallback p0).
    - destruct (o_decode v) as [err|c] eqn:Ed; [|left; exists c; split; [done|by exists v]].
      right. exists err. split; [right; by exists v|]. by destruct (kv_fallback p0). }
  destruct (kv_cache (p_provider s)) as [c|] eqn:Ec; [|by apply Hread].
  destruct (Z.ltb_spec (time_Sub (o_clock (p_tick s)) (kv_cacheAt (p_provider s))) (kv_cacheTTL p0)); [|by apply Hread].
  left. exists c, (kv_cacheAt (p_provider s)). split_and!; [done|by apply G5|done].
Qed.

(** What the emissions leave outside: one call of [Send] for each, and the saved rows. *)
Definition effects (out : list emission) (s s' : Alerting T) : Prop :=
  p_table s' = foldl save_emission (p_table s) out ∧ (p_tick s ≤ p_tick s')%nat ∧ (good s → good s') ∧
  ∃ new, p_sent s' = p_sent s ++ new ∧ map (λ r, (by_notifier r, of_event r)) new = sends out.
Lemma effects_none s s' :
  p_table s' = p_table s → (p_tick s ≤ p_tick s')%nat → (good s → good s') → p_sent s' = p_sent s → effects [] s s'.
Proof. intros H1 H2 H3 H4. split_and!; [done|done|done|]. exists []. by rewrite app_nil_r. Qed.
Lemma effects_app o1 o2 s1 s2 s3 : effects o1 s1 s2 → effects o2 s2 s3 → effects (o1 ++ o2) s1 s3.
Proof.
  intros (T1 & K1 & G1 & n1 & S1 & E1) (T2 & K2 & G2 & n2 & S2 & E2). split_and!.
  - by rewrite foldl_app, <-T1.
  - lia.
  - auto.
  - exists (n1 ++ n2). by rewrite S2, S1, app_assoc, map_app, sends_app, E1, E2.
Qed.
Lemma ask_if_frame b (s : Alerting T) :
  triple (eq s) (ask_if b) (λ a s', a = (if b then oracle_at s else inr None) ∧
    p_engine s' = p_engine s ∧ p_sent s' = p_sent s ∧ p_table s' = p_table s ∧
    (p_tick s ≤ p_tick s')%nat ∧ (good s → good s')).
Proof.
  intros ? <-. unfold ask_if. destruct b; [|by split_and!]. unfold oracle_at, ask_provider, observe, set_provider. run_st.
  cbn [p_provider p_tick]. unfold GetNotifierConfig.
  assert (∀ (r : goerr + NotifierConfig) p', (good s → good (mkAlerting (p_engine s) p' (S (S (S (p_tick s)))) (p_sent s) (p_table s))) →
    let s' := mkAlerting (p_engine s) p' (S (S (S (p_tick s)))) (p_sent s) (p_table s) in
    p_engine s' = p_engine s ∧ p_sent s' = p_sent s ∧ p_table s' = p_table s ∧ (p_tick s ≤ p_tick s')%nat ∧ (good s → good s')) as Hend.
  { intros r p' Hg. cbn. split_and!; [done|done|done|lia|done]. }
  assert (good s → good (mkAlerting (p_engine s) (p_provider s) (S (S (S (p_tick s)))) (p_sent s) (p_table s))) as Hsame
    by (apply good_later; [done|cbn; lia]).
  destruct (match kv_cache _ with Some _ => _ | None => _ end) as [r p'] eqn:E. cbn. split; [done|].
  apply (Hend r). clear Hend.
  assert (p' = p_provider s ∨ ∃ val c, o_Get (S (p_tick s)) (kv_key (p_provider s)) = inr val ∧ o_decode val = inr c ∧
    p' = mkKV (kv_key (p_provider s)) (Some c) (o_clock (S (S (p_tick s)))) (kv_cacheTTL (p_provider s)) (kv_fallback (p_provider s)))
    as [->|(val & c & Eg & Ed & ->)]; [|done|].
  { clear Hsame. destruct (o_Get _ _) as [err|val] eqn:Eg; [|destruct (o_decode val) as [err|c] eqn:Ed];
      repeat case_match; simplify_eq; first [by left|right; by exists val, c]. }
  intros [G1 G2 G3 G4 G5]. split; cbn; [lia|done|done|done|]. intros c' [= <-]. right.
  exists (S (p_tick s)). split_and!; [lia|lia| |done]. exists val. by rewrite <-G2.
Qed.
Lemma notify_frame k ev (s : Alerting T) :
  triple (eq s) (notify k ev) (λ _ s', p_engine s' = p_engine s ∧ effects [Send k ev] s s').
Proof.
  unfold notify. eapply triple_bind; [apply ask_if_frame|]. intros ans s1 (_ & E1 & E2 & E3 & E4 & E5).
  unfold observe, log_sending. run_st. destruct (DingTalk_Send _ _ _ _ _ _ _ _) as [url err].
  cbn [fst snd p_engine p_sent p_table p_tick]. split; [done|].
  split_and!; [done|cbn; lia| |eexists [_]; cbn [p_sent]; split; [by rewrite E2|done]].
  intros Hg. eapply (good_later s1); [done|cbn; lia|by apply E5].
Qed.
Lemma perform_frame out (s : Alerting T) :
  triple (eq s) (perform out) (λ _ s', p_engine s' = p_engine s ∧ effects out s s').
Proof.
  revert s. induction out as [|[k ev|ev] out IH]; intros s; cbn [perform].
  - intros ? <-. split; [done|by apply effects_none].
  - eapply triple_bind; [apply notify_frame|]. intros _ s1 [H1 H2]. destruct (IH s1 s1 eq_refl) as [H3 H4].
    split; [congruence|]. by apply (effects_app [_] out s s1).
  - eapply (triple_bind _ _ (λ _ s1, p_engine s1 = p_engine s ∧ effects [Save ev] s s1)).
    { intros ? <-. split; [done|]. split_and!; [done|done|by apply good_later|]. exists []. by rewrite app_nil_r. }
    intros _ s1 [H1 H2]. destruct (IH s1 s1 eq_refl) as [H3 H4].
    split; [congruence|]. by apply (effects_app [_] out s s1).
Qed.
Lemma handle_cooling rule value threshold now snap cfg e :
  cooling rule now e = true → handleTriggered rule value threshold now snap cfg e = ([], e).
Proof. unfold cooling, handleTriggered. by intros ->. Qed.
(** Without a provider the oracle is not read. *)
Lemma handle_unasked rule value threshold now snap cfg cfg' e :
  configProvider e = false → handleTriggered rule value threshold now snap cfg e = handleTriggered rule value threshold now snap cfg' e.
Proof. unfold handleTriggered. by intros ->. Qed.
Lemma p_handle_frame rule value threshold now snap (s : Alerting T) :
  triple (eq s) (p_handleTriggered rule value threshold now snap) (λ _ s', ∃ out,
    handleTriggered rule value threshold now snap (oracle_at s) (p_engine s) = (out, p_engine s') ∧ effects out s s').
Proof.
  intros ? <-. unfold p_handleTriggered. run_st. destruct (cooling rule now (p_engine s)) eqn:Ec.
  { exists []. rewrite handle_cooling by done. split; [done|by apply effects_none]. }
  destruct (ask_if_frame (configProvider (p_engine s)) s s eq_refl) as (E0 & E1 & E2 & E3 & E4 & E5).
  destruct (ask_if _ s) as [cfg s1]. cbn [fst snd] in *.
  assert (handleTriggered rule value threshold now snap (oracle_at s) (p_engine s) =
    handleTriggered rule value threshold now snap cfg (p_engine s)) as ->.
  { destruct (configProvider (p_engine s)) eqn:Ep; [by rewrite E0|by apply handle_unasked]. }
  destruct (handleTriggered _ _ _ _ _ _ _) as [out e]. unfold set_engine. run_st.
  match goal with |- context [perform out ?s'] => destruct (perform_frame out s' s' eq_refl) as [H1 H2]; set (s2 := s') in * end.
  exists out. split; [by rewrite H1|]. apply (effects_app [] out s s2); [|done].
  apply effects_none; [done|done| |done]. intros Hg. by apply (good_later s1), E5.
Qed.
Lemma p_rule_frame snaps now r (s : Alerting T) :
  triple (eq s) (p_rule snaps now r) (λ _ s', ∃ out,
    eval_rule snaps now (oracle_at s) r (p_engine s) = (out, p_engine s') ∧ effects out s s').
Proof.
  intros ? <-. unfold p_rule, eval_rule. destruct (snaps !! MetricName r) as [snap|].
  2: { exists []. split; [done|by apply effects_none]. }
  run_st. destruct (checkRule r snap (p_engine s)) as [v e1]. unfold set_engine. run_st.
  set (s1 := mkAlerting e1 _ _ _ _). assert (effects [] s s1) as H1 by (apply effects_none; [done|done|by apply good_later|done]).
  destruct v as [[val thr]|].
  - destruct (p_handle_frame r val thr now snap s1 s1 eq_refl) as (out & H2 & H3).
    exists out. change (p_engine s1) with e1 in H2. change (oracle_at s1) with (oracle_at s) in H2. rewrite H2.
    cbn [p_engine]. split; [done|]. eapply (effects_app [] out); [exact H1|]. destruct H3 as (T3 & K3 & G3 & S3).
    split_and!; [done|done| |done]. intros Hg. eapply good_later; [..|by apply G3]; done.
  - exists []. destruct (rule_Type r =? RuleTypeConsecutive); cbn; (split; [done|]); apply effects_none; try done; by apply good_later.
Qed.
Lemma p_rules_frame rs snaps now (s : Alerting T) :
  triple (eq s) (p_rules rs snaps now) (λ _ s', ∃ cfg out,
    eval_rules rs snaps now cfg (p_engine s) = (out, p_engine s') ∧ effects out s s' ∧
    (good s → ∀ k, ∃ n, (p_tick s ≤ n)%nat ∧ provided n (cfg k))).
Proof.
  revert s. induction rs as [|r rs IH]; intros s; cbn [p_rules].
  { intros ? <-. exists (λ _, oracle_at s), []. split_and!; [done|by apply effects_none|]. intros Hg _.
    exists (p_tick s). split; [done|by apply oracle_provided]. }
  eapply triple_bind; [apply p_rule_frame|]. intros _ s1 (o1 & H1 & H2).
  destruct (IH s1 s1 eq_refl) as (cfg & o2 & H3 & H4 & H5).
  exists (λ k, if decide (k = length rs) then oracle_at s else cfg k), (o1 ++ o2). cbn [eval_rules].
  rewrite decide_True, H1 by done. split_and!; [|by eapply effects_app|].
  - erewrite eval_rules_oracle, H3; [done|]. intros k Hk. cbn. by rewrite decide_False by lia.
  - intros Hg k. destruct (decide (k = length rs)); [exists (p_tick s); split; [done|by apply oracle_provided]|].
    destruct H2 as (_ & K2 & G2 & _). destruct (H5 (G2 Hg) k) as (m & Hm & Hp). exists m. split; [lia|done].
Qed.

(** ** A run of the service is a run of the engine *)
(** What an operation asks of the engine: snapshots to evaluate, or rules. *)
Definition asked (o : aop) : option (gmap string Snapshot + list Rule) :=
  match o with ASnapshot m => Some (inl m) | AUpdateRules rs => Some (inr rs) | _ => None end.
Definition wanted (w : work) : gmap string Snapshot + list Rule :=
  match w with WRound rd => inl (rd_snaps rd) | WRules rs => inr rs end.
Definition times (ws : list work) : list Z := omap (λ w, match w with WRound rd => Some (rd_now rd) | WRules _ => None end) ws.
(** The round's time is that of observation [m], and what its oracle says is what the provider may
    answer after that. *)
Definition genuine (m : nat) (rd : round) : Prop :=
  rd_now rd = o_clock m ∧ ∀ k, ∃ n, (m < n)%nat ∧ provided n (rd_cfg rd k).
Context (mono : ∀ i j : nat, (i ≤ j)%nat → o_clock i <= o_clock j).
Lemma astep_frame o (s : Alerting T) :
  triple (eq s) (astep o) (λ _ s', ∃ ws out,
    do_all ws (p_engine s) = (out, p_engine s') ∧ effects out s s' ∧ map wanted ws = option_list (asked o) ∧
    (good s → ∀ rd, WRound rd ∈ ws → genuine (p_tick s) rd)).
Proof.
  intros ? <-. destruct o as [snaps|rs| |]; cbn [astep].
  - unfold p_Evaluate, observe. run_st.
    match goal with |- context [p_rules _ _ _ ?s'] => destruct (p_rules_frame (rules (p_engine s)) snaps (o_clock (p_tick s)) s' s' eq_refl)
      as (cfg & out & H1 & H2 & H3); set (s1 := s') in * end.
    exists [WRound (mkRound snaps (o_clock (p_tick s)) cfg)], out. cbn [do_all do_work rd_snaps rd_now rd_cfg]. unfold Evaluate.
    change (p_engine s1) with (p_engine s) in H1. rewrite H1.
    assert (good s → good s1) as Hg1 by (apply good_later; [done|cbn; lia]).
    split_and!; [by rewrite app_nil_r| |done|].
    + apply (effects_app [] out s s1); [|done]. apply effects_none; [done|cbn; lia|done|done].
    + intros Hg rd [= ->]%list_elem_of_singleton. split; [done|]. intros k. cbn [rd_cfg].
      destruct (H3 (Hg1 Hg) k) as (n & Hn & Hp). exists n. split; [cbn in Hn; lia|done].
  - exists [WRules rs], []. run_st. cbn. split_and!; [done|apply effects_none; [done|done|by apply good_later|done]|done|].
    by intros _ rd [=]%list_elem_of_singleton.
  - exists [], []. run_st. split_and!; [done| |done|by intros _ rd ?%not_elem_of_nil].
    apply effects_none; [done|done| |done]. intros [G1 G2 G3 G4 G5]. by split.
  - exists [], []. unfold observe. run_st. cbn. split_and!; [done| |done|by intros _ rd ?%not_elem_of_nil].
    apply effects_none; [done|cbn; lia|apply good_later; [done|cbn; lia]|done].
Qed.
Lemma arun_frame os (s : Alerting T) :
  ∃ ws out, do_all ws (p_engine s) = (out, p_engine (arun os s).2) ∧ map wanted ws = omap asked os ∧
    (good s → ∀ rd, WRound rd ∈ ws → ∃ m, (p_tick s ≤ m)%nat ∧ genuine m rd) ∧
    (good s → StronglySorted Z.le (o_clock (p_tick s) :: times ws)) ∧ effects out s (arun os s).2.
Proof.
  revert s. induction os as [|o os IH]; intros s.
  { exists [], []. split_and!; [done|done|by intros _ rd ?%not_elem_of_nil|intros _; by repeat constructor|by apply effects_none]. }
  cbn [arun]. unfold mbind, State_bind. destruct (astep_frame o s s eq_refl) as (w1 & o1 & E1 & F1 & M1 & N1).
  destruct (astep o s) as [u s1]. cbn [fst snd] in *.
  destruct (IH s1) as (w2 & o2 & E2 & M2 & N2 & S2 & F2). exists (w1 ++ w2), (o1 ++ o2).
  pose proof F1 as (_ & K1 & G1 & _). assert (o_clock (p_tick s) <= o_clock (p_tick s1)) as Hle by (by apply mono).
  split_and!.
  - by rewrite do_all_app, E1, E2.
  - rewrite map_app, M1, M2. cbn [omap list_omap]. by destruct (asked o).
  - intros Hg rd [Hin|Hin]%elem_of_app; [exists (p_tick s); split; [done|by apply N1]|].
    destruct (N2 (G1 Hg) rd Hin) as (m & Hm & Hgen). exists m. split; [lia|done].
  - intros Hg. specialize (S2 (G1 Hg)). apply StronglySorted_inv in S2 as [S2 H2].
    assert (length w1 ≤ 1)%nat as Hl by (rewrite <-(length_map wanted w1), M1; destruct (asked o); cbn; lia).
    assert (StronglySorted Z.le (o_clock (p_tick s) :: times w2)) as S3.
    { constructor; [done|]. eapply Forall_impl; [exact H2|]. cbn. lia. }
    destruct w1 as [|[rd|rs] [|]]; [exact S3| |cbn in Hl; lia|exact S3|cbn in Hl; lia].
    destruct (N1 Hg rd) as [Hn _]; [by left|]. cbn [app times omap list_omap] in *. rewrite Hn.
    constructor; [exact S3|]. constructor; [done|by apply StronglySorted_inv in S3 as [_ ?]].
  - by eapply effects_app.
Qed.
End refines.
(** The initial provider is a good one. *)
Lemma good_start `{Outside} `{AlertTable T} (s : Alerting T) : good (p_provider s) (p_tick s) s.
Proof. split; try done. intros c Hc. by left. Qed.
(** What a delivered alert leaves. *)
Lemma sends_deliver e evs : sends (flat_map (deliver e) evs) = flat_map (λ ev, map (λ k, (k, ev)) (notifiers e)) evs.
Proof.
  induction evs as [|ev evs IH]; [done|]. cbn [flat_map]. rewrite sends_app, IH. f_equal. unfold deliver. rewrite sends_app.
  replace (sends (if store e then [Save ev] else [])) with (@nil (nat * AlertEvent)) by (by destruct (store e)). rewrite app_nil_r.
  clear IH. induction (notifiers e) as [|k l IHl]; [done|]. cbn. f_equal. exact IHl.
Qed.
Lemma saves_deliver `{AlertTable T} e evs (t : T) :
  foldl save_emission t (flat_map (deliver e) evs) = (if store e then foldl (λ t ev, (Save_event ev t).2) t evs else t).
Proof.
  revert t. induction evs as [|ev evs IH]; intros t; [by destruct (store e)|]. cbn [flat_map]. rewrite foldl_app, IH.
  assert (∀ l, foldl save_emission t (map (λ n, Send n ev) l) = t) as Hl by (intros l; by induction l).
  unfold deliver. rewrite foldl_app, Hl. by destruct (store e).
Qed.

(** C27: The composition implements the engine's contract. Whatever the store, the servers and the
    notifiers answer, a run of the service (snapshots, rules replaced, the cache invalidated) is a
    run of the engine of Alert.v on the same snapshots and rules, at non-decreasing times of the
    shared clock, whose oracle gives only answers of the provider: the configuration of a cache
    whose lifetime is not over, the one in the store, or, when that cannot be read, the fallback or
    the error. All that goes out is alerts, each of a snapshot of some round and, when the engine
    has the provider, of an answer that does not disable alerting; each is handed once to every
    notifier, in order, and saved once if there is a store. *)
Theorem pipeline_refines `{Outside} `{AlertTable T} (mono : ∀ i j : nat, (i ≤ j)%nat → o_clock i <= o_clock j)
    (os : list aop) (s : Alerting T) :
  let s' := (arun os s).2 in
  let e := p_engine s in
  ∃ ws evs,
    do_all ws e = (flat_map (deliver e) evs, p_engine s') ∧ map wanted ws = omap asked os ∧
    StronglySorted Z.le (o_clock (p_tick s) :: times ws) ∧
    (∀ rd, WRound rd ∈ ws → ∃ m, (p_tick s ≤ m)%nat ∧ genuine (p_provider s) (p_tick s) m rd) ∧
    Forall (λ ev, ∃ rd, WRound rd ∈ ws ∧ raised_in (configProvider e) rd ev) evs ∧
    p_table s' = (if store e then foldl (λ t ev, (Save_event ev t).2) (p_table s) evs else p_table s) ∧
    ∃ new, p_sent s' = p_sent s ++ new ∧
      map (λ r, (by_notifier r, of_event r)) new = flat_map (λ ev, map (λ k, (k, ev)) (notifiers e)) evs.
Proof.
  cbv zeta. destruct (arun_frame (p_provider s) (p_tick s) mono os s) as (ws & out & E & M & N & S & T1 & _ & _ & new & Hn & Hs).
  destruct (do_all_raised ws (p_engine s)) as (evs & Ho & Hr). rewrite E in Ho. cbn [fst] in Ho. subst out.
  exists ws, evs. split_and!; [done|done|by apply S, good_start|by apply N, good_start|done|by rewrite T1, saves_deliver|].
  exists new. by rewrite Hs, sends_deliver.
Qed.

(** ** New settings take effect *)
Section settings.
Context `{Outside} `{AlertTable T}.
Context (mono : ∀ i j : nat, (i ≤ j)%nat → o_clock i <= o_clock j) (sane : ∀ i, in_time (o_clock i)).
(** From observation [n0] on the store holds [c]. *)
Context (c : NotifierConfig) (n0 : nat) (key : string) (ttl : Z).
Definition store_holds : Prop := ∀ n, (n0 ≤ n)%nat → ∃ v, o_Get n key = inr v ∧ o_decode v = inr c.
Context (reads : store_holds).
(** The cache is empty, or has [c], or is older than that. *)
Definition settled (s : Alerting T) : Prop :=
  (n0 ≤ p_tick s)%nat ∧ kv_key (p_provider s) = key ∧ kv_cacheTTL (p_provider s) = ttl ∧
  ∀ c', kv_cache (p_provider s) = Some c' → c' = c ∨ ∃ m, (m ≤ n0)%nat ∧ kv_cacheAt (p_provider s) = o_clock m.
Definition past (s : Alerting T) : Prop := o_clock n0 + ttl <= o_clock (p_tick s).
(** What a notifier with the provider does under [c]. *)
Definition obeys (r : sending) : Prop :=
  hasProvider (o_ding (by_notifier r)) = true → DingTalkWebhook c ≠ "" →
  (DingTalkSecret c = "" → posted_to r = Some (DingTalkWebhook c)) ∧
  (DingTalkSecret c ≠ "" → ∃ n sign, o_clock n0 + ttl <= o_clock n ∧
     posted_to r = Some (DingTalkWebhook c +++ "&timestamp=" +++ FormatInt (o_clock n / Millisecond) +++ "&sign=" +++ sign) ∧
     query_unescape sign = signature (o_clock n / Millisecond) (DingTalkSecret c)).
Definition silenced (b : bool) : Prop := b = true ∧ Enabled c = false.

(** One invariant for both phases: before the lifetime of the cache is over ([live] is false),
    and after, when [l0] was sent and [t0] was the table. *)
Section phases.
Context (live b : bool) (l0 : list sending) (t0 : T).
Record inv (s : Alerting T) : Prop := {
  inv_settled : settled s;
  inv_provider : configProvider (p_engine s) = b;
  inv_past : live = true → past s;
  inv_sent : live = true → ∃ new, p_sent s = l0 ++ new ∧ Forall obeys new ∧ (silenced b → new = [] ∧ p_table s = t0) }.
Lemma inv_observe s : inv s → inv (observe s).2.
Proof.
  intros [(Hn & Hk & Ht & Hc) Hb Hp Hs]. split; [|done| |done].
  - split_and!; [cbn; lia|done|done|exact Hc].
  - intros Hl. specialize (Hp Hl). unfold past in *. cbn. pose proof (mono (p_tick s) (S (p_tick s))). lia.
Qed.
Lemma inv_set_engine e s : inv s → configProvider e = b → inv (set_engine e s).2.
Proof. intros [Hset Hb Hp Hs] He. by split. Qed.
(** The provider, asked when the cache is too old, answers [c]; and its cache is as before or
    has [c]. *)
Lemma get_settled n1 n2 n3 p :
  (n0 ≤ n2)%nat → kv_key p = key → kv_cacheTTL p = ttl →
  (∀ c', kv_cache p = Some c' → c' = c ∨ ∃ m, (m ≤ n0)%nat ∧ kv_cacheAt p = o_clock m) →
  let '(r, p') := GetNotifierConfig (o_Get n2) o_decode (o_clock n1) (o_clock n3) p in
  (p' = p ∨ p' = mkKV key (Some c) (o_clock n3) ttl (kv_fallback p)) ∧ (o_clock n0 + ttl <= o_clock n1 → r = inr c).
Proof.
  intros Hn Hk Ht Hc. destruct (reads n2 Hn) as (v & Hv & Hd). unfold GetNotifierConfig. rewrite Hk, Ht, Hv, Hd.
  destruct (kv_cache p) as [c'|] eqn:Ec; [|by split; [right|]].
  destruct (Z.ltb_spec (time_Sub (o_clock n1) (kv_cacheAt p)) ttl) as [Hlt|_]; [|by split; [right|]].
  split; [by left|]. intros Hpast. destruct (Hc c' eq_refl) as [->|(m & Hm & Hat)]; [done|]. exfalso.
  pose proof (sane n1). pose proof (sane m). pose proof (mono m n0 Hm). unfold in_time in *.
  rewrite Hat, time_Sub_id in Hlt by (unfold in_i64; lia). lia.
Qed.
Lemma inv_ask ask :
  triple inv (ask_if ask) (λ a s, inv s ∧ (live = true → ask = true → a = inr (Some c))).
Proof.
  intros s Hs. unfold ask_if. destruct ask; [|by split]. unfold ask_provider, observe, set_provider. run_st. cbn [p_tick p_provider].
  pose proof Hs as [(Hn & Hk & Ht & Hc) Hb Hp Hsent].
  pose proof (get_settled (p_tick s) (S (p_tick s)) (S (S (p_tick s))) (p_provider s) ltac:(lia) Hk Ht Hc) as Hg.
  destruct (GetNotifierConfig _ _ _ _ _) as [r p]. cbn [fst snd]. destruct Hg as [Hp' Hr]. split.
  - split; cbn [p_engine p_sent p_table p_provider p_tick]; [|done| |done].
    + split_and!; cbn [p_tick p_provider]; [lia| | |]; destruct Hp' as [->| ->]; try done. cbn. intros c' [= <-]. by left.
    + intros Hl. specialize (Hp Hl). unfold past in *. cbn. pose proof (mono (p_tick s) (S (S (S (p_tick s))))). lia.
  - intros Hl _. by rewrite (Hr (Hp Hl)).
Qed.
Lemma sent_obeys k ev answer n :
  (hasProvider (o_ding k) = true → answer = inr (Some c)) → o_clock n0 + ttl <= o_clock n →
  let '(url, err) := DingTalk_Send o_show o_loc o_json (o_post n) answer (o_clock n) (o_tags n (ev_Tags ev)) ev (o_ding k) in
  obeys (mkSending k ev url err).
Proof.
  intros Ha Hn. pose proof (dingtalk_send o_show o_loc o_json (o_post n) answer (o_clock n) (o_tags n (ev_Tags ev)) ev (o_ding k)) as Hd.
  destruct (DingTalk_Send _ _ _ _ _ _ _ _) as [url err]. unfold obeys. cbn [by_notifier posted_to]. intros Hp Hw.
  rewrite (Ha Hp) in Hd. unfold getConfig in Hd. rewrite Hp, bool_decide_eq_false_2 in Hd by done.
  destruct Hd as (_ & _ & H1 & H2). split; [by apply H1|]. intros Hsec. destruct (H2 Hw Hsec) as (sign & Hu & Hs).
  by exists n, sign.
Qed.
Lemma inv_notify k ev : (live = true → ¬ silenced b) → triple inv (notify k ev) (λ _, inv).
Proof.
  intros Hns. unfold notify. eapply triple_bind; [apply inv_ask|]. intros ans s [Hs Ha].
  pose proof (inv_past _ Hs) as Hpast. unfold observe, log_sending. run_st. apply inv_observe in Hs. unfold observe in Hs. cbn [snd] in Hs.
  pose proof (sent_obeys k ev ans (p_tick s)) as Hob.
  destruct (DingTalk_Send _ _ _ _ _ _ _ _) as [url err]. cbn [snd p_engine p_sent p_table p_provider p_tick].
  destruct Hs as [Hset Hb Hp Hsent]. split; [done|done|done|]. intros Hl. destruct (Hsent Hl) as (new & E & F & G).
  exists (new ++ [mkSending k ev url err]). cbn [p_sent p_table]. cbn in E. rewrite E, app_assoc. split_and!; [done| |].
  - apply Forall_app. split; [done|]. constructor; [|constructor]. apply Hob; [by apply Ha|by apply Hpast].
  - intros Hsil. by destruct (Hns Hl).
Qed.
Lemma inv_perform out : (live = true → silenced b → out = []) → triple inv (perform out) (λ _, inv).
Proof.
  induction out as [|[k ev|ev] out IH]; intros Ho; cbn [perform]; [by intros x Hx| |].
  - eapply triple_bind; [apply inv_notify; intros Hl Hs; by specialize (Ho Hl Hs)|].
    intros []. apply IH. intros Hl Hs. by specialize (Ho Hl Hs).
  - eapply (triple_bind _ _ (λ _, inv)); [|intros []; apply IH; intros Hl Hs; by specialize (Ho Hl Hs)].
    apply triple_modify. intros s [Hset Hb Hp Hsent]. split; [done|done|done|]. intros Hl.
    destruct (Hsent Hl) as (new & E & F & G). exists new. split_and!; [done|done|]. intros Hsil. by specialize (Ho Hl Hsil).
Qed.
Lemma inv_handle rule value threshold now snap :
  triple inv (p_handleTriggered rule value threshold now snap) (λ _, inv).
Proof.
  intros s Hs. unfold p_handleTriggered. run_st. destruct (cooling rule now (p_engine s)); [done|].
  pose proof (ask_if_frame (p_provider s) 0 (configProvider (p_engine s)) s s eq_refl) as (_ & E1 & _).
  pose proof (inv_ask (configProvider (p_engine s)) s Hs) as [Hs1 Ha].
  destruct (ask_if _ s) as [cfg s1]. cbn [fst snd] in *.
  pose proof (handleTriggered_provider rule value threshold now snap cfg (p_engine s)) as Hp.
  pose proof (inv_provider _ Hs) as Hb.
  destruct (handleTriggered _ _ _ _ _ _ _) as [out e] eqn:Eh. cbn [snd] in Hp.
  pose proof (inv_set_engine e s1 Hs1 ltac:(congruence)) as Hs2. unfold set_engine. run_st. unfold set_engine in Hs2. cbn [snd] in Hs2.
  apply inv_perform; [|exact Hs2]. intros Hl [Hbt Hoff]. rewrite Hb in Ha. rewrite (Ha Hl Hbt) in Eh.
  unfold handleTriggered in Eh. destruct (match cooldowns (p_engine s) !! _ with Some _ => _ | None => _ end); [by injection Eh|].
  rewrite Hb, Hbt, Hoff in Eh. by injection Eh.
Qed.
Lemma inv_rule snaps now r : triple inv (p_rule snaps now r) (λ _, inv).
Proof.
  intros s Hs. unfold p_rule. destruct (snaps !! MetricName r) as [snap|]; [|done]. run_st.
  pose proof (checkRule_provider r snap (p_engine s)) as Hc. destruct (checkRule r snap (p_engine s)) as [v e1]. cbn [snd] in Hc.
  assert (∀ s' e, inv s' → configProvider e = configProvider (p_engine s') → inv (set_engine e s').2) as Hset.
  { intros s' e Hs' He. apply inv_set_engine; [done|]. by rewrite He, (inv_provider _ Hs'). }
  pose proof (Hset s e1 Hs Hc) as Hs1. destruct (set_engine e1 s) as [u s1] eqn:E1. cbn [snd] in *.
  apply Hset; [|apply savePrevValues_provider].
  destruct v as [[val thr]|]; [by apply inv_handle|].
  destruct (rule_Type r =? RuleTypeConsecutive); [|done]. apply Hset; [done|]. injection E1 as _ <-. done.
Qed.
Lemma inv_rules rs snaps now : triple inv (p_rules rs snaps now) (λ _, inv).
Proof.
  induction rs as [|r rs IH]; cbn [p_rules]; [by intros s Hs|]. eapply triple_bind; [apply inv_rule|by intros []].
Qed.
Lemma inv_step o : triple inv (astep o) (λ _, inv).
Proof.
  intros s Hs. destruct o as [snaps|rs| |]; cbn [astep].
  - unfold p_Evaluate, observe. run_st. apply inv_rules. by apply inv_observe in Hs.
  - run_st. apply inv_set_engine; [done|]. by rewrite <-(inv_provider _ Hs).
  - run_st. destruct Hs as [(Hn & Hk & Ht & Hc) Hb Hp Hsent]. by split.
  - unfold observe. run_st. by apply inv_observe in Hs.
Qed.
Lemma inv_run os : triple inv (arun os) (λ _, inv).
Proof.
  induction os as [|o os IH]; cbn [arun]; [by intros s Hs|]. eapply triple_bind; [apply inv_step|by intros []].
Qed.
End phases.
End settings.

(** C26: New settings take effect. When, between two steps of the service, the store comes to hold
    a configuration and keeps it, then once the cache's lifetime has passed the service obeys it, whatever the
    metrics, the rules and the servers do: if it disables alerting, an engine with the provider sends and
    saves nothing; and whatever a notifier with the provider sends goes to the configuration's
    webhook, signed with its secret at a time after that. *)
Theorem settings_take_effect `{Outside} `{AlertTable T} (c : NotifierConfig) (os1 os2 : list aop) (s0 : Alerting T) :
  (∀ i j : nat, (i ≤ j)%nat → o_clock i <= o_clock j) → (∀ i, in_time (o_clock i)) →
  (∀ c', kv_cache (p_provider s0) = Some c' → ∃ m, (m ≤ p_tick s0)%nat ∧ kv_cacheAt (p_provider s0) = o_clock m) →
  store_holds c (p_tick s0) (kv_key (p_provider s0)) →
  let s1 := (arun os1 s0).2 in
  let s2 := (arun os2 s1).2 in
  o_clock (p_tick s0) + kv_cacheTTL (p_provider s0) <= o_clock (p_tick s1) →
  (configProvider (p_engine s0) = true → Enabled c = false → p_sent s2 = p_sent s1 ∧ p_table s2 = p_table s1) ∧
  ∃ new, p_sent s2 = p_sent s1 ++ new ∧ Forall (obeys c (p_tick s0) (kv_cacheTTL (p_provider s0))) new.
Proof.
  intros Hmono Hsane Hcache Hreads s1 s2 Hpast. set (b := configProvider (p_engine s0)).
  set (n0 := p_tick s0) in *. set (key := kv_key (p_provider s0)) in *. set (ttl := kv_cacheTTL (p_provider s0)) in *.
  assert (inv c n0 key ttl false b [] (p_table s0) s0) as H0s.
  { split; [|done|done|done]. split_and!; [done|done|done|]. intros c' Hc. right. by apply (Hcache c'). }
  pose proof (inv_run Hmono Hsane c n0 key ttl Hreads false b [] (p_table s0) os1 s0 H0s) as [H1s H1b _ _].
  assert (inv c n0 key ttl true b (p_sent s1) (p_table s1) s1) as Hs1.
  { split; [done|done|done|]. intros _. exists []. by rewrite app_nil_r. }
  pose proof (inv_run Hmono Hsane c n0 key ttl Hreads true b (p_sent s1) (p_table s1) os2 s1 Hs1) as [_ _ _ Hs2].
  destruct (Hs2 eq_refl) as (new & Hnew & Hob & Hsil). split; [|by exists new].
  intros Hb Hoff. destruct (Hsil (conj Hb Hoff)) as [-> Ht]. by rewrite app_nil_r in Hnew.
Qed.

(** ** A service *)
Definition hook (url secret : string) (on : bool) : NotifierConfig := mkNotifierConfig url secret on.
(** The store's text names one of three configurations, and changes once, to [later]. *)
Definition demo_decode (v : string) : goerr + NotifierConfig :=
  if bool_decide (v = "old") then inr (hook "https://old" "" true)
  else if bool_decide (v = "new") then inr (hook "https://new" "s3" true)
  else if bool_decide (v = "off") then inr (hook "" "" false) else inl (ErrExt "invalid character").
Definition demo_outside (later : string) : Outside := {|
  o_clock n := Z.min (Z.of_nat n * 10 * Second) (2 ^ 61);
  o_Get n _ := inr (if (n <? 8)%nat then "old" else later);
  o_decode := demo_decode;
  o_post n _ _ := inr (200, "", Some (0, "ok"));
  o_tags _ m := map_to_list m;
  o_show v := match v with GInt z => FormatInt z | GStr s => s | _ => "" end;
  o_loc _ := 0;
  o_json t x := t +++ x;
  o_ding k := NewDingTalk "https://static" [DingTalk.WithConfigProvider (Nat.eqb k 1)] |}.
Definition demo_engine : Engine :=
  AddNotifier 2 (AddNotifier 1 (NewEngine "svc" [mkRule "errors" RuleTypeImmediate 1 "errors" f0 0 0 Second]
    [WithStore; Alert.WithConfigProvider])).
Definition demo_start : Alerting (list AlertLog) := mkAlerting demo_engine (NewKVProvider None []) 0 [] [].
Definition failing : aop := ASnapshot {["errors" := tagged 3]}.
Definition demo_run (later : string) (os : list aop) (s : Alerting (list AlertLog)) : Alerting (list AlertLog) :=
  (@arun (demo_outside later) _ _ os s).2.
(** The first alert goes to the old webhook, and the store changes. *)
Definition demo_changed : Alerting (list AlertLog) := demo_run "new" [failing] demo_start.
Definition addresses (l : list sending) : list (nat * option string) := map (λ r, (by_notifier r, posted_to r)) l.
Lemma demo_clock_mono later (i j : nat) : (i ≤ j)%nat → @o_clock (demo_outside later) i <= @o_clock (demo_outside later) j.
Proof. cbn. unfold Second, Millisecond. lia. Qed.
Lemma demo_clock_sane later i : in_time (@o_clock (demo_outside later) i).
Proof. cbn. unfold in_time, Second, Millisecond. lia. Qed.
Lemma demo_holds later c : demo_decode later = inr c → @store_holds (demo_outside later) c (p_tick demo_changed) (kv_key (p_provider demo_changed)).
Proof.
  intros Hc n Hn. exists later. split; [|done]. cbn [o_Get demo_outside].
  assert (p_tick demo_changed = 9%nat) as Ht by (vm_compute; reflexivity). rewrite Ht in Hn.
  destruct (Nat.ltb_spec n 8); [lia|done].
Qed.
Example demo_addresses :
  addresses (p_sent (demo_run "new" [failing] demo_changed)) =
    [(1%nat, Some "https://old"); (2%nat, Some "https://static");
     (1%nat, Some "https://new&timestamp=160000&sign=6%2BYsMga%2FAddJCHPsjfBWqGtRoJ5GFhYjxYPUwQxh%2BBU%3D");
     (2%nat, Some "https://static")].
Proof. vm_compute. reflexivity. Qed.
Definition fewer_rules : aop := AUpdateRules [].
Lemma pipeline_refines_witness :
  let os := [failing; AWait; failing; fewer_rules; failing] in
  let s' := demo_run "new" os demo_start in
  ∃ ws evs, @do_all ws demo_engine = (flat_map (deliver demo_engine) evs, p_engine s') ∧
    map wanted ws = [inl {["errors" := tagged 3]}; inl {["errors" := tagged 3]}; inr []; inl {["errors" := tagged 3]}] ∧
    p_table s' = foldl (λ t ev, (Save_event ev t).2) [] evs ∧
    map (λ r, (by_notifier r, of_event r)) (p_sent s') = flat_map (λ ev, map (λ k, (k, ev)) [1%nat; 2%nat]) evs.
Proof.
  intros os s'. destruct (@pipeline_refines (demo_outside "new") _ _ (demo_clock_mono "new") os demo_start)
    as (ws & evs & H1 & H2 & _ & _ & _ & H3 & new & H4 & H5).
  exists ws, evs. split; [exact H1|]. split; [exact H2|]. split; [exact H3|].
  change (p_sent s') with (p_sent (@arun (demo_outside "new") _ _ os demo_start).2). rewrite H4. exact H5.
Defined.
Lemma demo_cache_time later c' : kv_cache (p_provider demo_changed) = Some c' →
  ∃ m, (m ≤ p_tick demo_changed)%nat ∧ kv_cacheAt (p_provider demo_changed) = @o_clock (demo_outside later) m.
Proof.
  intros _. exists 3%nat. split; [apply (bool_decide_unpack _); vm_compute; exact I|vm_compute; reflexivity].
Qed.
Definition waited (later : string) : Alerting (list AlertLog) := demo_run later [AWait; AWait; AWait; AWait] demo_changed.
Lemma demo_waited later :
  @o_clock (demo_outside later) (p_tick demo_changed) + kv_cacheTTL (p_provider demo_changed)
    <= @o_clock (demo_outside later) (p_tick (waited later)).
Proof. vm_compute. discriminate. Qed.
Lemma settings_take_effect_witness :
  (∃ new, p_sent (demo_run "new" [failing] (waited "new")) = p_sent (waited "new") ++ new ∧
     Forall (@obeys (demo_outside "new") (hook "https://new" "s3" true) (p_tick demo_changed)
               (kv_cacheTTL (p_provider demo_changed))) new) ∧
  p_sent (demo_run "off" [failing; failing] (waited "off")) = p_sent (waited "off") ∧
  p_table (demo_run "off" [failing; failing] (waited "off")) = p_table (waited "off").
Proof.
  split.
  - refine (proj2 (@settings_take_effect (demo_outside "new") _ _ (hook "https://new" "s3" true) _ [failing] demo_changed
      (demo_clock_mono _) (demo_clock_sane _) (demo_cache_time _) (demo_holds "new" (hook "https://new" "s3" true) eq_refl) (demo_waited _))).
  - refine (proj1 (@settings_take_effect (demo_outside "off") _ _ (hook "" "" false) _ [failing; failing] demo_changed
      (demo_clock_mono _) (demo_clock_sane _) (demo_cache_time _) (demo_holds "off" (hook "" "" false) eq_refl) (demo_waited _)) eq_refl eq_refl).
Defined.
